(** * Blackjack over the network: wire codec, hand engine and session rounds

    A shallow embedding of [protocol.py], [server.py] and [client.py].
    Python integers are [Z], [bytes] objects are lists of [Byte.byte],
    [str] objects are lists of Unicode code points, and a raised exception
    is the [Raise] branch of [result].  Mutable lists (the deck, the hands)
    and the socket are threaded explicitly through the functions that
    mutate them. *)

From Stdlib.Strings Require Import String Ascii Byte.
From Stdlib Require Import ZArith List Bool Lia Arith.
From Stdlib Require Import Permutation.
From Stdlib Require DecimalString.
From Equations Require Import Equations.
From Equations.Prop Require Import Logic.
Import ListNotations.
Local Open Scope Z_scope.

(** ** Exceptions and results *)

Inductive exn : Type :=
| ValueError          (* raised explicitly by the codec and the server *)
| StructError         (* struct.error: bad length or field out of range *)
| UnicodeEncodeError  (* str.encode on a lone surrogate / non-ASCII *)
| UnicodeDecodeError  (* bytes.decode on ill-formed input *)
| IndexError          (* list.pop on an empty list *)
| ConnectionError.    (* raised by recv_exact *)

Inductive result (A : Type) : Type :=
| Ok (a : A)
| Raise (e : exn).
Arguments Ok {A} a.
Arguments Raise {A} e.

Definition bind {A B} (m : result A) (k : A -> result B) : result B :=
  match m with
  | Ok a => k a
  | Raise e => Raise e
  end.

Declare Scope result_scope.
Delimit Scope result_scope with result.
Notation "x <- m ;; k" := (bind m (fun x => k))
  (at level 61, m at next level, right associativity) : result_scope.
Notation "' p <- m ;; k" := (bind m (fun x => match x with p => k end))
  (at level 61, p pattern, m at next level, right associativity) : result_scope.
Local Open Scope result_scope.

(** ** While loops

    A Python [while] loop is given by its body, a step function on the
    loop state that either continues with a new state, returns, or raises.
    The loop is defined by well-founded recursion on a measure that every
    continuing step decreases. *)

Inductive step (S R : Type) : Type :=
| Continue (s : S)
| Return (r : R)
| Throw (e : exn).
Arguments Continue {S R} s.
Arguments Return {S R} r.
Arguments Throw {S R} e.

(** An exception raised inside a loop body leaves the loop. *)
Definition run {S R} (m : result (step S R)) : step S R :=
  match m with
  | Ok st => st
  | Raise e => Throw e
  end.

Section While.
Variables S R : Type.
Variable measure : S -> nat.
Variable body : S -> step S R.
Hypothesis body_decreases :
  forall s s', body s = Continue s' -> (measure s' < measure s)%nat.

Equations while (s : S) : result R by wf (measure s) lt :=
  while s with inspect (body s) => {
    | exist _ (Continue s') Heq => while s';
    | exist _ (Return r) _ => Ok r;
    | exist _ (Throw e) _ => Raise e }.
End While.
Arguments while {S R} measure body body_decreases s.

(** ** Bytes and fixed-width big-endian integers ([struct] with [!]) *)

Definition bytes := list byte.

Definition len {A} (l : list A) : Z := Z.of_nat (length l).

Definition Z_of_byte (b : byte) : Z := Z.of_N (Byte.to_N b).

Definition byte_of_Z (z : Z) : byte :=
  match Byte.of_N (Z.to_N z) with
  | Some b => b
  | None => x00
  end.

(** The [w] bytes of [v], most significant first. *)
Fixpoint to_be (w : nat) (v : Z) : bytes :=
  match w with
  | O => []
  | S w' => byte_of_Z ((v / 256 ^ Z.of_nat w') mod 256) :: to_be w' v
  end.

Definition from_be (bs : bytes) : Z :=
  fold_left (fun acc b => acc * 256 + Z_of_byte b) bs 0.

(** [struct.pack] of one unsigned field of [w] bytes ([B], [H], [I]):
    [struct.error] when the value does not fit. *)
Definition pack_uint (w : nat) (v : Z) : result bytes :=
  if (0 <=? v) && (v <? 256 ^ Z.of_nat w)
  then Ok (to_be w v)
  else Raise StructError.

(** [struct.pack] of one [Ns] field: truncated or null-padded to [n]. *)
Definition pack_chars (n : nat) (b : bytes) : bytes :=
  firstn n b ++ repeat x00 (n - length b).

(** The slice [data[off : off + n]]. *)
Definition slice (off n : nat) (data : bytes) : bytes :=
  firstn n (skipn off data).

(** ** Python [str] and the two codecs the program uses

    A [str] is its sequence of code points.  [str.encode("utf-8")] refuses
    lone surrogates; [bytes.decode("utf-8")] is the strict decoder (no
    overlong forms, no surrogates, nothing above U+10FFFF). *)

Definition str := list Z.

Definition str_of_string (s : string) : str :=
  map Z_of_byte (list_byte_of_string s).

Definition str_eqb (a b : str) : bool :=
  if list_eq_dec Z.eq_dec a b then true else false.

Definition is_surrogate (c : Z) : bool := (0xD800 <=? c) && (c <? 0xE000).

Definition utf8_encode_cp (c : Z) : option bytes :=
  if c <? 0 then None
  else if c <? 0x80 then Some [byte_of_Z c]
  else if c <? 0x800 then
    Some [byte_of_Z (0xC0 + c / 64); byte_of_Z (0x80 + c mod 64)]
  else if c <? 0x10000 then
    if is_surrogate c then None
    else Some [byte_of_Z (0xE0 + c / 4096);
               byte_of_Z (0x80 + (c / 64) mod 64);
               byte_of_Z (0x80 + c mod 64)]
  else if c <? 0x110000 then
    Some [byte_of_Z (0xF0 + c / 262144);
          byte_of_Z (0x80 + (c / 4096) mod 64);
          byte_of_Z (0x80 + (c / 64) mod 64);
          byte_of_Z (0x80 + c mod 64)]
  else None.

Fixpoint utf8_encode (s : str) : result bytes :=
  match s with
  | [] => Ok []
  | c :: s' =>
      match utf8_encode_cp c with
      | None => Raise UnicodeEncodeError
      | Some bs => rest <- utf8_encode s' ;; Ok (bs ++ rest)
      end
  end.

(** A continuation byte [10xxxxxx]. *)
Definition is_cont (x : Z) : bool := (0x80 <=? x) && (x <? 0xC0).

Definition decoded (c : Z) (rest : result str) : result str :=
  s <- rest ;; Ok (c :: s).

Fixpoint utf8_decode (bs : bytes) : result str :=
  match bs with
  | [] => Ok []
  | b0 :: r0 =>
      let x0 := Z_of_byte b0 in
      if x0 <? 0x80 then decoded x0 (utf8_decode r0)
      else if x0 <? 0xC2 then Raise UnicodeDecodeError
      else if x0 <? 0xE0 then
        match r0 with
        | b1 :: r1 =>
            let x1 := Z_of_byte b1 in
            if is_cont x1
            then decoded ((x0 - 0xC0) * 64 + (x1 - 0x80)) (utf8_decode r1)
            else Raise UnicodeDecodeError
        | _ => Raise UnicodeDecodeError
        end
      else if x0 <? 0xF0 then
        match r0 with
        | b1 :: b2 :: r2 =>
            let x1 := Z_of_byte b1 in
            let x2 := Z_of_byte b2 in
            let c := (x0 - 0xE0) * 4096 + (x1 - 0x80) * 64 + (x2 - 0x80) in
            if is_cont x1 && is_cont x2 && (0x800 <=? c) && negb (is_surrogate c)
            then decoded c (utf8_decode r2)
            else Raise UnicodeDecodeError
        | _ => Raise UnicodeDecodeError
        end
      else if x0 <? 0xF5 then
        match r0 with
        | b1 :: b2 :: b3 :: r3 =>
            let x1 := Z_of_byte b1 in
            let x2 := Z_of_byte b2 in
            let x3 := Z_of_byte b3 in
            let c := (x0 - 0xF0) * 262144 + (x1 - 0x80) * 4096
                     + (x2 - 0x80) * 64 + (x3 - 0x80) in
            if is_cont x1 && is_cont x2 && is_cont x3
               && (0x10000 <=? c) && (c <? 0x110000)
            then decoded c (utf8_decode r3)
            else Raise UnicodeDecodeError
        | _ => Raise UnicodeDecodeError
        end
      else Raise UnicodeDecodeError
  end.

Definition ascii_encode (s : str) : result bytes :=
  if forallb (fun c => (0 <=? c) && (c <? 0x80)) s
  then Ok (map byte_of_Z s)
  else Raise UnicodeEncodeError.

Definition ascii_decode (bs : bytes) : result str :=
  if forallb (fun b => Z_of_byte b <? 0x80) bs
  then Ok (map Z_of_byte bs)
  else Raise UnicodeDecodeError.

(** [bs.split(b"\x00")[0]]: the bytes before the first null byte. *)
Fixpoint before_nul (bs : bytes) : bytes :=
  match bs with
  | [] => []
  | b :: bs' => if Byte.eqb b x00 then [] else b :: before_nul bs'
  end.

(** ** protocol.py *)

Module Protocol.

Definition MAGIC_COOKIE : Z := 0xabcddcba.

Definition MTYPE_OFFER : Z := 0x2.
Definition MTYPE_REQUEST : Z := 0x3.
Definition MTYPE_PAYLOAD : Z := 0x4.

Definition GAME_RESULT_NOTOVER : Z := 0x0.
Definition GAME_RESULT_TIE : Z := 0x1.
Definition GAME_RESULT_LOSS : Z := 0x2.
Definition GAME_RESULT_WIN : Z := 0x3.

Definition NAME_LEN : nat := 32.

(** [struct.calcsize] of the four formats. *)
Definition OFFER_SIZE : Z := 4 + 1 + 2 + Z.of_nat NAME_LEN.
Definition REQUEST_SIZE : Z := 4 + 1 + 1 + Z.of_nat NAME_LEN.
Definition CLIENT_PAYLOAD_SIZE : Z := 4 + 1 + 5.
Definition SERVER_PAYLOAD_SIZE : Z := 4 + 1 + 1 + 2 + 1.

Definition Hittt : str := str_of_string "Hittt".
Definition Stand : str := str_of_string "Stand".

Definition pack_name (name : str) : result bytes :=
  bytes_name <- utf8_encode name ;;
  let bytes_name := firstn NAME_LEN bytes_name in
  Ok (bytes_name ++ repeat x00 (NAME_LEN - length bytes_name)).

Definition unpack_name (bytes_name : bytes) : result str :=
  utf8_decode (before_nul bytes_name).

(** [struct.unpack] first checks the length of the buffer. *)
Definition check_size (size : Z) (data : bytes) : result unit :=
  if len data =? size then Ok tt else Raise StructError.

Definition pack_offer (tcp_port : Z) (server_name : str) : result bytes :=
  name <- pack_name server_name ;;
  cookie <- pack_uint 4 MAGIC_COOKIE ;;
  mtype <- pack_uint 1 MTYPE_OFFER ;;
  port <- pack_uint 2 tcp_port ;;
  Ok (cookie ++ mtype ++ port ++ pack_chars NAME_LEN name).

Definition unpack_offer (data : bytes) : result (Z * Z * Z * str) :=
  _ <- check_size OFFER_SIZE data ;;
  let cookie := from_be (slice 0 4 data) in
  let message_type := from_be (slice 4 1 data) in
  let tcp_port := from_be (slice 5 2 data) in
  server_name <- unpack_name (slice 7 NAME_LEN data) ;;
  Ok (cookie, message_type, tcp_port, server_name).

Definition pack_request (rounds : Z) (client_name : str) : result bytes :=
  if negb ((0 <=? rounds) && (rounds <=? 255)) then Raise ValueError
  else
    name <- pack_name client_name ;;
    cookie <- pack_uint 4 MAGIC_COOKIE ;;
    mtype <- pack_uint 1 MTYPE_REQUEST ;;
    rnd <- pack_uint 1 rounds ;;
    Ok (cookie ++ mtype ++ rnd ++ pack_chars NAME_LEN name).

Definition unpack_request (data : bytes) : result (Z * Z * Z * str) :=
  _ <- check_size REQUEST_SIZE data ;;
  let cookie := from_be (slice 0 4 data) in
  let message_type := from_be (slice 4 1 data) in
  let rounds := from_be (slice 5 1 data) in
  client_name <- unpack_name (slice 6 NAME_LEN data) ;;
  Ok (cookie, message_type, rounds, client_name).

Definition pack_client_payload (decision : str) : result bytes :=
  if negb (str_eqb decision Hittt || str_eqb decision Stand)
  then Raise ValueError
  else
    token <- ascii_encode decision ;;
    cookie <- pack_uint 4 MAGIC_COOKIE ;;
    mtype <- pack_uint 1 MTYPE_PAYLOAD ;;
    Ok (cookie ++ mtype ++ pack_chars 5 token).

Definition unpack_client_payload (data : bytes) : result (Z * Z * str) :=
  _ <- check_size CLIENT_PAYLOAD_SIZE data ;;
  let cookie := from_be (slice 0 4 data) in
  let message_type := from_be (slice 4 1 data) in
  decision <- ascii_decode (slice 5 5 data) ;;
  Ok (cookie, message_type, decision).

Definition pack_server_payload (game_result card_rank card_suit : Z)
  : result bytes :=
  cookie <- pack_uint 4 MAGIC_COOKIE ;;
  mtype <- pack_uint 1 MTYPE_PAYLOAD ;;
  res <- pack_uint 1 game_result ;;
  rank <- pack_uint 2 card_rank ;;
  suit <- pack_uint 1 card_suit ;;
  Ok (cookie ++ mtype ++ res ++ rank ++ suit).

Definition unpack_server_payload (data : bytes)
  : result (Z * Z * Z * Z * Z) :=
  _ <- check_size SERVER_PAYLOAD_SIZE data ;;
  Ok (from_be (slice 0 4 data), from_be (slice 4 1 data),
      from_be (slice 5 1 data), from_be (slice 6 2 data),
      from_be (slice 8 1 data)).

End Protocol.

(** ** The TCP socket

    The peer's bytes arrive in non-empty segments; once the segments are
    used up the peer has closed the stream and [recv] returns [b""] (a peer
    that stays silent for ever without closing is not modelled).
    [recv(bufsize)] hands out at most [bufsize] bytes of the first segment
    and leaves the remainder of that segment for the next call; a negative
    [bufsize] is a [ValueError].  [sendall] appends to the bytes sent so far
    and does not fail. *)

Record socket : Type := mkSocket {
  inbox : list (byte * bytes);
  outbox : bytes
}.

(** All the bytes the peer sends before closing. *)
Definition stream (sock : socket) : bytes :=
  flat_map (fun seg => fst seg :: snd seg) (inbox sock).

Definition recv (sock : socket) (bufsize : Z) : result (bytes * socket) :=
  if bufsize <? 0 then Raise ValueError
  else
    match inbox sock with
    | [] => Ok ([], sock)
    | (b, seg) :: rest =>
        let m := Z.to_nat bufsize in
        match skipn m (b :: seg) with
        | [] => Ok (b :: seg, mkSocket rest (outbox sock))
        | b' :: seg' =>
            Ok (firstn m (b :: seg), mkSocket ((b', seg') :: rest) (outbox sock))
        end
    end.

Definition sendall (sock : socket) (data : bytes) : socket :=
  mkSocket (inbox sock) (outbox sock ++ data).

(** [range(lo, hi)]. *)
Definition range (lo hi : Z) : list Z :=
  map (fun i => lo + Z.of_nat i) (seq 0 (Z.to_nat (hi - lo))).

(** [l.pop()]: removes and returns the last item; [IndexError] when empty. *)
Definition pop {A} (l : list A) : result (A * list A) :=
  match rev l with
  | [] => Raise IndexError
  | x :: r => Ok (x, rev r)
  end.

(** ** server.py *)

Module Server.
Import Protocol.

(** *** recv_exact: the loop state is the buffer [data] and the socket *)

Definition recv_exact_body (n : Z) (st : bytes * socket)
  : step (bytes * socket) (bytes * socket) :=
  let '(data, sock) := st in
  if len data <? n then
    run ('(chunk, sock') <- recv sock (n - len data) ;;
         match chunk with
         | [] => Raise ConnectionError
         | _ :: _ => Ok (Continue (data ++ chunk, sock'))
         end)
  else Return (data, sock).

Definition recv_exact_measure (n : Z) (st : bytes * socket) : nat :=
  Z.to_nat (n - len (fst st)).

Lemma recv_exact_decreases (n : Z) (st st' : bytes * socket) :
  recv_exact_body n st = Continue st' ->
  (recv_exact_measure n st' < recv_exact_measure n st)%nat.
Proof.
  destruct st as [data sock]. unfold recv_exact_body, recv_exact_measure.
  destruct (len data <? n) eqn:Hlt; [|discriminate].
  apply Z.ltb_lt in Hlt.
  destruct (recv sock (n - len data)) as [[chunk sock']|e]; [|discriminate].
  destruct chunk as [|b chunk]; [discriminate|].
  cbn. intros [= <-]. cbn [fst]. unfold len in *.
  rewrite length_app. cbn [length]. lia.
Qed.

Definition recv_exact (sock : socket) (n : Z) : result (bytes * socket) :=
  while (recv_exact_measure n) (recv_exact_body n)
        (recv_exact_decreases n) ([], sock).

(** *** Deck and hand engine *)

Definition card : Type := Z * Z.

Definition create_deck : list card :=
  fold_left
    (fun deck card_suit =>
       fold_left (fun deck card_rank => deck ++ [(card_rank, card_suit)])
                 (range 1 14) deck)
    (range 0 4) [].

Definition rank_value (rank : Z) : Z :=
  if rank >=? 11 then 10
  else if rank =? 1 then 11
  else rank.

Definition hand_total (hand : list card) : Z :=
  fold_left (fun total c => let '(rank, suit) := c in total + rank_value rank)
            hand 0.

(** *** One round *)

(** The two iterations of [for i in range(2)] in [initial_deal]. *)
Fixpoint deal_player (k : nat) (deck player_hand : list card) (sock : socket)
  : result (list card * list card * socket) :=
  match k with
  | O => Ok (deck, player_hand, sock)
  | S k' =>
      '(card, deck) <- pop deck ;;
      let player_hand := player_hand ++ [card] in
      let '(card_rank, card_suit) := card in
      msg <- pack_server_payload GAME_RESULT_NOTOVER card_rank card_suit ;;
      deal_player k' deck player_hand (sendall sock msg)
  end.

(** Returns [(player_hand, dealer_hand, dealer_hidden)] together with the
    deck and the socket it has mutated. *)
Definition initial_deal (deck : list card) (client_sock : socket)
  : result (list card * list card * card * list card * socket) :=
  '(deck, player_hand, client_sock) <- deal_player 2 deck [] client_sock ;;
  '(dealer_first_card, deck) <- pop deck ;;
  let dealer_hand := [] ++ [dealer_first_card] in
  let '(dealer_first_card_rank, dealer_first_card_suit) := dealer_first_card in
  msg <- pack_server_payload GAME_RESULT_NOTOVER
           dealer_first_card_rank dealer_first_card_suit ;;
  let client_sock := sendall client_sock msg in
  '(dealer_hidden, deck) <- pop deck ;;
  Ok (player_hand, dealer_hand, dealer_hidden, deck, client_sock).

(** The state of the player's and of the dealer's loop: the socket, the
    deck and the hand being played. *)
Definition table : Type := socket * list card * list card.

Definition table_measure (st : table) : nat :=
  let '(_, deck, _) := st in length deck.

Definition player_turn_body (st : table) : step table (bool * table) :=
  let '(client_sock, deck, player_hand) := st in
  let score := hand_total player_hand in
  if score >? 21 then Return (true, st)
  else
    run ('(data, client_sock) <- recv_exact client_sock CLIENT_PAYLOAD_SIZE ;;
         '(cookie, msg_type, decision) <- unpack_client_payload data ;;
         if negb (cookie =? MAGIC_COOKIE) then Raise ValueError
         else if str_eqb decision Hittt then
           '(new_card, deck) <- pop deck ;;
           let player_hand := player_hand ++ [new_card] in
           let '(new_rank, new_suit) := new_card in
           msg <- pack_server_payload GAME_RESULT_NOTOVER new_rank new_suit ;;
           Ok (Continue (sendall client_sock msg, deck, player_hand))
         else if str_eqb decision Stand then
           Ok (Return (false, (client_sock, deck, player_hand)))
         else Raise ValueError).

Definition dealer_turn_body (st : table) : step table (bool * table) :=
  let '(client_sock, deck, dealer_hand) := st in
  let dealer_score := hand_total dealer_hand in
  if dealer_score >? 21 then Return (true, st)
  else if dealer_score >=? 17 then Return (false, st)
  else
    run ('(new_card, deck) <- pop deck ;;
         let dealer_hand := dealer_hand ++ [new_card] in
         let '(new_rank, new_suit) := new_card in
         msg <- pack_server_payload GAME_RESULT_NOTOVER new_rank new_suit ;;
         Ok (Continue (sendall client_sock msg, deck, dealer_hand))).

Lemma pop_shorter {A} (l l' : list A) (x : A) :
  pop l = Ok (x, l') -> (length l' < length l)%nat.
Proof.
  unfold pop. destruct (rev l) as [|y r] eqn:Hr; [discriminate|].
  intros [= <- <-]. rewrite <- (length_rev l), Hr, length_rev.
  cbn [length]. lia.
Qed.

Lemma player_turn_decreases (st st' : table) :
  player_turn_body st = Continue st' ->
  (table_measure st' < table_measure st)%nat.
Proof.
  destruct st as [[sock deck] hand]. unfold player_turn_body.
  destruct (hand_total hand >? 21); [discriminate|].
  destruct (recv_exact sock CLIENT_PAYLOAD_SIZE) as [[data sock1]|e];
    [|discriminate].
  cbn [bind]. destruct (unpack_client_payload data) as [[[cookie ty] d]|e];
    [|discriminate].
  cbn [bind]. destruct (negb (cookie =? MAGIC_COOKIE)); [discriminate|].
  destruct (str_eqb d Hittt).
  - destruct (pop deck) as [[[r su] deck']|e] eqn:Hpop; [|discriminate].
    cbn [bind]. destruct (pack_server_payload _ r su); [|discriminate].
    cbn. intros [= <-]. cbn. eapply pop_shorter; eassumption.
  - destruct (str_eqb d Stand); discriminate.
Qed.

Lemma dealer_turn_decreases (st st' : table) :
  dealer_turn_body st = Continue st' ->
  (table_measure st' < table_measure st)%nat.
Proof.
  destruct st as [[sock deck] hand]. unfold dealer_turn_body.
  destruct (hand_total hand >? 21); [discriminate|].
  destruct (hand_total hand >=? 17); [discriminate|].
  destruct (pop deck) as [[[r su] deck']|e] eqn:Hpop; [|discriminate].
  cbn [bind]. destruct (pack_server_payload _ r su); [|discriminate].
  cbn. intros [= <-]. cbn. eapply pop_shorter; eassumption.
Qed.

Definition player_loop (st : table) : result (bool * table) :=
  while table_measure player_turn_body player_turn_decreases st.

Definition dealer_loop (st : table) : result (bool * table) :=
  while table_measure dealer_turn_body dealer_turn_decreases st.

(** Returns [player_busted] and the mutated socket, deck and hand. *)
Definition player_turn (client_sock : socket) (deck player_hand : list card)
  : result (bool * table) :=
  player_loop (client_sock, deck, player_hand).

(** Returns [dealer_busted] and the mutated socket, deck and hand. *)
Definition dealer_turn (client_sock : socket) (deck dealer_hand : list card)
           (dealer_hidden : card) : result (bool * table) :=
  let dealer_hand := dealer_hand ++ [dealer_hidden] in
  let '(hidden_rank, hidden_suit) := dealer_hidden in
  msg <- pack_server_payload GAME_RESULT_NOTOVER hidden_rank hidden_suit ;;
  let client_sock := sendall client_sock msg in
  dealer_loop (client_sock, deck, dealer_hand).

Definition who_won (player_hand dealer_hand : list card)
           (player_busted dealer_busted : bool) : Z :=
  if player_busted then GAME_RESULT_LOSS
  else if dealer_busted then GAME_RESULT_WIN
  else
    let player_score := hand_total player_hand in
    let dealer_score := hand_total dealer_hand in
    if player_score >? dealer_score then GAME_RESULT_WIN
    else if player_score <? dealer_score then GAME_RESULT_LOSS
    else GAME_RESULT_TIE.

Definition end_round (client_sock : socket) (game_result : Z)
  : result socket :=
  msg <- pack_server_payload game_result 0 0 ;;
  Ok (sendall client_sock msg).

(** What a round has settled when [who_won] is called. *)
Record hands : Type := mkHands {
  player_hand : list card;
  dealer_hand : list card;
  player_busted : bool;
  dealer_busted : bool
}.

(** The body of the loop of [run_match_for_client] up to the call of
    [who_won]; [deck] is the freshly shuffled deck. *)
Definition play_hands (deck : list card) (client_sock : socket)
  : result (hands * list card * socket) :=
  '(player_hand, dealer_hand, dealer_hidden, deck, client_sock)
     <- initial_deal deck client_sock ;;
  if hand_total player_hand >? 21 then
    Ok (mkHands player_hand dealer_hand true false, deck, client_sock)
  else
    '(player_busted, (client_sock, deck, player_hand))
       <- player_turn client_sock deck player_hand ;;
    if negb player_busted then
      '(dealer_busted, (client_sock, deck, dealer_hand))
         <- dealer_turn client_sock deck dealer_hand dealer_hidden ;;
      Ok (mkHands player_hand dealer_hand player_busted dealer_busted,
          deck, client_sock)
    else
      Ok (mkHands player_hand dealer_hand player_busted false,
          deck, client_sock).

(** One iteration of the loop of [run_match_for_client]; [shuffle] is what
    [random.shuffle] does to the deck this round. *)
Definition play_round (shuffle : list card -> list card)
           (client_sock : socket) : result (Z * socket) :=
  let deck := shuffle create_deck in
  '(h, deck, client_sock) <- play_hands deck client_sock ;;
  let result := who_won (player_hand h) (dealer_hand h)
                        (player_busted h) (dealer_busted h) in
  client_sock <- end_round client_sock result ;;
  Ok (result, client_sock).

(** [for r in range(rounds)]: the rounds from [r] on, [k] of them left. *)
Fixpoint play_rounds (shuffles : nat -> list card -> list card)
         (k r : nat) (client_sock : socket) : result socket :=
  match k with
  | O => Ok client_sock
  | S k' =>
      '(_, client_sock) <- play_round (shuffles r) client_sock ;;
      play_rounds shuffles k' (S r) client_sock
  end.

Definition run_match_for_client (shuffles : nat -> list card -> list card)
           (client_sock : socket) (rounds : Z) : result socket :=
  play_rounds shuffles (Z.to_nat rounds) 0 client_sock.

End Server.

(** ** client.py *)

Module Client.

Definition recv_exact_body (n : Z) (st : bytes * socket)
  : step (bytes * socket) (bytes * socket) :=
  let '(data, sock) := st in
  if len data <? n then
    run ('(chunk, sock') <- recv sock (n - len data) ;;
         match chunk with
         | [] => Raise ConnectionError
         | _ :: _ => Ok (Continue (data ++ chunk, sock'))
         end)
  else Return (data, sock).

Definition recv_exact_measure (n : Z) (st : bytes * socket) : nat :=
  Z.to_nat (n - len (fst st)).

Lemma recv_exact_shrinks (n : Z) (st st' : bytes * socket) :
  recv_exact_body n st = Continue st' ->
  (recv_exact_measure n st' < recv_exact_measure n st)%nat.
Proof. exact (Server.recv_exact_decreases n st st'). Qed.

Definition recv_exact (sock : socket) (n : Z) : result (bytes * socket) :=
  while (recv_exact_measure n) (recv_exact_body n)
        (recv_exact_shrinks n) ([], sock).

Definition rank_value (rank : Z) : Z :=
  if rank >=? 11 then 10
  else if rank =? 1 then 11
  else rank.

(** [sum(ranks)]: the list holds card values already. *)
Definition hand_total (ranks : list Z) : Z :=
  fold_left Z.add ranks 0.

End Client.

(** ** Standard output

    [print(text)] encodes [text] for the console and raises
    [UnicodeEncodeError] when the console's encoding has no byte for one of
    its characters.  The console is taken to encode ASCII; [encodable] tells
    which other code points it encodes.  What is written is not kept.  Of
    the prints of the program, the ones whose text is plain ASCII whatever
    the peer sends are left out; the others are kept, where they are. *)

Definition print (encodable : Z -> bool) (text : str) : result unit :=
  if forallb (fun c => (c <? 0x80) || encodable c) text then Ok tt
  else Raise UnicodeEncodeError.

(** [sep.join(items)]. *)
Fixpoint join (sep : str) (items : list str) : str :=
  match items with
  | [] => []
  | [item] => item
  | item :: items' => item ++ sep ++ join sep items'
  end.

(** [s.lstrip(ch)] and [s.strip(ch)] for a single character [ch]. *)
Fixpoint lstrip (ch : Z) (s : str) : str :=
  match s with
  | [] => []
  | c :: s' => if c =? ch then lstrip ch s' else s
  end.

Definition strip (ch : Z) (s : str) : str :=
  rev (lstrip ch (rev (lstrip ch s))).

(** ** server.py: the game mode of [run_single_threaded_server]

    The body of the [try] that serves one connected client: read the
    request, check the cookie, announce the client, play the match.
    Whatever it raises is printed by the caller, which then closes the
    connection. *)

Module ServerMain.
Import Protocol Server.

Definition SERVER_PORT : Z := 2005.
Definition SERVER_NAME : str := str_of_string "Bossi".

Definition game_mode (encodable : Z -> bool)
           (shuffles : nat -> list card -> list card)
           (client_sock : socket) : result socket :=
  '(req_data, client_sock) <- recv_exact client_sock REQUEST_SIZE ;;
  '(cookie, msg_type, rounds, client_name) <- unpack_request req_data ;;
  if negb (cookie =? MAGIC_COOKIE) then Ok client_sock
  else
    _ <- print encodable
               (str_of_string "[TCP] game starting with " ++ client_name) ;;
    run_match_for_client shuffles client_sock rounds.

End ServerMain.

(** ** client.py: [listen_to_offer]

    The UDP socket delivers datagrams, each with the address [(ip, port)]
    of its sender; [recvfrom(1024)] keeps the first 1024 bytes of one.  The
    loop returns at the first datagram that is an offer and that it can
    announce, and ignores the others, exceptions included; [None] stands
    for a client still listening after the datagrams given. *)

Module ClientMain.
Import Protocol Client.

(** The body of the [try] in the loop: [Some] of what it returns, or [None]
    when it falls through to the next datagram. *)
Definition hear {IP : Type} (encodable : Z -> bool)
           (data : bytes) (addr : IP * Z) : result (option (IP * Z)) :=
  '(cookie, msg_type, server_port, server_name) <- unpack_offer data ;;
  if (cookie =? MAGIC_COOKIE) && (msg_type =? 0x2) then
    let server_name_clean := strip 0 server_name in
    _ <- print encodable
               (str_of_string "Received offer from server '"
                  ++ server_name_clean ++ str_of_string "'") ;;
    Ok (Some (fst addr, server_port))
  else Ok None.

Fixpoint listen_to_offer {IP : Type} (encodable : Z -> bool)
         (datagrams : list (bytes * (IP * Z))) : option (IP * Z) :=
  match datagrams with
  | [] => None
  | (packet, addr) :: rest =>
      let data := firstn 1024 packet in
      match hear encodable data addr with
      | Ok (Some found) => Some found
      | Ok None => listen_to_offer encodable rest
      | Raise _ => listen_to_offer encodable rest
      end
  end.

(** ** client.py: the display helpers

    [str(n)] of an integer is its decimal numeral; a [dict] literal is the
    list of its items, looked up by [get]. *)

Definition str_of_Z (z : Z) : str :=
  str_of_string (DecimalString.NilZero.string_of_int (Z.to_int z)).

Fixpoint get {V : Type} (d : list (Z * V)) (key : Z) (default : V) : V :=
  match d with
  | [] => default
  | (k, v) :: d' => if key =? k then v else get d' key default
  end.

Definition result_to_str (r : Z) : str :=
  if r =? GAME_RESULT_NOTOVER then str_of_string "NOT OVER"
  else if r =? GAME_RESULT_LOSS then str_of_string "LOSS"
  else if r =? GAME_RESULT_WIN then str_of_string "WIN"
  else if r =? GAME_RESULT_TIE then str_of_string "TIE"
  else str_of_string "UNKNOWN(" ++ str_of_Z r ++ str_of_string ")".

Definition card_to_str (rank suit : Z) : str :=
  let ranks := [(1, str_of_string "A"); (11, str_of_string "J");
                (12, str_of_string "Q"); (13, str_of_string "K")] in
  let suits := [(0, [0x2663]); (1, [0x2666]); (2, [0x2665]); (3, [0x2660])] in
  let r := get ranks rank (str_of_Z rank) in
  let s := get suits suit (str_of_string "?") in
  r ++ str_of_string " " ++ s.

(** ** client.py: the rounds of [main]

    The keyboard is the list of the lines still to be read; [input] at the
    end of the list raises [EOFError].  The line that answers the question
    about the rounds is read as it was typed; the lines of the player's
    turn are held as [choice] holds them, that is stripped and in upper
    case.  A failure comes with the socket as it was when the exception
    was raised, so that the bytes sent until then are known. *)

Inductive raised : Type :=
| Library (e : exn)  (* from the codec, recv_exact, print, or a bad cookie *)
| EOFError.          (* from input *)

Inductive outcome (A : Type) : Type :=
| Done (a : A)
| Failed (e : raised).
Arguments Done {A} a.
Arguments Failed {A} e.

(** [player_cards], [dealer_cards] and [player_ranks]. *)
Definition view : Type := list str * list str * list Z.

(** The counters [wins], [losses] and [ties]. *)
Definition score : Type := Z * Z * Z.

Definition client_name : str := str_of_string "OFRIELOV".

(** The line that shows the two hands. *)
Definition hands_line (player_cards dealer_cards : list str) : str :=
  client_name ++ str_of_string " hand: "
    ++ join (str_of_string ", ") player_cards
    ++ str_of_string " || dealer hand: "
    ++ join (str_of_string ", ") dealer_cards.

(** The body of [for i in range(3)], the initial deal. *)
Definition deal_body (i : Z) (st : socket * view) : result (socket * view) :=
  let '(sock, (player_cards, dealer_cards, player_ranks)) := st in
  '(data, sock) <- recv_exact sock SERVER_PAYLOAD_SIZE ;;
  '(cookie, msg_type, game_result, card_rank, card_suit)
     <- unpack_server_payload data ;;
  if negb (cookie =? MAGIC_COOKIE) then Raise ValueError
  else if i <? 2 then
    Ok (sock, (player_cards ++ [card_to_str card_rank card_suit],
               dealer_cards,
               player_ranks ++ [rank_value card_rank]))
  else
    Ok (sock, (player_cards,
               dealer_cards ++ [card_to_str card_rank card_suit],
               player_ranks)).

Definition initial_deal (sock : socket) : result (socket * view) :=
  fold_left (fun acc i => st <- acc ;; deal_body i st) (range 0 3)
            (Ok (sock, ([], [], []))).

(** The loop of the player's turn.  Every iteration that does not leave the
    loop reads one line, so the loop is a recursion on the keyboard. *)
Fixpoint player_turn (encodable : Z -> bool) (keyboard : list str)
         (sock : socket) (player_cards dealer_cards : list str)
         (player_ranks : list Z)
  : outcome (list str * list str * list Z) * socket :=
  if hand_total player_ranks >? 21 then
    (Done (keyboard, player_cards, player_ranks), sock)
  else
    match keyboard with
    | [] => (Failed EOFError, sock)
    | choice :: keyboard =>
        let decision :=
          if str_eqb choice (str_of_string "H") then Some Hittt
          else if str_eqb choice (str_of_string "S") then Some Stand
          else None in
        match decision with
        | None =>
            player_turn encodable keyboard sock player_cards dealer_cards
                        player_ranks
        | Some decision =>
            match pack_client_payload decision with
            | Raise e => (Failed (Library e), sock)
            | Ok msg =>
                let sock := sendall sock msg in
                if str_eqb decision Stand then
                  (Done (keyboard, player_cards, player_ranks), sock)
                else
                  match
                    '(data, sock) <- recv_exact sock SERVER_PAYLOAD_SIZE ;;
                    '(cookie, msg_type, game_result, card_rank, card_suit)
                       <- unpack_server_payload data ;;
                    if negb (cookie =? MAGIC_COOKIE) then Raise ValueError
                    else
                      let player_cards :=
                        player_cards ++ [card_to_str card_rank card_suit] in
                      let player_ranks :=
                        player_ranks ++ [rank_value card_rank] in
                      _ <- print encodable
                                 (hands_line player_cards dealer_cards) ;;
                      Ok (sock, game_result, player_cards, player_ranks)
                  with
                  | Raise e => (Failed (Library e), sock)
                  | Ok (sock, game_result, player_cards, player_ranks) =>
                      let player_score := hand_total player_ranks in
                      if player_score >? 21 then
                        (Done (keyboard, player_cards, player_ranks), sock)
                      else if negb (game_result =? GAME_RESULT_NOTOVER) then
                        (Done (keyboard, player_cards, player_ranks), sock)
                      else
                        player_turn encodable keyboard sock player_cards
                                    dealer_cards player_ranks
                  end
            end
        end
    end.

(** The loop that reads the dealer's cards and the result; [player_cards]
    is only shown. *)
Definition dealer_body (encodable : Z -> bool) (player_cards : list str)
           (st : socket * list str * score)
  : step (socket * list str * score) (socket * list str * score) :=
  let '(sock, dealer_cards, (wins, losses, ties)) := st in
  run ('(data, sock) <- recv_exact sock SERVER_PAYLOAD_SIZE ;;
       '(cookie, msg_type, game_result, card_rank, card_suit)
          <- unpack_server_payload data ;;
       if negb (cookie =? MAGIC_COOKIE) then Raise ValueError
       else if game_result =? GAME_RESULT_NOTOVER then
         let dealer_cards :=
           dealer_cards ++ [card_to_str card_rank card_suit] in
         _ <- print encodable (hands_line player_cards dealer_cards) ;;
         Ok (Continue (sock, dealer_cards, (wins, losses, ties)))
       else if game_result =? GAME_RESULT_WIN then
         Ok (Return (sock, dealer_cards, (wins + 1, losses, ties)))
       else if game_result =? GAME_RESULT_LOSS then
         Ok (Return (sock, dealer_cards, (wins, losses + 1, ties)))
       else if game_result =? GAME_RESULT_TIE then
         Ok (Return (sock, dealer_cards, (wins, losses, ties + 1)))
       else
         Ok (Return (sock, dealer_cards, (wins, losses, ties)))).

Definition dealer_measure (st : socket * list str * score) : nat :=
  let '(sock, _, _) := st in length (stream sock).

Lemma recv_takes (sock sock' : socket) (bufsize : Z) (chunk : bytes) :
  recv sock bufsize = Ok (chunk, sock') ->
  length (stream sock) = (length chunk + length (stream sock'))%nat.
Proof.
  unfold recv, stream. destruct (bufsize <? 0); [discriminate|].
  destruct sock as [[|[b seg] rest] out]; cbn [inbox outbox].
  - intros [= <- <-]. reflexivity.
  - destruct (skipn (Z.to_nat bufsize) (b :: seg)) as [|b' seg'] eqn:Hs;
      intros [= <- <-]; cbn [inbox flat_map fst snd].
    + rewrite length_app. reflexivity.
    + change (b' :: seg' ++ ?x) with ((b' :: seg') ++ x). rewrite <- Hs.
      rewrite !length_app.
      rewrite <- (firstn_skipn (Z.to_nat bufsize) (b :: seg)) at 1.
      rewrite length_app. lia.
Qed.

Lemma recv_exact_takes (n : Z) (st : bytes * socket) (data : bytes)
      (sock' : socket) :
  while (recv_exact_measure n) (recv_exact_body n) (recv_exact_shrinks n) st
  = Ok (data, sock') ->
  (length (fst st) + length (stream (snd st))
   = length data + length (stream sock'))%nat
  /\ n <= len data.
Proof.
  funelim (while (recv_exact_measure n) (recv_exact_body n)
                 (recv_exact_shrinks n) st).
  - intros Hw. destruct (H _ _ Hw) as [Hsum Hn].
    split; [|exact Hn]. rewrite <- Hsum.
    match goal with Hb' : recv_exact_body _ _ = _ |- _ =>
      pose proof Hb' as Hb end.
    clear - Hb. destruct s as [d0 s0]. unfold recv_exact_body in Hb.
    destruct (len d0 <? n); [|discriminate].
    destruct (recv s0 (n - len d0)) as [[[|b c] s1]|e] eqn:Hr;
      try discriminate.
    cbn in Hb. injection Hb as <-. cbn [fst snd].
    apply recv_takes in Hr. rewrite length_app. lia.
  - intros Hw.
    match goal with Hb' : recv_exact_body _ _ = _ |- _ =>
      pose proof Hb' as Hb end.
    clear - Hb Hw. injection Hw as ->. destruct s as [d0 s0].
    unfold recv_exact_body in Hb.
    destruct (Z.ltb_spec (len d0) n).
    + destruct (recv s0 (n - len d0)) as [[[|b c] s1]|e']; discriminate.
    + injection Hb as <- <-. cbn [fst snd]. split; [reflexivity|lia].
  - discriminate.
Qed.

Lemma dealer_body_decreases (encodable : Z -> bool) (player_cards : list str)
      (st st' : socket * list str * score) :
  dealer_body encodable player_cards st = Continue st' ->
  (dealer_measure st' < dealer_measure st)%nat.
Proof.
  destruct st as [[sock cards] [[wins losses] ties]]. unfold dealer_body.
  destruct (recv_exact sock SERVER_PAYLOAD_SIZE) as [[data sock1]|e] eqn:Hr;
    [|discriminate].
  cbn [bind].
  destruct (unpack_server_payload data) as [[[[[cookie ty] res] rk] su]|e];
    [|discriminate].
  cbn [bind]. destruct (negb (cookie =? MAGIC_COOKIE)); [discriminate|].
  destruct (res =? GAME_RESULT_NOTOVER).
  - destruct (print encodable _); [|discriminate].
    cbn. intros [= <-]. cbn. apply recv_exact_takes in Hr.
    cbn [fst snd length] in Hr. unfold SERVER_PAYLOAD_SIZE, len in Hr. lia.
  - destruct (res =? GAME_RESULT_WIN); [discriminate|].
    destruct (res =? GAME_RESULT_LOSS); [discriminate|].
    destruct (res =? GAME_RESULT_TIE); discriminate.
Qed.

Definition dealer_loop (encodable : Z -> bool) (player_cards : list str)
           (st : socket * list str * score)
  : result (socket * list str * score) :=
  while dealer_measure (dealer_body encodable player_cards)
        (dealer_body_decreases encodable player_cards) st.

(** One iteration of [for round_idx in range(rounds)]. *)
Definition play_round (encodable : Z -> bool) (keyboard : list str)
           (sock : socket) (tally : score)
  : outcome (list str * score * view) * socket :=
  match initial_deal sock with
  | Raise e => (Failed (Library e), sock)
  | Ok (sock, (player_cards, dealer_cards, player_ranks)) =>
      match print encodable (hands_line player_cards dealer_cards) with
      | Raise e => (Failed (Library e), sock)
      | Ok _ =>
          match player_turn encodable keyboard sock player_cards
                            dealer_cards player_ranks with
          | (Failed e, sock) => (Failed e, sock)
          | (Done (keyboard, player_cards, player_ranks), sock) =>
              match dealer_loop encodable player_cards
                                (sock, dealer_cards, tally) with
              | Raise e => (Failed (Library e), sock)
              | Ok (sock, dealer_cards, tally) =>
                  (Done (keyboard, tally,
                         (player_cards, dealer_cards, player_ranks)), sock)
              end
          end
      end
  end.

(** The rounds still to play, [k] of them.  The counters change at the end
    of a round only, so a failure leaves them as the rounds before it
    did. *)
Fixpoint play_rounds (encodable : Z -> bool) (k : nat) (keyboard : list str)
         (sock : socket) (tally : score)
  : outcome (list str) * score * socket :=
  match k with
  | O => (Done keyboard, tally, sock)
  | S k' =>
      match play_round encodable keyboard sock tally with
      | (Failed e, sock) => (Failed e, tally, sock)
      | (Done (keyboard, tally, _), sock) =>
          play_rounds encodable k' keyboard sock tally
      end
  end.

(** How one pass of the loop of [main] ends: with the summary it prints, or
    with the exception of [wins / rounds], which nothing catches:
    [ZeroDivisionError] when [rounds] is 0, [UnboundLocalError] when
    [rounds] was never assigned. *)
Inductive ending : Type :=
| Summary (wins losses ties : Z)
| ZeroDivisionError
| UnboundLocalError.

(** One pass of the loop of [main], from [sock = None] on: the [try] with
    its [except] and its [finally].

    [connection] is the socket that [connect] gives, or [None] when
    [socket] or [connect] raises.  [int] is Python's conversion of a line
    to an integer, [None] when it raises [ValueError].  [rounds] is a
    variable of [main]: before the pass it holds what an earlier pass left
    in it, if any.  The result is the ending and the socket as it is
    closed, if there is one. *)
Definition session (encodable : Z -> bool) (int : str -> option Z)
           (rounds : option Z) (connection : option socket)
           (keyboard : list str) : ending * option socket :=
  let '(rounds, (wins, losses, ties), sock) :=
    match connection with
    | None => (rounds, (0, 0, 0), None)
    | Some sock =>
        match keyboard with
        | [] => (rounds, (0, 0, 0), Some sock)
        | line :: keyboard =>
            let rounds :=
              match int line with
              | Some n => n
              | None => 3
              end in
            match pack_request rounds client_name with
            | Raise e => (Some rounds, (0, 0, 0), Some sock)
            | Ok msg =>
                let '(_, tally, sock) :=
                  play_rounds encodable (Z.to_nat rounds) keyboard
                              (sendall sock msg) (0, 0, 0) in
                (Some rounds, tally, Some sock)
            end
        end
    end in
  match rounds with
  | None => (UnboundLocalError, sock)
  | Some rounds =>
      if rounds =? 0 then (ZeroDivisionError, sock)
      else (Summary wins losses ties, sock)
  end.

End ClientMain.

(** ** Notions used to state the properties *)

Section Vocabulary.
Import Protocol Server.

(** A name that fills the 32-byte field without loss: it can be encoded,
    its encoding has at most [NAME_LEN] bytes, and it has no U+0000. *)
Definition name_fits (name : str) : bool :=
  match utf8_encode name with
  | Ok enc => (length enc <=? NAME_LEN)%nat
              && forallb (fun c => negb (c =? 0)) name
  | Raise _ => false
  end.

(** The sum of the card values, card by card. *)
Fixpoint sum_values (hand : list card) : Z :=
  match hand with
  | [] => 0
  | c :: hand' => rank_value (fst c) + sum_values hand'
  end.

(** Equality of cards, and lists of cards without a repeated card. *)
Definition card_eqb (a b : card) : bool :=
  (fst a =? fst b) && (snd a =? snd b).

Fixpoint distinct (l : list card) : bool :=
  match l with
  | [] => true
  | c :: l' => negb (existsb (card_eqb c) l') && distinct l'
  end.

(** What the dealer's loop has done when it returns: it has drawn the
    cards [drawn] one by one from the end of the deck, each of them at a
    total below 17, and has stopped at the first total of 17 or more. *)
Definition dealer_outcome (st : table) (r : bool * table) : Prop :=
  let '(sock, deck, hand) := st in
  let '(busted, (sock', deck', hand')) := r in
  17 <= hand_total hand'
  /\ busted = (hand_total hand' >? 21)
  /\ inbox sock' = inbox sock
  /\ exists drawn,
      hand' = hand ++ drawn
      /\ deck = deck' ++ rev drawn
      /\ forall k, (k < length drawn)%nat ->
                   hand_total (hand ++ firstn k drawn) < 17.

(** The payload that shows the card [c], and the one that closes a round. *)
Definition card_message (c : card) : bytes :=
  to_be 4 MAGIC_COOKIE ++ to_be 1 MTYPE_PAYLOAD
    ++ to_be 1 GAME_RESULT_NOTOVER ++ to_be 2 (fst c) ++ to_be 1 (snd c).

Definition result_message (game_result : Z) : bytes :=
  to_be 4 MAGIC_COOKIE ++ to_be 1 MTYPE_PAYLOAD
    ++ to_be 1 game_result ++ to_be 2 0 ++ to_be 1 0.

Definition is_ace (c : card) : bool := fst c =? 1.

(** A shuffle that leaves the four Aces on top of the deck. *)
Definition aces_last (deck : list card) : list card :=
  filter (fun c => negb (is_ace c)) deck ++ filter is_ace deck.

(** A shuffle that leaves the cards [top] on top of the deck, the last of
    them to be drawn first. *)
Definition stacked (top deck : list card) : list card :=
  filter (fun c => negb (existsb (card_eqb c) top)) deck ++ top.

(** The segments in which the byte strings [chunks] reach a socket. *)
Definition segments (chunks : list bytes) : list (byte * bytes) :=
  flat_map (fun chunk => match chunk with
                         | [] => []
                         | b :: chunk' => [(b, chunk')]
                         end) chunks.

(** The 10 bytes of the decision "Stand". *)
Definition stand_payload : bytes :=
  [xab; xcd; xdc; xba; x04] ++ list_byte_of_string "Stand".

(** A 33-letter name, one byte too long for the name field. *)
Definition long_name : str := repeat 97 33.

(** A short name with a U+0000 in the middle. *)
Definition nul_name : str := [97; 0; 98].

(** A decision payload whose token bytes are all 0xff. *)
Definition garbled_decision : bytes :=
  [xab; xcd; xdc; xba; x04; xff; xff; xff; xff; xff].

(** Python's classes of exceptions: what [except ValueError] catches.
    [UnicodeEncodeError] and [UnicodeDecodeError] are subclasses of
    [ValueError]; [struct.error], [IndexError] and [ConnectionError] are
    not. *)
Definition is_ValueError (e : exn) : bool :=
  match e with
  | ValueError | UnicodeEncodeError | UnicodeDecodeError => true
  | StructError | IndexError | ConnectionError => false
  end.

Definition raises_ValueError {A : Type} (r : result A) : bool :=
  match r with
  | Ok _ => false
  | Raise e => is_ValueError e
  end.

(** A string of Unicode scalar values: code points up to U+10FFFF, none
    of them a surrogate. *)
Definition utf8_encodable (s : str) : bool :=
  forallb (fun c => (0 <=? c) && (c <? 0x110000) && negb (is_surrogate c)) s.

(** A name with a lone surrogate. *)
Definition surrogate_name : str := [0xD800].
End Vocabulary.

(** ** Notions used to state the further properties *)

Section MoreVocabulary.
Import Protocol Server.

(** The characters of a string before its first U+0000. *)
Fixpoint str_before_nul (s : str) : str :=
  match s with
  | [] => []
  | c :: s' => if c =? 0 then [] else c :: str_before_nul s'
  end.

(** A string of ASCII characters. *)
Definition is_ascii (s : str) : bool :=
  forallb (fun c => (0 <=? c) && (c <? 0x80)) s.

(** What the player's loop has done when it returns: it has read the
    decisions [consumed], 10 bytes each, one for every card of [drawn] and
    one more to stand; every card was drawn at a total of 21 or less, from
    the end of the deck, and sent. *)
Definition player_outcome (st : table) (r : bool * table) : Prop :=
  let '(sock, deck, hand) := st in
  let '(busted, (sock', deck', hand')) := r in
  busted = (hand_total hand' >? 21)
  /\ exists drawn consumed,
      hand' = hand ++ drawn
      /\ deck = deck' ++ rev drawn
      /\ (forall k, (k < length drawn)%nat ->
                    hand_total (hand ++ firstn k drawn) <= 21)
      /\ outbox sock' = outbox sock ++ flat_map card_message drawn
      /\ stream sock = consumed ++ stream sock'
      /\ len consumed = 10 * (len drawn + (if busted then 0 else 1)).

(** A round played to the point where [who_won] is called, from the deck
    [deck0]: the player was dealt [p1] and [p2] and drew [hits]; the dealer
    was dealt [up] and [hidden], and showed [shown]: nothing when the player
    busted, and otherwise [hidden] followed by the cards [more] drawn at
    totals below 17.  All of them left the end of the deck in that order. *)
Definition round_played (deck0 : list card) (sock : socket) (h : hands)
           (deck' : list card) (sock' : socket)
           (hidden up p2 p1 : card) (hits shown : list card) : Prop :=
  player_hand h = p1 :: p2 :: hits
  /\ dealer_hand h = up :: shown
  /\ player_busted h = (hand_total (player_hand h) >? 21)
  /\ (forall k, (k < length hits)%nat ->
                hand_total ([p1; p2] ++ firstn k hits) <= 21)
  /\ outbox sock'
     = outbox sock ++ flat_map card_message ([p1; p2; up] ++ hits ++ shown)
  /\ (exists consumed,
        stream sock = consumed ++ stream sock'
        /\ len consumed
           = 10 * (len hits + (if player_busted h then 0 else 1)))
  /\ ((player_busted h = true /\ shown = [] /\ dealer_busted h = false
       /\ deck0 = deck' ++ rev hits ++ [hidden; up; p2; p1])
      \/ (player_busted h = false
          /\ exists more,
              shown = hidden :: more
              /\ dealer_busted h = (hand_total (dealer_hand h) >? 21)
              /\ 17 <= hand_total (dealer_hand h)
              /\ (forall k, (k < length more)%nat ->
                            hand_total ([up; hidden] ++ firstn k more) < 17)
              /\ deck0 = deck' ++ rev more ++ rev hits
                           ++ [hidden; up; p2; p1])).

(** The deck and the socket of the scenario in which the player stands on
    19 and the dealer draws to 18. *)
Definition scenario_deck : list card :=
  stacked [(5, 0); (6, 3); (7, 2); (9, 1); (10, 0)] create_deck.

Definition scenario_sock : socket := mkSocket (segments [stand_payload]) [].

(** The outcome as the final hands alone decide it. *)
Definition outcome_of_totals (player dealer : Z) : Z :=
  if player >? 21 then GAME_RESULT_LOSS
  else if dealer >? 21 then GAME_RESULT_WIN
  else if player >? dealer then GAME_RESULT_WIN
  else if player <? dealer then GAME_RESULT_LOSS
  else GAME_RESULT_TIE.

(** The cards of a round in the order in which they are sent: the player's
    first two, the dealer's first, the player's others, the dealer's
    others. *)
Definition cards_shown (player_hand dealer_hand : list card) : list card :=
  firstn 2 player_hand ++ firstn 1 dealer_hand
    ++ skipn 2 player_hand ++ skipn 1 dealer_hand.

(** The bytes of one round: its cards, then its result. *)
Definition round_bytes (round : list card * Z) : bytes :=
  flat_map card_message (fst round) ++ result_message (snd round).

(** The 9 bytes that carry a result, a rank and a suit. *)
Definition frame (game_result rank suit : Z) : bytes :=
  to_be 4 MAGIC_COOKIE ++ to_be 1 MTYPE_PAYLOAD ++ to_be 1 game_result
    ++ to_be 2 rank ++ to_be 1 suit.

(** The decision that a line of the keyboard stands for, if any. *)
Definition choice_decision (choice : str) : option str :=
  if str_eqb choice (str_of_string "H") then Some Hittt
  else if str_eqb choice (str_of_string "S") then Some Stand
  else None.

(** The decisions typed on a keyboard, in order. *)
Fixpoint typed (keyboard : list str) : list str :=
  match keyboard with
  | [] => []
  | choice :: keyboard' =>
      match choice_decision choice with
      | Some decision => decision :: typed keyboard'
      | None => typed keyboard'
      end
  end.

(** The bytes of a decision on the wire, and of a sequence of decisions. *)
Definition decision_message (decision : str) : bytes :=
  match pack_client_payload decision with
  | Ok msg => msg
  | Raise _ => []
  end.

Definition wire (decisions : list str) : bytes :=
  flat_map decision_message decisions.

(** A keyboard that is empty or ends with a line that stands for a
    decision. *)
Fixpoint ends_with_choice (keyboard : list str) : bool :=
  match keyboard with
  | [] => true
  | choice :: keyboard' =>
      match keyboard' with
      | [] => match choice_decision choice with
              | Some _ => true
              | None => false
              end
      | _ :: _ => ends_with_choice keyboard'
      end
  end.

(** The counters of the client once the result [r] is counted. *)
Definition counted (r : Z) (tally : ClientMain.score) : ClientMain.score :=
  let '(wins, losses, ties) := tally in
  if r =? GAME_RESULT_WIN then (wins + 1, losses, ties)
  else if r =? GAME_RESULT_LOSS then (wins, losses + 1, ties)
  else if r =? GAME_RESULT_TIE then (wins, losses, ties + 1)
  else tally.

(** A card as the client displays it, and as it adds it to its total. *)
Definition shown_as (c : card) : str :=
  ClientMain.card_to_str (fst c) (snd c).

Definition valued_as (c : card) : Z := Client.rank_value (fst c).

(** The request of the client for [rounds] rounds. *)
Definition request_message (rounds : Z) : bytes :=
  match pack_request rounds ClientMain.client_name with
  | Ok msg => msg
  | Raise _ => []
  end.

(** The results of [k] rounds from round [r] on, as the server decides
    them one after the other. *)
Fixpoint results_of (shuffles : nat -> list card -> list card) (k r : nat)
         (client_sock : socket) : list Z :=
  match k with
  | O => []
  | S k' =>
      match play_round (shuffles r) client_sock with
      | Ok (result, client_sock) =>
          result :: results_of shuffles k' (S r) client_sock
      | Raise _ => []
      end
  end.

(** The counters of the client once the results [rs] are counted. *)
Definition counted_all (rs : list Z) (tally : ClientMain.score)
  : ClientMain.score :=
  fold_left (fun tally r => counted r tally) rs tally.

(** The decisions of a round with [fst round] hits, closed by a stand if
    [snd round] holds. *)
Definition decisions_of_round (round : nat * bool) : list str :=
  repeat Hittt (fst round) ++ (if snd round then [Stand] else []).

(** A text that the console can encode. *)
Definition printable (encodable : Z -> bool) (text : str) : bool :=
  forallb (fun c => (c <? 0x80) || encodable c) text.

(** The four suit symbols. *)
Definition suit_glyphs : str := [0x2663; 0x2666; 0x2665; 0x2660].

(** A datagram that is an offer the client can announce, told from its
    bytes: the first 1024 of them are 39 bytes, the first five are the
    cookie and the type of an offer, the bytes of the name field before
    its first null byte are well-formed UTF-8, and the console can encode
    the name. *)
Definition is_offer (encodable : Z -> bool) (packet : bytes) : bool :=
  let data := firstn 1024 packet in
  (length data =? 39)%nat
  && (if list_eq_dec Byte.byte_eq_dec (firstn 5 data)
                     [xab; xcd; xdc; xba; x02]
      then true else false)
  && match utf8_decode (before_nul (skipn 7 data)) with
     | Ok name => printable encodable (strip 0 name)
     | Raise _ => false
     end.

(** The port that an offer carries, in its bytes 5 and 6. *)
Definition offered_port (packet : bytes) : Z :=
  from_be (firstn 2 (skipn 5 packet)).

(** The number of rounds that the line [line] asks for. *)
Definition asked (int : str -> option Z) (line : str) : Z :=
  match int line with
  | Some n => n
  | None => 3
  end.

(** The card that a 9-byte payload carries. *)
Definition card_of_payload (data : bytes) : card :=
  (from_be (slice 6 2 data), from_be (slice 8 1 data)).

End MoreVocabulary.

(** * Properties *)

(** ** Loops *)

Section WhileFacts.
Variables S R : Type.
Variable measure : S -> nat.
Variable body : S -> step S R.
Hypothesis body_decreases :
  forall s s', body s = Continue s' -> (measure s' < measure s)%nat.

Local Abbreviation loop := (while measure body body_decreases).

Lemma while_step (s : S) :
  loop s = match body s with
           | Continue s' => loop s'
           | Return r => Ok r
           | Throw e => Raise e
           end.
Proof.
  funelim (while measure body body_decreases s).
  all: match goal with H : body _ = _ |- _ => rewrite H end.
  all: reflexivity.
Qed.

(** Induction over the iterations of a loop. *)
Lemma while_ind (P : S -> result R -> Prop) :
  (forall s r, body s = Return r -> P s (Ok r)) ->
  (forall s e, body s = Throw e -> P s (Raise e)) ->
  (forall s s', body s = Continue s' -> P s' (loop s') -> P s (loop s')) ->
  forall s, P s (loop s).
Proof.
  intros Hret Hthrow Hcont s.
  remember (measure s) as m eqn:Hm. revert s Hm.
  induction m as [m IH] using lt_wf_ind. intros s Hm.
  rewrite while_step. destruct (body s) as [s'|r|e] eqn:Hb.
  - apply Hcont; [exact Hb|]. apply (IH (measure s')); [|reflexivity].
    subst m. apply body_decreases. exact Hb.
  - apply Hret. exact Hb.
  - apply Hthrow. exact Hb.
Qed.
End WhileFacts.

(** ** Bytes *)

Lemma Z_of_byte_range (b : byte) : 0 <= Z_of_byte b < 256.
Proof.
  unfold Z_of_byte. pose proof (Byte.to_N_bounded b) as H.
  split; [apply N2Z.is_nonneg|]. lia.
Qed.

Lemma Z_of_byte_of_Z (z : Z) : 0 <= z < 256 -> Z_of_byte (byte_of_Z z) = z.
Proof.
  intros Hz. unfold Z_of_byte, byte_of_Z.
  destruct (Byte.of_N (Z.to_N z)) as [b|] eqn:Hb.
  - apply Byte.to_of_N in Hb. rewrite Hb. lia.
  - apply Byte.of_N_None_iff in Hb. lia.
Qed.

Lemma byte_of_Z_of_byte (b : byte) : byte_of_Z (Z_of_byte b) = b.
Proof.
  unfold Z_of_byte, byte_of_Z. rewrite N2Z.id, Byte.of_to_N. reflexivity.
Qed.

Lemma to_be_length (w : nat) (v : Z) : length (to_be w v) = w.
Proof. induction w; simpl; congruence. Qed.

Lemma from_be_acc (bs : bytes) (acc : Z) :
  fold_left (fun a b => a * 256 + Z_of_byte b) bs acc
  = acc * 256 ^ len bs + from_be bs.
Proof.
  unfold from_be, len. revert acc.
  induction bs as [|b bs IH]; intros acc.
  - simpl. lia.
  - cbn [fold_left length]. rewrite IH, (IH (0 * 256 + _)).
    rewrite Nat2Z.inj_succ, Z.pow_succ_r by lia. lia.
Qed.

Lemma from_be_to_be (w : nat) (v : Z) :
  from_be (to_be w v) = v mod 256 ^ Z.of_nat w.
Proof.
  induction w as [|w IH].
  - simpl. rewrite Z.mod_1_r. reflexivity.
  - unfold from_be. cbn [to_be fold_left]. rewrite from_be_acc, IH.
    unfold len. rewrite to_be_length.
    rewrite Z_of_byte_of_Z by (apply Z.mod_pos_bound; lia).
    rewrite Nat2Z.inj_succ, Z.pow_succ_r by lia.
    assert (Hp : 0 < 256 ^ Z.of_nat w) by (apply Z.pow_pos_nonneg; lia).
    rewrite (Z.mul_comm 256), Z.rem_mul_r by lia. lia.
Qed.

Lemma pack_uint_Ok (w : nat) (v : Z) :
  0 <= v < 256 ^ Z.of_nat w -> pack_uint w v = Ok (to_be w v).
Proof.
  intros H. unfold pack_uint.
  replace (_ && _) with true; [reflexivity|].
  symmetry. apply andb_true_intro. split; lia.
Qed.

Lemma from_be_to_be_small (w : nat) (v : Z) :
  0 <= v < 256 ^ Z.of_nat w -> from_be (to_be w v) = v.
Proof. intros H. rewrite from_be_to_be. apply Z.mod_small. exact H. Qed.

Lemma pack_chars_length (n : nat) (b : bytes) : length (pack_chars n b) = n.
Proof.
  unfold pack_chars. rewrite length_app, length_firstn, repeat_length. lia.
Qed.

Lemma pack_chars_exact (n : nat) (b : bytes) :
  length b = n -> pack_chars n b = b.
Proof.
  intros H. unfold pack_chars. rewrite firstn_all2 by lia.
  replace (n - length b)%nat with O by lia. apply app_nil_r.
Qed.

(** ** The UTF-8 codec *)

Ltac zdm := first [lia | Z.div_mod_to_equations; lia].

(** Settles the comparisons of the goal that the context decides. *)
Ltac decide_cmp :=
  repeat (match goal with
          | |- context [?a <? ?b] =>
              first [ replace (a <? b) with true
                        by (symmetry; apply Z.ltb_lt; zdm)
                    | replace (a <? b) with false
                        by (symmetry; apply Z.ltb_ge; zdm) ]
          | |- context [?a <=? ?b] =>
              first [ replace (a <=? b) with true
                        by (symmetry; apply Z.leb_le; zdm)
                    | replace (a <=? b) with false
                        by (symmetry; apply Z.leb_gt; zdm) ]
          end; cbv iota; cbn [andb negb orb]).

Lemma Some_eq {A} (a b : A) : Some a = Some b -> b = a.
Proof. congruence. Qed.

Lemma Ok_eq {A} (a b : A) : Ok a = Ok b -> b = a.
Proof. congruence. Qed.

Lemma utf8_decode_encode_cp (c : Z) (bs rest : bytes) :
  utf8_encode_cp c = Some bs ->
  utf8_decode (bs ++ rest) = decoded c (utf8_decode rest).
Proof.
  unfold utf8_encode_cp, is_surrogate.
  destruct (Z.ltb_spec c 0); [discriminate|].
  destruct (Z.ltb_spec c 0x80).
  { intros E. apply Some_eq in E. subst bs. cbn [app utf8_decode]. cbv zeta.
    rewrite !Z_of_byte_of_Z by zdm. decide_cmp. reflexivity. }
  destruct (Z.ltb_spec c 0x800).
  { intros E. apply Some_eq in E. subst bs. cbn [app utf8_decode]. cbv zeta.
    unfold is_cont.
    rewrite !Z_of_byte_of_Z by zdm. decide_cmp. f_equal. zdm. }
  destruct (Z.ltb_spec c 0x10000).
  { destruct (Z.leb_spec 0xD800 c); destruct (Z.ltb_spec c 0xE000);
      cbn [andb]; try discriminate.
    all: intros E; apply Some_eq in E; subst bs; cbn [app utf8_decode];
      cbv zeta; unfold is_cont, is_surrogate;
      rewrite !Z_of_byte_of_Z by zdm; decide_cmp; f_equal; zdm. }
  destruct (Z.ltb_spec c 0x110000); [|discriminate].
  intros E. apply Some_eq in E. subst bs. cbn [app utf8_decode]. cbv zeta.
  unfold is_cont.
  rewrite !Z_of_byte_of_Z by zdm. decide_cmp. f_equal. zdm.
Qed.

Lemma utf8_decode_encode (s : str) (bs : bytes) :
  utf8_encode s = Ok bs -> utf8_decode bs = Ok s.
Proof.
  revert bs. induction s as [|c s IH]; intros bs.
  - cbn. intros [= <-]. reflexivity.
  - cbn [utf8_encode]. destruct (utf8_encode_cp c) as [cb|] eqn:Hc;
      [|discriminate].
    destruct (utf8_encode s) as [rest|e]; [|discriminate].
    cbn [bind]. intros E. assert (bs = cb ++ rest) by congruence. subst bs.
    rewrite (utf8_decode_encode_cp _ _ _ Hc), (IH rest eq_refl). reflexivity.
Qed.

(** Only U+0000 is encoded with a null byte. *)
Lemma byte_of_Z_not_nul (z : Z) : 0 < z < 256 -> byte_of_Z z <> x00.
Proof.
  intros Hz E. apply (f_equal Z_of_byte) in E.
  rewrite Z_of_byte_of_Z in E by lia. change (Z_of_byte x00) with 0 in E. lia.
Qed.

Lemma utf8_encode_cp_not_nul (c : Z) (bs : bytes) :
  utf8_encode_cp c = Some bs -> c <> 0 -> Forall (fun b => b <> x00) bs.
Proof.
  unfold utf8_encode_cp, is_surrogate. intros E Hc.
  destruct (Z.ltb_spec c 0); [discriminate|].
  destruct (Z.ltb_spec c 0x80);
    [|destruct (Z.ltb_spec c 0x800);
      [|destruct (Z.ltb_spec c 0x10000);
        [destruct ((0xD800 <=? c) && (c <? 0xE000)); [discriminate|]
        |destruct (Z.ltb_spec c 0x110000); [|discriminate]]]].
  all: apply Some_eq in E; subst bs.
  all: repeat (constructor; [apply byte_of_Z_not_nul; zdm|]).
  all: constructor.
Qed.

Lemma utf8_encode_not_nul (s : str) (bs : bytes) :
  utf8_encode s = Ok bs -> ~ In 0 s -> Forall (fun b => b <> x00) bs.
Proof.
  revert bs. induction s as [|c s IH]; intros bs.
  - cbn. intros [= <-] _. constructor.
  - cbn [utf8_encode]. destruct (utf8_encode_cp c) as [cb|] eqn:Hc;
      [|discriminate].
    destruct (utf8_encode s) as [rest|e]; [|discriminate].
    cbn [bind]. intros E Hin. assert (bs = cb ++ rest) by congruence. subst bs.
    apply Forall_app. split.
    + apply (utf8_encode_cp_not_nul _ _ Hc). intros ->. apply Hin. now left.
    + apply IH; [reflexivity|]. intros H. apply Hin. now right.
Qed.

Lemma before_nul_padded (bs : bytes) (k : nat) :
  Forall (fun b => b <> x00) bs -> before_nul (bs ++ repeat x00 k) = bs.
Proof.
  induction 1 as [|b bs Hb _ IH].
  - destruct k; reflexivity.
  - cbn [app before_nul]. destruct (Byte.eqb b x00) eqn:E.
    + apply Byte.byte_dec_bl in E. contradiction.
    + rewrite IH. reflexivity.
Qed.

(** ** Slices of a packed message *)

Lemma slice_app_here (a b : bytes) (n : nat) :
  length a = n -> slice 0 n (a ++ b) = a.
Proof.
  intros <-. unfold slice. cbn [skipn]. rewrite firstn_app, Nat.sub_diag.
  cbn [firstn]. rewrite firstn_all, app_nil_r. reflexivity.
Qed.

Lemma slice_app_skip (a b : bytes) (off n : nat) :
  (length a <= off)%nat -> slice off n (a ++ b) = slice (off - length a) n b.
Proof.
  intros H. unfold slice. rewrite skipn_app, (skipn_all2 a) by exact H.
  reflexivity.
Qed.

Lemma slice_all (a : bytes) (n : nat) : length a = n -> slice 0 n a = a.
Proof. intros <-. unfold slice. cbn [skipn]. apply firstn_all. Qed.

Lemma len_app {A} (a b : list A) : len (a ++ b) = len a + len b.
Proof. unfold len. rewrite length_app. lia. Qed.

(** ** The wire codec *)

Section Codec.
Import Protocol.

Lemma pack_name_encoded (name : str) (enc : bytes) :
  utf8_encode name = Ok enc ->
  pack_name name
  = Ok (firstn NAME_LEN enc
          ++ repeat x00 (NAME_LEN - length (firstn NAME_LEN enc))).
Proof. unfold pack_name. intros ->. reflexivity. Qed.

Lemma pack_name_length (name : str) (b : bytes) :
  pack_name name = Ok b -> length b = NAME_LEN.
Proof.
  unfold pack_name. destruct (utf8_encode name) as [enc|e]; [|discriminate].
  cbn [bind]. intros E. apply Ok_eq in E. subst b.
  rewrite length_app, repeat_length, length_firstn. lia.
Qed.

Lemma pack_name_exn (name : str) (e : exn) :
  pack_name name = Raise e -> e = UnicodeEncodeError.
Proof.
  unfold pack_name.
  assert (H : forall s e', utf8_encode s = Raise e' -> e' = UnicodeEncodeError).
  { induction s as [|c s IH]; cbn [utf8_encode]; intros e'; [discriminate|].
    destruct (utf8_encode_cp c); [|congruence].
    destruct (utf8_encode s); [discriminate|]. cbn [bind].
    intros [= <-]. apply IH. reflexivity. }
  destruct (utf8_encode name) as [enc|e'] eqn:E; [discriminate|].
  cbn [bind]. intros [= <-]. eapply H. eassumption.
Qed.

Lemma name_fits_roundtrip (name : str) :
  name_fits name = true ->
  exists b, pack_name name = Ok b /\ length b = NAME_LEN
            /\ unpack_name b = Ok name.
Proof.
  unfold name_fits. destruct (utf8_encode name) as [enc|e] eqn:E;
    [|discriminate].
  intros H. apply andb_prop in H. destruct H as [Hlen Hnul].
  apply Nat.leb_le in Hlen.
  eexists. split; [apply pack_name_encoded; exact E|]. split.
  - rewrite length_app, repeat_length, length_firstn. lia.
  - unfold unpack_name. rewrite firstn_all2 by exact Hlen.
    rewrite before_nul_padded.
    + apply utf8_decode_encode. exact E.
    + apply (utf8_encode_not_nul _ _ E). intros Hin.
      rewrite forallb_forall in Hnul. apply Hnul in Hin. discriminate.
Qed.

Lemma check_size_Ok (size : Z) (data : bytes) :
  len data = size -> check_size size data = Ok tt.
Proof. intros H. unfold check_size. rewrite H, Z.eqb_refl. reflexivity. Qed.

Ltac in_range :=
  cbv [MAGIC_COOKIE MTYPE_OFFER MTYPE_REQUEST MTYPE_PAYLOAD
       GAME_RESULT_NOTOVER GAME_RESULT_TIE GAME_RESULT_LOSS GAME_RESULT_WIN];
  cbn; lia.

(** Reads the fields of a message built by appending packed fields. *)
Ltac read_fields :=
  repeat first
    [ rewrite slice_app_here by (rewrite ?to_be_length; reflexivity)
    | rewrite slice_all by first [assumption | apply to_be_length]
    | rewrite slice_app_skip by (rewrite ?to_be_length; cbn; lia);
      rewrite ?to_be_length; cbn [Nat.sub] ];
  rewrite ?from_be_to_be_small by in_range.

Ltac message_size :=
  unfold len; rewrite ?length_app, ?to_be_length, ?pack_chars_length;
  try match goal with
      | H : length ?b = _ |- context [length ?b] => rewrite H
      end;
  reflexivity.

Lemma offer_roundtrip (tcp_port : Z) (name : str) :
  0 <= tcp_port <= 65535 -> name_fits name = true ->
  (m <- pack_offer tcp_port name ;; unpack_offer m)
  = Ok (MAGIC_COOKIE, MTYPE_OFFER, tcp_port, name).
Proof.
  intros Hp Hn. destruct (name_fits_roundtrip _ Hn) as (b & Hb & Hlen & Hu).
  unfold pack_offer. rewrite Hb. cbn [bind].
  rewrite !pack_uint_Ok by in_range. cbn [bind].
  rewrite pack_chars_exact by exact Hlen.
  unfold unpack_offer. rewrite check_size_Ok by message_size.
  cbn [bind]. read_fields. rewrite Hu. reflexivity.
Qed.

Lemma request_roundtrip (rounds : Z) (name : str) :
  0 <= rounds <= 255 -> name_fits name = true ->
  (m <- pack_request rounds name ;; unpack_request m)
  = Ok (MAGIC_COOKIE, MTYPE_REQUEST, rounds, name).
Proof.
  intros Hr Hn. destruct (name_fits_roundtrip _ Hn) as (b & Hb & Hlen & Hu).
  unfold pack_request.
  replace ((0 <=? rounds) && (rounds <=? 255)) with true
    by (symmetry; apply andb_true_intro; split; lia).
  cbn [negb]. rewrite Hb. cbn [bind].
  rewrite !pack_uint_Ok by in_range. cbn [bind].
  rewrite pack_chars_exact by exact Hlen.
  unfold unpack_request. rewrite check_size_Ok by message_size.
  cbn [bind]. read_fields. rewrite Hu. reflexivity.
Qed.

Lemma client_payload_roundtrip (decision : str) :
  decision = Hittt \/ decision = Stand ->
  (m <- pack_client_payload decision ;; unpack_client_payload m)
  = Ok (MAGIC_COOKIE, MTYPE_PAYLOAD, decision).
Proof. intros [-> | ->]; vm_compute; reflexivity. Qed.

Lemma server_payload_roundtrip (game_result card_rank card_suit : Z) :
  0 <= game_result <= 255 -> 0 <= card_rank <= 65535 ->
  0 <= card_suit <= 255 ->
  (m <- pack_server_payload game_result card_rank card_suit ;;
   unpack_server_payload m)
  = Ok (MAGIC_COOKIE, MTYPE_PAYLOAD, game_result, card_rank, card_suit).
Proof.
  intros Hg Hr Hs. unfold pack_server_payload.
  rewrite !pack_uint_Ok by in_range. cbn [bind].
  unfold unpack_server_payload. rewrite check_size_Ok by message_size.
  cbn [bind]. read_fields. reflexivity.
Qed.
End Codec.

(** ** Which encoders raise what *)

Section CodecErrors.
Import Protocol.

Lemma str_eqb_eq (a b : str) : str_eqb a b = true <-> a = b.
Proof.
  unfold str_eqb. destruct (list_eq_dec Z.eq_dec a b); split; congruence.
Qed.

Lemma pack_uint_exn (w : nat) (v : Z) (e : exn) :
  pack_uint w v = Raise e -> e = StructError.
Proof. unfold pack_uint. destruct (_ && _); congruence. Qed.

Lemma pack_name_never_ValueError (name : str) :
  pack_name name <> Raise ValueError.
Proof. intros H. apply pack_name_exn in H. discriminate. Qed.

(** Runs through the fields of a [struct.pack] call. *)
Ltac pack_fields :=
  repeat match goal with
    | |- context [bind (pack_uint ?w ?v) _] =>
        let E := fresh "E" in
        destruct (pack_uint w v) eqn:E;
        [cbn [bind] | apply pack_uint_exn in E; cbn [bind]; congruence]
    end.

Lemma pack_offer_never_ValueError (tcp_port : Z) (name : str) :
  pack_offer tcp_port name <> Raise ValueError.
Proof.
  unfold pack_offer. destruct (pack_name name) as [b|e] eqn:E.
  - cbn [bind]. pack_fields. discriminate.
  - apply pack_name_exn in E. cbn [bind]. congruence.
Qed.

Lemma pack_server_payload_never_ValueError (game_result rank suit : Z) :
  pack_server_payload game_result rank suit <> Raise ValueError.
Proof. unfold pack_server_payload. pack_fields. discriminate. Qed.

Lemma pack_request_ValueError (rounds : Z) (name : str) :
  pack_request rounds name = Raise ValueError <-> ~ 0 <= rounds <= 255.
Proof.
  unfold pack_request.
  destruct (Z.leb_spec 0 rounds); destruct (Z.leb_spec rounds 255);
    cbn [andb negb]; try (split; [lia | reflexivity]).
  split; [|lia]. intros H1. exfalso. revert H1.
  destruct (pack_name name) as [b|e] eqn:E.
  - cbn [bind]. pack_fields. discriminate.
  - apply pack_name_exn in E. cbn [bind]. congruence.
Qed.

Lemma pack_client_payload_ValueError (decision : str) :
  pack_client_payload decision = Raise ValueError
  <-> decision <> Hittt /\ decision <> Stand.
Proof.
  unfold pack_client_payload.
  destruct (str_eqb decision Hittt) eqn:E1.
  { apply str_eqb_eq in E1. subst decision. split.
    - vm_compute. discriminate.
    - intros [H _]. congruence. }
  destruct (str_eqb decision Stand) eqn:E2.
  { apply str_eqb_eq in E2. subst decision. split.
    - vm_compute. discriminate.
    - intros [_ H]. congruence. }
  cbn [orb negb]. split; [|reflexivity]. intros _. split; intros ->.
  - vm_compute in E1. discriminate.
  - vm_compute in E2. discriminate.
Qed.

Lemma pack_name_truncates_or_pads (name : str) (enc : bytes) :
  utf8_encode name = Ok enc ->
  exists b, pack_name name = Ok b /\ length b = NAME_LEN
    /\ ((NAME_LEN < length enc)%nat -> b = firstn NAME_LEN enc)
    /\ ((length enc <= NAME_LEN)%nat ->
        b = enc ++ repeat x00 (NAME_LEN - length enc)).
Proof.
  intros E. eexists. split; [apply pack_name_encoded; exact E|].
  split; [|split].
  - rewrite length_app, repeat_length, length_firstn. lia.
  - intros H. rewrite length_firstn.
    replace (NAME_LEN - Nat.min NAME_LEN (length enc))%nat with O by lia.
    apply app_nil_r.
  - intros H. rewrite firstn_all2 by exact H. reflexivity.
Qed.
End CodecErrors.

(** ** Exact reads *)

Lemma while_same_body {S R} (measure : S -> nat) (body : S -> step S R)
      H1 H2 (s : S) :
  while measure body H1 s = while measure body H2 s.
Proof.
  apply (while_ind S R measure body H1
           (fun s r => r = while measure body H2 s)).
  - intros s0 r Hb. rewrite while_step, Hb. reflexivity.
  - intros s0 e Hb. rewrite while_step, Hb. reflexivity.
  - intros s0 s' Hb IH. rewrite (while_step _ _ _ _ H2 s0), Hb. exact IH.
Qed.

Lemma recv_Ok (sock sock' : socket) (bufsize : Z) (chunk : bytes) :
  recv sock bufsize = Ok (chunk, sock') ->
  chunk ++ stream sock' = stream sock
  /\ outbox sock' = outbox sock
  /\ (chunk = [] -> 0 < bufsize -> stream sock = []).
Proof.
  unfold recv, stream. destruct (bufsize <? 0); [discriminate|].
  destruct sock as [[|[b seg] rest] out]; cbn [inbox outbox].
  - intros E. apply Ok_eq in E. injection E as -> ->. cbn. auto.
  - destruct (skipn (Z.to_nat bufsize) (b :: seg)) as [|b' seg'] eqn:Hs;
      intros E; apply Ok_eq in E; injection E as -> ->; cbn [inbox outbox].
    + split; [reflexivity|]. split; [reflexivity|discriminate].
    + split; [|split; [reflexivity|]].
      * cbn [flat_map fst snd]. rewrite <- Hs.
        change (b :: seg ++ ?x) with ((b :: seg) ++ x).
        rewrite <- (firstn_skipn (Z.to_nat bufsize) (b :: seg)) at 3.
        rewrite <- app_assoc. reflexivity.
      * intros Hnil Hpos. exfalso.
        destruct (Z.to_nat bufsize) eqn:Hn; [lia|]. discriminate.
Qed.

Lemma recv_Raise (sock : socket) (bufsize : Z) (e : exn) :
  recv sock bufsize = Raise e -> bufsize < 0.
Proof.
  unfold recv. destruct (Z.ltb_spec bufsize 0); [easy|].
  destruct (inbox sock) as [|[b seg] rest]; [discriminate|].
  destruct (skipn _ _); discriminate.
Qed.

Lemma recv_at_most (sock sock' : socket) (bufsize : Z) (chunk : bytes) :
  recv sock bufsize = Ok (chunk, sock') -> len chunk <= bufsize.
Proof.
  unfold recv. destruct (Z.ltb_spec bufsize 0); [discriminate|].
  destruct (inbox sock) as [|[b seg] rest].
  - intros E. apply Ok_eq in E. injection E as -> ->. cbn. lia.
  - destruct (skipn (Z.to_nat bufsize) (b :: seg)) as [|b' seg'] eqn:Hs;
      intros E; apply Ok_eq in E; injection E as -> ->.
    + apply (f_equal (@length byte)) in Hs. rewrite length_skipn in Hs.
      unfold len. cbn [length] in *. lia.
    + unfold len. rewrite length_firstn. lia.
Qed.

(** The loop of [recv_exact] from a buffer of at most [n] bytes: what it
    returns is the buffer followed by the next bytes of the stream. *)
Lemma recv_exact_loop (n : Z) (st : bytes * socket) :
  len (fst st) <= Z.max 0 n ->
  match while (Server.recv_exact_measure n) (Server.recv_exact_body n)
              (Server.recv_exact_decreases n) st with
  | Ok (data, sock') =>
      len data = Z.max 0 n
      /\ data ++ stream sock' = fst st ++ stream (snd st)
      /\ outbox sock' = outbox (snd st)
  | Raise e =>
      e = ConnectionError /\ len (fst st ++ stream (snd st)) < n
  end.
Proof.
  apply (while_ind _ _ _ _ (Server.recv_exact_decreases n)
           (fun st r =>
              len (fst st) <= Z.max 0 n ->
              match r with
              | Ok (data, sock') =>
                  len data = Z.max 0 n
                  /\ data ++ stream sock' = fst st ++ stream (snd st)
                  /\ outbox sock' = outbox (snd st)
              | Raise e =>
                  e = ConnectionError /\ len (fst st ++ stream (snd st)) < n
              end)); clear st.
  - intros [data sock] [d s']. unfold Server.recv_exact_body.
    destruct (Z.ltb_spec (len data) n).
    + destruct (recv sock (n - len data)) as [[[|b c] s1]|e]; discriminate.
    + intros [= <- <-]. cbn [fst snd]. intros Hle. repeat split.
      unfold len in *. lia.
  - intros [data sock] e. unfold Server.recv_exact_body.
    destruct (Z.ltb_spec (len data) n); [|discriminate].
    destruct (recv sock (n - len data)) as [[[|b c] s1]|e'] eqn:Hr.
    + cbn. intros [= <-] _. split; [reflexivity|]. cbn [fst snd].
      apply recv_Ok in Hr. destruct Hr as (_ & _ & Hnil).
      rewrite Hnil, app_nil_r by (reflexivity || lia). lia.
    + discriminate.
    + apply recv_Raise in Hr. lia.
  - intros [data sock] [data' sock1]. unfold Server.recv_exact_body.
    destruct (Z.ltb_spec (len data) n); [|discriminate].
    destruct (recv sock (n - len data)) as [[[|b c] s1]|e'] eqn:Hr;
      try discriminate.
    cbn. intros [= <- <-]. cbn [fst snd]. intros IH Hle.
    pose proof (recv_at_most _ _ _ _ Hr) as Hmost.
    apply recv_Ok in Hr. destruct Hr as (Hstream & Hout & _).
    rewrite <- Hstream, <- Hout.
    rewrite <- app_assoc in IH. apply IH.
    rewrite len_app. lia.
Qed.

Lemma recv_exact_spec (sock : socket) (n : Z) :
  match Server.recv_exact sock n with
  | Ok (data, sock') =>
      n <= len (stream sock)
      /\ len data = Z.max 0 n
      /\ data = firstn (Z.to_nat n) (stream sock)
      /\ stream sock' = skipn (Z.to_nat n) (stream sock)
      /\ outbox sock' = outbox sock
  | Raise e => e = ConnectionError /\ len (stream sock) < n
  end.
Proof.
  unfold Server.recv_exact.
  pose proof (recv_exact_loop n ([], sock)) as H. cbn [fst snd app] in H.
  destruct (while _ _ _ _) as [[data sock']|e].
  - destruct H as (Hlen & Hs & Hout); [unfold len; cbn; lia|].
    assert (Hn : length data = Z.to_nat n) by (unfold len in Hlen; lia).
    rewrite <- Hs, <- Hn.
    rewrite firstn_app, Nat.sub_diag, firstn_all, skipn_app, Nat.sub_diag,
      skipn_all. cbn [firstn skipn app]. rewrite app_nil_r.
    repeat split; try assumption. rewrite len_app. unfold len in *. lia.
  - apply H. unfold len; cbn; lia.
Qed.

Lemma client_recv_exact_same (sock : socket) (n : Z) :
  Client.recv_exact sock n = Server.recv_exact sock n.
Proof. apply while_same_body. Qed.

(** ** Deck and hands *)

Section Deck.
Import Protocol Server.

Lemma range_In (lo hi x : Z) : In x (range lo hi) <-> lo <= x < hi.
Proof.
  unfold range. rewrite in_map_iff. split.
  - intros (i & <- & Hi). apply in_seq in Hi. lia.
  - intros H. exists (Z.to_nat (x - lo)). split; [lia|].
    apply in_seq. lia.
Qed.

(** The nested loops of [create_deck], suit by suit. *)
Lemma create_deck_by_suit :
  create_deck
  = flat_map (fun card_suit =>
                map (fun card_rank => (card_rank, card_suit)) (range 1 14))
             (range 0 4).
Proof. reflexivity. Qed.

Lemma create_deck_In (rank suit : Z) :
  In (rank, suit) create_deck <-> 1 <= rank <= 13 /\ 0 <= suit <= 3.
Proof.
  rewrite create_deck_by_suit, in_flat_map. split.
  - intros (s & Hs & Hin). apply in_map_iff in Hin.
    destruct Hin as (r & [= <- <-] & Hr).
    apply range_In in Hs, Hr. lia.
  - intros [Hr Hs]. exists suit. split; [apply range_In; lia|].
    apply in_map_iff. exists rank. split; [reflexivity|].
    apply range_In. lia.
Qed.

Lemma card_eqb_eq (a b : card) : card_eqb a b = true <-> a = b.
Proof.
  destruct a as [r s], b as [r' s']. unfold card_eqb. cbn [fst snd].
  rewrite andb_true_iff, !Z.eqb_eq. split; [intros [-> ->]|intros [= -> ->]];
    auto.
Qed.

Lemma distinct_NoDup (l : list card) : distinct l = true -> NoDup l.
Proof.
  induction l as [|c l IH]; cbn [distinct]; [constructor|].
  intros H. apply andb_prop in H. destruct H as [Hc Hl].
  constructor; [|apply IH; exact Hl].
  intros Hin. apply negb_true_iff in Hc.
  assert (existsb (card_eqb c) l = true); [|congruence].
  apply existsb_exists. exists c. split; [exact Hin|].
  apply card_eqb_eq. reflexivity.
Qed.

Lemma create_deck_NoDup : NoDup create_deck.
Proof. apply distinct_NoDup. vm_compute. reflexivity. Qed.

Lemma pop_snoc {A} (l : list A) (x : A) : pop (l ++ [x]) = Ok (x, l).
Proof. unfold pop. rewrite rev_unit, rev_involutive. reflexivity. Qed.

Lemma pop_Ok {A} (l l' : list A) (x : A) :
  pop l = Ok (x, l') -> l = l' ++ [x].
Proof.
  unfold pop. destruct (rev l) as [|y r] eqn:Hr; [discriminate|].
  intros [= <- <-]. rewrite <- (rev_involutive l), Hr. reflexivity.
Qed.

Lemma pop_Raise {A} (l : list A) (e : exn) :
  pop l = Raise e -> l = [] /\ e = IndexError.
Proof.
  destruct l as [|a l] using rev_ind; [cbn; intros [= <-]; auto|].
  rewrite pop_snoc. discriminate.
Qed.

Lemma hand_total_from (hand : list card) (total : Z) :
  fold_left (fun total c => let '(rank, suit) := c in total + rank_value rank)
            hand total
  = total + sum_values hand.
Proof.
  revert total. induction hand as [|[r s] hand IH]; intros total.
  - cbn. lia.
  - cbn [fold_left sum_values fst]. rewrite IH. lia.
Qed.

Lemma hand_total_sum (hand : list card) : hand_total hand = sum_values hand.
Proof. unfold hand_total. rewrite hand_total_from. lia. Qed.

Lemma sum_values_app (h1 h2 : list card) :
  sum_values (h1 ++ h2) = sum_values h1 + sum_values h2.
Proof.
  induction h1 as [|c h1 IH]; cbn [app sum_values]; [|rewrite IH]; lia.
Qed.

Lemma hand_total_snoc (hand : list card) (c : card) :
  hand_total (hand ++ [c]) = hand_total hand + rank_value (fst c).
Proof.
  rewrite !hand_total_sum, sum_values_app. cbn [sum_values]. lia.
Qed.

Lemma rank_value_le_11 (rank : Z) : rank_value rank <= 11.
Proof.
  unfold rank_value. destruct (Z.geb_spec rank 11); [lia|].
  destruct (Z.eqb_spec rank 1); lia.
Qed.

Lemma rank_value_11 (rank : Z) : rank_value rank = 11 -> rank = 1.
Proof.
  unfold rank_value. destruct (Z.geb_spec rank 11); [lia|].
  destruct (Z.eqb_spec rank 1); lia.
Qed.
End Deck.

(** ** The dealer's turn *)

Section Dealer.
Import Protocol Server.

Lemma dealer_loop_step (st : table) :
  dealer_loop st = match dealer_turn_body st with
                   | Continue st' => dealer_loop st'
                   | Return r => Ok r
                   | Throw e => Raise e
                   end.
Proof. unfold dealer_loop. apply while_step. Qed.

Lemma dealer_loop_busted (sock : socket) (deck hand : list card) :
  21 < hand_total hand ->
  dealer_loop (sock, deck, hand) = Ok (true, (sock, deck, hand)).
Proof.
  intros H. rewrite dealer_loop_step. unfold dealer_turn_body.
  destruct (Z.gtb_spec (hand_total hand) 21); [reflexivity|lia].
Qed.

Lemma dealer_loop_stands (sock : socket) (deck hand : list card) :
  17 <= hand_total hand <= 21 ->
  dealer_loop (sock, deck, hand) = Ok (false, (sock, deck, hand)).
Proof.
  intros H. rewrite dealer_loop_step. unfold dealer_turn_body.
  destruct (Z.gtb_spec (hand_total hand) 21); [lia|].
  destruct (Z.geb_spec (hand_total hand) 17); [reflexivity|lia].
Qed.

Lemma dealer_body_draws (sock : socket) (deck hand : list card)
      (c : card) (msg : bytes) :
  hand_total hand < 17 ->
  pack_server_payload GAME_RESULT_NOTOVER (fst c) (snd c) = Ok msg ->
  dealer_turn_body (sock, deck ++ [c], hand)
  = Continue (sendall sock msg, deck, hand ++ [c]).
Proof.
  intros H Hmsg. unfold dealer_turn_body.
  destruct (Z.gtb_spec (hand_total hand) 21); [lia|].
  destruct (Z.geb_spec (hand_total hand) 17); [lia|].
  rewrite pop_snoc. cbn [bind]. destruct c as [r s]. cbn [fst snd] in Hmsg.
  rewrite Hmsg. reflexivity.
Qed.

Lemma dealer_loop_draws (sock : socket) (deck hand : list card)
      (c : card) (msg : bytes) :
  hand_total hand < 17 ->
  pack_server_payload GAME_RESULT_NOTOVER (fst c) (snd c) = Ok msg ->
  dealer_loop (sock, deck ++ [c], hand)
  = dealer_loop (sendall sock msg, deck, hand ++ [c]).
Proof.
  intros H Hmsg. rewrite dealer_loop_step.
  rewrite (dealer_body_draws _ _ _ _ _ H Hmsg). reflexivity.
Qed.

Lemma dealer_loop_exhausted (sock : socket) (hand : list card) :
  hand_total hand < 17 ->
  dealer_loop (sock, [], hand) = Raise IndexError.
Proof.
  intros H. rewrite dealer_loop_step. unfold dealer_turn_body.
  destruct (Z.gtb_spec (hand_total hand) 21); [lia|].
  destruct (Z.geb_spec (hand_total hand) 17); [lia|].
  reflexivity.
Qed.

Lemma dealer_loop_outcome (st : table) (r : bool * table) :
  dealer_loop st = Ok r -> dealer_outcome st r.
Proof.
  unfold dealer_loop. revert r.
  apply (while_ind _ _ _ _ dealer_turn_decreases
           (fun st res => forall r, res = Ok r -> dealer_outcome st r));
    clear st.
  - intros [[sock deck] hand] r Hb r' E. apply Ok_eq in E. subst r'.
    revert Hb. unfold dealer_turn_body.
    destruct (Z.gtb_spec (hand_total hand) 21) as [Hgt|Hle].
    + intros [= <-]. cbn. split; [lia|]. split.
      * rewrite Z.gtb_ltb. symmetry. apply Z.ltb_lt. lia.
      * split; [reflexivity|]. exists []. rewrite !app_nil_r.
        repeat split. cbn. intros k Hk. lia.
    + destruct (Z.geb_spec (hand_total hand) 17) as [Hge|Hlt].
      * intros [= <-]. cbn. split; [lia|]. split.
        -- rewrite Z.gtb_ltb. symmetry. apply Z.ltb_ge. lia.
        -- split; [reflexivity|]. exists []. rewrite !app_nil_r.
           repeat split. cbn. intros k Hk. lia.
      * destruct (pop deck) as [[[rk su] deck1]|e]; [|discriminate].
        cbn [bind]. destruct (pack_server_payload _ rk su); discriminate.
  - discriminate.
  - intros [[sock deck] hand] [[sock1 deck1] hand1] Hb IH r E.
    specialize (IH r E). revert Hb. unfold dealer_turn_body.
    destruct (Z.gtb_spec (hand_total hand) 21) as [Hgt|Hle]; [discriminate|].
    destruct (Z.geb_spec (hand_total hand) 17) as [Hge|Hlt]; [discriminate|].
    destruct (pop deck) as [[[rk su] deck2]|e] eqn:Hpop; [|discriminate].
    cbn [bind]. destruct (pack_server_payload _ rk su) as [msg|e];
      [|discriminate].
    cbn. intros [= <- <- <-]. apply pop_Ok in Hpop. subst deck.
    destruct r as [busted [[sock' deck'] hand']]. cbn in IH |- *.
    destruct IH as (H17 & Hb & Hin & drawn & Hh & Hd & Hk).
    split; [exact H17|]. split; [exact Hb|]. split; [exact Hin|].
    exists ((rk, su) :: drawn). split; [|split].
    + rewrite Hh, <- app_assoc. reflexivity.
    + rewrite Hd. cbn [rev]. rewrite app_assoc. reflexivity.
    + intros [|k] Hlt'.
      * cbn [firstn]. rewrite app_nil_r. exact Hlt.
      * cbn [firstn]. specialize (Hk k). rewrite <- app_assoc in Hk.
        apply Hk. cbn [length] in Hlt'. lia.
Qed.
End Dealer.

(** ** A round *)

Section Round.
Import Protocol Server.

Lemma pack_card (c : card) :
  In c create_deck ->
  pack_server_payload GAME_RESULT_NOTOVER (fst c) (snd c)
  = Ok (card_message c).
Proof.
  destruct c as [r s]. intros H. apply create_deck_In in H.
  unfold pack_server_payload. cbn [fst snd].
  rewrite !pack_uint_Ok
    by (cbv [MAGIC_COOKIE MTYPE_PAYLOAD GAME_RESULT_NOTOVER]; cbn; lia).
  reflexivity.
Qed.

Lemma pack_card_pair (rank suit : Z) :
  In (rank, suit) create_deck ->
  pack_server_payload GAME_RESULT_NOTOVER rank suit
  = Ok (card_message (rank, suit)).
Proof. apply (pack_card (rank, suit)). Qed.

Lemma end_round_Ok (sock : socket) (game_result : Z) :
  0 <= game_result <= 255 ->
  end_round sock game_result
  = Ok (sendall sock (result_message game_result)).
Proof.
  intros H. unfold end_round, pack_server_payload.
  rewrite !pack_uint_Ok by (cbv [MAGIC_COOKIE MTYPE_PAYLOAD]; cbn; lia).
  reflexivity.
Qed.

Lemma pop_last {A} (l m : list A) (x : A) :
  pop (l ++ m ++ [x]) = Ok (x, l ++ m).
Proof. rewrite app_assoc. apply pop_snoc. Qed.

(** Two cards worth more than 21 are two Aces. *)
Lemma over_21_two_aces (p1 p2 : card) :
  21 < hand_total [p1; p2] ->
  fst p1 = 1 /\ fst p2 = 1 /\ hand_total [p1; p2] = 22.
Proof.
  rewrite hand_total_sum. cbn [sum_values]. intros H.
  pose proof (rank_value_le_11 (fst p1)) as Hle1.
  pose proof (rank_value_le_11 (fst p2)) as Hle2.
  assert (H1 : rank_value (fst p1) = 11) by lia.
  assert (H2 : rank_value (fst p2) = 11) by lia.
  split; [apply rank_value_11; exact H1|].
  split; [apply rank_value_11; exact H2|]. lia.
Qed.

Lemma initial_deal_Ok (sock : socket) (rest : list card)
      (hidden up p2 p1 : card) :
  In up create_deck -> In p2 create_deck -> In p1 create_deck ->
  initial_deal (rest ++ [hidden; up; p2; p1]) sock
  = Ok ([p1; p2], [up], hidden, rest,
        sendall (sendall (sendall sock (card_message p1)) (card_message p2))
                (card_message up)).
Proof.
  intros Hup H2 H1. unfold initial_deal. cbn [deal_player].
  change [hidden; up; p2; p1] with ([hidden; up; p2] ++ [p1]).
  rewrite pop_last. cbn [bind]. destruct p1 as [r1 s1].
  rewrite (pack_card_pair _ _ H1). cbn [bind].
  change [hidden; up; p2] with ([hidden; up] ++ [p2]).
  rewrite pop_last. cbn [bind]. destruct p2 as [r2 s2].
  rewrite (pack_card_pair _ _ H2). cbn [bind].
  change [hidden; up] with ([hidden] ++ [up]).
  rewrite pop_last. cbn [bind]. destruct up as [r3 s3].
  rewrite (pack_card_pair _ _ Hup). cbn [bind].
  rewrite pop_snoc. reflexivity.
Qed.

Lemma aces_last_Permutation (deck : list card) :
  Permutation deck (aces_last deck).
Proof.
  unfold aces_last. induction deck as [|c deck IH]; [constructor|].
  cbn [filter]. destruct (is_ace c); cbn [negb].
  - apply Permutation_cons_app. exact IH.
  - cbn [app]. constructor. exact IH.
Qed.
End Round.

(** ** The client's running total *)

Section ClientTotal.

Lemma client_rank_value (rank : Z) :
  Client.rank_value rank = Server.rank_value rank.
Proof. reflexivity. Qed.

Lemma client_hand_total_snoc (ranks : list Z) (v : Z) :
  Client.hand_total (ranks ++ [v]) = Client.hand_total ranks + v.
Proof.
  unfold Client.hand_total. rewrite fold_left_app. reflexivity.
Qed.

Lemma valued_total (hand : list Server.card) :
  Client.hand_total (map valued_as hand) = Server.hand_total hand.
Proof.
  induction hand as [|c hand IH] using rev_ind; [reflexivity|].
  rewrite map_app. cbn [map]. rewrite client_hand_total_snoc, hand_total_snoc.
  unfold valued_as at 2. rewrite client_rank_value, IH. reflexivity.
Qed.
End ClientTotal.

(** ** Two scenarios of the specification *)

Section Scenarios.
Import Protocol Server.

Lemma stacked_incl (top deck : list card) (c : card) :
  In c deck -> In c (stacked top deck).
Proof.
  intros H. unfold stacked. apply in_or_app.
  destruct (existsb (card_eqb c) top) eqn:E.
  - right. apply existsb_exists in E. destruct E as (c' & Hin & Heq).
    apply card_eqb_eq in Heq. subst c'. exact Hin.
  - left. apply filter_In. split; [exact H|]. rewrite E. reflexivity.
Qed.

(** The player is dealt (10,C) and (9,D), 19, and stands; the dealer shows
    (7,H), reveals (6,S), 13, draws (5,C), 18, and stands: WIN.  The
    decision reaches the server in two segments. *)
Example stand_on_19_against_18 :
  Permutation create_deck
              (stacked [(5, 0); (6, 3); (7, 2); (9, 1); (10, 0)] create_deck)
  /\ play_round (stacked [(5, 0); (6, 3); (7, 2); (9, 1); (10, 0)])
                (mkSocket (segments [firstn 3 stand_payload;
                                     skipn 3 stand_payload]) [])
     = Ok (GAME_RESULT_WIN,
           mkSocket []
                    (card_message (10, 0) ++ card_message (9, 1)
                       ++ card_message (7, 2) ++ card_message (6, 3)
                       ++ card_message (5, 0)
                       ++ result_message GAME_RESULT_WIN)).
Proof.
  split; [|vm_compute; reflexivity].
  apply NoDup_Permutation_bis.
  - apply create_deck_NoDup.
  - apply Nat.leb_le. reflexivity.
  - intros c H. apply stacked_incl. exact H.
Qed.

(** The peer closes after 4 of the 10 bytes of its decision: the round
    ends with [ConnectionError]. *)
Example closed_in_the_middle_of_a_decision :
  play_round (stacked [(5, 0); (6, 3); (7, 2); (9, 1); (10, 0)])
             (mkSocket (segments [firstn 4 stand_payload]) [])
  = Raise ConnectionError.
Proof. vm_compute. reflexivity. Qed.
End Scenarios.

(** * The claims of the specification *)

Section Claims.
Import Protocol Server.

(** C1, as stated, fails: a name is a valid argument of [pack_offer] and
    [pack_request] whatever its length (it is truncated, not refused), yet
    a name of 33 bytes comes back cut to 32, and a name that holds a
    U+0000 comes back cut at that character. *)
Lemma roundtrip_loses_long_and_nul_names :
  (m <- pack_offer 2005 long_name ;; unpack_offer m)
    = Ok (MAGIC_COOKIE, MTYPE_OFFER, 2005, repeat 97 32%nat)
  /\ (m <- pack_offer 2005 long_name ;; unpack_offer m)
     <> Ok (MAGIC_COOKIE, MTYPE_OFFER, 2005, long_name)
  /\ (m <- pack_request 3 nul_name ;; unpack_request m)
     = Ok (MAGIC_COOKIE, MTYPE_REQUEST, 3, [97])
  /\ (m <- pack_request 3 nul_name ;; unpack_request m)
     <> Ok (MAGIC_COOKIE, MTYPE_REQUEST, 3, nul_name).
Proof.
  split; [vm_compute; reflexivity|].
  split; [vm_compute; discriminate|].
  split; [vm_compute; reflexivity|].
  vm_compute; discriminate.
Qed.

(** C1, amended: decoding the encoding returns the magic marker, the type
    tag and the fields unchanged, for every message kind, when the port,
    round count, result, rank and suit fit their fields, the decision is
    one of the two tokens, and the name can be encoded in UTF-8 in at
    most 32 bytes and holds no U+0000. *)
Theorem codec_roundtrip
        (tcp_port rounds game_result card_rank card_suit : Z)
        (name decision : str) :
  0 <= tcp_port <= 65535 ->
  0 <= rounds <= 255 ->
  0 <= game_result <= 255 ->
  0 <= card_rank <= 65535 ->
  0 <= card_suit <= 255 ->
  decision = Hittt \/ decision = Stand ->
  name_fits name = true ->
  (m <- pack_offer tcp_port name ;; unpack_offer m)
    = Ok (MAGIC_COOKIE, MTYPE_OFFER, tcp_port, name)
  /\ (m <- pack_request rounds name ;; unpack_request m)
     = Ok (MAGIC_COOKIE, MTYPE_REQUEST, rounds, name)
  /\ (m <- pack_client_payload decision ;; unpack_client_payload m)
     = Ok (MAGIC_COOKIE, MTYPE_PAYLOAD, decision)
  /\ (m <- pack_server_payload game_result card_rank card_suit ;;
      unpack_server_payload m)
     = Ok (MAGIC_COOKIE, MTYPE_PAYLOAD, game_result, card_rank, card_suit).
Proof.
  intros Hp Hr Hg Hk Hs Hd Hn.
  split; [apply offer_roundtrip; assumption|].
  split; [apply request_roundtrip; assumption|].
  split; [apply client_payload_roundtrip; assumption|].
  apply server_payload_roundtrip; assumption.
Qed.

Lemma codec_roundtrip_witness :
  name_fits (str_of_string "Bossi") = true
  /\ (m <- pack_offer 2005 (str_of_string "Bossi") ;; unpack_offer m)
     = Ok (MAGIC_COOKIE, MTYPE_OFFER, 2005, str_of_string "Bossi")
  /\ (m <- pack_request 3 (str_of_string "Bossi") ;; unpack_request m)
     = Ok (MAGIC_COOKIE, MTYPE_REQUEST, 3, str_of_string "Bossi")
  /\ (m <- pack_client_payload Stand ;; unpack_client_payload m)
     = Ok (MAGIC_COOKIE, MTYPE_PAYLOAD, Stand)
  /\ (m <- pack_server_payload GAME_RESULT_NOTOVER 13 3 ;;
      unpack_server_payload m)
     = Ok (MAGIC_COOKIE, MTYPE_PAYLOAD, GAME_RESULT_NOTOVER, 13, 3).
Proof.
  split; [reflexivity|].
  apply (codec_roundtrip 2005 3 GAME_RESULT_NOTOVER 13 3
                         (str_of_string "Bossi") Stand).
  - lia.
  - lia.
  - unfold GAME_RESULT_NOTOVER. lia.
  - lia.
  - lia.
  - right. reflexivity.
  - reflexivity.
Defined.

(** C2: [rank_value] sends rank 1 to 11, ranks 11, 12 and 13 to 10 and a
    rank from 2 to 10 to itself; [hand_total] is the sum of [rank_value]
    over the cards of the hand, so that a card counts the same whatever
    the other cards are: two Aces make 22. *)
Theorem rank_value_and_hand_total (rank : Z) (hand more : list card) :
  (rank = 1 -> rank_value rank = 11)
  /\ (rank = 11 \/ rank = 12 \/ rank = 13 -> rank_value rank = 10)
  /\ (2 <= rank <= 10 -> rank_value rank = rank)
  /\ hand_total hand = sum_values hand
  /\ hand_total (hand ++ more) = hand_total hand + hand_total more
  /\ (forall s1 s2, hand_total [(1, s1); (1, s2)] = 22).
Proof.
  split; [intros ->; reflexivity|].
  split; [intros [-> | [-> | ->]]; reflexivity|].
  split.
  { intros H. unfold rank_value.
    destruct (Z.geb_spec rank 11); [lia|].
    destruct (Z.eqb_spec rank 1); [lia|reflexivity]. }
  split; [apply hand_total_sum|].
  split; [rewrite !hand_total_sum; apply sum_values_app|].
  reflexivity.
Qed.

Lemma rank_value_and_hand_total_witness :
  2 <= 7 <= 10 /\ rank_value 7 = 7
  /\ hand_total [(10, 0); (9, 1)] = sum_values [(10, 0); (9, 1)].
Proof.
  split; [lia|].
  pose proof (rank_value_and_hand_total 7 [(10, 0); (9, 1)] []) as H.
  destruct H as (_ & _ & H7 & Hsum & _).
  split; [apply H7; lia | exact Hsum].
Defined.

(** C3: [who_won] is LOSS when the player busted; otherwise WIN when the
    dealer busted; otherwise WIN, LOSS or TIE as the player's total is
    greater than, smaller than or equal to the dealer's. *)
Theorem who_won_outcome (player_hand dealer_hand : list card)
        (player_busted dealer_busted : bool) :
  (player_busted = true ->
   who_won player_hand dealer_hand player_busted dealer_busted
   = GAME_RESULT_LOSS)
  /\ (player_busted = false -> dealer_busted = true ->
      who_won player_hand dealer_hand player_busted dealer_busted
      = GAME_RESULT_WIN)
  /\ (player_busted = false -> dealer_busted = false ->
      (hand_total player_hand > hand_total dealer_hand ->
       who_won player_hand dealer_hand player_busted dealer_busted
       = GAME_RESULT_WIN)
      /\ (hand_total player_hand < hand_total dealer_hand ->
          who_won player_hand dealer_hand player_busted dealer_busted
          = GAME_RESULT_LOSS)
      /\ (hand_total player_hand = hand_total dealer_hand ->
          who_won player_hand dealer_hand player_busted dealer_busted
          = GAME_RESULT_TIE)).
Proof.
  unfold who_won. split; [intros ->; reflexivity|].
  split; [intros -> ->; reflexivity|].
  intros -> ->.
  destruct (Z.gtb_spec (hand_total player_hand) (hand_total dealer_hand));
    destruct (Z.ltb_spec (hand_total player_hand) (hand_total dealer_hand)).
  all: repeat split; intros; first [reflexivity | lia].
Qed.

Lemma who_won_outcome_witness :
  hand_total [(10, 0); (9, 1)] > hand_total [(7, 2); (6, 3); (5, 0)]
  /\ who_won [(10, 0); (9, 1)] [(7, 2); (6, 3); (5, 0)] false false
     = GAME_RESULT_WIN.
Proof.
  split; [reflexivity|].
  apply (who_won_outcome [(10, 0); (9, 1)] [(7, 2); (6, 3); (5, 0)]
                         false false); reflexivity.
Defined.
(** C4: the dealer's turn appends the hidden card to the dealer's hand and
    sends it, then loops on the total of the hand: above 21 the dealer is
    busted and stops; from 17 to 21 the dealer stands, not busted, without
    drawing; below 17 the dealer draws exactly one card from the end of the
    deck, appends and sends it, and repeats.  So at 16 the dealer draws and
    at 17 the dealer stops, whatever the cards; and when the turn returns,
    every card was drawn at a total below 17 and the final total is at least
    17, busted exactly when it is above 21. *)
Theorem dealer_turn_rule (client_sock : socket) (deck dealer_hand : list card)
        (dealer_hidden : card) :
  dealer_turn client_sock deck dealer_hand dealer_hidden
  = (msg <- pack_server_payload GAME_RESULT_NOTOVER
              (fst dealer_hidden) (snd dealer_hidden) ;;
     dealer_loop (sendall client_sock msg, deck, dealer_hand ++ [dealer_hidden]))
  /\ (forall sock deck hand,
        (21 < hand_total hand ->
         dealer_loop (sock, deck, hand) = Ok (true, (sock, deck, hand)))
        /\ (17 <= hand_total hand <= 21 ->
            dealer_loop (sock, deck, hand) = Ok (false, (sock, deck, hand)))
        /\ (hand_total hand < 17 ->
            forall c msg,
              pack_server_payload GAME_RESULT_NOTOVER (fst c) (snd c) = Ok msg ->
              dealer_loop (sock, deck ++ [c], hand)
              = dealer_loop (sendall sock msg, deck, hand ++ [c]))
        /\ (hand_total hand < 17 ->
            dealer_loop (sock, [], hand) = Raise IndexError)
        /\ (hand_total hand = 16 ->
            forall c msg,
              pack_server_payload GAME_RESULT_NOTOVER (fst c) (snd c) = Ok msg ->
              dealer_turn_body (sock, deck ++ [c], hand)
              = Continue (sendall sock msg, deck, hand ++ [c]))
        /\ (hand_total hand = 17 ->
            dealer_loop (sock, deck, hand) = Ok (false, (sock, deck, hand))))
  /\ (forall busted sock' deck' hand',
        dealer_turn client_sock deck dealer_hand dealer_hidden
        = Ok (busted, (sock', deck', hand')) ->
        17 <= hand_total hand'
        /\ busted = (hand_total hand' >? 21)
        /\ exists drawn,
            hand' = dealer_hand ++ dealer_hidden :: drawn
            /\ deck = deck' ++ rev drawn
            /\ forall k, (k < length drawn)%nat ->
                 hand_total (dealer_hand ++ dealer_hidden :: firstn k drawn)
                 < 17).
Proof.
  split; [destruct dealer_hidden; reflexivity|]. split.
  - intros sock deck0 hand.
    split; [apply dealer_loop_busted|].
    split; [apply dealer_loop_stands|].
    split; [intros H c msg; apply dealer_loop_draws; exact H|].
    split; [apply dealer_loop_exhausted|].
    split.
    + intros H c msg. apply dealer_body_draws. lia.
    + intros H. apply dealer_loop_stands. lia.
  - intros busted sock' deck' hand' E. unfold dealer_turn in E.
    destruct dealer_hidden as [r su].
    destruct (pack_server_payload _ r su) as [msg|e]; [|discriminate].
    cbn [bind] in E. apply dealer_loop_outcome in E. cbn in E.
    destruct E as (H17 & Hb & _ & drawn & Hh & Hd & Hk).
    split; [exact H17|]. split; [exact Hb|].
    exists drawn. split; [rewrite Hh, <- app_assoc; reflexivity|].
    split; [exact Hd|].
    intros k Hlt. specialize (Hk k Hlt). rewrite <- app_assoc in Hk. exact Hk.
Qed.

(** The dealer shows (7,H); the hidden card is (6,S), total 13; the deck
    ends with (5,C), then (9,D): the dealer draws (5,C), reaches 18 and
    stands. *)
Lemma dealer_turn_rule_witness :
  hand_total [(7, 2); (6, 3)] < 17
  /\ dealer_loop (mkSocket [] [], [(9, 1); (5, 0)], [(7, 2); (6, 3)])
     = dealer_loop (sendall (mkSocket [] []) (card_message (5, 0)),
                    [(9, 1)], [(7, 2); (6, 3)] ++ [(5, 0)]).
Proof.
  split; [reflexivity|].
  pose proof (dealer_turn_rule (mkSocket [] []) [] [] (7, 2)) as H.
  destruct H as (_ & H & _).
  destruct (H (mkSocket [] []) [(9, 1)] [(7, 2); (6, 3)])
    as (_ & _ & Hdraw & _).
  apply (Hdraw eq_refl (5, 0) (card_message (5, 0))). reflexivity.
Defined.
(** C5: when the first two cards drawn from the shuffled deck, the player's,
    total more than 21, they are two Aces worth 22; the round then reads no
    decision from the client and reveals no dealer card: the hands are left
    as dealt, the player is busted and the dealer is not, the deck has lost
    only the four cards of the deal, and the outcome sent is LOSS. *)
Theorem two_aces_lose_before_any_turn
        (shuffle : list card -> list card) (client_sock : socket)
        (rest : list card) (hidden up p2 p1 : card) :
  Permutation create_deck (shuffle create_deck) ->
  shuffle create_deck = rest ++ [hidden; up; p2; p1] ->
  21 < hand_total [p1; p2] ->
  fst p1 = 1 /\ fst p2 = 1 /\ hand_total [p1; p2] = 22
  /\ play_hands (shuffle create_deck) client_sock
     = Ok (mkHands [p1; p2] [up] true false, rest,
           mkSocket (inbox client_sock)
                    (outbox client_sock ++ card_message p1 ++ card_message p2
                       ++ card_message up))
  /\ play_round shuffle client_sock
     = Ok (GAME_RESULT_LOSS,
           mkSocket (inbox client_sock)
                    (outbox client_sock ++ card_message p1 ++ card_message p2
                       ++ card_message up ++ result_message GAME_RESULT_LOSS)).
Proof.
  intros Hperm Hdeck Hover.
  destruct (over_21_two_aces _ _ Hover) as (Ha1 & Ha2 & H22).
  split; [exact Ha1|]. split; [exact Ha2|]. split; [exact H22|].
  assert (Hin : forall c, In c [hidden; up; p2; p1] -> In c create_deck).
  { intros c Hc. apply (Permutation_in c (Permutation_sym Hperm)).
    rewrite Hdeck. apply in_or_app. right. exact Hc. }
  assert (Hhands :
            play_hands (shuffle create_deck) client_sock
            = Ok (mkHands [p1; p2] [up] true false, rest,
                  mkSocket (inbox client_sock)
                           (outbox client_sock ++ card_message p1
                              ++ card_message p2 ++ card_message up))).
  { unfold play_hands. rewrite Hdeck.
    rewrite initial_deal_Ok by (apply Hin; cbn; tauto).
    cbn [bind]. replace (hand_total [p1; p2] >? 21) with true
      by (symmetry; rewrite Z.gtb_ltb; apply Z.ltb_lt; exact Hover).
    unfold sendall. cbn [inbox outbox]. rewrite <- !app_assoc. reflexivity. }
  split; [exact Hhands|].
  unfold play_round. rewrite Hhands. cbn [bind].
  cbn [player_hand dealer_hand player_busted dealer_busted who_won].
  rewrite end_round_Ok by (unfold GAME_RESULT_LOSS; lia).
  cbn [bind]. unfold sendall. cbn [inbox outbox]. rewrite <- !app_assoc.
  reflexivity.
Qed.

Lemma two_aces_lose_before_any_turn_witness :
  21 < hand_total [(1, 3); (1, 2)]
  /\ play_round aces_last (mkSocket [] [])
     = Ok (GAME_RESULT_LOSS,
           mkSocket [] ([] ++ card_message (1, 3) ++ card_message (1, 2)
                           ++ card_message (1, 1)
                           ++ result_message GAME_RESULT_LOSS)).
Proof.
  split; [reflexivity|].
  apply (two_aces_lose_before_any_turn
           aces_last (mkSocket [] [])
           (filter (fun c => negb (is_ace c)) create_deck)
           (1, 0) (1, 1) (1, 2) (1, 3)).
  - apply aces_last_Permutation.
  - reflexivity.
  - reflexivity.
Defined.
Lemma utf8_encode_cp_scalar (c : Z) :
  match utf8_encode_cp c with
  | Some _ => utf8_encodable [c] = true
  | None => utf8_encodable [c] = false
  end.
Proof.
  unfold utf8_encode_cp, utf8_encodable, is_surrogate. cbn [forallb].
  destruct (Z.ltb_spec c 0), (Z.ltb_spec c 0x80), (Z.ltb_spec c 0x800),
    (Z.ltb_spec c 0x10000), (Z.ltb_spec c 0x110000), (Z.leb_spec 0 c),
    (Z.leb_spec 0xD800 c), (Z.ltb_spec c 0xE000);
    cbn; try reflexivity; lia.
Qed.

Lemma utf8_encode_total (s : str) :
  if utf8_encodable s then exists enc, utf8_encode s = Ok enc
  else utf8_encode s = Raise UnicodeEncodeError.
Proof.
  induction s as [|c s IH]; [exists []; reflexivity|].
  assert (E : utf8_encodable (c :: s)
              = utf8_encodable [c] && utf8_encodable s)
    by (unfold utf8_encodable; cbn [forallb]; rewrite andb_true_r;
        reflexivity).
  rewrite E. clear E.
  pose proof (utf8_encode_cp_scalar c) as Hc. cbn [utf8_encode].
  destruct (utf8_encode_cp c) as [bs|]; rewrite Hc; cbn [andb];
    [|reflexivity].
  destruct (utf8_encodable s).
  - destruct IH as [enc ->]. exists (bs ++ enc). reflexivity.
  - rewrite IH. reflexivity.
Qed.

Lemma pack_name_total (name : str) :
  if utf8_encodable name then exists b, pack_name name = Ok b
  else pack_name name = Raise UnicodeEncodeError.
Proof.
  pose proof (utf8_encode_total name) as H. unfold pack_name.
  destruct (utf8_encodable name).
  - destruct H as [enc ->]. cbn [bind]. eexists. reflexivity.
  - rewrite H. reflexivity.
Qed.

Lemma pack_uint_Raise (w : nat) (v : Z) :
  ~ 0 <= v < 256 ^ Z.of_nat w -> pack_uint w v = Raise StructError.
Proof.
  intros H. unfold pack_uint.
  destruct (Z.leb_spec 0 v), (Z.ltb_spec v (256 ^ Z.of_nat w));
    cbn; try reflexivity; lia.
Qed.

Lemma pack_uint_cases (w : nat) (v : Z) :
  (0 <= v < 256 ^ Z.of_nat w /\ pack_uint w v = Ok (to_be w v))
  \/ (~ 0 <= v < 256 ^ Z.of_nat w /\ pack_uint w v = Raise StructError).
Proof.
  destruct (Z.leb_spec 0 v), (Z.ltb_spec v (256 ^ Z.of_nat w));
    [left; split; [lia|apply pack_uint_Ok; lia]|..];
    right; (split; [lia|apply pack_uint_Raise; lia]).
Qed.

(** How [pack_offer] and [pack_request] end, case by case. *)
Lemma pack_offer_cases (tcp_port : Z) (name : str) :
  (utf8_encodable name = false
   /\ pack_offer tcp_port name = Raise UnicodeEncodeError)
  \/ (utf8_encodable name = true /\ ~ 0 <= tcp_port <= 65535
      /\ pack_offer tcp_port name = Raise StructError)
  \/ (utf8_encodable name = true /\ 0 <= tcp_port <= 65535
      /\ exists m, pack_offer tcp_port name = Ok m).
Proof.
  pose proof (pack_name_total name) as H. unfold pack_offer.
  destruct (utf8_encodable name).
  - right. destruct H as [b ->]. cbn [bind].
    rewrite !pack_uint_Ok by (cbv; split; congruence). cbn [bind].
    destruct (pack_uint_cases 2 tcp_port) as [[Hr ->] | [Hr ->]]; cbn [bind].
    + right. split; [reflexivity|]. split; [cbn in Hr; lia|].
      eexists. reflexivity.
    + left. split; [reflexivity|]. split; [cbn in Hr; lia|reflexivity].
  - left. rewrite H. auto.
Qed.

Lemma pack_request_cases (rounds : Z) (name : str) :
  (~ 0 <= rounds <= 255 /\ pack_request rounds name = Raise ValueError)
  \/ (0 <= rounds <= 255 /\ utf8_encodable name = false
      /\ pack_request rounds name = Raise UnicodeEncodeError)
  \/ (0 <= rounds <= 255 /\ utf8_encodable name = true
      /\ exists m, pack_request rounds name = Ok m).
Proof.
  pose proof (pack_name_total name) as H. unfold pack_request.
  destruct (Z.leb_spec 0 rounds), (Z.leb_spec rounds 255); cbn [andb negb];
    try (left; split; [lia|reflexivity]).
  right. destruct (utf8_encodable name).
  - right. destruct H as [b ->]. cbn [bind].
    rewrite !pack_uint_Ok by (cbv; split; congruence). cbn [bind].
    rewrite pack_uint_Ok by (cbn; lia). cbn [bind].
    split; [lia|]. split; [reflexivity|]. eexists. reflexivity.
  - left. rewrite H. split; [lia|]. auto.
Qed.

Lemma pack_server_payload_cases (game_result rank suit : Z) :
  (0 <= game_result <= 255 /\ 0 <= rank <= 65535 /\ 0 <= suit <= 255
   /\ exists m, pack_server_payload game_result rank suit = Ok m)
  \/ (~ (0 <= game_result <= 255 /\ 0 <= rank <= 65535 /\ 0 <= suit <= 255)
      /\ pack_server_payload game_result rank suit = Raise StructError).
Proof.
  unfold pack_server_payload.
  rewrite !pack_uint_Ok by (cbv; split; congruence). cbn [bind].
  destruct (pack_uint_cases 1 game_result) as [[Hg ->] | [Hg ->]];
    cbn [bind]; [|right; split; [cbn in Hg; lia|reflexivity]].
  destruct (pack_uint_cases 2 rank) as [[Hr ->] | [Hr ->]];
    cbn [bind]; [|right; split; [cbn in Hr; lia|reflexivity]].
  destruct (pack_uint_cases 1 suit) as [[Hs ->] | [Hs ->]];
    cbn [bind]; [|right; split; [cbn in Hs; lia|reflexivity]].
  left. cbn in Hg, Hr, Hs. repeat split; try lia. eexists. reflexivity.
Qed.

(** C6, amended: an encoder raises a [ValueError], the class itself or a
    subclass of it, exactly in these cases: [pack_request] with a round
    count outside 0..255 ([ValueError]) or with a name that has a lone
    surrogate ([UnicodeEncodeError]); [pack_client_payload] with a decision
    other than "Hittt" and "Stand" ([ValueError]); [pack_offer] and
    [pack_name] with a name that has a lone surrogate
    ([UnicodeEncodeError]).  [pack_server_payload] never does; a port, a
    result, a rank or a suit out of range is refused with [struct.error],
    which is not a [ValueError].  A name that can be encoded is never
    refused for its length: [pack_name] returns exactly 32 bytes, the first
    32 bytes of the encoding when it is longer, and the encoding padded
    with null bytes otherwise. *)
Theorem encoders_raise_ValueError_exactly
        (rounds tcp_port game_result card_rank card_suit : Z)
        (name decision : str) :
  (raises_ValueError (pack_request rounds name) = true
   <-> ~ 0 <= rounds <= 255 \/ utf8_encodable name = false)
  /\ (pack_request rounds name = Raise ValueError <-> ~ 0 <= rounds <= 255)
  /\ (raises_ValueError (pack_client_payload decision) = true
      <-> decision <> Hittt /\ decision <> Stand)
  /\ (raises_ValueError (pack_offer tcp_port name) = true
      <-> utf8_encodable name = false)
  /\ (raises_ValueError (pack_name name) = true
      <-> utf8_encodable name = false)
  /\ raises_ValueError (pack_server_payload game_result card_rank card_suit)
     = false
  /\ (utf8_encodable name = true ->
      (pack_offer tcp_port name = Raise StructError
       <-> ~ 0 <= tcp_port <= 65535))
  /\ (pack_server_payload game_result card_rank card_suit = Raise StructError
      <-> ~ (0 <= game_result <= 255 /\ 0 <= card_rank <= 65535
             /\ 0 <= card_suit <= 255))
  /\ (forall enc,
        utf8_encode name = Ok enc ->
        exists b,
          pack_name name = Ok b /\ length b = 32%nat
          /\ ((32 < length enc)%nat -> b = firstn 32 enc)
          /\ ((length enc <= 32)%nat ->
              b = enc ++ repeat x00 (32 - length enc))).
Proof.
  split.
  { destruct (pack_request_cases rounds name)
      as [[Hr ->] | [(Hr & Hn & ->) | (Hr & Hn & m & ->)]]; cbn.
    - split; auto.
    - split; auto.
    - split; [discriminate|]. intros [H | H]; [contradiction|congruence]. }
  split; [apply pack_request_ValueError|].
  split.
  { split.
    - intros H.
      destruct (str_eqb decision Hittt) eqn:E1;
        [apply str_eqb_eq in E1; subst decision; discriminate|].
      destruct (str_eqb decision Stand) eqn:E2;
        [apply str_eqb_eq in E2; subst decision; discriminate|].
      split; intros ->; [cbv in E1|cbv in E2]; discriminate.
    - intros H. apply pack_client_payload_ValueError in H. rewrite H.
      reflexivity. }
  split.
  { destruct (pack_offer_cases tcp_port name)
      as [[Hn ->] | [(Hn & Hp & ->) | (Hn & Hp & m & ->)]]; cbn;
      rewrite Hn; split; auto; discriminate. }
  split.
  { pose proof (pack_name_total name) as H.
    destruct (utf8_encodable name).
    - destruct H as [b ->]. cbn. split; discriminate.
    - rewrite H. cbn. split; auto. }
  split.
  { destruct (pack_server_payload_cases game_result card_rank card_suit)
      as [(_ & _ & _ & m & ->) | [_ ->]]; reflexivity. }
  split.
  { intros Hn. destruct (pack_offer_cases tcp_port name)
      as [[Hn' _] | [(_ & Hp & ->) | (_ & Hp & m & ->)]].
    - congruence.
    - split; auto.
    - split; [discriminate|]. intros H. contradiction. }
  split.
  { destruct (pack_server_payload_cases game_result card_rank card_suit)
      as [(Hg & Hr & Hs & m & ->) | [Hout ->]].
    - split; [discriminate|]. intros H. exfalso. apply H. auto.
    - split; auto. }
  apply pack_name_truncates_or_pads.
Qed.

(** Round count 256 is refused, and so are a name with a lone surrogate
    and the token "Hit"; port 65536 is refused too, but not with a
    [ValueError]; a name of 33 letters is cut to its first 32. *)
Lemma encoders_raise_ValueError_exactly_witness :
  raises_ValueError (pack_request 256 long_name) = true
  /\ raises_ValueError (pack_request 3 surrogate_name) = true
  /\ raises_ValueError (pack_client_payload (str_of_string "Hit")) = true
  /\ pack_offer 65536 long_name = Raise StructError
  /\ pack_name long_name = Ok (map byte_of_Z (repeat 97 32%nat)).
Proof.
  pose proof (encoders_raise_ValueError_exactly
                256 65536 0 0 0 long_name (str_of_string "Hit")) as H.
  destruct H as (Hreq & _ & Hdec & _ & _ & _ & Hport & _ & Hname).
  split; [apply Hreq; left; lia|].
  split.
  { apply (proj1 (encoders_raise_ValueError_exactly
                    3 2005 0 0 0 surrogate_name Hittt)).
    right. reflexivity. }
  split; [apply Hdec; split; discriminate|].
  split; [apply Hport; [reflexivity|lia]|].
  destruct (Hname (map byte_of_Z long_name) eq_refl) as (b & Hb & _ & Hcut & _).
  rewrite Hb. f_equal. apply Hcut. cbn. lia.
Defined.

(** With three rounds and a name that is a lone surrogate, [pack_request]
    raises [UnicodeEncodeError], which [except ValueError] catches, although
    the round count is in range; and so does [pack_offer], which the claim
    says never fails this way. *)
Lemma encoders_raise_other_ValueErrors :
  0 <= 3 <= 255
  /\ pack_request 3 surrogate_name = Raise UnicodeEncodeError
  /\ pack_offer 2005 surrogate_name = Raise UnicodeEncodeError
  /\ pack_name surrogate_name = Raise UnicodeEncodeError
  /\ is_ValueError UnicodeEncodeError = true.
Proof. repeat split; try reflexivity; lia. Qed.

(** C7: [create_deck] has exactly 52 cards, pairwise distinct, and they are
    the pairs of a rank from 1 to 13 and a suit from 0 to 3; [pop], the
    draw, removes and returns exactly the last card, so that the deck is one
    card shorter; on the empty deck it raises [IndexError], and it raises
    nothing else. *)
Theorem create_deck_and_draw :
  length create_deck = 52%nat
  /\ NoDup create_deck
  /\ (forall rank suit,
        In (rank, suit) create_deck <-> 1 <= rank <= 13 /\ 0 <= suit <= 3)
  /\ (forall (deck : list card) (c : card), pop (deck ++ [c]) = Ok (c, deck))
  /\ (forall (deck deck' : list card) (c : card),
        pop deck = Ok (c, deck') ->
        deck = deck' ++ [c] /\ length deck = S (length deck'))
  /\ pop (@nil card) = Raise IndexError
  /\ (forall (deck : list card) (e : exn),
        pop deck = Raise e -> deck = [] /\ e = IndexError).
Proof.
  split; [reflexivity|].
  split; [apply create_deck_NoDup|].
  split; [apply create_deck_In|].
  split; [intros deck c; apply pop_snoc|].
  split.
  { intros deck deck' c H. apply pop_Ok in H. subst deck.
    split; [reflexivity|]. rewrite length_app. cbn [length]. lia. }
  split; [reflexivity|].
  intros deck e. apply pop_Raise.
Qed.

(** The first draw from the unshuffled deck is the King of Spades and
    leaves 51 cards. *)
Lemma create_deck_and_draw_witness :
  exists deck',
    pop create_deck = Ok ((13, 3), deck') /\ length deck' = 51%nat.
Proof.
  destruct create_deck_and_draw as (Hlen & _ & _ & _ & Hpop & _).
  exists (removelast create_deck).
  assert (E : pop create_deck = Ok ((13, 3), removelast create_deck))
    by reflexivity.
  split; [exact E|].
  apply Hpop in E. destruct E as [_ E]. rewrite Hlen in E. congruence.
Defined.

(** C8, as stated, fails: a 10-byte message whose token holds a byte of
    0x80 or more makes [unpack_client_payload] raise instead of returning
    the token. *)
Lemma unpack_client_payload_fails_on_non_ascii :
  len garbled_decision = CLIENT_PAYLOAD_SIZE
  /\ unpack_client_payload garbled_decision = Raise UnicodeDecodeError.
Proof. split; reflexivity. Qed.

(** C8, amended: for every 10-byte input whose 5 token bytes are all below
    0x80, [unpack_client_payload] returns the cookie, the type and the token
    as it is on the wire, whether or not it is a legal decision; when some
    token byte is 0x80 or more it raises [UnicodeDecodeError]. *)
Theorem unpack_client_payload_raw_token (data : bytes) :
  len data = CLIENT_PAYLOAD_SIZE ->
  (forallb (fun b => Z_of_byte b <? 0x80) (slice 5 5 data) = true ->
   exists decision,
     unpack_client_payload data
     = Ok (from_be (slice 0 4 data), from_be (slice 4 1 data), decision)
     /\ decision = map Z_of_byte (slice 5 5 data)
     /\ ascii_encode decision = Ok (slice 5 5 data))
  /\ (forallb (fun b => Z_of_byte b <? 0x80) (slice 5 5 data) = false ->
      unpack_client_payload data = Raise UnicodeDecodeError).
Proof.
  intros Hlen. unfold unpack_client_payload.
  rewrite check_size_Ok by exact Hlen. cbn [bind]. unfold ascii_decode.
  split; intros Hascii; rewrite Hascii; [|reflexivity].
  eexists. split; [reflexivity|]. split; [reflexivity|].
  unfold ascii_encode.
  assert (H : forall bs,
             forallb (fun b => Z_of_byte b <? 0x80) bs = true ->
             forallb (fun c => (0 <=? c) && (c <? 0x80)) (map Z_of_byte bs)
             = true
             /\ map byte_of_Z (map Z_of_byte bs) = bs).
  { induction bs as [|b bs IH]; [split; reflexivity|].
    cbn [forallb map]. intros H. apply andb_prop in H. destruct H as [Hb Hbs].
    destruct (IH Hbs) as [IH1 IH2]. rewrite Hb, IH1, IH2, byte_of_Z_of_byte.
    pose proof (Z_of_byte_range b).
    replace (0 <=? Z_of_byte b) with true by (symmetry; apply Z.leb_le; lia).
    split; reflexivity. }
  destruct (H _ Hascii) as [H1 H2]. rewrite H1, H2. reflexivity.
Qed.

(** The token "Hello" is no legal decision, and is returned all the same. *)
Lemma unpack_client_payload_raw_token_witness :
  len ([xab; xcd; xdc; xba; x04] ++ list_byte_of_string "Hello")
  = CLIENT_PAYLOAD_SIZE
  /\ unpack_client_payload
       ([xab; xcd; xdc; xba; x04] ++ list_byte_of_string "Hello")
     = Ok (MAGIC_COOKIE, MTYPE_PAYLOAD, str_of_string "Hello").
Proof.
  split; [reflexivity|].
  destruct (unpack_client_payload_raw_token
              ([xab; xcd; xdc; xba; x04] ++ list_byte_of_string "Hello")
              eq_refl) as [H _].
  destruct (H eq_refl) as (decision & E & Hd & _).
  rewrite E, Hd. reflexivity.
Defined.

(** C9: [recv_exact], in the server and in the client alike, returns
    exactly the first [n] bytes of the stream however the stream is cut into
    segments, leaving the rest of the stream unread, when the peer sends at
    least [n] bytes before closing; otherwise it raises [ConnectionError].
    It never returns fewer than the [n] bytes requested. *)
Theorem recv_exact_all_or_ConnectionError (sock : socket) (n : Z) :
  match Server.recv_exact sock n with
  | Ok (data, sock') =>
      n <= len (stream sock)
      /\ len data = Z.max 0 n
      /\ data = firstn (Z.to_nat n) (stream sock)
      /\ stream sock' = skipn (Z.to_nat n) (stream sock)
      /\ outbox sock' = outbox sock
  | Raise e => e = ConnectionError /\ len (stream sock) < n
  end
  /\ Client.recv_exact sock n = Server.recv_exact sock n.
Proof.
  split; [apply recv_exact_spec | apply client_recv_exact_same].
Qed.

End Claims.

(** * Further properties of the code *)

(** ** Fixed-width integers, the other way round *)

Lemma from_be_cons (b : byte) (bs : bytes) :
  from_be (b :: bs) = Z_of_byte b * 256 ^ len bs + from_be bs.
Proof.
  unfold from_be at 1. cbn [fold_left]. rewrite from_be_acc. lia.
Qed.

Lemma from_be_range (bs : bytes) : 0 <= from_be bs < 256 ^ len bs.
Proof.
  induction bs as [|b bs IH].
  - cbn. lia.
  - rewrite from_be_cons. pose proof (Z_of_byte_range b) as Hb.
    unfold len in *. cbn [length]. rewrite Nat2Z.inj_succ, Z.pow_succ_r by lia.
    nia.
Qed.

Lemma to_be_add_multiple (w : nat) (v k : Z) :
  to_be w (v + k * 256 ^ Z.of_nat w) = to_be w v.
Proof.
  revert k. induction w as [|w IH]; intros k; [reflexivity|].
  cbn [to_be]. rewrite Nat2Z.inj_succ, Z.pow_succ_r by lia.
  assert (Hp : 0 < 256 ^ Z.of_nat w) by (apply Z.pow_pos_nonneg; lia).
  replace (v + k * (256 * 256 ^ Z.of_nat w))
    with (v + (k * 256) * 256 ^ Z.of_nat w) by lia.
  rewrite IH. f_equal. f_equal.
  rewrite Z.div_add by lia. rewrite Z.add_mod, Z.mod_mul by lia.
  rewrite Z.add_0_r, Z.mod_mod by lia. reflexivity.
Qed.

Lemma to_be_from_be (bs : bytes) : to_be (length bs) (from_be bs) = bs.
Proof.
  induction bs as [|b bs IH]; [reflexivity|].
  cbn [length to_be]. rewrite from_be_cons. unfold len.
  pose proof (from_be_range bs) as Hr. unfold len in Hr.
  assert (Hp : 0 < 256 ^ Z.of_nat (length bs))
    by (apply Z.pow_pos_nonneg; lia).
  f_equal.
  - rewrite Z.add_comm, Z.div_add by lia.
    rewrite Z.div_small, Z.add_0_l by lia.
    rewrite Z.mod_small by apply Z_of_byte_range. apply byte_of_Z_of_byte.
  - rewrite Z.add_comm, to_be_add_multiple. exact IH.
Qed.

Lemma pack_uint_from_be (w : nat) (bs : bytes) :
  length bs = w -> pack_uint w (from_be bs) = Ok bs.
Proof.
  intros <-. pose proof (from_be_range bs) as Hr. unfold len in Hr.
  rewrite pack_uint_Ok by exact Hr. rewrite to_be_from_be. reflexivity.
Qed.

(** ** More on the wire codec *)

Section MoreCodec.
Import Protocol.

Lemma pack_uint_Ok_inv (w : nat) (v : Z) (bs : bytes) :
  pack_uint w v = Ok bs -> bs = to_be w v /\ 0 <= v < 256 ^ Z.of_nat w.
Proof.
  unfold pack_uint.
  destruct (Z.leb_spec 0 v); destruct (Z.ltb_spec v (256 ^ Z.of_nat w));
    cbn [andb]; try discriminate.
  intros E. apply Ok_eq in E. split; [exact E | lia].
Qed.

Lemma check_size_Raise (size : Z) (data : bytes) :
  len data <> size -> check_size size data = Raise StructError.
Proof.
  intros H. unfold check_size.
  destruct (Z.eqb_spec (len data) size); [contradiction | reflexivity].
Qed.

Lemma check_size_inv (size : Z) (data : bytes) (u : unit) :
  check_size size data = Ok u -> len data = size.
Proof.
  unfold check_size. destruct (Z.eqb_spec (len data) size); [auto|discriminate].
Qed.

Lemma pack_server_payload_Ok_inv (game_result rank suit : Z) (msg : bytes) :
  pack_server_payload game_result rank suit = Ok msg ->
  msg = to_be 4 MAGIC_COOKIE ++ to_be 1 MTYPE_PAYLOAD ++ to_be 1 game_result
          ++ to_be 2 rank ++ to_be 1 suit
  /\ 0 <= game_result <= 255 /\ 0 <= rank <= 65535 /\ 0 <= suit <= 255.
Proof.
  unfold pack_server_payload.
  destruct (pack_uint 4 MAGIC_COOKIE) as [c|] eqn:Ec; [|discriminate].
  destruct (pack_uint 1 MTYPE_PAYLOAD) as [t|] eqn:Et; [|discriminate].
  destruct (pack_uint 1 game_result) as [r|] eqn:Er; [|discriminate].
  destruct (pack_uint 2 rank) as [k|] eqn:Ek; [|discriminate].
  destruct (pack_uint 1 suit) as [u|] eqn:Eu; [|discriminate].
  cbn [bind]. intros E. apply Ok_eq in E. subst msg.
  apply pack_uint_Ok_inv in Ec, Et, Er, Ek, Eu.
  destruct Ec as [-> _], Et as [-> _], Er as [-> Hr], Ek as [-> Hk],
    Eu as [-> Hu].
  cbn in Hr, Hk, Hu. repeat split; lia.
Qed.

Lemma len_to_be (w : nat) (v : Z) : len (to_be w v) = Z.of_nat w.
Proof. unfold len. rewrite to_be_length. reflexivity. Qed.

Lemma len_pack_chars (n : nat) (b : bytes) : len (pack_chars n b) = Z.of_nat n.
Proof. unfold len. rewrite pack_chars_length. reflexivity. Qed.

Lemma pack_offer_size (tcp_port : Z) (name : str) (m : bytes) :
  pack_offer tcp_port name = Ok m -> len m = OFFER_SIZE.
Proof.
  unfold pack_offer. destruct (pack_name name) as [b|]; [|discriminate].
  cbn [bind].
  destruct (pack_uint 4 MAGIC_COOKIE) as [c|] eqn:Ec; [|discriminate].
  destruct (pack_uint 1 MTYPE_OFFER) as [t|] eqn:Et; [|discriminate].
  destruct (pack_uint 2 tcp_port) as [q|] eqn:Eq; [|discriminate].
  cbn [bind]. intros E. apply Ok_eq in E. subst m.
  apply pack_uint_Ok_inv in Ec, Et, Eq.
  destruct Ec as [-> _], Et as [-> _], Eq as [-> _].
  rewrite !len_app, !len_to_be, len_pack_chars. reflexivity.
Qed.

Lemma pack_request_size (rounds : Z) (name : str) (m : bytes) :
  pack_request rounds name = Ok m -> len m = REQUEST_SIZE.
Proof.
  unfold pack_request. destruct (negb _); [discriminate|].
  destruct (pack_name name) as [b|]; [|discriminate].
  cbn [bind].
  destruct (pack_uint 4 MAGIC_COOKIE) as [c|] eqn:Ec; [|discriminate].
  destruct (pack_uint 1 MTYPE_REQUEST) as [t|] eqn:Et; [|discriminate].
  destruct (pack_uint 1 rounds) as [q|] eqn:Eq; [|discriminate].
  cbn [bind]. intros E. apply Ok_eq in E. subst m.
  apply pack_uint_Ok_inv in Ec, Et, Eq.
  destruct Ec as [-> _], Et as [-> _], Eq as [-> _].
  rewrite !len_app, !len_to_be, len_pack_chars. reflexivity.
Qed.

Lemma pack_client_payload_size (decision : str) (m : bytes) :
  pack_client_payload decision = Ok m -> len m = CLIENT_PAYLOAD_SIZE.
Proof.
  unfold pack_client_payload. destruct (negb _); [discriminate|].
  destruct (ascii_encode decision) as [b|]; [|discriminate].
  cbn [bind].
  destruct (pack_uint 4 MAGIC_COOKIE) as [c|] eqn:Ec; [|discriminate].
  destruct (pack_uint 1 MTYPE_PAYLOAD) as [t|] eqn:Et; [|discriminate].
  cbn [bind]. intros E. apply Ok_eq in E. subst m.
  apply pack_uint_Ok_inv in Ec, Et. destruct Ec as [-> _], Et as [-> _].
  rewrite !len_app, !len_to_be, len_pack_chars. reflexivity.
Qed.

Lemma pack_server_payload_size (game_result rank suit : Z) (m : bytes) :
  pack_server_payload game_result rank suit = Ok m ->
  len m = SERVER_PAYLOAD_SIZE.
Proof.
  intros H. apply pack_server_payload_Ok_inv in H. destruct H as [-> _].
  rewrite !len_app, !len_to_be. reflexivity.
Qed.

(** X1: a message that an encoder returns has the fixed size of its kind:
    39 bytes for an offer, 38 for a request, 10 for a decision and 9 for a
    card or result. *)
Theorem packed_messages_have_their_size
        (tcp_port rounds game_result rank suit : Z) (name decision : str)
        (m : bytes) :
  (pack_offer tcp_port name = Ok m -> len m = 39)
  /\ (pack_request rounds name = Ok m -> len m = 38)
  /\ (pack_client_payload decision = Ok m -> len m = 10)
  /\ (pack_server_payload game_result rank suit = Ok m -> len m = 9).
Proof.
  split; [apply pack_offer_size|].
  split; [apply pack_request_size|].
  split; [apply pack_client_payload_size | apply pack_server_payload_size].
Qed.

Lemma packed_messages_have_their_size_witness :
  pack_request 3 (str_of_string "OFRIELOV")
  = Ok ([xab; xcd; xdc; xba; x03; x03]
          ++ pack_chars 32 (list_byte_of_string "OFRIELOV"))
  /\ len ([xab; xcd; xdc; xba; x03; x03]
            ++ pack_chars 32 (list_byte_of_string "OFRIELOV")) = 38.
Proof.
  assert (E : pack_request 3 (str_of_string "OFRIELOV")
              = Ok ([xab; xcd; xdc; xba; x03; x03]
                      ++ pack_chars 32 (list_byte_of_string "OFRIELOV")))
    by reflexivity.
  split; [exact E|].
  apply (packed_messages_have_their_size
           0 3 0 0 0 (str_of_string "OFRIELOV") [] _). exact E.
Defined.
End MoreCodec.

Section Decoders.
Import Protocol.

(** Names the bytes of a buffer whose length is known. *)
Ltac explode data H :=
  unfold len in H;
  apply (f_equal Z.to_nat) in H; rewrite Nat2Z.id in H; cbn in H;
  repeat (destruct data as [|? data];
          [discriminate H|]; cbn [length] in H; apply Nat.succ_inj in H);
  destruct data; [clear H | discriminate H].

Lemma to_be_of_from_be (w : nat) (bs : bytes) (v : Z) :
  length bs = w -> from_be bs = v -> bs = to_be w v.
Proof. intros <- <-. symmetry. apply to_be_from_be. Qed.

Lemma from_be_bound (bs : bytes) (w : nat) :
  length bs = w -> 0 <= from_be bs <= 256 ^ Z.of_nat w - 1.
Proof.
  intros <-. pose proof (from_be_range bs) as H. unfold len in H. lia.
Qed.

(** X2: every decoder refuses, with [struct.error], an input that has not
    exactly the size of its message; and [unpack_server_payload] accepts
    every input of 9 bytes, returning fields within the range of their
    width. *)
Theorem decoders_need_the_exact_size (data : bytes) :
  (len data <> 39 -> unpack_offer data = Raise StructError)
  /\ (len data <> 38 -> unpack_request data = Raise StructError)
  /\ (len data <> 10 -> unpack_client_payload data = Raise StructError)
  /\ (len data <> 9 -> unpack_server_payload data = Raise StructError)
  /\ (len data = 9 ->
      exists cookie msg_type game_result rank suit,
        unpack_server_payload data
        = Ok (cookie, msg_type, game_result, rank, suit)
        /\ 0 <= cookie <= 4294967295 /\ 0 <= msg_type <= 255
        /\ 0 <= game_result <= 255 /\ 0 <= rank <= 65535
        /\ 0 <= suit <= 255).
Proof.
  split; [intros H; unfold unpack_offer;
          rewrite check_size_Raise by exact H; reflexivity|].
  split; [intros H; unfold unpack_request;
          rewrite check_size_Raise by exact H; reflexivity|].
  split; [intros H; unfold unpack_client_payload;
          rewrite check_size_Raise by exact H; reflexivity|].
  split; [intros H; unfold unpack_server_payload;
          rewrite check_size_Raise by exact H; reflexivity|].
  intros H. unfold unpack_server_payload.
  rewrite check_size_Ok by exact H. cbn [bind].
  explode data H. do 5 eexists. split; [reflexivity|].
  unfold slice. cbn [skipn firstn].
  split; [exact (from_be_bound [b; b0; b1; b2] 4 eq_refl)|].
  split; [exact (from_be_bound [b3] 1 eq_refl)|].
  split; [exact (from_be_bound [b4] 1 eq_refl)|].
  split; [exact (from_be_bound [b5; b6] 2 eq_refl)|].
  exact (from_be_bound [b7] 1 eq_refl).
Qed.

Lemma decoders_need_the_exact_size_witness :
  len (list_byte_of_string "Stand") <> 10
  /\ unpack_client_payload (list_byte_of_string "Stand") = Raise StructError.
Proof.
  split; [discriminate|].
  apply (decoders_need_the_exact_size (list_byte_of_string "Stand")).
  discriminate.
Defined.

(** X3: a 9-byte message that decodes to the magic cookie and the payload
    type is the message [pack_server_payload] builds from the three fields
    decoded; and a 10-byte message that decodes to the cookie, the payload
    type and one of the two decisions is the message [pack_client_payload]
    builds from that decision. *)
Theorem payloads_decode_then_encode (data : bytes)
        (game_result rank suit : Z) (decision : str) :
  (unpack_server_payload data
   = Ok (MAGIC_COOKIE, MTYPE_PAYLOAD, game_result, rank, suit) ->
   pack_server_payload game_result rank suit = Ok data)
  /\ (unpack_client_payload data = Ok (MAGIC_COOKIE, MTYPE_PAYLOAD, decision) ->
      decision = Hittt \/ decision = Stand ->
      pack_client_payload decision = Ok data).
Proof.
  split.
  - unfold unpack_server_payload.
    destruct (check_size SERVER_PAYLOAD_SIZE data) as [[]|] eqn:Hsz;
      [|discriminate].
    apply check_size_inv in Hsz. cbn [bind]. explode data Hsz.
    unfold slice. cbn [skipn firstn]. intros E. apply Ok_eq in E.
    injection E as Hc Ht Hr Hk Hs.
    unfold pack_server_payload. rewrite Hc, Ht, Hr, Hk, Hs.
    rewrite !pack_uint_from_be by reflexivity. reflexivity.
  - unfold unpack_client_payload.
    destruct (check_size CLIENT_PAYLOAD_SIZE data) as [[]|] eqn:Hsz;
      [|discriminate].
    apply check_size_inv in Hsz. cbn [bind]. explode data Hsz.
    unfold slice. cbn [skipn firstn].
    destruct (ascii_decode _) as [d|] eqn:Hd; [|discriminate].
    cbn [bind]. intros E. apply Ok_eq in E. injection E as Hc Ht ->.
    unfold ascii_decode in Hd. destruct (forallb _ _); [|discriminate].
    apply Ok_eq in Hd. cbn [map] in Hd.
    symmetry in Hc, Ht.
    apply (to_be_of_from_be 4 [b; b0; b1; b2] _ eq_refl) in Hc.
    apply (to_be_of_from_be 1 [b3] _ eq_refl) in Ht.
    intros Hdec.
    assert (Hbytes : [b4; b5; b6; b7; b8] = map byte_of_Z d).
    { rewrite Hd. cbn [map]. rewrite !byte_of_Z_of_byte. reflexivity. }
    clear Hd.
    change [b; b0; b1; b2; b3; b4; b5; b6; b7; b8]
      with ([b; b0; b1; b2] ++ [b3] ++ [b4; b5; b6; b7; b8]).
    rewrite Hc, Ht, Hbytes.
    destruct Hdec as [-> | ->]; reflexivity.
Qed.

Lemma payloads_decode_then_encode_witness :
  unpack_client_payload stand_payload = Ok (MAGIC_COOKIE, MTYPE_PAYLOAD, Stand)
  /\ pack_client_payload Stand = Ok stand_payload.
Proof.
  split; [reflexivity|].
  apply (payloads_decode_then_encode stand_payload 0 0 0 Stand).
  - reflexivity.
  - right. reflexivity.
Defined.
End Decoders.

(** ** Names, the other way round *)

(** Turns the boolean tests that hold into facts [lia] can use. *)
Ltac bool_facts :=
  repeat match goal with
    | H : (_ && _) = true |- _ => apply andb_prop in H; destruct H
    | H : negb _ = true |- _ => apply negb_true_iff in H
    | H : (_ && _) = false |- _ => apply andb_false_iff in H; destruct H
    | H : (_ <=? _) = true |- _ => apply Z.leb_le in H
    | H : (_ <? _) = true |- _ => apply Z.ltb_lt in H
    | H : (_ <=? _) = false |- _ => apply Z.leb_gt in H
    | H : (_ <? _) = false |- _ => apply Z.ltb_ge in H
    end.

Lemma byte_of_Z_eq (b : byte) (z : Z) : z = Z_of_byte b -> byte_of_Z z = b.
Proof. intros ->. apply byte_of_Z_of_byte. Qed.

Lemma decoded_Ok (c : Z) (r : result str) (s : str) :
  decoded c r = Ok s -> exists s', r = Ok s' /\ s = c :: s'.
Proof.
  unfold decoded. destruct r as [s'|]; [|discriminate].
  cbn [bind]. intros E. apply Ok_eq in E. eauto.
Qed.

(** The decoder accepts only what the encoder writes: the first character
    it returns is encoded by the first bytes of its input. *)
Lemma utf8_decode_first (b0 : byte) (r0 : bytes) (s : str) :
  utf8_decode (b0 :: r0) = Ok s ->
  exists c cb rest s',
    s = c :: s' /\ utf8_encode_cp c = Some cb
    /\ b0 :: r0 = cb ++ rest /\ utf8_decode rest = Ok s'.
Proof.
  cbn [utf8_decode]. cbv zeta.
  pose proof (Z_of_byte_range b0) as R0.
  destruct (Z.ltb_spec (Z_of_byte b0) 0x80).
  { intros E. apply decoded_Ok in E. destruct E as (s' & E & ->).
    exists (Z_of_byte b0), [b0], r0, s'. repeat split; [|exact E].
    unfold utf8_encode_cp. decide_cmp. rewrite byte_of_Z_of_byte.
    reflexivity. }
  destruct (Z.ltb_spec (Z_of_byte b0) 0xC2); [discriminate|].
  destruct (Z.ltb_spec (Z_of_byte b0) 0xE0).
  { destruct r0 as [|b1 r1]; [discriminate|].
    pose proof (Z_of_byte_range b1) as R1.
    unfold is_cont. destruct (_ && _) eqn:C1; [|discriminate]. bool_facts.
    intros E. apply decoded_Ok in E. destruct E as (s' & E & ->).
    eexists _, [b0; b1], r1, s'. repeat split; [|exact E].
    unfold utf8_encode_cp, is_surrogate. decide_cmp.
    f_equal. f_equal; [|f_equal]; apply byte_of_Z_eq; zdm. }
  destruct (Z.ltb_spec (Z_of_byte b0) 0xF0).
  { destruct r0 as [|b1 [|b2 r2]]; try discriminate.
    pose proof (Z_of_byte_range b1) as R1.
    pose proof (Z_of_byte_range b2) as R2.
    unfold is_cont, is_surrogate.
    destruct (_ && _ && _ && _) eqn:C1; [|discriminate]. bool_facts.
    all: intros E; apply decoded_Ok in E; destruct E as (s' & E & ->).
    all: eexists _, [b0; b1; b2], r2, s'; repeat split; [|exact E].
    all: unfold utf8_encode_cp, is_surrogate; decide_cmp.
    all: f_equal; f_equal; [|f_equal; [|f_equal]]; apply byte_of_Z_eq; zdm. }
  destruct (Z.ltb_spec (Z_of_byte b0) 0xF5); [|discriminate].
  destruct r0 as [|b1 [|b2 [|b3 r3]]]; try discriminate.
  pose proof (Z_of_byte_range b1) as R1.
  pose proof (Z_of_byte_range b2) as R2.
  pose proof (Z_of_byte_range b3) as R3.
  unfold is_cont.
  destruct (_ && _ && _ && _ && _) eqn:C1; [|discriminate]. bool_facts.
  intros E. apply decoded_Ok in E. destruct E as (s' & E & ->).
  eexists _, [b0; b1; b2; b3], r3, s'. repeat split; [|exact E].
  unfold utf8_encode_cp, is_surrogate. decide_cmp.
  f_equal. f_equal; [|f_equal; [|f_equal; [|f_equal]]]; apply byte_of_Z_eq; zdm.
Qed.

Lemma utf8_encode_app (a b : str) (ea eb : bytes) :
  utf8_encode a = Ok ea -> utf8_encode b = Ok eb ->
  utf8_encode (a ++ b) = Ok (ea ++ eb).
Proof.
  revert ea. induction a as [|c a IH]; intros ea.
  - cbn. intros E. apply Ok_eq in E. subst ea. auto.
  - cbn [utf8_encode app]. destruct (utf8_encode_cp c) as [cb|]; [|discriminate].
    destruct (utf8_encode a) as [ea'|]; [|discriminate].
    cbn [bind]. intros E Hb. apply Ok_eq in E. subst ea.
    rewrite (IH ea' eq_refl Hb). cbn [bind]. rewrite app_assoc. reflexivity.
Qed.

Lemma utf8_encode_decode (bs : bytes) (s : str) :
  utf8_decode bs = Ok s -> utf8_encode s = Ok bs.
Proof.
  remember (length bs) as n eqn:Hn. revert bs s Hn.
  induction n as [n IH] using lt_wf_ind. intros bs s Hn.
  destruct bs as [|b0 r0].
  - cbn. intros E. apply Ok_eq in E. subst s. reflexivity.
  - intros E. apply utf8_decode_first in E.
    destruct E as (c & cb & rest & s' & -> & Hc & Hsplit & Hrest).
    assert (Hcb : cb <> []).
    { intros ->. unfold utf8_encode_cp in Hc.
      repeat match type of Hc with
             | (if ?b then _ else _) = _ => destruct b
             end; discriminate. }
    assert (Hlt : (length rest < n)%nat).
    { subst n. rewrite Hsplit, length_app.
      destruct cb; [contradiction|]. cbn [length]. lia. }
    cbn [utf8_encode]. rewrite Hc, (IH _ Hlt rest s' eq_refl Hrest).
    cbn [bind]. rewrite Hsplit. reflexivity.
Qed.

Lemma utf8_encode_nul_byte (s : str) (enc : bytes) :
  utf8_encode s = Ok enc -> In 0 s -> In x00 enc.
Proof.
  revert enc. induction s as [|c s IH]; intros enc; [intros _ []|].
  cbn [utf8_encode]. destruct (utf8_encode_cp c) as [cb|] eqn:Hc;
    [|discriminate].
  destruct (utf8_encode s) as [rest|]; [|discriminate].
  cbn [bind]. intros E Hin. apply Ok_eq in E. subst enc.
  apply in_or_app. destruct Hin as [-> | Hin].
  - left. vm_compute in Hc. apply Some_eq in Hc. subst cb. now left.
  - right. apply IH; [reflexivity | exact Hin].
Qed.

Lemma before_nul_no_nul (bs : bytes) : ~ In x00 (before_nul bs).
Proof.
  induction bs as [|b bs IH]; [intros []|].
  cbn [before_nul]. destruct (Byte.eqb b x00) eqn:E; [intros []|].
  intros [-> | H]; [discriminate E | contradiction].
Qed.

Lemma before_nul_length (bs : bytes) :
  (length (before_nul bs) <= length bs)%nat.
Proof.
  induction bs as [|b bs IH]; [reflexivity|].
  cbn [before_nul]. destruct (Byte.eqb b x00); cbn [length]; lia.
Qed.

Section DecodedNames.
Import Protocol.

(** What [unpack_name] returns from a field of at most 32 bytes can be
    packed again without loss. *)
Lemma unpack_name_fits (field : bytes) (name : str) :
  (length field <= NAME_LEN)%nat ->
  unpack_name field = Ok name -> name_fits name = true.
Proof.
  intros Hlen E. unfold unpack_name in E.
  pose proof (utf8_encode_decode _ _ E) as Henc.
  unfold name_fits. rewrite Henc. apply andb_true_intro. split.
  - apply Nat.leb_le. pose proof (before_nul_length field). lia.
  - apply forallb_forall. intros c Hc.
    destruct (Z.eqb_spec c 0) as [-> | _]; [|reflexivity].
    exfalso. apply (before_nul_no_nul field).
    apply (utf8_encode_nul_byte _ _ Henc Hc).
Qed.

Lemma slice_length_le (off n : nat) (data : bytes) :
  (length (slice off n data) <= n)%nat.
Proof. unfold slice. rewrite length_firstn. lia. Qed.

(** X4: the fields of an offer or of a request that a decoder returns are
    valid arguments of the encoder, and encoding them and decoding again
    returns them unchanged: the port and the round count fit their fields,
    and the name is at most 32 bytes long in UTF-8 and has no U+0000. *)
Theorem decoded_offers_and_requests_reencode (data : bytes)
        (cookie msg_type number : Z) (name : str) :
  (unpack_offer data = Ok (cookie, msg_type, number, name) ->
   0 <= number <= 65535 /\ name_fits name = true
   /\ (m <- pack_offer number name ;; unpack_offer m)
      = Ok (MAGIC_COOKIE, MTYPE_OFFER, number, name))
  /\ (unpack_request data = Ok (cookie, msg_type, number, name) ->
      0 <= number <= 255 /\ name_fits name = true
      /\ (m <- pack_request number name ;; unpack_request m)
         = Ok (MAGIC_COOKIE, MTYPE_REQUEST, number, name)).
Proof.
  split.
  - unfold unpack_offer.
    destruct (check_size OFFER_SIZE data) as [[]|]; [|discriminate].
    cbn [bind].
    destruct (unpack_name (slice 7 NAME_LEN data)) as [nm|] eqn:Hn;
      [|discriminate].
    cbn [bind]. intros E. apply Ok_eq in E. injection E as _ _ Hp <-.
    assert (Hfits : name_fits name = true)
      by (eapply unpack_name_fits; [apply slice_length_le | exact Hn]).
    assert (Hport : 0 <= number <= 65535).
    { subst number.
      pose proof (from_be_range (slice 5 2 data)) as R.
      pose proof (slice_length_le 5 2 data) as L. unfold len in R.
      assert (256 ^ Z.of_nat (length (slice 5 2 data)) <= 256 ^ 2)
        by (apply Z.pow_le_mono_r; lia).
      lia. }
    split; [exact Hport|]. split; [exact Hfits|].
    apply offer_roundtrip; assumption.
  - unfold unpack_request.
    destruct (check_size REQUEST_SIZE data) as [[]|]; [|discriminate].
    cbn [bind].
    destruct (unpack_name (slice 6 NAME_LEN data)) as [nm|] eqn:Hn;
      [|discriminate].
    cbn [bind]. intros E. apply Ok_eq in E. injection E as _ _ Hp <-.
    assert (Hfits : name_fits name = true)
      by (eapply unpack_name_fits; [apply slice_length_le | exact Hn]).
    assert (Hrounds : 0 <= number <= 255).
    { subst number.
      pose proof (from_be_range (slice 5 1 data)) as R.
      pose proof (slice_length_le 5 1 data) as L. unfold len in R.
      assert (256 ^ Z.of_nat (length (slice 5 1 data)) <= 256 ^ 1)
        by (apply Z.pow_le_mono_r; lia).
      lia. }
    split; [exact Hrounds|]. split; [exact Hfits|].
    apply request_roundtrip; assumption.
Qed.
End DecodedNames.

(** ** What becomes of a name on the wire *)

Section NamesOnTheWire.
Import Protocol.

Ltac field_in_range :=
  cbv [MAGIC_COOKIE MTYPE_OFFER MTYPE_REQUEST MTYPE_PAYLOAD]; cbn; lia.

Ltac fields_of_message :=
  repeat first
    [ rewrite slice_app_here by (rewrite ?to_be_length; reflexivity)
    | rewrite slice_all by first [assumption | apply to_be_length]
    | rewrite slice_app_skip by (rewrite ?to_be_length; cbn; lia);
      rewrite ?to_be_length; cbn [Nat.sub] ];
  rewrite ?from_be_to_be_small by field_in_range.

Ltac size_of_message :=
  unfold len; rewrite ?length_app, ?to_be_length, ?pack_chars_length;
  try match goal with
      | H : length ?b = _ |- context [length ?b] => rewrite H
      end;
  reflexivity.

(** Decoding an offer or a request just encoded comes down to decoding
    the name field. *)
Lemma unpack_pack_offer (tcp_port : Z) (name : str) (field : bytes) :
  0 <= tcp_port <= 65535 -> pack_name name = Ok field ->
  (m <- pack_offer tcp_port name ;; unpack_offer m)
  = (nm <- unpack_name field ;; Ok (MAGIC_COOKIE, MTYPE_OFFER, tcp_port, nm)).
Proof.
  intros Hp Hb. pose proof (pack_name_length _ _ Hb) as Hlen.
  unfold pack_offer. rewrite Hb. cbn [bind].
  rewrite !pack_uint_Ok by field_in_range. cbn [bind].
  rewrite pack_chars_exact by exact Hlen.
  unfold unpack_offer. rewrite check_size_Ok by size_of_message.
  cbn [bind]. fields_of_message. reflexivity.
Qed.

Lemma unpack_pack_request (rounds : Z) (name : str) (field : bytes) :
  0 <= rounds <= 255 -> pack_name name = Ok field ->
  (m <- pack_request rounds name ;; unpack_request m)
  = (nm <- unpack_name field ;;
     Ok (MAGIC_COOKIE, MTYPE_REQUEST, rounds, nm)).
Proof.
  intros Hp Hb. pose proof (pack_name_length _ _ Hb) as Hlen.
  unfold pack_request.
  replace ((0 <=? rounds) && (rounds <=? 255)) with true
    by (symmetry; apply andb_true_intro; split; lia).
  cbn [negb]. rewrite Hb. cbn [bind].
  rewrite !pack_uint_Ok by field_in_range. cbn [bind].
  rewrite pack_chars_exact by exact Hlen.
  unfold unpack_request. rewrite check_size_Ok by size_of_message.
  cbn [bind]. fields_of_message. reflexivity.
Qed.

Lemma utf8_encode_ascii (s : str) :
  is_ascii s = true -> utf8_encode s = Ok (map byte_of_Z s).
Proof.
  unfold is_ascii. induction s as [|c s IH]; [reflexivity|].
  cbn [forallb]. intros H. apply andb_prop in H. destruct H as [Hc Hs].
  bool_facts. cbn [utf8_encode map]. rewrite (IH Hs). cbn [bind].
  unfold utf8_encode_cp. decide_cmp. reflexivity.
Qed.

Lemma is_ascii_firstn (n : nat) (s : str) :
  is_ascii s = true -> is_ascii (firstn n s) = true.
Proof.
  unfold is_ascii. intros H. apply forallb_forall. intros c Hc.
  rewrite forallb_forall in H. apply H.
  rewrite <- (firstn_skipn n s). apply in_or_app. left. exact Hc.
Qed.

Lemma is_ascii_before_nul (s : str) :
  is_ascii s = true -> is_ascii (str_before_nul s) = true.
Proof.
  unfold is_ascii. induction s as [|c s IH]; [reflexivity|].
  cbn [forallb str_before_nul]. intros H. apply andb_prop in H.
  destruct H as [Hc Hs]. destruct (c =? 0); [reflexivity|].
  cbn [forallb]. rewrite Hc, (IH Hs). reflexivity.
Qed.

Lemma before_nul_ascii (s : str) (k : nat) :
  is_ascii s = true ->
  before_nul (map byte_of_Z s ++ repeat x00 k)
  = map byte_of_Z (str_before_nul s).
Proof.
  unfold is_ascii. induction s as [|c s IH].
  - intros _. destruct k; reflexivity.
  - cbn [forallb]. intros H. apply andb_prop in H. destruct H as [Hc Hs].
    bool_facts. cbn [map app before_nul str_before_nul].
    destruct (Z.eqb_spec c 0) as [-> | Hne]; [reflexivity|].
    destruct (Byte.eqb (byte_of_Z c) x00) eqn:E.
    + apply Byte.byte_dec_bl in E. exfalso.
      apply (byte_of_Z_not_nul c); [lia | exact E].
    + cbn [map]. rewrite (IH Hs). reflexivity.
Qed.

Lemma pack_unpack_ascii_name (name : str) :
  is_ascii name = true ->
  exists field,
    pack_name name = Ok field
    /\ unpack_name field = Ok (str_before_nul (firstn NAME_LEN name)).
Proof.
  intros Ha. eexists. split.
  - apply pack_name_encoded. apply utf8_encode_ascii. exact Ha.
  - unfold unpack_name. rewrite firstn_map, before_nul_ascii
      by (apply is_ascii_firstn; exact Ha).
    apply utf8_decode_encode. apply utf8_encode_ascii.
    apply is_ascii_before_nul, is_ascii_firstn. exact Ha.
Qed.

(** X5: an ASCII name of any length goes through an offer or a request
    and comes back as its first 32 characters, cut at the first U+0000 if
    there is one among them; the other fields come back unchanged. *)
Theorem ascii_names_come_back_cut (tcp_port rounds : Z) (name : str) :
  0 <= tcp_port <= 65535 -> 0 <= rounds <= 255 -> is_ascii name = true ->
  (m <- pack_offer tcp_port name ;; unpack_offer m)
  = Ok (MAGIC_COOKIE, MTYPE_OFFER, tcp_port,
        str_before_nul (firstn 32 name))
  /\ (m <- pack_request rounds name ;; unpack_request m)
     = Ok (MAGIC_COOKIE, MTYPE_REQUEST, rounds,
           str_before_nul (firstn 32 name)).
Proof.
  intros Hp Hr Ha.
  destruct (pack_unpack_ascii_name name Ha) as (field & Hpack & Hunpack).
  rewrite (unpack_pack_offer _ _ _ Hp Hpack),
    (unpack_pack_request _ _ _ Hr Hpack), Hunpack.
  split; reflexivity.
Qed.

Lemma ascii_names_come_back_cut_witness :
  is_ascii long_name = true
  /\ (m <- pack_offer 2005 long_name ;; unpack_offer m)
     = Ok (MAGIC_COOKIE, MTYPE_OFFER, 2005, repeat 97 32%nat).
Proof.
  split; [reflexivity|].
  apply (ascii_names_come_back_cut 2005 3 long_name); [lia | lia | reflexivity].
Defined.
End NamesOnTheWire.

Section CutNames.
Import Protocol ClientMain.

Lemma utf8_decode_app (a : str) (ea rest : bytes) :
  utf8_encode a = Ok ea ->
  utf8_decode (ea ++ rest) = (s <- utf8_decode rest ;; Ok (a ++ s)).
Proof.
  revert ea. induction a as [|c a IH]; intros ea.
  - cbn [utf8_encode]. intros E. apply Ok_eq in E. subst ea.
    cbn [app]. destruct (utf8_decode rest); reflexivity.
  - cbn [utf8_encode]. destruct (utf8_encode_cp c) as [cb|] eqn:Hc;
      [|discriminate].
    destruct (utf8_encode a) as [ea'|]; [|discriminate].
    cbn [bind]. intros E. apply Ok_eq in E. subst ea.
    rewrite <- app_assoc, (utf8_decode_encode_cp _ _ _ Hc), (IH ea' eq_refl).
    unfold decoded. destruct (utf8_decode rest); reflexivity.
Qed.

(** The first byte of a character that needs several bytes cannot be
    decoded alone. *)
Lemma lone_lead_byte (c : Z) (cb : bytes) :
  0x80 <= c -> utf8_encode_cp c = Some cb ->
  exists lead more,
    cb = lead :: more /\ more <> [] /\ lead <> x00
    /\ utf8_decode [lead] = Raise UnicodeDecodeError.
Proof.
  intros Hc. unfold utf8_encode_cp, is_surrogate.
  destruct (Z.ltb_spec c 0); [discriminate|].
  destruct (Z.ltb_spec c 0x80); [lia|].
  assert (Hlone : forall x, 0xC2 <= x < 0xF5 ->
                    byte_of_Z x <> x00
                    /\ utf8_decode [byte_of_Z x] = Raise UnicodeDecodeError).
  { intros x Hx. split; [apply byte_of_Z_not_nul; lia|].
    cbn [utf8_decode]. cbv zeta. rewrite Z_of_byte_of_Z by lia.
    repeat match goal with
           | |- (if ?b then _ else _) = _ => destruct b eqn:?
           end; try reflexivity.
    bool_facts. lia. }
  destruct (Z.ltb_spec c 0x800).
  { intros E. apply Some_eq in E. subst cb.
    destruct (Hlone (0xC0 + c / 64)) as [Hl1 Hl2]; [zdm|].
    eexists _, _. split; [reflexivity|]. split; [discriminate|]. auto. }
  destruct (Z.ltb_spec c 0x10000).
  { destruct ((0xD800 <=? c) && (c <? 0xE000)); [discriminate|].
    intros E. apply Some_eq in E. subst cb.
    destruct (Hlone (0xE0 + c / 4096)) as [Hl1 Hl2]; [zdm|].
    eexists _, _. split; [reflexivity|]. split; [discriminate|]. auto. }
  destruct (Z.ltb_spec c 0x110000); [|discriminate].
  intros E. apply Some_eq in E. subst cb.
  destruct (Hlone (0xF0 + c / 262144)) as [Hl1 Hl2]; [zdm|].
  eexists _, _. split; [reflexivity|]. split; [discriminate|]. auto.
Qed.

Lemma before_nul_none (bs : bytes) :
  Forall (fun b => b <> x00) bs -> before_nul bs = bs.
Proof.
  intros H. rewrite <- (app_nil_r bs) at 1.
  apply (before_nul_padded bs 0 H).
Qed.

Lemma listen_to_offer_skips {IP : Type} (encodable : Z -> bool)
      (packet : bytes) (addr : IP * Z) (rest : list (bytes * (IP * Z)))
      (e : exn) :
  unpack_offer (firstn 1024 packet) = Raise e ->
  listen_to_offer encodable ((packet, addr) :: rest)
  = listen_to_offer encodable rest.
Proof.
  intros H. cbn [listen_to_offer]. unfold hear. rewrite H. reflexivity.
Qed.

(** X6: a name of 31 ASCII characters followed by a character that takes
    several bytes in UTF-8 is packed without error, cut in the middle of
    that character; no client can decode the offer, and [listen_to_offer]
    passes it over like any malformed datagram. *)
Theorem name_cut_inside_a_character
        {IP : Type} (encodable : Z -> bool) (tcp_port : Z) (start : str)
        (c : Z) (addr : IP * Z) (rest : list (bytes * (IP * Z))) :
  0 <= tcp_port <= 65535 ->
  length start = 31%nat -> is_ascii start = true -> ~ In 0 start ->
  0x80 <= c < 0x110000 -> is_surrogate c = false ->
  exists m,
    pack_offer tcp_port (start ++ [c]) = Ok m
    /\ unpack_offer m = Raise UnicodeDecodeError
    /\ listen_to_offer encodable ((m, addr) :: rest)
       = listen_to_offer encodable rest.
Proof.
  intros Hp Hlen Ha Hnul Hc Hsur.
  assert (Hcp : exists cb, utf8_encode_cp c = Some cb).
  { unfold utf8_encode_cp. rewrite Hsur.
    repeat match goal with
           | |- exists _, (if ?b then _ else _) = _ => destruct b eqn:?
           end; eauto; bool_facts; lia. }
  destruct Hcp as [cb Hcb].
  destruct (lone_lead_byte c cb (proj1 Hc) Hcb)
    as (lead & more & -> & Hmore & Hlead & Hdec).
  pose proof (utf8_encode_ascii start Ha) as Hstart.
  assert (Henc : utf8_encode (start ++ [c])
                 = Ok (map byte_of_Z start ++ lead :: more)).
  { apply utf8_encode_app; [exact Hstart|].
    cbn [utf8_encode]. rewrite Hcb. cbn [bind]. rewrite app_nil_r.
    reflexivity. }
  assert (Hfield : pack_name (start ++ [c])
                   = Ok (map byte_of_Z start ++ [lead])).
  { rewrite (pack_name_encoded _ _ Henc).
    assert (Hcut : firstn NAME_LEN (map byte_of_Z start ++ lead :: more)
                   = map byte_of_Z start ++ [lead]).
    { rewrite firstn_app, length_map, Hlen.
      rewrite firstn_all2 by (rewrite length_map; unfold NAME_LEN; lia).
      reflexivity. }
    rewrite Hcut, length_app, length_map, Hlen. cbn [length Nat.add].
    rewrite app_nil_r. reflexivity. }
  assert (Hun : unpack_name (map byte_of_Z start ++ [lead])
                = Raise UnicodeDecodeError).
  { unfold unpack_name. rewrite before_nul_none.
    - rewrite (utf8_decode_app _ _ _ Hstart), Hdec. reflexivity.
    - apply Forall_app. split.
      + apply (utf8_encode_not_nul _ _ Hstart Hnul).
      + constructor; [exact Hlead | constructor]. }
  pose proof (unpack_pack_offer tcp_port _ _ Hp Hfield) as Hround.
  rewrite Hun in Hround. cbn [bind] in Hround.
  destruct (pack_offer tcp_port (start ++ [c])) as [m|e] eqn:Hm.
  - cbn [bind] in Hround. exists m. split; [reflexivity|].
    split; [exact Hround|].
    apply (listen_to_offer_skips encodable m addr rest UnicodeDecodeError).
    rewrite firstn_all2; [exact Hround|].
    apply pack_offer_size in Hm. unfold len, OFFER_SIZE in Hm.
    cbn in Hm. lia.
  - exfalso. unfold pack_offer in Hm. rewrite Hfield in Hm.
    cbn [bind] in Hm.
    rewrite !pack_uint_Ok in Hm
      by (cbv [MAGIC_COOKIE MTYPE_OFFER]; cbn; lia).
    discriminate Hm.
Qed.

(** Thirty-one letters and an e with an acute accent (U+00E9). *)
Lemma name_cut_inside_a_character_witness :
  is_ascii (repeat 97 31%nat) = true
  /\ exists m,
      pack_offer 2005 (repeat 97 31%nat ++ [233]) = Ok m
      /\ unpack_offer m = Raise UnicodeDecodeError
      /\ listen_to_offer (fun _ => true) [(m, (tt, 2005))] = None.
Proof.
  split; [reflexivity|].
  apply (name_cut_inside_a_character (fun _ => true) 2005 (repeat 97 31%nat)
           233 (tt, 2005) []).
  - lia.
  - reflexivity.
  - reflexivity.
  - intros H. apply repeat_spec in H. discriminate H.
  - lia.
  - reflexivity.
Defined.
End CutNames.

(** ** Discovery *)

Section Discovery.
Import Protocol ClientMain.
Context {IP : Type}.
Variable encodable : Z -> bool.

Lemma from_be_4_bytes (data : bytes) (v : Z) :
  from_be (slice 0 4 data) = v -> (4 <= length data)%nat ->
  firstn 4 data = to_be 4 v.
Proof.
  intros H Hlen. apply to_be_of_from_be; [|exact H].
  unfold slice. cbn [skipn]. rewrite length_firstn. lia.
Qed.

Lemma quad_eq {A B C D} (a a' : A) (b b' : B) (c c' : C) (d d' : D) :
  (a, b, c, d) = (a', b', c', d') -> a = a' /\ b = b' /\ c = c' /\ d = d'.
Proof. intros [= -> -> -> ->]. auto. Qed.

Lemma unpack_offer_Ok (data : bytes) (c t q : Z) (nm : str) :
  unpack_offer data = Ok (c, t, q, nm) ->
  len data = 39
  /\ c = from_be (slice 0 4 data) /\ t = from_be (slice 4 1 data)
  /\ q = from_be (slice 5 2 data)
  /\ unpack_name (slice 7 NAME_LEN data) = Ok nm.
Proof.
  unfold unpack_offer.
  destruct (check_size OFFER_SIZE data) as [[]|] eqn:Hsz; [|discriminate].
  apply check_size_inv in Hsz. cbn [bind].
  destruct (unpack_name _) as [nm'|]; [|discriminate]. cbn [bind].
  intros E. apply Ok_eq in E. apply quad_eq in E.
  destruct E as (-> & -> & -> & ->). auto.
Qed.

Lemma print_printable (text : str) :
  print encodable text
  = if printable encodable text then Ok tt else Raise UnicodeEncodeError.
Proof. reflexivity. Qed.

Lemma printable_app (a b : str) :
  printable encodable (a ++ b)
  = printable encodable a && printable encodable b.
Proof. apply forallb_app. Qed.

(** The cookie and the type of an offer, read from five bytes. *)
Lemma cookie_and_type (b0 b1 b2 b3 b4 : byte) :
  (from_be [b0; b1; b2; b3] =? MAGIC_COOKIE) && (from_be [b4] =? 0x2)
  = if list_eq_dec Byte.byte_eq_dec [b0; b1; b2; b3; b4]
                   [xab; xcd; xdc; xba; x02]
    then true else false.
Proof.
  destruct (list_eq_dec _ _ _) as [E | N].
  - injection E as -> -> -> -> ->. reflexivity.
  - destruct (Z.eqb_spec (from_be [b0; b1; b2; b3]) MAGIC_COOKIE) as [Hc|];
      [|reflexivity].
    destruct (Z.eqb_spec (from_be [b4]) 0x2) as [Ht|]; [|reflexivity].
    exfalso. apply N.
    apply (to_be_of_from_be 4 [b0; b1; b2; b3] _ eq_refl) in Hc.
    apply (to_be_of_from_be 1 [b4] _ eq_refl) in Ht.
    vm_compute in Hc, Ht.
    injection Hc as -> -> -> ->. injection Ht as ->. reflexivity.
Qed.

Lemma lstrip_none (ch : Z) (s : str) : ~ In ch s -> lstrip ch s = s.
Proof.
  destruct s as [|c s]; [reflexivity|]. intros H. cbn [lstrip].
  destruct (Z.eqb_spec c ch) as [->|]; [|reflexivity].
  exfalso. apply H. left. reflexivity.
Qed.

Lemma strip_none (ch : Z) (s : str) : ~ In ch s -> strip ch s = s.
Proof.
  intros H. unfold strip. rewrite (lstrip_none ch s H).
  rewrite lstrip_none by (rewrite <- in_rev; exact H).
  apply rev_involutive.
Qed.

(** What the client does with one datagram, told from its bytes. *)
Lemma hear_cases (packet : bytes) (addr : IP * Z) :
  (is_offer encodable packet = true
   /\ hear encodable (firstn 1024 packet) addr
      = Ok (Some (fst addr, offered_port packet)))
  \/ (is_offer encodable packet = false
      /\ (hear encodable (firstn 1024 packet) addr = Ok None
          \/ exists e, hear encodable (firstn 1024 packet) addr = Raise e)).
Proof.
  unfold is_offer. cbv zeta.
  destruct (Nat.eqb_spec (length (firstn 1024 packet)) 39) as [Hlen|Hlen].
  2:{ right. split; [reflexivity|]. right. exists StructError.
      unfold hear, unpack_offer. rewrite check_size_Raise; [reflexivity|].
      unfold len, OFFER_SIZE, NAME_LEN. lia. }
  assert (Hdata : firstn 1024 packet = packet).
  { apply firstn_all2. rewrite length_firstn in Hlen. lia. }
  rewrite Hdata in *. clear Hdata. cbn [andb].
  unfold hear, unpack_offer.
  rewrite check_size_Ok by (unfold len, OFFER_SIZE, NAME_LEN; lia).
  cbn [bind]. unfold unpack_name.
  assert (Hname : slice 7 NAME_LEN packet = skipn 7 packet).
  { unfold slice. apply firstn_all2. rewrite length_skipn.
    unfold NAME_LEN. lia. }
  rewrite Hname.
  assert (Hport : from_be (slice 5 2 packet) = offered_port packet)
    by reflexivity.
  rewrite Hport.
  destruct packet as [|b0 [|b1 [|b2 [|b3 [|b4 tl]]]]]; try discriminate Hlen.
  change (slice 0 4 (b0 :: b1 :: b2 :: b3 :: b4 :: tl))
    with [b0; b1; b2; b3].
  change (slice 4 1 (b0 :: b1 :: b2 :: b3 :: b4 :: tl)) with [b4].
  change (firstn 5 (b0 :: b1 :: b2 :: b3 :: b4 :: tl))
    with [b0; b1; b2; b3; b4].
  destruct (utf8_decode (before_nul _)) as [name|e]; cbn [bind].
  2:{ right. rewrite andb_false_r. split; [reflexivity|]. right.
      exists e. reflexivity. }
  rewrite cookie_and_type.
  destruct (list_eq_dec _ _ _) as [_|_]; cbn [andb].
  2:{ right. split; [reflexivity|]. left. reflexivity. }
  rewrite print_printable, !printable_app.
  change (printable encodable (str_of_string "Received offer from server '"))
    with true.
  change (printable encodable (str_of_string "'")) with true.
  rewrite andb_true_r. cbn [andb].
  destruct (printable encodable (strip 0 name)); cbn [bind].
  - left. split; reflexivity.
  - right. split; [reflexivity|]. right. exists UnicodeEncodeError.
    reflexivity.
Qed.

Lemma listen_to_offer_cons (packet : bytes) (addr : IP * Z)
      (rest : list (bytes * (IP * Z))) :
  listen_to_offer encodable ((packet, addr) :: rest)
  = if is_offer encodable packet
    then Some (fst addr, offered_port packet)
    else listen_to_offer encodable rest.
Proof.
  cbn [listen_to_offer].
  destruct (hear_cases packet addr) as [[-> ->] | [-> [-> | [e ->]]]];
    reflexivity.
Qed.

Lemma listen_to_offer_app (pre post : list (bytes * (IP * Z))) :
  Forall (fun d => is_offer encodable (fst d) = false) pre ->
  listen_to_offer encodable (pre ++ post) = listen_to_offer encodable post.
Proof.
  induction 1 as [|[packet addr] pre Hd _ IH]; [reflexivity|].
  cbn [app]. rewrite listen_to_offer_cons. cbn [fst] in Hd. rewrite Hd.
  exact IH.
Qed.

Lemma offered_port_range (packet : bytes) :
  0 <= offered_port packet <= 65535.
Proof.
  unfold offered_port.
  pose proof (from_be_range (firstn 2 (skipn 5 packet))) as R.
  pose proof (length_firstn 2 (skipn 5 packet)) as L. unfold len in R.
  assert (256 ^ Z.of_nat (length (firstn 2 (skipn 5 packet))) <= 256 ^ 2)
    by (apply Z.pow_le_mono_r; lia).
  lia.
Qed.

(** X7: [listen_to_offer] returns exactly when some datagram is an offer
    it can announce, and then it returns the address of the sender of the
    first such datagram and the port written in its bytes 5 and 6.  A
    datagram is such an offer when its first 1024 bytes are 39 bytes that
    begin with ab cd dc ba 02, the name field up to its first null byte is
    well-formed UTF-8, and the console can encode the name.  Every earlier
    datagram fails one of these conditions; when all of them do, the client
    goes on listening. *)
Theorem listen_to_offer_returns_the_first_offer
        (datagrams : list (bytes * (IP * Z))) :
  (forall ip port,
      listen_to_offer encodable datagrams = Some (ip, port)
      <-> exists pre packet sender_port post,
          datagrams = pre ++ (packet, (ip, sender_port)) :: post
          /\ Forall (fun d => is_offer encodable (fst d) = false) pre
          /\ is_offer encodable packet = true
          /\ port = offered_port packet)
  /\ (listen_to_offer encodable datagrams = None
      <-> Forall (fun d => is_offer encodable (fst d) = false) datagrams)
  /\ (forall ip port,
         listen_to_offer encodable datagrams = Some (ip, port) ->
         0 <= port <= 65535).
Proof.
  induction datagrams as [|[packet [sender a]] dgs IH].
  - split; [|split].
    + intros ip port. split; [discriminate|].
      intros (pre & p & sp & post & E & _). destruct pre; discriminate E.
    + split; [constructor|reflexivity].
    + discriminate.
  - destruct IH as (IHsome & IHnone & _).
    rewrite listen_to_offer_cons. cbn [fst].
    destruct (is_offer encodable packet) eqn:Hoffer.
    + split; [|split].
      * intros ip port. split.
        -- intros E. apply Some_eq in E. injection E as E1 E2.
           subst ip port.
           exists [], packet, a, dgs. auto.
        -- intros (pre & p & sp & post & E & Hpre & Hp & Hport).
           destruct pre as [|d pre].
           ++ cbn [app] in E. injection E as E1 E2 E3 E4. subst.
              reflexivity.
           ++ cbn [app] in E. injection E as E1 E2. subst d.
              apply Forall_cons_iff in Hpre. cbn [fst] in Hpre.
              destruct Hpre as [Hpre _]. congruence.
      * split; [discriminate|]. intros H.
        apply Forall_cons_iff in H. cbn [fst] in H. destruct H as [H _].
        congruence.
      * intros ip port E. apply Some_eq in E. injection E as _ E.
        subst port. apply offered_port_range.
    + split; [|split].
      * intros ip port. rewrite IHsome. split.
        -- intros (pre & p & sp & post & E & Hpre & Hp & Hport).
           exists ((packet, (sender, a)) :: pre), p, sp, post.
           split; [rewrite E; reflexivity|]. split; [|auto].
           constructor; [exact Hoffer|exact Hpre].
        -- intros (pre & p & sp & post & E & Hpre & Hp & Hport).
           destruct pre as [|d pre].
           ++ cbn [app] in E. injection E as E1 E2 E3 E4. subst.
              congruence.
           ++ cbn [app] in E. injection E as E1 E2. subst d dgs.
              apply Forall_cons_iff in Hpre. destruct Hpre as [_ Hpre].
              exists pre, p, sp, post. auto.
      * rewrite IHnone. split.
        -- intros H. constructor; [exact Hoffer|exact H].
        -- intros H. apply Forall_cons_iff in H. apply H.
      * intros ip port E. apply IHsome in E.
        destruct E as (_ & p & _ & _ & _ & _ & _ & Hport). rewrite Hport.
        apply offered_port_range.
Qed.

(** X8: the client finds the server when it can announce it: an offer
    packed by [pack_offer] with a port that fits and a name that fits,
    received after datagrams none of which is an offer, makes
    [listen_to_offer] return the address of its sender and the port
    packed, if the console can encode the name; if it cannot, the client
    passes the offer over and goes on with the datagrams that follow. *)
Theorem listen_to_offer_finds_the_server
        (tcp_port : Z) (name : str) (m : bytes) (ip : IP) (sender_port : Z)
        (pre post : list (bytes * (IP * Z))) :
  0 <= tcp_port <= 65535 -> name_fits name = true ->
  pack_offer tcp_port name = Ok m ->
  Forall (fun d => is_offer encodable (fst d) = false) pre ->
  listen_to_offer encodable (pre ++ (m, (ip, sender_port)) :: post)
  = if printable encodable name then Some (ip, tcp_port)
    else listen_to_offer encodable post.
Proof.
  intros Hp Hn Hm Hpre. rewrite (listen_to_offer_app _ _ Hpre).
  cbn [listen_to_offer].
  pose proof (offer_roundtrip tcp_port name Hp Hn) as Hround.
  rewrite Hm in Hround. cbn [bind] in Hround.
  rewrite firstn_all2
    by (apply pack_offer_size in Hm; unfold len, OFFER_SIZE, NAME_LEN in Hm;
        lia).
  unfold hear. rewrite Hround. cbn [bind].
  change ((MAGIC_COOKIE =? MAGIC_COOKIE) && (MTYPE_OFFER =? 2)) with true.
  cbv iota zeta.
  assert (Hnul : ~ In 0 name).
  { unfold name_fits in Hn. destruct (utf8_encode name); [|discriminate].
    apply andb_true_iff in Hn. destruct Hn as [_ Hn].
    rewrite forallb_forall in Hn. intros Hin. specialize (Hn 0 Hin).
    discriminate Hn. }
  rewrite (strip_none 0 name Hnul).
  rewrite print_printable, !printable_app.
  change (printable encodable (str_of_string "Received offer from server '"))
    with true.
  change (printable encodable (str_of_string "'")) with true.
  rewrite andb_true_r. cbn [andb].
  destruct (printable encodable name); reflexivity.
Qed.
End Discovery.

(** The server's own offer, heard after a stray datagram, on a console
    that encodes ASCII only. *)
Lemma listen_to_offer_finds_the_server_witness :
  exists m,
    Protocol.pack_offer ServerMain.SERVER_PORT ServerMain.SERVER_NAME = Ok m
    /\ ClientMain.listen_to_offer
         (fun _ => false)
         [(list_byte_of_string "hello", (tt, 5353)); (m, (tt, 40000))]
       = Some (tt, 2005).
Proof.
  eexists. split; [reflexivity|].
  apply (listen_to_offer_finds_the_server
           (fun _ => false)
           ServerMain.SERVER_PORT ServerMain.SERVER_NAME _ tt 40000
           [(list_byte_of_string "hello", (tt, 5353))] []).
  - unfold ServerMain.SERVER_PORT. lia.
  - reflexivity.
  - reflexivity.
  - constructor; [reflexivity|constructor].
Defined.

(** An offer of a server whose name is an e with an acute accent, then
    the offer of a server without a name: a console that encodes ASCII
    only passes the first over. *)
Lemma listen_to_offer_returns_the_first_offer_witness :
  ClientMain.listen_to_offer
    (fun _ => false)
    [([xab; xcd; xdc; xba; x02; x07; xd4; xc3; xa9] ++ repeat x00 30,
      (tt, 5353));
     ([xab; xcd; xdc; xba; x02; x07; xd5] ++ repeat x00 32, (tt, 40000))]
  = Some (tt, 2005)
  /\ exists pre packet sender_port post,
      [([xab; xcd; xdc; xba; x02; x07; xd4; xc3; xa9] ++ repeat x00 30,
        (tt, 5353));
       ([xab; xcd; xdc; xba; x02; x07; xd5] ++ repeat x00 32, (tt, 40000))]
      = pre ++ (packet, (tt, sender_port)) :: post
      /\ Forall (fun d => is_offer (fun _ => false) (fst d) = false) pre
      /\ is_offer (fun _ => false) packet = true
      /\ 2005 = offered_port packet.
Proof.
  split; [reflexivity|].
  apply (proj1 (listen_to_offer_returns_the_first_offer
                  (fun _ => false)
                  [([xab; xcd; xdc; xba; x02; x07; xd4; xc3; xa9]
                      ++ repeat x00 30, (tt, 5353));
                   ([xab; xcd; xdc; xba; x02; x07; xd5] ++ repeat x00 32,
                    (tt, 40000))])
          tt 2005).
  reflexivity.
Defined.

(** ** The player's turn *)

Section Player.
Import Protocol Server.

Lemma recv_exact_Ok (sock sock' : socket) (n : Z) (data : bytes) :
  recv_exact sock n = Ok (data, sock') -> 0 <= n ->
  len data = n /\ stream sock = data ++ stream sock'
  /\ outbox sock' = outbox sock.
Proof.
  intros E Hn. pose proof (recv_exact_spec sock n) as H. rewrite E in H.
  destruct H as (_ & Hlen & Hd & Hs & Ho).
  split; [lia|]. split; [|exact Ho].
  rewrite Hd, Hs, firstn_skipn. reflexivity.
Qed.

Lemma recv_exact_Raise (sock : socket) (n : Z) (e : exn) :
  recv_exact sock n = Raise e -> e = ConnectionError.
Proof.
  intros E. pose proof (recv_exact_spec sock n) as H. rewrite E in H.
  apply H.
Qed.

Lemma unpack_client_payload_Raise (data : bytes) (e : exn) :
  len data = CLIENT_PAYLOAD_SIZE ->
  unpack_client_payload data = Raise e -> e = UnicodeDecodeError.
Proof.
  intros Hlen. unfold unpack_client_payload.
  rewrite check_size_Ok by exact Hlen. cbn [bind]. unfold ascii_decode.
  destruct (forallb _ _); cbn [bind]; congruence.
Qed.

Lemma pack_card_message (c : card) (msg : bytes) :
  pack_server_payload GAME_RESULT_NOTOVER (fst c) (snd c) = Ok msg ->
  msg = card_message c.
Proof.
  intros H. apply pack_server_payload_Ok_inv in H. destruct H as [-> _].
  reflexivity.
Qed.

Lemma pack_server_payload_Raise (game_result rank suit : Z) (e : exn) :
  pack_server_payload game_result rank suit = Raise e -> e = StructError.
Proof.
  unfold pack_server_payload.
  repeat match goal with
         | |- context [bind (pack_uint ?w ?v) _] =>
             let E := fresh "E" in
             destruct (pack_uint w v) eqn:E;
             [cbn [bind] | apply pack_uint_exn in E; cbn [bind]; congruence]
         end.
  discriminate.
Qed.

Lemma Continue_eq {S R} (a b : S) : @Continue S R a = Continue b -> b = a.
Proof. intros [= ->]. reflexivity. Qed.

Lemma Return_eq {S R} (a b : R) : @Return S R a = Return b -> b = a.
Proof. intros [= ->]. reflexivity. Qed.

(** The three ways out of one iteration of the player's loop. *)
Lemma player_body_Continue (sock : socket) (deck hand : list card)
      (st' : table) :
  player_turn_body (sock, deck, hand) = Continue st' ->
  hand_total hand <= 21
  /\ exists data sock1 c deck',
      recv_exact sock CLIENT_PAYLOAD_SIZE = Ok (data, sock1)
      /\ deck = deck' ++ [c]
      /\ st' = (sendall sock1 (card_message c), deck', hand ++ [c]).
Proof.
  unfold player_turn_body.
  destruct (Z.gtb_spec (hand_total hand) 21) as [|Hle]; [discriminate|].
  destruct (recv_exact sock CLIENT_PAYLOAD_SIZE) as [[data sock1]|];
    [|discriminate].
  cbn [bind]. destruct (unpack_client_payload data) as [[[ck ty] d]|];
    [|discriminate].
  cbn [bind]. destruct (negb (ck =? MAGIC_COOKIE)); [discriminate|].
  destruct (str_eqb d Hittt); [|destruct (str_eqb d Stand); discriminate].
  destruct (pop deck) as [[[r su] deck']|] eqn:Hpop; [|discriminate].
  cbn [bind]. destruct (pack_server_payload _ r su) as [msg|] eqn:Hmsg;
    [|discriminate].
  cbn [bind run]. intros E. split; [exact Hle|].
  exists data, sock1, (r, su), deck'. split; [reflexivity|].
  split; [apply pop_Ok; exact Hpop|].
  apply (pack_card_message (r, su)) in Hmsg. subst msg.
  apply Continue_eq in E. exact E.
Qed.

Lemma player_body_Return (sock : socket) (deck hand : list card)
      (r : bool * table) :
  player_turn_body (sock, deck, hand) = Return r ->
  (21 < hand_total hand /\ r = (true, (sock, deck, hand)))
  \/ (hand_total hand <= 21
      /\ exists data sock1,
          recv_exact sock CLIENT_PAYLOAD_SIZE = Ok (data, sock1)
          /\ r = (false, (sock1, deck, hand))).
Proof.
  unfold player_turn_body.
  destruct (Z.gtb_spec (hand_total hand) 21) as [Hgt|Hle].
  { intros E. apply Return_eq in E. left. split; [lia | exact E]. }
  destruct (recv_exact sock CLIENT_PAYLOAD_SIZE) as [[data sock1]|];
    [|discriminate].
  cbn [bind]. destruct (unpack_client_payload data) as [[[ck ty] d]|];
    [|discriminate].
  cbn [bind]. destruct (negb (ck =? MAGIC_COOKIE)); [discriminate|].
  destruct (str_eqb d Hittt).
  { destruct (pop deck) as [[[rk su] deck']|]; [|discriminate].
    cbn [bind]. destruct (pack_server_payload _ rk su); discriminate. }
  destruct (str_eqb d Stand); [|discriminate].
  cbn [run]. intros E. apply Return_eq in E. right. split; [exact Hle|].
  exists data, sock1. split; [reflexivity | exact E].
Qed.

Lemma player_body_Throw (sock : socket) (deck hand : list card) (e : exn) :
  player_turn_body (sock, deck, hand) = Throw e ->
  hand_total hand <= 21
  /\ (e = ConnectionError \/ e = UnicodeDecodeError \/ e = ValueError
      \/ (e = IndexError /\ deck = [])
      \/ (e = StructError
          /\ exists c deck', deck = deck' ++ [c] /\ ~ In c create_deck)).
Proof.
  unfold player_turn_body.
  destruct (Z.gtb_spec (hand_total hand) 21) as [|Hle]; [discriminate|].
  intros E. split; [exact Hle|]. revert E.
  destruct (recv_exact sock CLIENT_PAYLOAD_SIZE) as [[data sock1]|e0] eqn:Hr.
  2:{ cbn. intros [= <-]. left. eapply recv_exact_Raise. exact Hr. }
  apply recv_exact_Ok in Hr; [|unfold CLIENT_PAYLOAD_SIZE; lia].
  destruct Hr as (Hlen & _ & _).
  cbn [bind].
  destruct (unpack_client_payload data) as [[[ck ty] d]|e0] eqn:Hu.
  2:{ cbn. intros [= <-]. right. left.
      eapply unpack_client_payload_Raise; eassumption. }
  cbn [bind]. destruct (negb (ck =? MAGIC_COOKIE)).
  { cbn. intros [= <-]. right; right; left. reflexivity. }
  destruct (str_eqb d Hittt).
  - destruct (pop deck) as [[[rk su] deck']|e0] eqn:Hpop.
    + cbn [bind].
      destruct (pack_server_payload _ rk su) as [msg|e0] eqn:Hmsg;
        [discriminate|].
      cbn. intros [= <-]. do 4 right.
      split; [eapply pack_server_payload_Raise; exact Hmsg|].
      exists (rk, su), deck'. split; [apply pop_Ok; exact Hpop|].
      intros Hin. rewrite (pack_card_pair _ _ Hin) in Hmsg. discriminate.
    + cbn. intros [= <-]. apply pop_Raise in Hpop. destruct Hpop as [-> ->].
      right; right; right; left. split; reflexivity.
  - destruct (str_eqb d Stand); [discriminate|].
    cbn. intros [= <-]. right; right; left. reflexivity.
Qed.

Lemma player_loop_step (st : table) :
  player_loop st = match player_turn_body st with
                   | Continue st' => player_loop st'
                   | Return r => Ok r
                   | Throw e => Raise e
                   end.
Proof. unfold player_loop. apply while_step. Qed.

Lemma player_loop_outcome (st : table) (r : bool * table) :
  player_loop st = Ok r -> player_outcome st r.
Proof.
  unfold player_loop. revert r.
  apply (while_ind _ _ _ _ player_turn_decreases
           (fun st res => forall r, res = Ok r -> player_outcome st r));
    clear st.
  - intros [[sock deck] hand] r Hb r' E. apply Ok_eq in E. subst r'.
    apply player_body_Return in Hb.
    destruct Hb as [[Hgt ->] | (Hle & data & sock1 & Hr & ->)]; cbn.
    + split; [rewrite Z.gtb_ltb; symmetry; apply Z.ltb_lt; exact Hgt|].
      exists [], []. rewrite !app_nil_r. cbn.
      repeat split. intros k Hk. lia.
    + apply recv_exact_Ok in Hr; [|unfold CLIENT_PAYLOAD_SIZE; lia].
      destruct Hr as (Hlen & Hs & Ho).
      split; [rewrite Z.gtb_ltb; symmetry; apply Z.ltb_ge; exact Hle|].
      exists [], data. rewrite !app_nil_r. cbn [rev flat_map length].
      split; [reflexivity|]. split; [reflexivity|].
      split; [intros k Hk; lia|]. split; [exact Ho|]. split; [exact Hs|].
      rewrite Hlen. reflexivity.
  - discriminate.
  - intros [[sock deck] hand] st' Hb IH r E. specialize (IH r E).
    apply player_body_Continue in Hb.
    destruct Hb as (Hle & data & sock1 & c & deck1 & Hr & -> & ->).
    apply recv_exact_Ok in Hr; [|unfold CLIENT_PAYLOAD_SIZE; lia].
    destruct Hr as (Hlen & Hs & Ho).
    destruct r as [busted [[sock' deck'] hand']].
    unfold player_outcome in IH |- *. cbv beta iota in IH |- *.
    destruct IH as (Hb & drawn & consumed & Hh & Hd & Hk & Hout & Hstr & Hc).
    unfold sendall, stream in Hout, Hstr. cbn [outbox inbox] in Hout, Hstr.
    fold (stream sock1) in Hstr. fold (stream sock') in Hstr.
    split; [exact Hb|].
    exists (c :: drawn), (data ++ consumed).
    split; [rewrite Hh, <- app_assoc; reflexivity|].
    split; [rewrite Hd; cbn [rev]; rewrite app_assoc; reflexivity|].
    split.
    { intros [|k] Hlt.
      - cbn [firstn]. rewrite app_nil_r. exact Hle.
      - cbn [firstn]. specialize (Hk k). rewrite <- app_assoc in Hk.
        apply Hk. cbn [length] in Hlt. lia. }
    split.
    { rewrite Hout, Ho. cbn [flat_map]. rewrite <- app_assoc. reflexivity. }
    split.
    { rewrite Hs, Hstr, app_assoc. reflexivity. }
    rewrite len_app, Hlen, Hc. unfold len. cbn [length].
    unfold CLIENT_PAYLOAD_SIZE. lia.
Qed.
End Player.

(** ** The dealer's turn, continued *)

Section DealerMore.
Import Protocol Server.

Lemma dealer_body_Continue (sock : socket) (deck hand : list card)
      (st' : table) :
  dealer_turn_body (sock, deck, hand) = Continue st' ->
  hand_total hand < 17
  /\ exists c deck',
      deck = deck' ++ [c]
      /\ st' = (sendall sock (card_message c), deck', hand ++ [c]).
Proof.
  unfold dealer_turn_body.
  destruct (Z.gtb_spec (hand_total hand) 21); [discriminate|].
  destruct (Z.geb_spec (hand_total hand) 17) as [|Hlt]; [discriminate|].
  destruct (pop deck) as [[[r su] deck']|] eqn:Hpop; [|discriminate].
  cbn [bind]. destruct (pack_server_payload _ r su) as [msg|] eqn:Hmsg;
    [|discriminate].
  cbn [bind run]. intros E. apply Continue_eq in E. split; [exact Hlt|].
  exists (r, su), deck'. split; [apply pop_Ok; exact Hpop|].
  apply (pack_card_message (r, su)) in Hmsg. subst msg. exact E.
Qed.

Lemma dealer_body_Return (sock : socket) (deck hand : list card)
      (r : bool * table) :
  dealer_turn_body (sock, deck, hand) = Return r ->
  snd r = (sock, deck, hand).
Proof.
  unfold dealer_turn_body.
  destruct (hand_total hand >? 21);
    [intros E; apply Return_eq in E; subst r; reflexivity|].
  destruct (hand_total hand >=? 17);
    [intros E; apply Return_eq in E; subst r; reflexivity|].
  destruct (pop deck) as [[[rk su] deck']|]; [|discriminate].
  cbn [bind]. destruct (pack_server_payload _ rk su); discriminate.
Qed.

Lemma dealer_body_Throw (sock : socket) (deck hand : list card) (e : exn) :
  dealer_turn_body (sock, deck, hand) = Throw e ->
  hand_total hand < 17
  /\ ((e = IndexError /\ deck = [])
      \/ (e = StructError
          /\ exists c deck', deck = deck' ++ [c] /\ ~ In c create_deck)).
Proof.
  unfold dealer_turn_body.
  destruct (Z.gtb_spec (hand_total hand) 21); [discriminate|].
  destruct (Z.geb_spec (hand_total hand) 17) as [|Hlt]; [discriminate|].
  intros E. split; [exact Hlt|]. revert E.
  destruct (pop deck) as [[[rk su] deck']|e0] eqn:Hpop.
  - cbn [bind].
    destruct (pack_server_payload _ rk su) as [msg|e0] eqn:Hmsg;
      [discriminate|].
    cbn. intros [= <-]. right.
    split; [eapply pack_server_payload_Raise; exact Hmsg|].
    exists (rk, su), deck'. split; [apply pop_Ok; exact Hpop|].
    intros Hin. rewrite (pack_card_pair _ _ Hin) in Hmsg. discriminate.
  - cbn. intros [= <-]. apply pop_Raise in Hpop. destruct Hpop as [-> ->].
    left. split; reflexivity.
Qed.

(** The dealer's loop sends the cards it draws, and nothing else. *)
Lemma dealer_loop_sent (sock sock' : socket) (deck deck' hand hand' : list card)
      (busted : bool) :
  dealer_loop (sock, deck, hand) = Ok (busted, (sock', deck', hand')) ->
  exists drawn,
    hand' = hand ++ drawn
    /\ outbox sock' = outbox sock ++ flat_map card_message drawn.
Proof.
  unfold dealer_loop.
  set (P := fun (st : table) (res : result (bool * table)) =>
              forall r, res = Ok r ->
                exists drawn,
                  snd (snd r) = snd st ++ drawn
                  /\ outbox (fst (fst (snd r)))
                     = outbox (fst (fst st)) ++ flat_map card_message drawn).
  intros E.
  assert (W : forall st,
             P st (while table_measure dealer_turn_body
                         dealer_turn_decreases st));
    [|exact (W _ _ E)].
  apply while_ind; unfold P; clear.
  - intros [[sock deck] hand] r Hb r' E. apply Ok_eq in E. subst r'.
    apply dealer_body_Return in Hb. rewrite Hb. cbn [fst snd].
    exists []. rewrite !app_nil_r. split; reflexivity.
  - discriminate.
  - intros [[sock deck] hand] st' Hb IH r E. specialize (IH r E).
    apply dealer_body_Continue in Hb.
    destruct Hb as (_ & c & deck1 & -> & ->).
    destruct IH as (drawn & Hh & Hout). cbn [fst snd] in Hh, Hout |- *.
    exists (c :: drawn). split.
    + rewrite Hh, <- app_assoc. reflexivity.
    + rewrite Hout. unfold sendall. cbn [outbox flat_map].
      rewrite <- app_assoc. reflexivity.
Qed.
End DealerMore.

(** ** The deck is never exhausted *)

Section DeckSuffices.
Import Protocol Server.

Lemma card_value_at_least_2 (c : card) :
  In c create_deck -> 2 <= rank_value (fst c).
Proof.
  destruct c as [r su]. intros H. apply create_deck_In in H. cbn [fst].
  unfold rank_value. destruct (Z.geb_spec r 11); [lia|].
  destruct (Z.eqb_spec r 1); lia.
Qed.

Lemma hand_total_at_least (hand : list card) :
  Forall (fun c => In c create_deck) hand ->
  2 * len hand <= hand_total hand.
Proof.
  rewrite hand_total_sum. induction 1 as [|c hand Hc _ IH].
  - cbn. lia.
  - cbn [sum_values]. apply card_value_at_least_2 in Hc.
    unfold len in *. cbn [length]. lia.
Qed.

Lemma Forall_snoc {A} (P : A -> Prop) (l : list A) (x : A) :
  Forall P (l ++ [x]) -> Forall P l /\ P x.
Proof.
  intros H. apply Forall_app in H. destruct H as [Hl Hx].
  split; [exact Hl|]. inversion Hx. assumption.
Qed.

(** The player's loop can find the deck empty only when deck and hand
    together had at most 10 cards. *)
Lemma player_loop_Raise (sock : socket) (deck hand : list card) (e : exn) :
  Forall (fun c => In c create_deck) deck ->
  Forall (fun c => In c create_deck) hand ->
  player_loop (sock, deck, hand) = Raise e ->
  e = ConnectionError \/ e = UnicodeDecodeError \/ e = ValueError
  \/ (e = IndexError /\ 2 * (len hand + len deck) <= 21).
Proof.
  unfold player_loop.
  set (P := fun (st : table) (res : result (bool * table)) =>
              Forall (fun c => In c create_deck) (snd (fst st)) ->
              Forall (fun c => In c create_deck) (snd st) ->
              forall e, res = Raise e ->
                e = ConnectionError \/ e = UnicodeDecodeError
                \/ e = ValueError
                \/ (e = IndexError
                    /\ 2 * (len (snd st) + len (snd (fst st))) <= 21)).
  intros Hd Hh E.
  assert (W : forall st,
             P st (while table_measure player_turn_body
                         player_turn_decreases st));
    [|exact (W (sock, deck, hand) Hd Hh e E)].
  apply while_ind; unfold P; clear.
  - discriminate.
  - intros [[sock deck] hand] e Hb Hd Hh e' [= <-]. cbn [fst snd] in *.
    apply player_body_Throw in Hb.
    destruct Hb as (Hle & [-> | [-> | [-> | [[-> ->] | [-> Hbad]]]]]); auto.
    + do 3 right. split; [reflexivity|].
      pose proof (hand_total_at_least hand Hh). unfold len in *.
      cbn [length]. lia.
    + exfalso. destruct Hbad as (c & deck' & -> & Hc).
      apply Forall_snoc in Hd. tauto.
  - intros [[sock deck] hand] st' Hb IH Hd Hh e E. cbn [fst snd] in *.
    apply player_body_Continue in Hb.
    destruct Hb as (_ & data & sock1 & c & deck1 & _ & -> & ->).
    cbn [fst snd] in IH. apply Forall_snoc in Hd. destruct Hd as [Hd Hc].
    assert (Hh' : Forall (fun c => In c create_deck) (hand ++ [c]))
      by (apply Forall_app; split; [exact Hh | constructor; auto]).
    specialize (IH Hd Hh' e E).
    rewrite !len_app in *. unfold len in *. cbn [length] in *.
    destruct IH as [-> | [-> | [-> | [-> IH]]]]; auto.
    do 3 right. split; [reflexivity | lia].
Qed.

(** The dealer's loop raises nothing but [IndexError], and only when deck
    and hand together had at most 8 cards. *)
Lemma dealer_loop_Raise (sock : socket) (deck hand : list card) (e : exn) :
  Forall (fun c => In c create_deck) deck ->
  Forall (fun c => In c create_deck) hand ->
  dealer_loop (sock, deck, hand) = Raise e ->
  e = IndexError /\ 2 * (len hand + len deck) <= 16.
Proof.
  unfold dealer_loop.
  set (P := fun (st : table) (res : result (bool * table)) =>
              Forall (fun c => In c create_deck) (snd (fst st)) ->
              Forall (fun c => In c create_deck) (snd st) ->
              forall e, res = Raise e ->
                e = IndexError
                /\ 2 * (len (snd st) + len (snd (fst st))) <= 16).
  intros Hd Hh E.
  assert (W : forall st,
             P st (while table_measure dealer_turn_body
                         dealer_turn_decreases st));
    [|exact (W (sock, deck, hand) Hd Hh e E)].
  apply while_ind; unfold P; clear.
  - discriminate.
  - intros [[sock deck] hand] e Hb Hd Hh e' [= <-]. cbn [fst snd] in *.
    apply dealer_body_Throw in Hb.
    destruct Hb as (Hlt & [[-> ->] | [-> Hbad]]).
    + split; [reflexivity|].
      pose proof (hand_total_at_least hand Hh). unfold len in *.
      cbn [length]. lia.
    + exfalso. destruct Hbad as (c & deck' & -> & Hc).
      apply Forall_snoc in Hd. tauto.
  - intros [[sock deck] hand] st' Hb IH Hd Hh e E. cbn [fst snd] in *.
    apply dealer_body_Continue in Hb.
    destruct Hb as (_ & c & deck1 & -> & ->).
    cbn [fst snd] in IH. apply Forall_snoc in Hd. destruct Hd as [Hd Hc].
    assert (Hh' : Forall (fun c => In c create_deck) (hand ++ [c]))
      by (apply Forall_app; split; [exact Hh | constructor; auto]).
    specialize (IH Hd Hh' e E).
    rewrite !len_app in *. unfold len in *. cbn [length] in *.
    destruct IH as [-> IH]. split; [reflexivity | lia].
Qed.
End DeckSuffices.

(** ** A round, from the deal to the hands that decide it *)

Section RoundPlayed.
Import Protocol Server.

Lemma pair_eq {A B} (a a' : A) (b b' : B) :
  (a, b) = (a', b') -> a = a' /\ b = b'.
Proof. intros [= -> ->]. auto. Qed.

Lemma sent_3 (sock : socket) (a b c : bytes) :
  sendall (sendall (sendall sock a) b) c
  = mkSocket (inbox sock) (outbox sock ++ a ++ b ++ c).
Proof. unfold sendall. cbn [inbox outbox]. rewrite <- !app_assoc. reflexivity. Qed.

Lemma initial_deal_inv (deck0 deck1 : list card) (sock sock1 : socket)
      (ph dh : list card) (hidden : card) :
  initial_deal deck0 sock = Ok (ph, dh, hidden, deck1, sock1) ->
  exists up p2 p1,
    deck0 = deck1 ++ [hidden; up; p2; p1]
    /\ ph = [p1; p2] /\ dh = [up]
    /\ sock1 = mkSocket (inbox sock)
                        (outbox sock ++ card_message p1 ++ card_message p2
                           ++ card_message up).
Proof.
  unfold initial_deal. cbn [deal_player].
  destruct (pop deck0) as [[[r1 s1] d1]|] eqn:P1; [|discriminate].
  cbn [bind]. destruct (pack_server_payload _ r1 s1) as [m1|] eqn:M1;
    [|discriminate].
  cbn [bind]. destruct (pop d1) as [[[r2 s2] d2]|] eqn:P2; [|discriminate].
  cbn [bind]. destruct (pack_server_payload _ r2 s2) as [m2|] eqn:M2;
    [|discriminate].
  cbn [bind]. destruct (pop d2) as [[[r3 s3] d3]|] eqn:P3; [|discriminate].
  cbn [bind]. destruct (pack_server_payload _ r3 s3) as [m3|] eqn:M3;
    [|discriminate].
  cbn [bind]. destruct (pop d3) as [[hid d4]|] eqn:P4; [|discriminate].
  cbn [bind app]. intros E. apply Ok_eq in E.
  apply pop_Ok in P1, P2, P3, P4. subst deck0 d1 d2 d3.
  apply (pack_card_message (r1, s1)) in M1.
  apply (pack_card_message (r2, s2)) in M2.
  apply (pack_card_message (r3, s3)) in M3. subst m1 m2 m3.
  rewrite sent_3 in E.
  exists (r3, s3), (r2, s2), (r1, s1).
  apply pair_eq in E. destruct E as [E E5].
  apply pair_eq in E. destruct E as [E E4].
  apply pair_eq in E. destruct E as [E E3].
  apply pair_eq in E. destruct E as [E1 E2].
  subst. rewrite <- !app_assoc. repeat split.
Qed.

Lemma play_hands_Ok (deck0 deck' : list card) (sock sock' : socket)
      (h : hands) :
  play_hands deck0 sock = Ok (h, deck', sock') ->
  exists hidden up p2 p1 hits shown,
    round_played deck0 sock h deck' sock' hidden up p2 p1 hits shown.
Proof.
  unfold play_hands.
  destruct (initial_deal deck0 sock) as [[[[[ph dh] hidden] deck1] sock1]|]
    eqn:Hdeal; [|discriminate].
  apply initial_deal_inv in Hdeal.
  destruct Hdeal as (up & p2 & p1 & -> & -> & -> & ->).
  cbn [bind]. destruct (Z.gtb_spec (hand_total [p1; p2]) 21) as [Hover|Hle].
  { intros E. apply Ok_eq in E.
    apply pair_eq in E. destruct E as [E ->].
    apply pair_eq in E. destruct E as [-> ->].
    exists hidden, up, p2, p1, [], []. unfold round_played.
    cbn [player_hand dealer_hand player_busted dealer_busted inbox outbox].
    split; [reflexivity|]. split; [reflexivity|].
    split; [rewrite Z.gtb_ltb; symmetry; apply Z.ltb_lt; exact Hover|].
    split; [intros k Hk; cbn in Hk; lia|].
    split; [cbn [app flat_map]; rewrite ?app_nil_r, <- ?app_assoc;
            reflexivity|].
    split; [exists []; split; [reflexivity|]; cbn; lia|].
    left. repeat split. }
  unfold player_turn.
  destruct (player_loop _) as [[pb [[sock2 deck2] ph2]]|] eqn:Hplayer;
    [|discriminate].
  apply player_loop_outcome in Hplayer. unfold player_outcome in Hplayer.
  destruct Hplayer
    as (Hpb & hits & consumed & -> & -> & Hk & Hout & Hstr & Hlen).
  cbn [bind outbox] in Hout |- *. unfold stream in Hstr. cbn [inbox] in Hstr.
  fold (stream sock) in Hstr. fold (stream sock2) in Hstr.
  destruct pb; cbn [negb].
  { intros E. apply Ok_eq in E.
    apply pair_eq in E. destruct E as [E ->].
    apply pair_eq in E. destruct E as [-> ->].
    exists hidden, up, p2, p1, hits, []. unfold round_played.
    cbn [player_hand dealer_hand player_busted dealer_busted].
    split; [reflexivity|]. split; [reflexivity|]. split; [exact Hpb|].
    split; [exact Hk|].
    split; [rewrite Hout; cbn [app flat_map];
            rewrite ?flat_map_app, ?app_nil_r, <- ?app_assoc; reflexivity|].
    split; [exists consumed; split; assumption|].
    left. repeat split. rewrite <- app_assoc. reflexivity. }
  unfold dealer_turn. destruct hidden as [hr hs].
  destruct (pack_server_payload _ hr hs) as [msg|] eqn:Hmsg; [|discriminate].
  apply (pack_card_message (hr, hs)) in Hmsg. subst msg. cbn [bind].
  destruct (dealer_loop _) as [[db [[sock3 deck3] dh3]]|] eqn:Hdealer;
    [|discriminate].
  pose proof (dealer_loop_sent _ _ _ _ _ _ _ Hdealer) as (more & Hh3 & Hout3).
  apply dealer_loop_outcome in Hdealer. unfold dealer_outcome in Hdealer.
  destruct Hdealer as (H17 & Hdb & Hin & more' & Hh3' & Hdeck & Hlt).
  rewrite Hh3 in Hh3'. apply app_inv_head in Hh3'. subst more'.
  cbn [bind]. intros E. apply Ok_eq in E.
  apply pair_eq in E. destruct E as [E ->].
  apply pair_eq in E. destruct E as [-> ->].
  exists (hr, hs), up, p2, p1, hits, ((hr, hs) :: more). unfold round_played.
  cbn [player_hand dealer_hand player_busted dealer_busted].
  split; [reflexivity|].
  split; [rewrite Hh3; reflexivity|]. split; [exact Hpb|].
  split; [exact Hk|].
  split.
  { rewrite Hout3. unfold sendall. cbn [outbox]. rewrite Hout.
    cbn [app flat_map]. rewrite ?flat_map_app. cbn [flat_map].
    rewrite <- ?app_assoc. reflexivity. }
  split.
  { exists consumed. split; [|exact Hlen].
    rewrite Hstr. f_equal. unfold stream. rewrite Hin. reflexivity. }
  right. split; [reflexivity|]. exists more.
  split; [reflexivity|]. split; [exact Hdb|]. split; [exact H17|].
  split.
  { intros k Hk'. specialize (Hlt k Hk'). rewrite <- app_assoc in Hlt.
    exact Hlt. }
  rewrite Hdeck, <- !app_assoc. reflexivity.
Qed.
End RoundPlayed.

(** ** What a round guarantees *)

Section RoundGuarantees.
Import Protocol Server.

Definition card_eq_dec (a b : card) : {a = b} + {a <> b}.
Proof. repeat decide equality. Defined.

(** Settles that two lists built from the same pieces, with [++], [rev]
    and [::], have the same elements. *)
Ltac same_cards :=
  apply (Permutation_count_occ card_eq_dec); intros ?x;
  rewrite ?count_occ_app, ?count_occ_rev; cbn [count_occ];
  rewrite ?count_occ_app, ?count_occ_rev;
  repeat match goal with
         | |- context [card_eq_dec ?a ?b] => destruct (card_eq_dec a b)
         end;
  lia.

(** X9: in a round no card is dealt twice and none is lost: the player's
    hand, the dealer's hand and the deck left over, together with the
    dealer's hidden card when it was never shown (the player busted), are
    the 52 cards of the deck, each once. *)
Theorem no_card_is_dealt_twice (deck0 deck' : list card) (sock sock' : socket)
        (h : hands) :
  Permutation create_deck deck0 ->
  play_hands deck0 sock = Ok (h, deck', sock') ->
  exists unseen,
    length unseen = (if player_busted h then 1 else 0)%nat
    /\ Permutation create_deck
                   (player_hand h ++ dealer_hand h ++ unseen ++ deck')
    /\ NoDup (player_hand h ++ dealer_hand h ++ unseen ++ deck').
Proof.
  intros Hperm E. apply play_hands_Ok in E.
  destruct E as (hidden & up & p2 & p1 & hits & shown & E).
  destruct E as (Hph & Hdh & _ & _ & _ & _ & Hcase).
  assert (Hsame : exists unseen,
             length unseen = (if player_busted h then 1 else 0)%nat
             /\ Permutation deck0
                  (player_hand h ++ dealer_hand h ++ unseen ++ deck')).
  { rewrite Hph, Hdh.
    destruct Hcase as [(-> & -> & _ & ->) | (-> & more & -> & _ & _ & _ & ->)].
    - exists [hidden]. split; [reflexivity|]. same_cards.
    - exists []. split; [reflexivity|]. same_cards. }
  destruct Hsame as (unseen & Hlen & Hsame). exists unseen.
  split; [exact Hlen|].
  assert (Hall : Permutation create_deck
                   (player_hand h ++ dealer_hand h ++ unseen ++ deck'))
    by (eapply Permutation_trans; eassumption).
  split; [exact Hall|].
  apply (Permutation_NoDup Hall). apply create_deck_NoDup.
Qed.

Lemma stacked_Permutation (top : list card) :
  distinct top = true -> forallb (fun c => existsb (card_eqb c) create_deck) top = true ->
  Permutation create_deck (stacked top create_deck).
Proof.
  intros Hd Hin. apply NoDup_Permutation_bis.
  - apply create_deck_NoDup.
  - unfold stacked. rewrite length_app.
    assert (H : forall deck,
               NoDup deck ->
               (length (filter (fun c => negb (existsb (card_eqb c) top)) deck)
                + length (filter (fun c => existsb (card_eqb c) top) deck)
                = length deck)%nat).
    { induction deck as [|c deck IH]; [reflexivity|]. intros Hn.
      inversion Hn; subst. cbn [filter].
      destruct (existsb (card_eqb c) top); cbn [negb length];
        specialize (IH ltac:(assumption)); lia. }
    specialize (H create_deck create_deck_NoDup).
    assert (Hle : (length top
                   <= length (filter (fun c => existsb (card_eqb c) top)
                                     create_deck))%nat).
    { apply NoDup_incl_length; [apply distinct_NoDup; exact Hd|].
      intros c Hc. apply filter_In.
      rewrite forallb_forall in Hin. specialize (Hin c Hc).
      split.
      - apply existsb_exists in Hin. destruct Hin as (c' & Hc' & Heq).
        apply card_eqb_eq in Heq. subst c'. exact Hc'.
      - apply existsb_exists. exists c. split; [exact Hc|].
        apply card_eqb_eq. reflexivity. }
    lia.
  - intros c Hc. apply stacked_incl. exact Hc.
Qed.
End RoundGuarantees.

Section RoundGuarantees2.
Import Protocol Server.

Lemma scenario_deck_Permutation : Permutation create_deck scenario_deck.
Proof. apply stacked_Permutation; reflexivity. Qed.

Lemma no_card_is_dealt_twice_witness :
  exists h deck' sock' unseen,
    play_hands scenario_deck scenario_sock = Ok (h, deck', sock')
    /\ length unseen = (if player_busted h then 1 else 0)%nat
    /\ Permutation create_deck
                   (player_hand h ++ dealer_hand h ++ unseen ++ deck')
    /\ NoDup (player_hand h ++ dealer_hand h ++ unseen ++ deck').
Proof.
  destruct (play_hands scenario_deck scenario_sock) as [[[h deck'] sock']|]
    eqn:E; [|vm_compute in E; discriminate E].
  destruct (no_card_is_dealt_twice scenario_deck deck' scenario_sock sock' h
              scenario_deck_Permutation E) as (unseen & H).
  exists h, deck', sock', unseen. split; [reflexivity | exact H].
Defined.

(** X10: the flags of a round never disagree with its hands: the outcome
    [who_won] computes is the one the two final totals decide; when the
    player has 21 or less the dealer has played to 17 or more, and when the
    player is over 21 the dealer still has the single card shown at the
    deal. *)
Theorem round_is_decided_by_the_final_hands
        (deck0 deck' : list card) (sock sock' : socket) (h : hands) :
  play_hands deck0 sock = Ok (h, deck', sock') ->
  who_won (player_hand h) (dealer_hand h) (player_busted h) (dealer_busted h)
  = outcome_of_totals (hand_total (player_hand h))
                      (hand_total (dealer_hand h))
  /\ (hand_total (player_hand h) <= 21 ->
      17 <= hand_total (dealer_hand h) /\ (2 <= length (dealer_hand h))%nat)
  /\ (21 < hand_total (player_hand h) -> length (dealer_hand h) = 1%nat)
  /\ (2 <= length (player_hand h))%nat.
Proof.
  intros E. apply play_hands_Ok in E.
  destruct E as (hidden & up & p2 & p1 & hits & shown & E).
  destruct E as (Hph & Hdh & Hpb & _ & _ & _ & Hcase).
  unfold who_won, outcome_of_totals.
  destruct Hcase as [(Hb & -> & Hd & _) | (Hb & more & -> & Hd & H17 & _)].
  - rewrite Hb in Hpb. rewrite Hb, <- Hpb.
    symmetry in Hpb. rewrite Z.gtb_ltb in Hpb. apply Z.ltb_lt in Hpb.
    split; [reflexivity|]. split; [lia|].
    split; [intros _; rewrite Hdh; reflexivity|].
    rewrite Hph. cbn [length]. lia.
  - rewrite Hb in Hpb. rewrite Hb, <- Hpb, Hd.
    symmetry in Hpb. rewrite Z.gtb_ltb in Hpb. apply Z.ltb_ge in Hpb.
    split; [reflexivity|].
    split; [intros _; split; [exact H17|rewrite Hdh; cbn [length]; lia]|].
    split; [lia|]. rewrite Hph. cbn [length]. lia.
Qed.

Lemma round_is_decided_by_the_final_hands_witness :
  exists h deck' sock',
    play_hands scenario_deck scenario_sock = Ok (h, deck', sock')
    /\ who_won (player_hand h) (dealer_hand h)
               (player_busted h) (dealer_busted h)
       = outcome_of_totals (hand_total (player_hand h))
                           (hand_total (dealer_hand h)).
Proof.
  destruct (play_hands scenario_deck scenario_sock) as [[[h deck'] sock']|]
    eqn:E; [|vm_compute in E; discriminate E].
  exists h, deck', sock'. split; [reflexivity|].
  apply (round_is_decided_by_the_final_hands _ _ _ _ _ E).
Defined.

Lemma who_won_is_a_result (ph dh : list card) (pb db : bool) :
  who_won ph dh pb db = GAME_RESULT_TIE
  \/ who_won ph dh pb db = GAME_RESULT_LOSS
  \/ who_won ph dh pb db = GAME_RESULT_WIN.
Proof.
  unfold who_won. destruct pb; [auto|]. destruct db; [auto|].
  destruct (_ >? _); [auto|]. destruct (_ <? _); auto.
Qed.

Lemma end_round_result (sock : socket) (r : Z) :
  r = GAME_RESULT_TIE \/ r = GAME_RESULT_LOSS \/ r = GAME_RESULT_WIN ->
  end_round sock r = Ok (sendall sock (result_message r)).
Proof.
  intros H. apply end_round_Ok.
  unfold GAME_RESULT_TIE, GAME_RESULT_LOSS, GAME_RESULT_WIN in H. lia.
Qed.

(** X11: what a round puts on the wire and takes from it: the cards in
    the order player, player, dealer's upcard, the player's hits, then the
    dealer's hidden card and draws, each in a 9-byte payload marked
    not-over, and last one payload with the outcome, which is TIE, LOSS or
    WIN, with rank 0 and suit 0; it reads 10 bytes for each hit and 10 more
    when the player stands. *)
Theorem round_transcript (shuffle : list card -> list card)
        (sock sock' : socket) (r : Z) :
  play_round shuffle sock = Ok (r, sock') ->
  exists h deck' consumed,
    (exists sock1,
        play_hands (shuffle create_deck) sock = Ok (h, deck', sock1))
    /\ r = outcome_of_totals (hand_total (player_hand h))
                             (hand_total (dealer_hand h))
    /\ (r = GAME_RESULT_TIE \/ r = GAME_RESULT_LOSS \/ r = GAME_RESULT_WIN)
    /\ outbox sock'
       = outbox sock
           ++ flat_map card_message
                       (cards_shown (player_hand h) (dealer_hand h))
           ++ result_message r
    /\ stream sock = consumed ++ stream sock'
    /\ len consumed
       = 10 * (len (player_hand h) - 2
               + (if hand_total (player_hand h) >? 21 then 0 else 1)).
Proof.
  unfold play_round.
  destruct (play_hands (shuffle create_deck) sock) as [[[h deck'] sock1]|]
    eqn:E; [|discriminate].
  cbn [bind]. pose proof (who_won_is_a_result (player_hand h) (dealer_hand h)
                            (player_busted h) (dealer_busted h)) as Hres.
  rewrite (end_round_result _ _ Hres). cbn [bind].
  intros E2. apply Ok_eq in E2. apply pair_eq in E2. destruct E2 as [-> ->].
  pose proof (round_is_decided_by_the_final_hands _ _ _ _ _ E) as Hwho.
  destruct Hwho as [Hwho _].
  apply play_hands_Ok in E.
  destruct E as (hidden & up & p2 & p1 & hits & shown & E).
  destruct E as (Hph & Hdh & Hpb & _ & Hout & (consumed & Hstr & Hlen) & _).
  exists h, deck', consumed.
  split; [eexists; reflexivity|]. split; [exact Hwho|].
  split; [exact Hres|].
  split.
  { unfold sendall. cbn [outbox]. rewrite Hout.
    unfold cards_shown. rewrite Hph, Hdh. cbn [firstn skipn app].
    rewrite <- app_assoc. reflexivity. }
  split; [unfold stream, sendall; cbn [inbox]; exact Hstr|].
  rewrite Hlen, <- Hpb, Hph. unfold len. cbn [length]. lia.
Qed.

Lemma round_transcript_witness :
  play_round (stacked [(5, 0); (6, 3); (7, 2); (9, 1); (10, 0)]) scenario_sock
  = Ok (GAME_RESULT_WIN,
        mkSocket []
                 (flat_map card_message
                           [(10, 0); (9, 1); (7, 2); (6, 3); (5, 0)]
                    ++ result_message GAME_RESULT_WIN))
  /\ exists h deck' consumed,
      (exists sock1,
          play_hands scenario_deck scenario_sock = Ok (h, deck', sock1))
      /\ GAME_RESULT_WIN
         = outcome_of_totals (hand_total (player_hand h))
                             (hand_total (dealer_hand h))
      /\ (GAME_RESULT_WIN = GAME_RESULT_TIE
          \/ GAME_RESULT_WIN = GAME_RESULT_LOSS
          \/ GAME_RESULT_WIN = GAME_RESULT_WIN)
      /\ flat_map card_message [(10, 0); (9, 1); (7, 2); (6, 3); (5, 0)]
           ++ result_message GAME_RESULT_WIN
         = [] ++ flat_map card_message
                          (cards_shown (player_hand h) (dealer_hand h))
              ++ result_message GAME_RESULT_WIN
      /\ stream scenario_sock = consumed ++ []
      /\ len consumed
         = 10 * (len (player_hand h) - 2
                 + (if hand_total (player_hand h) >? 21 then 0 else 1)).
Proof.
  assert (E : play_round (stacked [(5, 0); (6, 3); (7, 2); (9, 1); (10, 0)])
                         scenario_sock
              = Ok (GAME_RESULT_WIN,
                    mkSocket []
                      (flat_map card_message
                                [(10, 0); (9, 1); (7, 2); (6, 3); (5, 0)]
                         ++ result_message GAME_RESULT_WIN)))
    by (vm_compute; reflexivity).
  split; [exact E|].
  exact (round_transcript _ _ _ _ E).
Defined.
End RoundGuarantees2.

(** ** What a round can raise *)

Section RoundErrors.
Import Protocol Server.

Lemma last_four {A} (l : list A) :
  (4 <= length l)%nat -> exists rest a b c d, l = rest ++ [a; b; c; d].
Proof.
  intros H. rewrite <- (rev_involutive l).
  rewrite <- length_rev in H.
  destruct (rev l) as [|d [|c [|b [|a r]]]]; cbn [length] in H; try lia.
  exists (rev r), a, b, c, d. cbn [rev]. rewrite <- !app_assoc. reflexivity.
Qed.

Lemma Forall_in_deck (deck0 : list card) :
  Permutation create_deck deck0 -> Forall (fun c => In c create_deck) deck0.
Proof.
  intros H. apply Forall_forall. intros c Hc.
  apply (Permutation_in c (Permutation_sym H)). exact Hc.
Qed.

Ltac cards_in_deck :=
  repeat (apply Forall_cons; [assumption|]); apply Forall_nil.

Lemma play_hands_Raise (deck0 : list card) (sock : socket) (e : exn) :
  Permutation create_deck deck0 ->
  play_hands deck0 sock = Raise e ->
  e = ConnectionError \/ e = UnicodeDecodeError \/ e = ValueError.
Proof.
  intros Hperm.
  assert (Hlen : length deck0 = 52%nat)
    by (rewrite <- (Permutation_length Hperm); reflexivity).
  destruct (last_four deck0) as (rest & hidden & up & p2 & p1 & ->); [lia|].
  apply Forall_in_deck in Hperm.
  apply Forall_app in Hperm. destruct Hperm as [Hrest Hfour].
  inversion Hfour as [|? ? Hhid H3]; subst.
  inversion H3 as [|? ? Hup H2]; subst.
  inversion H2 as [|? ? Hp2 H1]; subst.
  inversion H1 as [|? ? Hp1 _]; subst.
  rewrite length_app in Hlen. cbn [length] in Hlen.
  unfold play_hands. rewrite initial_deal_Ok by assumption. cbn [bind].
  destruct (hand_total [p1; p2] >? 21); [discriminate|].
  unfold player_turn.
  destruct (player_loop _) as [[pb [[sock2 deck2] ph2]]|e0] eqn:Hplayer.
  2:{ cbn [bind]. intros [= <-].
      apply player_loop_Raise in Hplayer;
        [|exact Hrest|cards_in_deck].
      destruct Hplayer as [-> | [-> | [-> | [_ Hbad]]]]; auto.
      exfalso. unfold len in Hbad. cbn [length] in Hbad. lia. }
  cbn [bind]. destruct pb; cbn [negb]; [discriminate|].
  apply player_loop_outcome in Hplayer. unfold player_outcome in Hplayer.
  destruct Hplayer as (Hpb & hits & consumed & -> & -> & _ & _ & _ & _).
  apply Forall_app in Hrest. destruct Hrest as [Hdeck2 Hhits].
  assert (Hhits' : Forall (fun c => In c create_deck) hits).
  { apply Forall_forall. intros c Hc. rewrite Forall_forall in Hhits.
    apply Hhits. apply in_rev in Hc. exact Hc. }
  assert (Hfew : 2 * (2 + len hits) <= 21).
  { symmetry in Hpb. rewrite Z.gtb_ltb in Hpb. apply Z.ltb_ge in Hpb.
    assert (Hall : Forall (fun c => In c create_deck) ([p1; p2] ++ hits))
      by (apply Forall_app; split; [cards_in_deck|exact Hhits']).
    pose proof (hand_total_at_least _ Hall) as Hv.
    rewrite len_app in Hv. unfold len in *. cbn [length] in Hv. lia. }
  unfold dealer_turn. destruct hidden as [hr hs].
  rewrite (pack_card_pair _ _ Hhid). cbn [bind].
  destruct (dealer_loop _) as [[db [[sock3 deck3] dh3]]|e0] eqn:Hdealer;
    [discriminate|].
  cbn [bind]. intros [= <-].
  apply dealer_loop_Raise in Hdealer;
    [|exact Hdeck2|cards_in_deck].
  exfalso. destruct Hdealer as [_ Hbad].
  rewrite length_app, length_rev in Hlen.
  unfold len in *. cbn [length app] in *. lia.
Qed.

(** X12: with a deck of 52 cards a round never runs out of cards and never
    fails to pack a card or a result: whatever it raises comes from the
    client, a stream closed too early ([ConnectionError]), a token that is
    not ASCII ([UnicodeDecodeError]), or a wrong cookie or an unknown
    decision ([ValueError]). *)
Theorem round_raises_only_for_the_client
        (shuffle : list card -> list card) (sock : socket) (e : exn) :
  Permutation create_deck (shuffle create_deck) ->
  play_round shuffle sock = Raise e ->
  e = ConnectionError \/ e = UnicodeDecodeError \/ e = ValueError.
Proof.
  intros Hperm. unfold play_round.
  destruct (play_hands (shuffle create_deck) sock) as [[[h deck'] sock1]|e0]
    eqn:E.
  - cbn [bind].
    rewrite (end_round_result _ _ (who_won_is_a_result _ _ _ _)).
    discriminate.
  - cbn [bind]. intros [= <-]. eapply play_hands_Raise; eassumption.
Qed.

Lemma round_raises_only_for_the_client_witness :
  play_round (stacked [(5, 0); (6, 3); (7, 2); (9, 1); (10, 0)])
             (mkSocket (segments [firstn 4 stand_payload]) [])
  = Raise ConnectionError
  /\ (ConnectionError = ConnectionError
      \/ ConnectionError = UnicodeDecodeError
      \/ ConnectionError = ValueError).
Proof.
  assert (E : play_round (stacked [(5, 0); (6, 3); (7, 2); (9, 1); (10, 0)])
                         (mkSocket (segments [firstn 4 stand_payload]) [])
              = Raise ConnectionError)
    by (vm_compute; reflexivity).
  split; [exact E|].
  exact (round_raises_only_for_the_client
           (stacked [(5, 0); (6, 3); (7, 2); (9, 1); (10, 0)])
           (mkSocket (segments [firstn 4 stand_payload]) [])
           ConnectionError
           (stacked_Permutation [(5, 0); (6, 3); (7, 2); (9, 1); (10, 0)]
                                eq_refl eq_refl)
           E).
Defined.
End RoundErrors.

(** ** A match *)

Section Match.
Import Protocol Server.

Lemma play_round_inv (shuffle : list card -> list card) (sock sock' : socket)
      (r : Z) :
  play_round shuffle sock = Ok (r, sock') ->
  exists h deck' sock1,
    play_hands (shuffle create_deck) sock = Ok (h, deck', sock1)
    /\ r = who_won (player_hand h) (dealer_hand h)
                   (player_busted h) (dealer_busted h)
    /\ sock' = sendall sock1 (result_message r).
Proof.
  unfold play_round.
  destruct (play_hands (shuffle create_deck) sock) as [[[h deck'] sock1]|]
    eqn:E; [|discriminate].
  cbn [bind].
  rewrite (end_round_result _ _ (who_won_is_a_result _ _ _ _)). cbn [bind].
  intros E2. apply Ok_eq in E2. apply pair_eq in E2. destruct E2 as [-> ->].
  exists h, deck', sock1. repeat split.
Qed.

Lemma play_rounds_Ok (shuffles : nat -> list card -> list card)
      (k r : nat) (sock sock' : socket) :
  play_rounds shuffles k r sock = Ok sock' ->
  exists played consumed,
    length played = k
    /\ outbox sock' = outbox sock ++ flat_map round_bytes played
    /\ Forall (fun round =>
                 (3 <= length (fst round))%nat
                 /\ (snd round = GAME_RESULT_TIE
                     \/ snd round = GAME_RESULT_LOSS
                     \/ snd round = GAME_RESULT_WIN)) played
    /\ stream sock = consumed ++ stream sock'
    /\ exists n, len consumed = 10 * n.
Proof.
  revert r sock. induction k as [|k IH]; intros r sock.
  - cbn [play_rounds]. intros E. apply Ok_eq in E. subst sock'.
    exists [], []. cbn [flat_map length]. rewrite app_nil_r.
    repeat split; [constructor|]. exists 0. reflexivity.
  - cbn [play_rounds].
    destruct (play_round (shuffles r) sock) as [[res sock1]|] eqn:Hround;
      [|discriminate].
    cbn [bind]. intros E. apply IH in E.
    destruct E as (played & consumed & Hlen & Hout & Hall & Hstr & n & Hn).
    apply play_round_inv in Hround.
    destruct Hround as (h & deck' & sock0 & Hhands & Hres & ->).
    apply play_hands_Ok in Hhands.
    destruct Hhands as (hidden & up & p2 & p1 & hits & shown & Hplayed).
    destruct Hplayed as (_ & _ & _ & _ & Hout0 & (consumed0 & Hstr0 & Hn0) & _).
    exists (([p1; p2; up] ++ hits ++ shown, res) :: played),
      (consumed0 ++ consumed).
    split; [cbn [length]; rewrite Hlen; reflexivity|].
    split.
    { rewrite Hout. unfold sendall. cbn [outbox flat_map].
      unfold round_bytes at 2. cbn [fst snd]. rewrite Hout0.
      rewrite <- !app_assoc. reflexivity. }
    split.
    { constructor; [|exact Hall]. cbn [fst snd]. split.
      - rewrite length_app. cbn [length]. lia.
      - rewrite Hres. apply who_won_is_a_result. }
    split.
    { rewrite Hstr0. unfold stream in Hstr |- *. unfold sendall in Hstr.
      cbn [inbox] in Hstr. rewrite Hstr, app_assoc. reflexivity. }
    eexists. rewrite len_app, Hn0, Hn, <- Z.mul_add_distr_l. reflexivity.
Qed.

(** X13: a match of [rounds] rounds that ends without error has sent, round
    after round, at least three card payloads followed by exactly one
    result payload, TIE, LOSS or WIN, and nothing else, so that the stream
    holds as many results as rounds; it has read only whole decisions of 10
    bytes.  With a round count of zero or less it sends nothing. *)
Theorem match_transcript (shuffles : nat -> list card -> list card)
        (sock sock' : socket) (rounds : Z) :
  run_match_for_client shuffles sock rounds = Ok sock' ->
  exists played consumed,
    Z.of_nat (length played) = Z.max 0 rounds
    /\ outbox sock' = outbox sock ++ flat_map round_bytes played
    /\ Forall (fun round =>
                 (3 <= length (fst round))%nat
                 /\ (snd round = GAME_RESULT_TIE
                     \/ snd round = GAME_RESULT_LOSS
                     \/ snd round = GAME_RESULT_WIN)) played
    /\ stream sock = consumed ++ stream sock'
    /\ exists n, len consumed = 10 * n.
Proof.
  unfold run_match_for_client. intros E. apply play_rounds_Ok in E.
  destruct E as (played & consumed & Hlen & Hrest).
  exists played, consumed. split; [rewrite Hlen; lia | exact Hrest].
Qed.

Lemma match_transcript_witness :
  run_match_for_client
    (fun _ => stacked [(5, 0); (6, 3); (7, 2); (9, 1); (10, 0)])
    scenario_sock 1
  = Ok (mkSocket []
          (round_bytes ([(10, 0); (9, 1); (7, 2); (6, 3); (5, 0)],
                        GAME_RESULT_WIN)))
  /\ exists played consumed,
      Z.of_nat (length played) = Z.max 0 1
      /\ round_bytes ([(10, 0); (9, 1); (7, 2); (6, 3); (5, 0)],
                      GAME_RESULT_WIN)
         = [] ++ flat_map round_bytes played
      /\ Forall (fun round =>
                   (3 <= length (fst round))%nat
                   /\ (snd round = GAME_RESULT_TIE
                       \/ snd round = GAME_RESULT_LOSS
                       \/ snd round = GAME_RESULT_WIN)) played
      /\ stream scenario_sock = consumed ++ []
      /\ exists n, len consumed = 10 * n.
Proof.
  assert (E : run_match_for_client
                (fun _ => stacked [(5, 0); (6, 3); (7, 2); (9, 1); (10, 0)])
                scenario_sock 1
              = Ok (mkSocket []
                      (round_bytes ([(10, 0); (9, 1); (7, 2); (6, 3); (5, 0)],
                                    GAME_RESULT_WIN))))
    by (vm_compute; reflexivity).
  split; [exact E|].
  exact (match_transcript
           (fun _ => stacked [(5, 0); (6, 3); (7, 2); (9, 1); (10, 0)])
           scenario_sock _ 1 E).
Defined.

Lemma play_rounds_Raise (shuffles : nat -> list card -> list card)
      (k r : nat) (sock : socket) (e : exn) :
  (forall i, Permutation create_deck (shuffles i create_deck)) ->
  play_rounds shuffles k r sock = Raise e ->
  e = ConnectionError \/ e = UnicodeDecodeError \/ e = ValueError.
Proof.
  intros Hperm. revert r sock. induction k as [|k IH]; intros r sock.
  - discriminate.
  - cbn [play_rounds].
    destruct (play_round (shuffles r) sock) as [[res sock1]|e0] eqn:Hround.
    + cbn [bind]. apply IH.
    + cbn [bind]. intros [= <-]. revert Hround. unfold play_round.
      destruct (play_hands (shuffles r create_deck) sock)
        as [[[h deck'] sock1]|e1] eqn:E.
      * cbn [bind].
        rewrite (end_round_result _ _ (who_won_is_a_result _ _ _ _)).
        discriminate.
      * cbn [bind]. intros [= <-].
        eapply play_hands_Raise; [apply Hperm | exact E].
Qed.

(** X14: as long as every shuffle returns a permutation of the deck, a
    match of any number of rounds fails only for what the client sends or
    fails to send: [ConnectionError], [UnicodeDecodeError] or
    [ValueError]; never for the deck or the packing of a card. *)
Theorem match_raises_only_for_the_client
        (shuffles : nat -> list card -> list card) (sock : socket)
        (rounds : Z) (e : exn) :
  (forall i, Permutation create_deck (shuffles i create_deck)) ->
  run_match_for_client shuffles sock rounds = Raise e ->
  e = ConnectionError \/ e = UnicodeDecodeError \/ e = ValueError.
Proof.
  intros Hperm E. unfold run_match_for_client in E.
  eapply play_rounds_Raise; eassumption.
Qed.

(** Three rounds asked, and a client that stands once and goes away. *)
Lemma match_raises_only_for_the_client_witness :
  run_match_for_client
    (fun _ => stacked [(5, 0); (6, 3); (7, 2); (9, 1); (10, 0)])
    scenario_sock 3
  = Raise ConnectionError
  /\ (ConnectionError = ConnectionError
      \/ ConnectionError = UnicodeDecodeError
      \/ ConnectionError = ValueError).
Proof.
  assert (E : run_match_for_client
                (fun _ => stacked [(5, 0); (6, 3); (7, 2); (9, 1); (10, 0)])
                scenario_sock 3
              = Raise ConnectionError)
    by (vm_compute; reflexivity).
  split; [exact E|].
  exact (match_raises_only_for_the_client
           (fun _ => stacked [(5, 0); (6, 3); (7, 2); (9, 1); (10, 0)])
           scenario_sock 3 ConnectionError
           (fun _ => stacked_Permutation
                       [(5, 0); (6, 3); (7, 2); (9, 1); (10, 0)]
                       eq_refl eq_refl)
           E).
Defined.
End Match.

(** ** The first decision, and the request *)

Section Decisions.
Import Protocol Server ServerMain.

Lemma recv_exact_enough (sock : socket) (data rest : bytes) :
  stream sock = data ++ rest ->
  exists sock',
    recv_exact sock (len data) = Ok (data, sock')
    /\ stream sock' = rest /\ outbox sock' = outbox sock.
Proof.
  intros Hs. pose proof (recv_exact_spec sock (len data)) as H.
  destruct (recv_exact sock (len data)) as [[d sock']|e].
  - destruct H as (_ & _ & Hd & Hrest & Ho). exists sock'.
    unfold len in Hd, Hrest. rewrite Nat2Z.id, Hs in Hd, Hrest.
    rewrite firstn_app, Nat.sub_diag, firstn_all in Hd.
    rewrite skipn_app, Nat.sub_diag, skipn_all in Hrest.
    cbn [firstn skipn app] in Hd, Hrest. rewrite app_nil_r in Hd.
    subst d. auto.
  - exfalso. destruct H as [_ H]. rewrite Hs, len_app in H.
    unfold len in H. lia.
Qed.

Lemma recv_exact_short (sock : socket) (n : Z) :
  len (stream sock) < n -> recv_exact sock n = Raise ConnectionError.
Proof.
  intros Hs. pose proof (recv_exact_spec sock n) as H.
  destruct (recv_exact sock n) as [[d sock']|e].
  - destruct H as (H & _). lia.
  - destruct H as [-> _]. reflexivity.
Qed.

(** X15: how the player's turn takes the first decision, at a total of 21
    or less.  A stream closed before 10 bytes raises [ConnectionError]; a
    wrong cookie raises [ValueError]; so does a token other than "Hittt"
    and "Stand"; "Stand" ends the turn, not busted, with hand and deck as
    they were and nothing sent.  The type byte of the message plays no
    part. *)
Theorem player_turn_first_decision
        (sock : socket) (deck hand : list card) :
  hand_total hand <= 21 ->
  (len (stream sock) < 10 ->
   player_turn sock deck hand = Raise ConnectionError)
  /\ (forall data rest cookie msg_type decision,
        stream sock = data ++ rest ->
        unpack_client_payload data = Ok (cookie, msg_type, decision) ->
        (cookie <> MAGIC_COOKIE ->
         player_turn sock deck hand = Raise ValueError)
        /\ (cookie = MAGIC_COOKIE -> decision = Stand ->
            exists sock',
              player_turn sock deck hand = Ok (false, (sock', deck, hand))
              /\ stream sock' = rest /\ outbox sock' = outbox sock)
        /\ (cookie = MAGIC_COOKIE ->
            decision <> Hittt -> decision <> Stand ->
            player_turn sock deck hand = Raise ValueError)).
Proof.
  intros Hle. unfold player_turn. rewrite player_loop_step.
  unfold player_turn_body.
  destruct (Z.gtb_spec (hand_total hand) 21) as [|_]; [lia|].
  split.
  { intros Hshort. rewrite recv_exact_short by exact Hshort. reflexivity. }
  intros data rest cookie msg_type decision Hs Hun.
  assert (Hlen : len data = CLIENT_PAYLOAD_SIZE).
  { unfold unpack_client_payload in Hun.
    destruct (check_size CLIENT_PAYLOAD_SIZE data) as [[]|] eqn:Hsz;
      [|discriminate].
    apply check_size_inv in Hsz. exact Hsz. }
  destruct (recv_exact_enough sock data rest Hs) as (sock' & Hr & Hrest & Ho).
  rewrite Hlen in Hr. rewrite Hr. cbn [bind]. rewrite Hun. cbn [bind].
  split; [|split].
  - intros Hc. destruct (Z.eqb_spec cookie MAGIC_COOKIE); [contradiction|].
    reflexivity.
  - intros -> ->. rewrite Z.eqb_refl. cbn [negb].
    exists sock'. split; [reflexivity | auto].
  - intros -> Hh Hst. rewrite Z.eqb_refl. cbn [negb].
    destruct (str_eqb decision Hittt) eqn:E1;
      [apply str_eqb_eq in E1; contradiction|].
    destruct (str_eqb decision Stand) eqn:E2;
      [apply str_eqb_eq in E2; contradiction|].
    reflexivity.
Qed.

(** A "Stand" sent with the type byte of an offer is obeyed. *)
Lemma player_turn_first_decision_witness :
  hand_total [(10, 0); (9, 1)] <= 21
  /\ exists sock',
      player_turn (mkSocket (segments [[xab; xcd; xdc; xba; x02]
                                         ++ list_byte_of_string "Stand"]) [])
                  create_deck [(10, 0); (9, 1)]
      = Ok (false, (sock', create_deck, [(10, 0); (9, 1)]))
      /\ stream sock' = [] /\ outbox sock' = [].
Proof.
  split; [discriminate|].
  destruct (player_turn_first_decision
              (mkSocket (segments [[xab; xcd; xdc; xba; x02]
                                     ++ list_byte_of_string "Stand"]) [])
              create_deck [(10, 0); (9, 1)]) as [_ H]; [discriminate|].
  destruct (H ([xab; xcd; xdc; xba; x02] ++ list_byte_of_string "Stand")
              [] MAGIC_COOKIE MTYPE_OFFER Stand eq_refl eq_refl)
    as (_ & Hstand & _).
  exact (Hstand eq_refl eq_refl).
Defined.

Lemma announce (encodable : Z -> bool) (name : str) :
  print encodable (str_of_string "[TCP] game starting with " ++ name)
  = if printable encodable name then Ok tt else Raise UnicodeEncodeError.
Proof.
  rewrite print_printable, printable_app.
  change (printable encodable (str_of_string "[TCP] game starting with "))
    with true.
  reflexivity.
Qed.

(** X16: the request a client packs is served as asked, if the console of
    the server can encode the client's name: when the stream begins with
    [pack_request rounds name], for a name that fits, the game mode reads
    exactly these 38 bytes, sends nothing for them, and plays the match of
    [rounds] rounds on what follows.  If the console cannot encode the
    name, the game mode raises [UnicodeEncodeError] instead of playing. *)
Theorem game_mode_serves_the_request
        (encodable : Z -> bool)
        (shuffles : nat -> list card -> list card) (sock : socket)
        (rounds : Z) (name : str) (m rest : bytes) :
  0 <= rounds <= 255 -> name_fits name = true ->
  pack_request rounds name = Ok m ->
  stream sock = m ++ rest ->
  exists sock1,
    recv_exact sock REQUEST_SIZE = Ok (m, sock1)
    /\ stream sock1 = rest /\ outbox sock1 = outbox sock
    /\ game_mode encodable shuffles sock
       = if printable encodable name
         then run_match_for_client shuffles sock1 rounds
         else Raise UnicodeEncodeError.
Proof.
  intros Hr Hn Hm Hs.
  destruct (recv_exact_enough sock m rest Hs) as (sock1 & Hrecv & Hrest & Ho).
  rewrite (pack_request_size _ _ _ Hm) in Hrecv.
  exists sock1. split; [exact Hrecv|]. split; [exact Hrest|].
  split; [exact Ho|].
  unfold game_mode. rewrite Hrecv. cbn [bind].
  pose proof (request_roundtrip rounds name Hr Hn) as Hround.
  rewrite Hm in Hround. cbn [bind] in Hround. rewrite Hround. cbn [bind].
  rewrite Z.eqb_refl. cbn [negb]. rewrite announce.
  destruct (printable encodable name); reflexivity.
Qed.

(** The request of the client for one round, followed by a stand, on a
    console that encodes ASCII only: the round is played. *)
Lemma game_mode_serves_the_request_witness :
  pack_request 1 (str_of_string "OFRIELOV")
  = Ok ([xab; xcd; xdc; xba; x03; x01]
          ++ pack_chars 32 (list_byte_of_string "OFRIELOV"))
  /\ exists sock1,
      recv_exact
        (mkSocket (segments [[xab; xcd; xdc; xba; x03; x01];
                             pack_chars 32 (list_byte_of_string "OFRIELOV");
                             stand_payload])
                  [])
        REQUEST_SIZE
      = Ok ([xab; xcd; xdc; xba; x03; x01]
              ++ pack_chars 32 (list_byte_of_string "OFRIELOV"), sock1)
      /\ stream sock1 = stand_payload /\ outbox sock1 = []
      /\ game_mode
           (fun _ => false)
           (fun _ => stacked [(5, 0); (6, 3); (7, 2); (9, 1); (10, 0)])
           (mkSocket (segments [[xab; xcd; xdc; xba; x03; x01];
                                pack_chars 32
                                           (list_byte_of_string "OFRIELOV");
                                stand_payload])
                     [])
         = run_match_for_client
             (fun _ => stacked [(5, 0); (6, 3); (7, 2); (9, 1); (10, 0)])
             sock1 1.
Proof.
  split; [reflexivity|].
  apply (game_mode_serves_the_request
           (fun _ => false)
           (fun _ => stacked [(5, 0); (6, 3); (7, 2); (9, 1); (10, 0)])
           (mkSocket (segments [[xab; xcd; xdc; xba; x03; x01];
                                pack_chars 32
                                           (list_byte_of_string "OFRIELOV");
                                stand_payload])
                     [])
           1 (str_of_string "OFRIELOV")
           ([xab; xcd; xdc; xba; x03; x01]
              ++ pack_chars 32 (list_byte_of_string "OFRIELOV"))
           stand_payload).
  - lia.
  - reflexivity.
  - reflexivity.
  - reflexivity.
Defined.

(** X17: of a request the game mode checks the cookie and the name, and
    nothing else: with another cookie it returns without sending a byte;
    with the right one it plays the number of rounds in the request,
    whatever the type byte, if the console can encode the name of the
    client, and raises [UnicodeEncodeError] without playing if it
    cannot. *)
Theorem game_mode_checks_only_the_cookie
        (encodable : Z -> bool)
        (shuffles : nat -> list card -> list card) (sock : socket)
        (data rest : bytes) (cookie msg_type rounds : Z) (name : str) :
  stream sock = data ++ rest ->
  unpack_request data = Ok (cookie, msg_type, rounds, name) ->
  exists sock1,
    stream sock1 = rest /\ outbox sock1 = outbox sock
    /\ (cookie <> MAGIC_COOKIE -> game_mode encodable shuffles sock = Ok sock1)
    /\ (cookie = MAGIC_COOKIE ->
        game_mode encodable shuffles sock
        = if printable encodable name
          then run_match_for_client shuffles sock1 rounds
          else Raise UnicodeEncodeError).
Proof.
  intros Hs Hun.
  assert (Hlen : len data = REQUEST_SIZE).
  { unfold unpack_request in Hun.
    destruct (check_size REQUEST_SIZE data) as [[]|] eqn:Hsz; [|discriminate].
    apply check_size_inv in Hsz. exact Hsz. }
  destruct (recv_exact_enough sock data rest Hs) as (sock1 & Hr & Hrest & Ho).
  rewrite Hlen in Hr. exists sock1.
  split; [exact Hrest|]. split; [exact Ho|].
  unfold game_mode. rewrite Hr. cbn [bind]. rewrite Hun. cbn [bind].
  split.
  - intros Hc. destruct (Z.eqb_spec cookie MAGIC_COOKIE); [contradiction|].
    reflexivity.
  - intros ->. rewrite Z.eqb_refl. cbn [negb]. rewrite announce.
    destruct (printable encodable name); reflexivity.
Qed.

(** A request with the type byte of a payload, for one round: the round
    is played if the console encodes the name, here an e with an acute
    accent, and not otherwise. *)
Lemma game_mode_checks_only_the_cookie_witness :
  (exists sock1,
      stream sock1 = stand_payload /\ outbox sock1 = []
      /\ game_mode (fun _ => true) (fun _ => aces_last)
                   (mkSocket (segments [[xab; xcd; xdc; xba; x04; x01;
                                         xc3; xa9] ++ repeat x00 30;
                                        stand_payload]) [])
         = run_match_for_client (fun _ => aces_last) sock1 1)
  /\ game_mode (fun _ => false) (fun _ => aces_last)
               (mkSocket (segments [[xab; xcd; xdc; xba; x04; x01;
                                     xc3; xa9] ++ repeat x00 30;
                                    stand_payload]) [])
     = Raise UnicodeEncodeError.
Proof.
  split.
  - destruct (game_mode_checks_only_the_cookie
                (fun _ => true) (fun _ => aces_last)
                (mkSocket (segments [[xab; xcd; xdc; xba; x04; x01;
                                      xc3; xa9] ++ repeat x00 30;
                                     stand_payload]) [])
                ([xab; xcd; xdc; xba; x04; x01; xc3; xa9] ++ repeat x00 30)
                stand_payload
                MAGIC_COOKIE 4 1 [233] eq_refl eq_refl)
      as (sock1 & Hs & Ho & _ & Hgood).
    exists sock1. split; [exact Hs|]. split; [exact Ho|].
    apply Hgood. reflexivity.
  - destruct (game_mode_checks_only_the_cookie
                (fun _ => false) (fun _ => aces_last)
                (mkSocket (segments [[xab; xcd; xdc; xba; x04; x01;
                                      xc3; xa9] ++ repeat x00 30;
                                     stand_payload]) [])
                ([xab; xcd; xdc; xba; x04; x01; xc3; xa9] ++ repeat x00 30)
                stand_payload
                MAGIC_COOKIE 4 1 [233] eq_refl eq_refl)
      as (sock1 & _ & _ & _ & Hgood).
    apply Hgood. reflexivity.
Defined.
End Decisions.

(** ** Reads that follow one another, and what follows a null byte *)

Section Framing.
Import Protocol Server.

(** X18: two exact reads in a row return what one read of the two lengths
    together returns, cut in two: the messages a peer sends back to back
    are found whole, however the stream was cut into segments. *)
Theorem recv_exact_back_to_back (sock s1 s2 : socket) (n m : Z)
        (d1 d2 : bytes) :
  0 <= n -> 0 <= m ->
  recv_exact sock n = Ok (d1, s1) ->
  recv_exact s1 m = Ok (d2, s2) ->
  exists s',
    recv_exact sock (n + m) = Ok (d1 ++ d2, s')
    /\ stream s' = stream s2 /\ outbox s' = outbox sock.
Proof.
  intros Hn Hm E1 E2.
  apply recv_exact_Ok in E1; [|exact Hn].
  apply recv_exact_Ok in E2; [|exact Hm].
  destruct E1 as (L1 & S1 & _), E2 as (L2 & S2 & _).
  assert (Hs : stream sock = (d1 ++ d2) ++ stream s2)
    by (rewrite S1, S2, app_assoc; reflexivity).
  destruct (recv_exact_enough sock (d1 ++ d2) (stream s2) Hs)
    as (s' & Hr & Hrest & Ho).
  rewrite len_app, L1, L2 in Hr. exists s'. auto.
Qed.

Lemma recv_exact_back_to_back_witness :
  recv_exact (mkSocket (segments [firstn 3 stand_payload;
                                  skipn 3 stand_payload]) []) 4
  = Ok ([xab; xcd; xdc; xba],
        mkSocket [(x04, list_byte_of_string "Stand")] [])
  /\ exists s',
      recv_exact (mkSocket (segments [firstn 3 stand_payload;
                                      skipn 3 stand_payload]) []) (4 + 6)
      = Ok ([xab; xcd; xdc; xba] ++ x04 :: list_byte_of_string "Stand", s')
      /\ stream s' = stream (mkSocket [] []) /\ outbox s' = [].
Proof.
  split; [reflexivity|].
  apply (recv_exact_back_to_back
           (mkSocket (segments [firstn 3 stand_payload;
                                skipn 3 stand_payload]) [])
           (mkSocket [(x04, list_byte_of_string "Stand")] [])
           (mkSocket [] []) 4 6
           [xab; xcd; xdc; xba] (x04 :: list_byte_of_string "Stand")).
  - lia.
  - lia.
  - reflexivity.
  - reflexivity.
Defined.

Lemma before_nul_app_nul (nm junk : bytes) :
  before_nul (nm ++ x00 :: junk) = before_nul nm.
Proof.
  induction nm as [|b nm IH]; [reflexivity|].
  cbn [app before_nul]. destruct (Byte.eqb b x00); [reflexivity|].
  rewrite IH. reflexivity.
Qed.

Lemma before_nul_firstn_app_nul (n : nat) (nm junk : bytes) :
  before_nul (firstn n (nm ++ x00 :: junk)) = before_nul (firstn n nm).
Proof.
  revert n. induction nm as [|b nm IH]; intros n.
  - destruct n; reflexivity.
  - destruct n; [reflexivity|]. cbn [app firstn before_nul].
    destruct (Byte.eqb b x00); [reflexivity|]. rewrite IH. reflexivity.
Qed.

Lemma slice_app_within (off n : nat) (a b : bytes) :
  (off + n <= length a)%nat -> slice off n (a ++ b) = slice off n a.
Proof.
  intros H. unfold slice. rewrite skipn_app, firstn_app, length_skipn.
  replace (n - (length a - off))%nat with O by lia.
  cbn [firstn]. rewrite app_nil_r. reflexivity.
Qed.

(** X19: a decoder reads a name up to its first null byte and never looks
    at what follows it in the name field: two offers, or two requests, that
    differ only there decode alike. *)
Theorem bytes_after_the_first_null_are_ignored
        (header nm junk1 junk2 : bytes) :
  length junk1 = length junk2 ->
  (length header = 7%nat ->
   unpack_offer (header ++ nm ++ x00 :: junk1)
   = unpack_offer (header ++ nm ++ x00 :: junk2))
  /\ (length header = 6%nat ->
      unpack_request (header ++ nm ++ x00 :: junk1)
      = unpack_request (header ++ nm ++ x00 :: junk2)).
Proof.
  intros Hj.
  assert (Hlen : len (header ++ nm ++ x00 :: junk1)
                 = len (header ++ nm ++ x00 :: junk2)).
  { unfold len. rewrite !length_app. cbn [length]. rewrite Hj. reflexivity. }
  split; intros Hh.
  - unfold unpack_offer, check_size. rewrite Hlen.
    destruct (_ =? _); [|reflexivity]. cbn [bind].
    rewrite !(slice_app_within 0 4 header), !(slice_app_within 4 1 header),
      !(slice_app_within 5 2 header) by (rewrite Hh; lia).
    rewrite !(slice_app_skip header) by (rewrite Hh; lia).
    rewrite Hh. cbn [Nat.sub]. unfold unpack_name, slice. cbn [skipn].
    rewrite !before_nul_firstn_app_nul. reflexivity.
  - unfold unpack_request, check_size. rewrite Hlen.
    destruct (_ =? _); [|reflexivity]. cbn [bind].
    rewrite !(slice_app_within 0 4 header), !(slice_app_within 4 1 header),
      !(slice_app_within 5 1 header) by (rewrite Hh; lia).
    rewrite !(slice_app_skip header) by (rewrite Hh; lia).
    rewrite Hh. cbn [Nat.sub]. unfold unpack_name, slice. cbn [skipn].
    rewrite !before_nul_firstn_app_nul. reflexivity.
Qed.

Lemma bytes_after_the_first_null_are_ignored_witness :
  unpack_offer ([xab; xcd; xdc; xba; x02; x07; xd5]
                  ++ list_byte_of_string "Bossi" ++ x00 :: repeat xff 26)
  = Ok (MAGIC_COOKIE, MTYPE_OFFER, 2005, str_of_string "Bossi")
  /\ unpack_offer ([xab; xcd; xdc; xba; x02; x07; xd5]
                     ++ list_byte_of_string "Bossi" ++ x00 :: repeat xff 26)
     = unpack_offer ([xab; xcd; xdc; xba; x02; x07; xd5]
                       ++ list_byte_of_string "Bossi" ++ x00 :: repeat x00 26).
Proof.
  split; [reflexivity|].
  apply (bytes_after_the_first_null_are_ignored
           [xab; xcd; xdc; xba; x02; x07; xd5]
           (list_byte_of_string "Bossi") (repeat xff 26) (repeat x00 26));
    reflexivity.
Defined.
End Framing.

Section DecodedNamesWitness.
Import Protocol.

(** An offer with rubbish after the name decodes to fields that can be
    packed again. *)
Lemma decoded_offers_and_requests_reencode_witness :
  unpack_offer ([xab; xcd; xdc; xba; x02; x07; xd5]
                  ++ list_byte_of_string "Bossi" ++ x00 :: repeat xff 26)
  = Ok (MAGIC_COOKIE, MTYPE_OFFER, 2005, str_of_string "Bossi")
  /\ 0 <= 2005 <= 65535
  /\ name_fits (str_of_string "Bossi") = true
  /\ (m <- pack_offer 2005 (str_of_string "Bossi") ;; unpack_offer m)
     = Ok (MAGIC_COOKIE, MTYPE_OFFER, 2005, str_of_string "Bossi").
Proof.
  split; [reflexivity|].
  apply (decoded_offers_and_requests_reencode
           ([xab; xcd; xdc; xba; x02; x07; xd5]
              ++ list_byte_of_string "Bossi" ++ x00 :: repeat xff 26)
           MAGIC_COOKIE MTYPE_OFFER 2005 (str_of_string "Bossi")).
  reflexivity.
Defined.
End DecodedNamesWitness.

(** ** The client's rounds *)

Section ClientReads.
Import Protocol.

Lemma frame_length (g r s : Z) : len (frame g r s) = SERVER_PAYLOAD_SIZE.
Proof.
  unfold frame, len. rewrite !length_app, !to_be_length. reflexivity.
Qed.

Lemma unpack_frame (g r s : Z) :
  0 <= g <= 255 -> 0 <= r <= 65535 -> 0 <= s <= 255 ->
  unpack_server_payload (frame g r s)
  = Ok (MAGIC_COOKIE, MTYPE_PAYLOAD, g, r, s).
Proof.
  intros Hg Hr Hs.
  pose proof (server_payload_roundtrip g r s Hg Hr Hs) as H.
  destruct (pack_server_payload g r s) as [msg|e] eqn:Hp; [|discriminate].
  apply pack_server_payload_Ok_inv in Hp. destruct Hp as [-> _].
  exact H.
Qed.

(** The three statements that open every read of the client, on a stream
    that starts with a payload. *)
Lemma client_reads_frame (sock : socket) (g r s : Z) (rest : bytes) :
  0 <= g <= 255 -> 0 <= r <= 65535 -> 0 <= s <= 255 ->
  stream sock = frame g r s ++ rest ->
  exists sock',
    Client.recv_exact sock SERVER_PAYLOAD_SIZE = Ok (frame g r s, sock')
    /\ stream sock' = rest /\ outbox sock' = outbox sock.
Proof.
  intros Hg Hr Hs Hstream. rewrite client_recv_exact_same.
  rewrite <- (frame_length g r s). apply recv_exact_enough. exact Hstream.
Qed.

Lemma card_in_range (c : Server.card) :
  In c Server.create_deck -> 0 <= fst c <= 65535 /\ 0 <= snd c <= 255.
Proof.
  destruct c as [r s]. intros H. apply create_deck_In in H. cbn. lia.
Qed.
End ClientReads.

Section Printing.
Import Protocol.
Variable encodable : Z -> bool.

Lemma str_of_string_cons (a : ascii) (s : string) :
  str_of_string (String a s)
  = Z_of_byte (byte_of_ascii a) :: str_of_string s.
Proof. reflexivity. Qed.

Lemma printable_cons (c : Z) (s : str) :
  printable encodable (c :: s)
  = ((c <? 0x80) || encodable c) && printable encodable s.
Proof. reflexivity. Qed.

Lemma digits_printable (d : Decimal.uint) :
  printable encodable
            (str_of_string (DecimalString.NilEmpty.string_of_uint d)) = true.
Proof.
  induction d as [|d IH|d IH|d IH|d IH|d IH|d IH|d IH|d IH|d IH|d IH];
    [reflexivity|..];
    cbn [DecimalString.NilEmpty.string_of_uint];
    rewrite str_of_string_cons, printable_cons, IH; reflexivity.
Qed.

Lemma str_of_Z_printable (z : Z) :
  printable encodable (ClientMain.str_of_Z z) = true.
Proof.
  unfold ClientMain.str_of_Z, DecimalString.NilZero.string_of_int,
    DecimalString.NilZero.string_of_uint.
  destruct (Z.to_int z) as [d|d].
  - destruct d; try apply digits_printable. reflexivity.
  - rewrite str_of_string_cons, printable_cons.
    apply andb_true_iff. split; [reflexivity|].
    destruct d; try apply digits_printable. reflexivity.
Qed.

(** A console that encodes the four suit symbols can show every card. *)
Lemma card_to_str_printable (rank suit : Z) :
  printable encodable suit_glyphs = true ->
  printable encodable (ClientMain.card_to_str rank suit) = true.
Proof.
  intros Hg. unfold ClientMain.card_to_str. cbv zeta.
  rewrite !printable_app. apply andb_true_iff. split.
  - cbn [ClientMain.get].
    destruct (rank =? 1); [reflexivity|].
    destruct (rank =? 11); [reflexivity|].
    destruct (rank =? 12); [reflexivity|].
    destruct (rank =? 13); [reflexivity|]. apply str_of_Z_printable.
  - apply andb_true_iff. split; [reflexivity|].
    unfold printable, suit_glyphs in Hg. cbn [forallb] in Hg.
    apply andb_true_iff in Hg. destruct Hg as [H0 Hg].
    apply andb_true_iff in Hg. destruct Hg as [H1 Hg].
    apply andb_true_iff in Hg. destruct Hg as [H2 Hg].
    apply andb_true_iff in Hg. destruct Hg as [H3 _].
    cbn [ClientMain.get].
    destruct (suit =? 0);
      [unfold printable; cbn [forallb]; rewrite H0; reflexivity|].
    destruct (suit =? 1);
      [unfold printable; cbn [forallb]; rewrite H1; reflexivity|].
    destruct (suit =? 2);
      [unfold printable; cbn [forallb]; rewrite H2; reflexivity|].
    destruct (suit =? 3);
      [unfold printable; cbn [forallb]; rewrite H3; reflexivity|].
    reflexivity.
Qed.

Lemma join_printable (sep : str) (items : list str) :
  printable encodable sep = true ->
  Forall (fun s => printable encodable s = true) items ->
  printable encodable (join sep items) = true.
Proof.
  intros Hsep. induction 1 as [|item items Hi Hrest IH]; [reflexivity|].
  cbn [join]. destruct items as [|item' items]; [exact Hi|].
  rewrite !printable_app, Hi, Hsep, IH. reflexivity.
Qed.

Lemma hands_line_printed (player_cards dealer_cards : list str) :
  Forall (fun s => printable encodable s = true) player_cards ->
  Forall (fun s => printable encodable s = true) dealer_cards ->
  print encodable (ClientMain.hands_line player_cards dealer_cards) = Ok tt.
Proof.
  intros Hp Hd. rewrite print_printable. unfold ClientMain.hands_line.
  rewrite !printable_app.
  rewrite (join_printable (str_of_string ", ") _ eq_refl Hp),
    (join_printable (str_of_string ", ") _ eq_refl Hd).
  reflexivity.
Qed.

Lemma print_cases (text : str) :
  print encodable text = Ok tt
  \/ print encodable text = Raise UnicodeEncodeError.
Proof. unfold print. destruct (forallb _ text); auto. Qed.

Lemma shown_printable (cs : list Server.card) :
  printable encodable suit_glyphs = true ->
  Forall (fun s => printable encodable s = true) (map shown_as cs).
Proof.
  intros Hg. apply Forall_map. apply Forall_forall. intros c _.
  apply card_to_str_printable. exact Hg.
Qed.
End Printing.

Section ClientTurns.
Import Protocol.
Variable encodable : Z -> bool.
Hypothesis glyphs : printable encodable suit_glyphs = true.

Local Abbreviation shows := (Forall (fun s => printable encodable s = true)).

Lemma client_dealer_step (player_cards : list str)
      (st : socket * list str * ClientMain.score) :
  ClientMain.dealer_loop encodable player_cards st
  = match ClientMain.dealer_body encodable player_cards st with
    | Continue st' => ClientMain.dealer_loop encodable player_cards st'
    | Return r => Ok r
    | Throw e => Raise e
    end.
Proof. apply while_step. Qed.

(** The client's last loop reads the cards up to the result and counts
    the result. *)
Lemma client_dealer_reads (cs : list Server.card) (r : Z) (later : bytes)
      (player_cards : list str) :
  Forall (fun c => In c Server.create_deck) cs -> 1 <= r <= 255 ->
  shows player_cards ->
  forall (sock : socket) (cards : list str) (tally : ClientMain.score),
    shows cards ->
    stream sock = flat_map card_message cs ++ result_message r ++ later ->
    exists sock',
      ClientMain.dealer_loop encodable player_cards (sock, cards, tally)
      = Ok (sock', cards ++ map shown_as cs, counted r tally)
      /\ stream sock' = later /\ outbox sock' = outbox sock.
Proof.
  intros Hcs Hr Hpc.
  induction Hcs as [|c cs Hc _ IH]; intros sock cards tally Hdc Hs.
  - cbn [flat_map app] in Hs. change (result_message r) with (frame r 0 0) in Hs.
    destruct (client_reads_frame sock r 0 0 later) as (sock' & Hrecv & Hs' & Ho);
      [lia | lia | lia | exact Hs |].
    exists sock'. split; [|split; assumption].
    rewrite client_dealer_step. unfold ClientMain.dealer_body.
    destruct tally as [[wins losses] ties].
    rewrite Hrecv. cbn [bind]. rewrite unpack_frame by lia. cbn [bind].
    rewrite Z.eqb_refl. cbn [negb].
    destruct (Z.eqb_spec r GAME_RESULT_NOTOVER) as [E|_];
      [unfold GAME_RESULT_NOTOVER in E; lia|].
    unfold counted. cbn [map]. rewrite app_nil_r.
    destruct (r =? GAME_RESULT_WIN); [reflexivity|].
    destruct (r =? GAME_RESULT_LOSS); [reflexivity|].
    destruct (r =? GAME_RESULT_TIE); reflexivity.
  - cbn [flat_map] in Hs. rewrite <- app_assoc in Hs.
    change (card_message c) with (frame 0 (fst c) (snd c)) in Hs.
    apply card_in_range in Hc.
    destruct (client_reads_frame sock 0 (fst c) (snd c) _
                ltac:(lia) ltac:(lia) ltac:(lia) Hs)
      as (sock1 & Hrecv & Hs1 & Ho1).
    assert (Hdc1 : shows (cards ++ [shown_as c])).
    { apply Forall_app. split; [exact Hdc|].
      constructor; [|constructor].
      apply card_to_str_printable. exact glyphs. }
    destruct (IH sock1 (cards ++ [shown_as c]) tally Hdc1 Hs1)
      as (sock' & Hloop & Hs' & Ho').
    exists sock'. split; [|split; [exact Hs'|congruence]].
    rewrite client_dealer_step. unfold ClientMain.dealer_body.
    destruct tally as [[wins losses] ties].
    rewrite Hrecv. cbn [bind]. rewrite unpack_frame by lia. cbn [bind].
    rewrite Z.eqb_refl. cbn [negb].
    change (0 =? GAME_RESULT_NOTOVER) with true. cbv beta iota zeta.
    fold (shown_as c).
    rewrite (hands_line_printed encodable _ _ Hpc Hdc1). cbn [bind run].
    refine (eq_trans Hloop _). cbn [map].
    rewrite <- app_assoc. reflexivity.
Qed.

(** The client's first loop reads the three cards of the deal. *)
Lemma client_initial_deal (sock : socket) (p1 p2 up : Server.card)
      (rest : bytes) :
  In p1 Server.create_deck -> In p2 Server.create_deck ->
  In up Server.create_deck ->
  stream sock
  = card_message p1 ++ card_message p2 ++ card_message up ++ rest ->
  exists sock',
    ClientMain.initial_deal sock
    = Ok (sock', ([shown_as p1; shown_as p2], [shown_as up],
                  [valued_as p1; valued_as p2]))
    /\ stream sock' = rest /\ outbox sock' = outbox sock.
Proof.
  intros H1 H2 H3 Hs.
  apply card_in_range in H1. apply card_in_range in H2.
  apply card_in_range in H3.
  change (card_message p1) with (frame 0 (fst p1) (snd p1)) in Hs.
  change (card_message p2) with (frame 0 (fst p2) (snd p2)) in Hs.
  change (card_message up) with (frame 0 (fst up) (snd up)) in Hs.
  destruct (client_reads_frame sock 0 (fst p1) (snd p1) _
              ltac:(lia) ltac:(lia) ltac:(lia) Hs) as (s1 & Hr1 & Hs1 & Ho1).
  destruct (client_reads_frame s1 0 (fst p2) (snd p2) _
              ltac:(lia) ltac:(lia) ltac:(lia) Hs1) as (s2 & Hr2 & Hs2 & Ho2).
  destruct (client_reads_frame s2 0 (fst up) (snd up) _
              ltac:(lia) ltac:(lia) ltac:(lia) Hs2) as (s3 & Hr3 & Hs3 & Ho3).
  exists s3. split; [|split; [exact Hs3|congruence]].
  unfold ClientMain.initial_deal. change (range 0 3) with [0; 1; 2].
  cbn [fold_left bind]. unfold ClientMain.deal_body.
  rewrite Hr1. cbn [bind]. rewrite unpack_frame by lia. cbn [bind].
  rewrite Z.eqb_refl. cbn [negb]. change (0 <? 2) with true.
  cbv beta iota. cbn [bind app].
  rewrite Hr2. cbn [bind]. rewrite unpack_frame by lia. cbn [bind].
  rewrite Z.eqb_refl. cbn [negb]. change (1 <? 2) with true.
  cbv beta iota. cbn [bind app].
  rewrite Hr3. cbn [bind]. rewrite unpack_frame by lia. cbn [bind].
  rewrite Z.eqb_refl. cbn [negb]. change (2 <? 2) with false.
  cbv beta iota. reflexivity.
Qed.
End ClientTurns.

Section Keyboard.
Import Protocol.

Lemma choice_decision_valid (k d : str) :
  choice_decision k = Some d -> d = Hittt \/ d = Stand.
Proof.
  unfold choice_decision. destruct (str_eqb k _); [intros [= <-]; auto|].
  destruct (str_eqb k _); [intros [= <-]; auto|discriminate].
Qed.

Lemma typed_valid (keys : list str) :
  Forall (fun d => d = Hittt \/ d = Stand) (typed keys).
Proof.
  induction keys as [|k keys IH]; cbn [typed]; [constructor|].
  destruct (choice_decision k) as [d|] eqn:Hk; [|exact IH].
  constructor; [|exact IH]. apply choice_decision_valid with k. exact Hk.
Qed.

Lemma typed_app (a b : list str) : typed (a ++ b) = typed a ++ typed b.
Proof.
  induction a as [|k a IH]; cbn [typed app]; [reflexivity|].
  destruct (choice_decision k); rewrite IH; reflexivity.
Qed.

Lemma wire_app (a b : list str) : wire (a ++ b) = wire a ++ wire b.
Proof. apply flat_map_app. Qed.

(** A decision on the wire. *)
Lemma decision_on_the_wire (d : str) :
  d = Hittt \/ d = Stand ->
  pack_client_payload d = Ok (decision_message d)
  /\ len (decision_message d) = CLIENT_PAYLOAD_SIZE
  /\ unpack_client_payload (decision_message d)
     = Ok (MAGIC_COOKIE, MTYPE_PAYLOAD, d).
Proof.
  intros [-> | ->]; repeat split; reflexivity.
Qed.

Lemma app_same_length {A} (a b x y : list A) :
  length a = length b -> a ++ x = b ++ y -> a = b /\ x = y.
Proof.
  revert b. induction a as [|h a IH]; intros [|h' b] Hl E;
    try discriminate.
  - auto.
  - cbn in E. injection E as -> E. injection Hl as Hl.
    destruct (IH b Hl E) as [-> ->]. auto.
Qed.

(** The first ten bytes of a sequence of decisions are its first
    decision. *)
Lemma wire_first (ds : list str) (data rest : bytes) :
  Forall (fun d => d = Hittt \/ d = Stand) ds ->
  wire ds = data ++ rest -> len data = CLIENT_PAYLOAD_SIZE ->
  exists d ds', ds = d :: ds' /\ decision_message d = data /\ wire ds' = rest.
Proof.
  intros Hv E Hlen. destruct Hv as [|d ds Hd Hds].
  - cbn in E. destruct data; [cbn in Hlen; discriminate|discriminate].
  - exists d, ds. split; [reflexivity|].
    cbn [wire flat_map] in E. apply app_same_length in E; [exact E|].
    apply decision_on_the_wire in Hd. destruct Hd as (_ & Hl & _).
    unfold len in *. lia.
Qed.

Lemma wire_nil (ds : list str) :
  Forall (fun d => d = Hittt \/ d = Stand) ds -> wire ds = [] -> ds = [].
Proof.
  intros Hv E. destruct Hv as [|d ds Hd Hds]; [reflexivity|].
  cbn [wire flat_map] in E. apply app_eq_nil in E. destruct E as [E _].
  apply decision_on_the_wire in Hd. destruct Hd as (_ & Hl & _).
  rewrite E in Hl. discriminate.
Qed.

(** The lines up to the first one that stands for a decision. *)
Lemma typed_first (keys : list str) (d : str) (ds : list str) :
  typed keys = d :: ds ->
  exists junk k rest,
    keys = junk ++ k :: rest
    /\ Forall (fun j => choice_decision j = None) junk
    /\ choice_decision k = Some d /\ typed rest = ds.
Proof.
  induction keys as [|k keys IH]; cbn [typed]; [discriminate|].
  destruct (choice_decision k) as [d'|] eqn:Hk.
  - intros [= -> <-]. exists [], k, keys. auto.
  - intros E. destruct (IH E) as (junk & k' & rest & -> & Hj & Hk' & Hr).
    exists (k :: junk), k', rest. auto.
Qed.

Lemma ends_with_choice_typed (keys : list str) :
  ends_with_choice keys = true -> typed keys = [] -> keys = [].
Proof.
  induction keys as [|k keys IH]; [reflexivity|].
  cbn [ends_with_choice typed].
  destruct (choice_decision k); [discriminate|].
  destruct keys as [|k' keys]; [discriminate|].
  intros He Ht. specialize (IH He Ht). discriminate.
Qed.

Lemma ends_with_choice_rest (junk : list str) (k : str) (rest : list str) :
  ends_with_choice (junk ++ k :: rest) = true -> ends_with_choice rest = true.
Proof.
  induction junk as [|j junk IH].
  - cbn [app ends_with_choice]. destruct rest; [reflexivity|auto].
  - cbn [app]. intros H. apply IH. cbn [ends_with_choice] in H.
    destruct (junk ++ k :: rest) eqn:E; [destruct junk; discriminate|].
    exact H.
Qed.
End Keyboard.

Section ClientPlayer.
Import Protocol.
Variable encodable : Z -> bool.

Lemma client_turn_busted (kb : list str) (sock : socket)
      (cards dcards : list str) (ranks : list Z) :
  21 < Client.hand_total ranks ->
  ClientMain.player_turn encodable kb sock cards dcards ranks
  = (ClientMain.Done (kb, cards, ranks), sock).
Proof.
  intros H. apply Z.gtb_lt in H.
  destruct kb; cbn [ClientMain.player_turn]; rewrite H; reflexivity.
Qed.

Lemma client_turn_line (k : str) (kb : list str) (sock : socket)
      (cards dcards : list str) (ranks : list Z) :
  Client.hand_total ranks <= 21 ->
  ClientMain.player_turn encodable (k :: kb) sock cards dcards ranks
  = match choice_decision k with
    | None => ClientMain.player_turn encodable kb sock cards dcards ranks
    | Some decision =>
        let sock := sendall sock (decision_message decision) in
        if str_eqb decision Stand then (ClientMain.Done (kb, cards, ranks), sock)
        else
          match
            '(data, sock) <- Client.recv_exact sock SERVER_PAYLOAD_SIZE ;;
            '(cookie, msg_type, game_result, card_rank, card_suit)
               <- unpack_server_payload data ;;
            if negb (cookie =? MAGIC_COOKIE) then Raise ValueError
            else
              let cards :=
                cards ++ [ClientMain.card_to_str card_rank card_suit] in
              let ranks := ranks ++ [Client.rank_value card_rank] in
              _ <- print encodable (ClientMain.hands_line cards dcards) ;;
              Ok (sock, game_result, cards, ranks)
          with
          | Raise e => (ClientMain.Failed (ClientMain.Library e), sock)
          | Ok (sock, game_result, cards, ranks) =>
              if negb (game_result =? GAME_RESULT_NOTOVER)
              then (ClientMain.Done (kb, cards, ranks), sock)
              else ClientMain.player_turn encodable kb sock cards dcards ranks
          end
    end.
Proof.
  intros Hle. cbn [ClientMain.player_turn].
  destruct (Z.gtb_spec (Client.hand_total ranks) 21) as [|_]; [lia|].
  unfold choice_decision.
  destruct (str_eqb k (str_of_string "H")).
  - change (pack_client_payload Hittt) with (Ok (decision_message Hittt)).
    cbv beta iota. change (str_eqb Hittt Stand) with false. cbv beta iota.
    destruct (_ <- Client.recv_exact _ _ ;; _) as [[[[s1 g] c1] r1]|e];
      [|reflexivity].
    destruct (Z.gtb_spec (Client.hand_total r1) 21) as [Hgt|_];
      [|reflexivity].
    rewrite client_turn_busted by exact Hgt.
    destruct (negb _); reflexivity.
  - destruct (str_eqb k (str_of_string "S")); [|reflexivity].
    change (pack_client_payload Stand) with (Ok (decision_message Stand)).
    cbv beta iota. change (str_eqb Stand Stand) with true. reflexivity.
Qed.

Lemma client_turn_skips (junk kb : list str) (sock : socket)
      (cards dcards : list str) (ranks : list Z) :
  Client.hand_total ranks <= 21 ->
  Forall (fun j => choice_decision j = None) junk ->
  ClientMain.player_turn encodable (junk ++ kb) sock cards dcards ranks
  = ClientMain.player_turn encodable kb sock cards dcards ranks.
Proof.
  intros Hle Hj. induction Hj as [|j junk Hj _ IH]; [reflexivity|].
  cbn [app]. rewrite client_turn_line by exact Hle. rewrite Hj. exact IH.
Qed.
End ClientPlayer.

Section Lockstep.
Import Protocol.
Variable encodable : Z -> bool.
Hypothesis glyphs : printable encodable suit_glyphs = true.

Local Abbreviation shows := (Forall (fun s => printable encodable s = true)).

(** What the server read when its player loop went on, or returned at a
    total of 21 or less. *)
Lemma player_body_hit (sock : socket) (deck hand : list Server.card)
      (st' : Server.table) :
  Server.player_turn_body (sock, deck, hand) = Continue st' ->
  exists data sock1 ty,
    Server.recv_exact sock CLIENT_PAYLOAD_SIZE = Ok (data, sock1)
    /\ unpack_client_payload data = Ok (MAGIC_COOKIE, ty, Hittt).
Proof.
  unfold Server.player_turn_body.
  destruct (Server.hand_total hand >? 21); [discriminate|].
  destruct (Server.recv_exact sock CLIENT_PAYLOAD_SIZE) as [[data sock1]|];
    [|discriminate].
  cbn [bind]. destruct (unpack_client_payload data) as [[[ck ty] d]|] eqn:Hu;
    [|discriminate].
  cbn [bind]. destruct (Z.eqb_spec ck MAGIC_COOKIE) as [->|]; [|discriminate].
  cbn [negb].
  destruct (str_eqb d Hittt) eqn:Hd;
    [|destruct (str_eqb d Stand); discriminate].
  apply str_eqb_eq in Hd. subst d. intros _. exists data, sock1, ty. auto.
Qed.

Lemma player_body_stand (sock : socket) (deck hand : list Server.card)
      (r : bool * Server.table) :
  Server.player_turn_body (sock, deck, hand) = Return r ->
  Server.hand_total hand <= 21 ->
  exists data sock1 ty,
    Server.recv_exact sock CLIENT_PAYLOAD_SIZE = Ok (data, sock1)
    /\ unpack_client_payload data = Ok (MAGIC_COOKIE, ty, Stand).
Proof.
  unfold Server.player_turn_body.
  destruct (Z.gtb_spec (Server.hand_total hand) 21); [lia|].
  destruct (Server.recv_exact sock CLIENT_PAYLOAD_SIZE) as [[data sock1]|];
    [|discriminate].
  cbn [bind]. destruct (unpack_client_payload data) as [[[ck ty] d]|] eqn:Hu;
    [|discriminate].
  cbn [bind]. destruct (Z.eqb_spec ck MAGIC_COOKIE) as [->|]; [|discriminate].
  cbn [negb].
  destruct (str_eqb d Hittt).
  { destruct (pop deck) as [[[rk su] deck']|]; [|discriminate].
    cbn [bind]. destruct (pack_server_payload _ rk su); discriminate. }
  destruct (str_eqb d Stand) eqn:Hd; [|discriminate].
  apply str_eqb_eq in Hd. subst d. intros _ _. exists data, sock1, ty. auto.
Qed.

(** The decision that ten bytes of a keyboard's decisions decode to. *)
Lemma decision_read (d d' : str) (ty : Z) :
  d = Hittt \/ d = Stand ->
  unpack_client_payload (decision_message d) = Ok (MAGIC_COOKIE, ty, d') ->
  d = d'.
Proof.
  intros Hd H. apply decision_on_the_wire in Hd. destruct Hd as (_ & _ & Hu).
  rewrite Hu in H. apply Ok_eq in H. congruence.
Qed.

(** The player's turn, seen from both ends: the client, given the lines
    that stand for the decisions the server read and the cards the server
    sent, sends those decisions and ends with the hand the server holds. *)
Lemma client_follows_the_player_loop (st : Server.table) (busted : bool)
      (ssock' : socket) (deck' hand' : list Server.card) :
  Server.player_loop st = Ok (busted, (ssock', deck', hand')) ->
  Forall (fun c => In c Server.create_deck) (snd (fst st)) ->
  forall (keys more : list str) (csock : socket) (cards dcards : list str)
         (ranks : list Z) (later sent : bytes),
    shows cards -> shows dcards ->
    stream (fst (fst st)) = wire (typed keys) ++ stream ssock' ->
    ends_with_choice keys = true ->
    outbox ssock' = outbox (fst (fst st)) ++ sent ->
    stream csock = sent ++ later ->
    Client.hand_total ranks = Server.hand_total (snd st) ->
    exists csock' drawn,
      hand' = snd st ++ drawn
      /\ ClientMain.player_turn encodable (keys ++ more) csock cards dcards
                                ranks
         = (ClientMain.Done (more, cards ++ map shown_as drawn,
                             ranks ++ map valued_as drawn), csock')
      /\ outbox csock' = outbox csock ++ wire (typed keys)
      /\ stream csock' = later.
Proof.
  set (P := fun (st : Server.table) (res : result (bool * Server.table)) =>
    res = Ok (busted, (ssock', deck', hand')) ->
    Forall (fun c => In c Server.create_deck) (snd (fst st)) ->
    forall (keys more : list str) (csock : socket) (cards dcards : list str)
           (ranks : list Z) (later sent : bytes),
      shows cards -> shows dcards ->
      stream (fst (fst st)) = wire (typed keys) ++ stream ssock' ->
      ends_with_choice keys = true ->
      outbox ssock' = outbox (fst (fst st)) ++ sent ->
      stream csock = sent ++ later ->
      Client.hand_total ranks = Server.hand_total (snd st) ->
      exists csock' drawn,
        hand' = snd st ++ drawn
        /\ ClientMain.player_turn encodable (keys ++ more) csock cards
                                  dcards ranks
           = (ClientMain.Done (more, cards ++ map shown_as drawn,
                               ranks ++ map valued_as drawn), csock')
        /\ outbox csock' = outbox csock ++ wire (typed keys)
        /\ stream csock' = later).
  assert (W : forall st, P st (Server.player_loop st)); [|exact (W st)].
  clear st. unfold Server.player_loop. apply while_ind; unfold P; clear P.
  all: cbv beta.
  - (* the server leaves its loop *)
    intros [[ssock deck] hand] r Hb E Hdeck keys more csock cards dcards
           ranks later sent Hcards Hdcards Hs He Ho Hc Ht.
    cbn [fst snd] in *. apply Ok_eq in E. subst r.
    pose proof Hb as Hb2. apply player_body_Return in Hb.
    destruct Hb as [[Hgt E] | (Hle & data & sock1 & Hr & E)];
      apply pair_eq in E; destruct E as [-> E];
      apply pair_eq in E; destruct E as [E ->];
      apply pair_eq in E; destruct E as [-> ->].
    + rewrite <- (app_nil_l (stream ssock)) in Hs at 1.
      apply app_inv_tail in Hs. symmetry in Hs.
      apply wire_nil in Hs; [|apply typed_valid].
      apply ends_with_choice_typed in Hs; [|exact He]. subst keys.
      rewrite <- (app_nil_r (outbox ssock)) in Ho at 1.
      apply app_inv_head in Ho. subst sent.
      exists csock, []. cbn [map app]. rewrite !app_nil_r.
      split; [reflexivity|]. split; [|split; [reflexivity|exact Hc]].
      apply client_turn_busted. lia.
    + destruct (player_body_stand _ _ _ _ Hb2 Hle)
        as (data' & sock1' & ty & Hr' & Hu).
      rewrite Hr in Hr'. apply Ok_eq in Hr'.
      apply pair_eq in Hr'. destruct Hr' as [E1 E2]. subst data' sock1'.
      apply recv_exact_Ok in Hr; [|unfold CLIENT_PAYLOAD_SIZE; lia].
      destruct Hr as (Hlen & Hs1 & Ho1).
      rewrite Hs1 in Hs. apply app_inv_tail in Hs. symmetry in Hs.
      rewrite <- (app_nil_r data) in Hs.
      pose proof (typed_valid keys) as Hv.
      destruct (wire_first _ _ _ Hv Hs Hlen) as (d & ds & Hty & Hd & Hds).
      rewrite Hty in Hv. apply Forall_cons_iff in Hv. destruct Hv as [Hvd Hvds].
      apply wire_nil in Hds; [|exact Hvds]. subst ds.
      rewrite <- Hd in Hu. apply decision_read in Hu; [|exact Hvd]. subst d.
      destruct (typed_first _ _ _ Hty) as (junk & k & rest & -> & Hj & Hk & Hrest).
      apply ends_with_choice_rest in He.
      apply ends_with_choice_typed in Hrest; [|exact He]. subst rest.
      rewrite Ho1 in Ho.
      rewrite <- (app_nil_r (outbox ssock)) in Ho at 1.
      apply app_inv_head in Ho. subst sent.
      exists (sendall csock (decision_message Stand)), [].
      cbn [map app]. rewrite !app_nil_r.
      split; [reflexivity|].
      split; [|split; [rewrite Hty; cbn [wire flat_map]; rewrite app_nil_r;
                       reflexivity|exact Hc]].
      rewrite <- app_assoc, client_turn_skips by (assumption || lia).
      cbn [app]. rewrite client_turn_line by lia. rewrite Hk.
      cbv beta iota zeta. change (str_eqb Stand Stand) with true.
      reflexivity.
  - discriminate.
  - (* the server deals a card and goes on *)
    intros [[ssock deck] hand] st' Hb IH E Hdeck keys more csock cards
           dcards ranks later sent Hcards Hdcards Hs He Ho Hc Ht.
    cbn [fst snd] in *.
    destruct (player_body_hit _ _ _ _ Hb) as (data' & sock1' & ty & Hr' & Hu).
    apply player_body_Continue in Hb.
    destruct Hb as (Hle & data & sock1 & c & deck1 & Hr & -> & ->).
    rewrite Hr in Hr'. apply Ok_eq in Hr'.
    apply pair_eq in Hr'. destruct Hr' as [E1 E2]. subst data' sock1'.
    apply recv_exact_Ok in Hr; [|unfold CLIENT_PAYLOAD_SIZE; lia].
    destruct Hr as (Hlen & Hs1 & Ho1).
    pose proof (player_loop_outcome _ _ E) as Hout.
    unfold player_outcome in Hout. cbv beta iota in Hout.
    destruct Hout
      as (_ & drawn & consumed & _ & _ & _ & Hout & Hstr & _).
    unfold sendall, stream in Hout, Hstr. cbn [outbox inbox] in Hout, Hstr.
    fold (stream sock1) in Hstr. fold (stream ssock') in Hstr.
    rewrite Hs1, Hstr, app_assoc in Hs. apply app_inv_tail in Hs.
    symmetry in Hs. pose proof (typed_valid keys) as Hv.
    destruct (wire_first _ _ _ Hv Hs Hlen) as (d & ds & Hty & Hd & Hds).
    rewrite Hty in Hv. apply Forall_cons_iff in Hv. destruct Hv as [Hvd Hvds].
    rewrite <- Hd in Hu. apply decision_read in Hu; [|exact Hvd]. subst d.
    destruct (typed_first _ _ _ Hty) as (junk & k & rest & -> & Hj & Hk & Hrest).
    apply ends_with_choice_rest in He.
    rewrite Hout, Ho1, <- app_assoc in Ho. apply app_inv_head in Ho.
    subst sent. rewrite <- app_assoc in Hc.
    apply Forall_snoc in Hdeck. destruct Hdeck as [Hdeck1 Hin].
    pose proof (card_in_range _ Hin) as Hrange.
    change (card_message c) with (frame 0 (fst c) (snd c)) in Hc.
    destruct (client_reads_frame
                (sendall csock (decision_message Hittt)) 0 (fst c) (snd c) _
                ltac:(lia) ltac:(lia) ltac:(lia) Hc)
      as (sock2 & Hrecv & Hs2 & Ho2).
    assert (Hcards1 : shows (cards ++ [shown_as c])).
    { apply Forall_app. split; [exact Hcards|].
      constructor; [|constructor].
      apply card_to_str_printable. exact glyphs. }
    destruct (IH E Hdeck1 rest more sock2 (cards ++ [shown_as c]) dcards
                 (ranks ++ [valued_as c]) later
                 (flat_map card_message drawn) Hcards1 Hdcards)
      as (csock' & drawn' & Hh' & Hturn & Ho' & Hs').
    { cbn [fst snd]. unfold stream, sendall. cbn [inbox].
      fold (stream sock1). fold (stream ssock').
      rewrite Hrest, Hds. exact Hstr. }
    { exact He. }
    { cbn [fst snd]. unfold sendall. cbn [outbox]. exact Hout. }
    { exact Hs2. }
    { cbn [fst snd]. rewrite client_hand_total_snoc, hand_total_snoc, Ht.
      unfold valued_as. rewrite client_rank_value. reflexivity. }
    cbn [fst snd] in Hh'.
    exists csock', (c :: drawn').
    split; [rewrite Hh', <- app_assoc; reflexivity|].
    split.
    { rewrite <- app_assoc, client_turn_skips by (assumption || lia).
      cbn [app]. rewrite client_turn_line by lia. rewrite Hk.
      cbv beta iota zeta. change (str_eqb Hittt Stand) with false.
      cbv beta iota. rewrite Hrecv. cbn [bind].
      rewrite unpack_frame by lia. cbn [bind].
      rewrite Z.eqb_refl. cbn [negb]. cbv beta iota zeta.
      fold (shown_as c). fold (valued_as c).
      rewrite (hands_line_printed encodable _ _ Hcards1 Hdcards).
      cbn [bind].
      change (0 =? GAME_RESULT_NOTOVER) with true. cbn [negb].
      cbv beta iota.
      rewrite Hturn. cbn [map]. rewrite <- !app_assoc. reflexivity. }
    split; [|exact Hs'].
    rewrite Ho', Ho2, Hty, Hrest. unfold sendall. cbn [outbox wire flat_map].
    rewrite <- app_assoc. reflexivity.
Qed.
End Lockstep.

Section ClientAndServer.
Import Protocol.
Variable encodable : Z -> bool.
Hypothesis glyphs : printable encodable suit_glyphs = true.

Local Abbreviation in_deck := (fun c : Server.card => In c Server.create_deck).

(** The client's round on the bytes of a round, given what its player's
    turn does. *)
Lemma client_round_composed (keys more : list str) (csock : socket)
      (tally : ClientMain.score) (p1 p2 up : Server.card)
      (hits shown : list Server.card) (res : Z) (later sent : bytes) :
  in_deck p1 -> in_deck p2 -> in_deck up -> Forall in_deck shown ->
  1 <= res <= 255 ->
  stream csock
  = card_message p1 ++ card_message p2 ++ card_message up
      ++ flat_map card_message hits ++ flat_map card_message shown
      ++ result_message res ++ later ->
  (forall csock1,
      stream csock1
      = flat_map card_message hits ++ flat_map card_message shown
          ++ result_message res ++ later ->
      exists csock2,
        ClientMain.player_turn encodable (keys ++ more) csock1
                               [shown_as p1; shown_as p2] [shown_as up]
                               [valued_as p1; valued_as p2]
        = (ClientMain.Done (more,
                            [shown_as p1; shown_as p2] ++ map shown_as hits,
                            [valued_as p1; valued_as p2]
                              ++ map valued_as hits), csock2)
        /\ outbox csock2 = outbox csock1 ++ sent
        /\ stream csock2
           = flat_map card_message shown ++ result_message res ++ later) ->
  exists csock',
    ClientMain.play_round encodable (keys ++ more) csock tally
    = (ClientMain.Done (more, counted res tally,
                        (map shown_as (p1 :: p2 :: hits),
                         map shown_as (up :: shown),
                         map valued_as (p1 :: p2 :: hits))), csock')
    /\ outbox csock' = outbox csock ++ sent
    /\ stream csock' = later.
Proof.
  intros H1 H2 H3 Hshown Hres Hs Hturn.
  destruct (client_initial_deal csock p1 p2 up _ H1 H2 H3 Hs)
    as (csock1 & Hdeal & Hs1 & Ho1).
  destruct (Hturn csock1 Hs1) as (csock2 & Hplayer & Ho2 & Hs2).
  pose proof (shown_printable encodable [p1; p2] glyphs) as Hp12.
  pose proof (shown_printable encodable [up] glyphs) as Hup.
  pose proof (shown_printable encodable (p1 :: p2 :: hits) glyphs) as Hph.
  cbn [map] in Hp12, Hup.
  destruct (client_dealer_reads encodable glyphs shown res later
              ([shown_as p1; shown_as p2] ++ map shown_as hits)
              Hshown Hres Hph csock2 [shown_as up] tally Hup Hs2)
    as (csock3 & Hdealer & Hs3 & Ho3).
  exists csock3. split; [|split; [congruence|exact Hs3]].
  unfold ClientMain.play_round. rewrite Hdeal.
  rewrite (hands_line_printed encodable _ _ Hp12 Hup).
  rewrite Hplayer, Hdealer. reflexivity.
Qed.

Lemma first_two_total (p1 p2 : Server.card) :
  Client.hand_total [valued_as p1; valued_as p2]
  = Server.hand_total [p1; p2].
Proof.
  exact (valued_total [p1; p2]).
Qed.

(** A round seen from both ends: the client, given the lines that stand
    for the decisions the server read and the bytes the server sent, sends
    those decisions, counts the server's result and holds the server's
    hands. *)
Lemma client_follows_the_round
        (shuffle : list Server.card -> list Server.card)
        (ssock ssock' : socket) (res : Z) (keys more : list str)
        (csock : socket) (tally : ClientMain.score) (later sent : bytes) :
  Permutation Server.create_deck (shuffle Server.create_deck) ->
  Server.play_round shuffle ssock = Ok (res, ssock') ->
  stream ssock = wire (typed keys) ++ stream ssock' ->
  ends_with_choice keys = true ->
  outbox ssock' = outbox ssock ++ sent ->
  stream csock = sent ++ later ->
  exists csock' h deck' ssock1,
    Server.play_hands (shuffle Server.create_deck) ssock
    = Ok (h, deck', ssock1)
    /\ ClientMain.play_round encodable (keys ++ more) csock tally
       = (ClientMain.Done (more, counted res tally,
                           (map shown_as (Server.player_hand h),
                            map shown_as (Server.dealer_hand h),
                            map valued_as (Server.player_hand h))), csock')
    /\ outbox csock' = outbox csock ++ wire (typed keys)
    /\ stream csock' = later.
Proof.
  intros Hperm Hround Hs He Ho Hc.
  apply play_round_inv in Hround.
  destruct Hround as (h & decke & sock_e & Hhands & Hres & ->).
  assert (Hr : 1 <= res <= 255).
  { rewrite Hres.
    destruct (who_won_is_a_result (Server.player_hand h)
                (Server.dealer_hand h) (Server.player_busted h)
                (Server.dealer_busted h)) as [E | [E | E]];
      rewrite E; cbv; intuition discriminate. }
  clear Hres.
  cut (exists csock',
          ClientMain.play_round encodable (keys ++ more) csock tally
          = (ClientMain.Done (more, counted res tally,
                              (map shown_as (Server.player_hand h),
                               map shown_as (Server.dealer_hand h),
                               map valued_as (Server.player_hand h))), csock')
          /\ outbox csock' = outbox csock ++ wire (typed keys)
          /\ stream csock' = later).
  { intros (csock' & H). exists csock', h, decke, sock_e. auto. }
  apply Forall_in_deck in Hperm.
  unfold sendall, stream in Hs, Ho. cbn [inbox outbox] in Hs, Ho.
  fold (stream ssock) in Hs. fold (stream sock_e) in Hs.
  revert Hhands. unfold Server.play_hands.
  destruct (Server.initial_deal _ ssock)
    as [[[[[ph dh] hidden] deck1] sock1]|] eqn:Hdeal; [|discriminate].
  apply initial_deal_inv in Hdeal.
  destruct Hdeal as (up & p2 & p1 & Hdeck0 & -> & -> & ->).
  rewrite Hdeck0 in Hperm. apply Forall_app in Hperm.
  destruct Hperm as [Hdeck1 Hfour].
  assert (Hh : in_deck hidden) by (inversion Hfour; assumption).
  assert (Hu : in_deck up)
    by (inversion Hfour as [|? ? _ F]; inversion F; assumption).
  assert (H2 : in_deck p2)
    by (inversion Hfour as [|? ? _ F]; inversion F as [|? ? _ G];
        inversion G; assumption).
  assert (H1 : in_deck p1)
    by (inversion Hfour as [|? ? _ F]; inversion F as [|? ? _ G];
        inversion G as [|? ? _ K]; inversion K; assumption).
  clear Hfour Hdeck0.
  cbn [bind].
  destruct (Z.gtb_spec (Server.hand_total [p1; p2]) 21) as [Hover|Hle].
  { (* twenty-two in the deal *)
    intros E. apply Ok_eq in E.
    apply pair_eq in E. destruct E as [E ->].
    apply pair_eq in E. destruct E as [-> _].
    cbn [Server.player_hand Server.dealer_hand inbox outbox] in *.
    unfold stream in Hs at 2. cbn [inbox] in Hs. fold (stream ssock) in Hs.
    rewrite <- (app_nil_l (stream ssock)) in Hs at 1.
    apply app_inv_tail in Hs. symmetry in Hs.
    pose proof Hs as Hw.
    apply wire_nil in Hs; [|apply typed_valid].
    apply ends_with_choice_typed in Hs; [|exact He]. subst keys.
    rewrite <- !app_assoc in Ho. apply app_inv_head in Ho. subst sent.
    rewrite <- !app_assoc in Hc.
    apply (client_round_composed [] more csock tally p1 p2 up [] [] res
             later []); try assumption; [constructor|].
    intros csock1 Hs1. exists csock1. cbn [flat_map app map] in *.
    rewrite app_nil_r.
    split; [|split; [reflexivity|exact Hs1]].
    apply client_turn_busted. rewrite first_two_total. exact Hover. }
  unfold Server.player_turn.
  destruct (Server.player_loop _) as [[pb [[sock2 deck2] ph2]]|] eqn:Hplayer;
    [|discriminate].
  pose proof (player_loop_outcome _ _ Hplayer) as Hout.
  unfold player_outcome in Hout. cbv beta iota in Hout.
  destruct Hout as (_ & hits & consumed & Hph2 & Hd2 & _ & Hout & _ & _).
  cbn [outbox] in Hout.
  assert (Hlock : forall sock_e' shown,
             stream sock_e' = stream sock2 ->
             stream ssock = wire (typed keys) ++ stream sock_e' ->
             forall csock1,
               stream csock1
               = flat_map card_message hits ++ flat_map card_message shown
                   ++ result_message res ++ later ->
               exists csock2,
                 ClientMain.player_turn encodable (keys ++ more) csock1
                                        [shown_as p1; shown_as p2]
                                        [shown_as up]
                                        [valued_as p1; valued_as p2]
                 = (ClientMain.Done
                      (more,
                       [shown_as p1; shown_as p2] ++ map shown_as hits,
                       [valued_as p1; valued_as p2] ++ map valued_as hits),
                    csock2)
                 /\ outbox csock2 = outbox csock1 ++ wire (typed keys)
                 /\ stream csock2
                    = flat_map card_message shown ++ result_message res
                        ++ later).
  { intros sock_e' shown Hsame Hs' csock1 Hs1.
    destruct (client_follows_the_player_loop encodable glyphs
                _ _ _ _ _ Hplayer Hdeck1
                keys more csock1 [shown_as p1; shown_as p2] [shown_as up]
                [valued_as p1; valued_as p2]
                (flat_map card_message shown ++ result_message res ++ later)
                (flat_map card_message hits)
                (shown_printable encodable [p1; p2] glyphs)
                (shown_printable encodable [up] glyphs))
      as (csock2 & drawn & Hdrawn & Hturn & Ho2 & Hs2).
    - cbn [fst snd]. unfold stream at 1. cbn [inbox]. fold (stream ssock).
      rewrite <- Hsame. exact Hs'.
    - exact He.
    - cbn [fst snd outbox]. exact Hout.
    - exact Hs1.
    - cbn [fst snd]. apply first_two_total.
    - cbn [fst snd] in Hdrawn. rewrite Hph2 in Hdrawn.
      apply app_inv_head in Hdrawn. subst drawn.
      exists csock2. auto. }
  destruct pb; cbn [negb bind].
  { (* the player went over 21 *)
    intros E. apply Ok_eq in E.
    apply pair_eq in E. destruct E as [E ->].
    apply pair_eq in E. destruct E as [-> _].
    cbn [Server.player_hand Server.dealer_hand] in *.
    rewrite Hout, <- !app_assoc in Ho. apply app_inv_head in Ho. subst sent.
    rewrite <- !app_assoc in Hc. rewrite Hph2.
    apply (client_round_composed keys more csock tally p1 p2 up hits [] res
             later (wire (typed keys))); try assumption; [constructor|].
    apply (Hlock sock2 []); [reflexivity|exact Hs]. }
  (* the player stood *)
  unfold Server.dealer_turn. destruct hidden as [hr hs].
  pose proof (pack_card (hr, hs) Hh) as Hpack. cbn [fst snd] in Hpack.
  rewrite Hpack. clear Hpack. cbn [bind].
  destruct (Server.dealer_loop _) as [[db [[sock3 deck3] dh3]]|] eqn:Hdealer;
    [|discriminate].
  pose proof (dealer_loop_sent _ _ _ _ _ _ _ Hdealer) as (drawn & Hdh3 & Hout3).
  apply dealer_loop_outcome in Hdealer. unfold dealer_outcome in Hdealer.
  destruct Hdealer as (_ & _ & Hin & drawn' & Hdh3' & Hdeck3 & _).
  rewrite Hdh3 in Hdh3'. apply app_inv_head in Hdh3'. subst drawn'.
  cbn [bind]. intros E. apply Ok_eq in E.
  apply pair_eq in E. destruct E as [E ->].
  apply pair_eq in E. destruct E as [-> _].
  cbn [Server.player_hand Server.dealer_hand] in *.
  unfold sendall in Hout3, Hin. cbn [outbox inbox] in Hout3, Hin.
  rewrite Hout3, Hout, <- !app_assoc in Ho. apply app_inv_head in Ho.
  subst sent. rewrite <- !app_assoc in Hc.
  rewrite Hph2, Hdh3.
  assert (Hdrawn : Forall in_deck drawn).
  { rewrite Hd2 in Hdeck1. apply Forall_app in Hdeck1.
    destruct Hdeck1 as [Hdeck2 _]. rewrite Hdeck3 in Hdeck2.
    apply Forall_app in Hdeck2. destruct Hdeck2 as [_ Hrev].
    apply Forall_rev in Hrev. rewrite rev_involutive in Hrev. exact Hrev. }
  apply (client_round_composed keys more csock tally p1 p2 up hits
           ((hr, hs) :: drawn) res later (wire (typed keys)));
    try assumption.
  - constructor; assumption.
  - apply (Hlock sock3 ((hr, hs) :: drawn)); [|exact Hs].
    unfold stream. rewrite Hin. reflexivity.
Qed.

Lemma typed_junk (junk : list str) :
  Forall (fun j => choice_decision j = None) junk -> typed junk = [].
Proof.
  induction 1 as [|j junk Hj _ IH]; [reflexivity|].
  cbn [typed]. rewrite Hj. exact IH.
Qed.

Lemma ends_with_choice_line (junk : list str) (k d : str) (rest : list str) :
  choice_decision k = Some d -> ends_with_choice rest = true ->
  ends_with_choice (junk ++ k :: rest) = true.
Proof.
  intros Hk Hrest. induction junk as [|j junk IH].
  - cbn [app ends_with_choice]. rewrite Hk. destruct rest; [reflexivity|].
    exact Hrest.
  - cbn [app ends_with_choice].
    destruct (junk ++ k :: rest) eqn:E; [destruct junk; discriminate|].
    exact IH.
Qed.

(** The lines of a keyboard that stand for the first [n] decisions. *)
Lemma keys_split (n : nat) :
  forall (keys : list str) (a b : bytes),
    wire (typed keys) = a ++ b -> len a = 10 * Z.of_nat n ->
    ends_with_choice keys = true ->
    exists keys1 keys2,
      keys = keys1 ++ keys2
      /\ wire (typed keys1) = a /\ wire (typed keys2) = b
      /\ ends_with_choice keys1 = true /\ ends_with_choice keys2 = true.
Proof.
  induction n as [|n IH]; intros keys a b Hw Hlen He.
  - destruct a; [|cbn in Hlen; lia]. exists [], keys. auto.
  - rewrite <- (firstn_skipn 10 a), <- app_assoc in Hw.
    assert (Hten : len (firstn 10 a) = CLIENT_PAYLOAD_SIZE).
    { unfold len in *. rewrite length_firstn. unfold CLIENT_PAYLOAD_SIZE. lia. }
    pose proof (typed_valid keys) as Hv.
    destruct (wire_first _ _ _ Hv Hw Hten) as (d & ds & Hty & Hd & Hds).
    destruct (typed_first _ _ _ Hty)
      as (junk & k & rest & -> & Hj & Hk & Hrest).
    subst ds. apply ends_with_choice_rest in He.
    destruct (IH rest (skipn 10 a) b Hds) as (r1 & r2 & -> & H1 & H2 & E1 & E2).
    { unfold len in *. rewrite length_skipn. lia. }
    { exact He. }
    exists (junk ++ k :: r1), r2.
    split; [rewrite <- app_assoc; reflexivity|].
    split; [|split; [exact H2|split; [|exact E2]]].
    + rewrite typed_app, (typed_junk junk Hj). cbn [app typed].
      rewrite Hk. cbn [wire flat_map]. fold (wire (typed r1)).
      rewrite Hd, H1. apply firstn_skipn.
    + apply ends_with_choice_line with d; assumption.
Qed.

(** What a round of the server reads and writes. *)
Lemma play_round_io (shuffle : list Server.card -> list Server.card)
      (sock sock' : socket) (res : Z) :
  Server.play_round shuffle sock = Ok (res, sock') ->
  (res = GAME_RESULT_TIE \/ res = GAME_RESULT_LOSS \/ res = GAME_RESULT_WIN)
  /\ exists consumed n sent,
      stream sock = consumed ++ stream sock'
      /\ len consumed = 10 * Z.of_nat n
      /\ outbox sock' = outbox sock ++ sent.
Proof.
  intros H. apply play_round_inv in H.
  destruct H as (h & deck' & sock1 & Hhands & -> & ->).
  split; [apply who_won_is_a_result|].
  apply play_hands_Ok in Hhands.
  destruct Hhands as (hidden & up & p2 & p1 & hits & shown & Hplayed).
  unfold round_played in Hplayed.
  destruct Hplayed as (_ & _ & _ & _ & Hout & (consumed & Hs & Hlen) & _).
  exists consumed,
    (length hits + (if Server.player_busted h then 0 else 1))%nat,
    (flat_map card_message ([p1; p2; up] ++ hits ++ shown)
       ++ result_message
            (Server.who_won (Server.player_hand h) (Server.dealer_hand h)
               (Server.player_busted h) (Server.dealer_busted h))).
  split; [exact Hs|]. split.
  - rewrite Hlen. unfold len. destruct (Server.player_busted h); lia.
  - unfold sendall. cbn [outbox]. rewrite Hout, <- app_assoc. reflexivity.
Qed.

(** A match seen from both ends. *)
Lemma client_follows_the_rounds
      (shuffles : nat -> list Server.card -> list Server.card) (k : nat) :
  (forall i, Permutation Server.create_deck (shuffles i Server.create_deck)) ->
  forall (r : nat) (ssock ssock' : socket) (keys more : list str)
         (csock : socket) (tally : ClientMain.score) (later sent : bytes),
    Server.play_rounds shuffles k r ssock = Ok ssock' ->
    stream ssock = wire (typed keys) ++ stream ssock' ->
    ends_with_choice keys = true ->
    outbox ssock' = outbox ssock ++ sent ->
    stream csock = sent ++ later ->
    exists csock',
      ClientMain.play_rounds encodable k (keys ++ more) csock tally
      = (ClientMain.Done more,
         counted_all (results_of shuffles k r ssock) tally, csock')
      /\ outbox csock' = outbox csock ++ wire (typed keys)
      /\ stream csock' = later
      /\ length (results_of shuffles k r ssock) = k
      /\ Forall (fun res => res = GAME_RESULT_TIE \/ res = GAME_RESULT_LOSS
                            \/ res = GAME_RESULT_WIN)
                (results_of shuffles k r ssock).
Proof.
  intros Hperm. induction k as [|k IH];
    intros r ssock ssock' keys more csock tally later sent Hrounds Hs He Ho Hc.
  - cbn [Server.play_rounds] in Hrounds. apply Ok_eq in Hrounds. subst ssock'.
    rewrite <- (app_nil_l (stream ssock)) in Hs at 1.
    apply app_inv_tail in Hs. symmetry in Hs. pose proof Hs as Hw.
    apply wire_nil in Hs; [|apply typed_valid].
    apply ends_with_choice_typed in Hs; [|exact He]. subst keys.
    rewrite <- (app_nil_r (outbox ssock)) in Ho at 1.
    apply app_inv_head in Ho. subst sent.
    exists csock. cbn. rewrite app_nil_r. auto.
  - cbn [Server.play_rounds results_of] in *.
    destruct (Server.play_round (shuffles r) ssock) as [[res ssock1]|]
      eqn:Hround; [|discriminate].
    cbn [bind] in Hrounds.
    destruct (play_round_io _ _ _ _ Hround)
      as (Hres & consumed1 & n1 & sent1 & Hs1 & Hlen1 & Ho1).
    destruct (play_rounds_Ok _ _ _ _ _ Hrounds)
      as (played & consumed2 & _ & Ho2 & _ & Hs2 & _).
    rewrite Hs1, Hs2, app_assoc in Hs. apply app_inv_tail in Hs.
    symmetry in Hs.
    destruct (keys_split n1 keys consumed1 consumed2 Hs Hlen1 He)
      as (keys1 & keys2 & -> & Hw1 & Hw2 & He1 & He2).
    rewrite Ho2, Ho1, <- app_assoc in Ho. apply app_inv_head in Ho.
    subst sent. rewrite <- app_assoc in Hc.
    destruct (client_follows_the_round (shuffles r) ssock ssock1 res keys1
                (keys2 ++ more) csock tally
                (flat_map round_bytes played ++ later) sent1
                (Hperm r) Hround)
      as (csock1 & h & deck' & ssock_h & _ & Hplay & Hco1 & Hcs1).
    { rewrite Hw1. exact Hs1. }
    { exact He1. }
    { exact Ho1. }
    { exact Hc. }
    destruct (IH (S r) ssock1 ssock' keys2 more csock1 (counted res tally)
                 later (flat_map round_bytes played) Hrounds)
      as (csock' & Hrest & Hco & Hcs & Hlen & Hall).
    { rewrite Hw2. exact Hs2. }
    { exact He2. }
    { exact Ho2. }
    { exact Hcs1. }
    exists csock'. rewrite <- app_assoc. cbn [ClientMain.play_rounds].
    rewrite Hplay, Hrest. cbn [counted_all fold_left length].
    split; [reflexivity|].
    split; [rewrite Hco, Hco1, typed_app, wire_app, <- app_assoc;
            reflexivity|].
    split; [exact Hcs|]. split; [rewrite Hlen; reflexivity|].
    constructor; assumption.
Qed.
End ClientAndServer.

Section Sessions.
Import Protocol.

Lemma counted_sum (r : Z) (w l t w' l' t' : Z) :
  counted r (w, l, t) = (w', l', t') ->
  w <= w' /\ l <= l' /\ t <= t' /\ w' + l' + t' <= w + l + t + 1
  /\ (r = GAME_RESULT_TIE \/ r = GAME_RESULT_LOSS \/ r = GAME_RESULT_WIN ->
      w' + l' + t' = w + l + t + 1).
Proof.
  unfold counted.
  destruct (Z.eqb_spec r GAME_RESULT_WIN);
    [|destruct (Z.eqb_spec r GAME_RESULT_LOSS);
      [|destruct (Z.eqb_spec r GAME_RESULT_TIE)]];
    intros E; apply pair_eq in E; destruct E as [E <-];
    apply pair_eq in E; destruct E as [<- <-];
    repeat split; lia.
Qed.

Lemma counted_all_sum (rs : list Z) :
  Forall (fun r => r = GAME_RESULT_TIE \/ r = GAME_RESULT_LOSS
                   \/ r = GAME_RESULT_WIN) rs ->
  forall w l t w' l' t',
    counted_all rs (w, l, t) = (w', l', t') ->
    w <= w' /\ l <= l' /\ t <= t' /\ w' + l' + t' = w + l + t + len rs.
Proof.
  induction 1 as [|r rs Hr _ IH]; intros w l t w' l' t' E.
  - cbn in E. apply pair_eq in E. destruct E as [E <-].
    apply pair_eq in E. destruct E as [<- <-]. unfold len. cbn. lia.
  - cbn [counted_all fold_left] in E.
    destruct (counted r (w, l, t)) as [[w1 l1] t1] eqn:E1.
    apply counted_sum in E1. destruct E1 as (? & ? & ? & _ & Hs).
    specialize (Hs Hr). apply IH in E. unfold len in *. cbn [length]. lia.
Qed.

Lemma client_request (rounds : Z) :
  0 <= rounds <= 255 ->
  pack_request rounds ClientMain.client_name = Ok (request_message rounds)
  /\ len (request_message rounds) = REQUEST_SIZE
  /\ unpack_request (request_message rounds)
     = Ok (MAGIC_COOKIE, MTYPE_REQUEST, rounds, ClientMain.client_name).
Proof.
  intros Hr.
  pose proof (request_roundtrip rounds ClientMain.client_name Hr eq_refl)
    as Hround.
  unfold request_message.
  destruct (pack_request rounds ClientMain.client_name) as [m|] eqn:Hm;
    [|discriminate].
  split; [reflexivity|]. split; [|exact Hround].
  apply pack_request_size with rounds ClientMain.client_name. exact Hm.
Qed.

(** X20: at the end of a round the client shows the hands the server
    holds and has the server's total for the player, if its console can
    encode the four suit symbols; the card the dealer kept hidden from a
    player who went over 21 is never shown; and the result is one the
    client counts. *)
Theorem client_shows_the_servers_hands
        (encodable : Z -> bool)
        (shuffle : list Server.card -> list Server.card)
        (ssock ssock' : socket) (res : Z) (keys more : list str)
        (csock : socket) (tally : ClientMain.score) (later sent : bytes) :
  printable encodable suit_glyphs = true ->
  Permutation Server.create_deck (shuffle Server.create_deck) ->
  Server.play_round shuffle ssock = Ok (res, ssock') ->
  stream ssock = wire (typed keys) ++ stream ssock' ->
  ends_with_choice keys = true ->
  outbox ssock' = outbox ssock ++ sent ->
  stream csock = sent ++ later ->
  exists csock' h deck' ssock1 player_cards dealer_cards player_ranks,
    Server.play_hands (shuffle Server.create_deck) ssock
    = Ok (h, deck', ssock1)
    /\ ClientMain.play_round encodable (keys ++ more) csock tally
       = (ClientMain.Done (more, counted res tally,
                           (player_cards, dealer_cards, player_ranks)),
          csock')
    /\ player_cards = map shown_as (Server.player_hand h)
    /\ dealer_cards = map shown_as (Server.dealer_hand h)
    /\ Client.hand_total player_ranks
       = Server.hand_total (Server.player_hand h)
    /\ (Server.player_busted h = true -> length dealer_cards = 1%nat)
    /\ counted res tally <> tally.
Proof.
  intros Hg Hperm Hround Hs He Ho Hc.
  destruct (client_follows_the_round encodable Hg shuffle ssock ssock' res
              keys more csock tally later sent Hperm Hround Hs He Ho Hc)
    as (csock' & h & deck' & ssock1 & Hhands & Hplay & _ & _).
  exists csock', h, deck', ssock1, (map shown_as (Server.player_hand h)),
    (map shown_as (Server.dealer_hand h)),
    (map valued_as (Server.player_hand h)).
  split; [exact Hhands|]. split; [exact Hplay|].
  split; [reflexivity|]. split; [reflexivity|].
  split; [apply valued_total|]. split.
  - intros Hbust. apply play_hands_Ok in Hhands.
    destruct Hhands as (hidden & up & p2 & p1 & hits & shown & Hplayed).
    unfold round_played in Hplayed.
    destruct Hplayed as (_ & Hdh & _ & _ & _ & _ & [Hover | Hstood]).
    + destruct Hover as (_ & -> & _). rewrite Hdh. reflexivity.
    + destruct Hstood as [Hnot _]. congruence.
  - apply play_round_io in Hround. destruct Hround as [Hres _].
    destruct tally as [[w l] t].
    destruct (counted res (w, l, t)) as [[w' l'] t'] eqn:E.
    apply counted_sum in E. destruct E as (_ & _ & _ & _ & Hsum).
    specialize (Hsum Hres). intros E. apply pair_eq in E.
    destruct E as [E ->]. apply pair_eq in E. destruct E as [-> ->]. lia.
Qed.

(** The player stands on 19; the dealer shows 7, 6 and 5.  The console
    encodes the four suit symbols and nothing else beyond ASCII. *)
Lemma client_shows_the_servers_hands_witness :
  Server.play_round (stacked [(5, 0); (6, 3); (7, 2); (9, 1); (10, 0)])
                    (mkSocket (segments [stand_payload]) [])
  = Ok (GAME_RESULT_WIN,
        mkSocket []
          (card_message (10, 0) ++ card_message (9, 1)
             ++ card_message (7, 2) ++ card_message (6, 3)
             ++ card_message (5, 0) ++ result_message GAME_RESULT_WIN))
  /\ exists csock' h deck' ssock1 player_cards dealer_cards player_ranks,
      Server.play_hands
        (stacked [(5, 0); (6, 3); (7, 2); (9, 1); (10, 0)]
                 Server.create_deck)
        (mkSocket (segments [stand_payload]) [])
      = Ok (h, deck', ssock1)
      /\ ClientMain.play_round
           (fun c => existsb (Z.eqb c) suit_glyphs)
           ([str_of_string "S"] ++ [])
           (mkSocket
              (segments [card_message (10, 0) ++ card_message (9, 1)
                           ++ card_message (7, 2) ++ card_message (6, 3)
                           ++ card_message (5, 0)
                           ++ result_message GAME_RESULT_WIN]) [])
           (0, 0, 0)
         = (ClientMain.Done ([], counted GAME_RESULT_WIN (0, 0, 0),
                             (player_cards, dealer_cards, player_ranks)),
            csock')
      /\ player_cards = map shown_as (Server.player_hand h)
      /\ dealer_cards = map shown_as (Server.dealer_hand h)
      /\ Client.hand_total player_ranks
         = Server.hand_total (Server.player_hand h)
      /\ (Server.player_busted h = true -> length dealer_cards = 1%nat)
      /\ counted GAME_RESULT_WIN (0, 0, 0) <> (0, 0, 0).
Proof.
  split; [vm_compute; reflexivity|].
  apply (client_shows_the_servers_hands
           (fun c => existsb (Z.eqb c) suit_glyphs)
           (stacked [(5, 0); (6, 3); (7, 2); (9, 1); (10, 0)])
           (mkSocket (segments [stand_payload]) [])
           (mkSocket []
              (card_message (10, 0) ++ card_message (9, 1)
                 ++ card_message (7, 2) ++ card_message (6, 3)
                 ++ card_message (5, 0) ++ result_message GAME_RESULT_WIN))
           GAME_RESULT_WIN [str_of_string "S"] []
           (mkSocket
              (segments [card_message (10, 0) ++ card_message (9, 1)
                           ++ card_message (7, 2) ++ card_message (6, 3)
                           ++ card_message (5, 0)
                           ++ result_message GAME_RESULT_WIN]) [])
           (0, 0, 0) []
           (card_message (10, 0) ++ card_message (9, 1)
              ++ card_message (7, 2) ++ card_message (6, 3)
              ++ card_message (5, 0) ++ result_message GAME_RESULT_WIN)).
  - reflexivity.
  - exact (stacked_Permutation [(5, 0); (6, 3); (7, 2); (9, 1); (10, 0)]
             eq_refl eq_refl).
  - vm_compute; reflexivity.
  - vm_compute; reflexivity.
  - reflexivity.
  - reflexivity.
  - vm_compute; reflexivity.
Defined.

(** X21: a whole session seen from both ends.  The client, whose console
    encodes the four suit symbols, is connected and is asked for
    [asked int line] rounds, between 0 and 255; the game mode of the
    server ends without error, having read the client's request followed
    by exactly the decisions that the lines [keys] stand for; the client
    receives what the server sent.  Then the client sends that request and
    those decisions and nothing else, reads all that the server sent, and
    ends with the server's results counted, one for each round; asked for
    no round, it ends with [ZeroDivisionError] instead. *)
Theorem client_and_server_play_a_match
        (server_encodable client_encodable : Z -> bool)
        (int : str -> option Z) (previous : option Z)
        (shuffles : nat -> list Server.card -> list Server.card)
        (line : str) (keys more : list str) (ssock ssock' csock : socket)
        (later sent : bytes) :
  printable client_encodable suit_glyphs = true ->
  (forall i, Permutation Server.create_deck (shuffles i Server.create_deck)) ->
  0 <= asked int line <= 255 ->
  ServerMain.game_mode server_encodable shuffles ssock = Ok ssock' ->
  stream ssock
  = request_message (asked int line) ++ wire (typed keys) ++ stream ssock' ->
  ends_with_choice keys = true ->
  outbox ssock' = outbox ssock ++ sent ->
  stream csock = sent ++ later ->
  exists ssock1 csock' wins losses ties,
    Server.recv_exact ssock REQUEST_SIZE
    = Ok (request_message (asked int line), ssock1)
    /\ counted_all (results_of shuffles (Z.to_nat (asked int line)) 0 ssock1)
                   (0, 0, 0)
       = (wins, losses, ties)
    /\ 0 <= wins /\ 0 <= losses /\ 0 <= ties
    /\ wins + losses + ties = asked int line
    /\ ClientMain.session client_encodable int previous (Some csock)
                          (line :: keys ++ more)
       = (if asked int line =? 0 then ClientMain.ZeroDivisionError
          else ClientMain.Summary wins losses ties, Some csock')
    /\ outbox csock'
       = outbox csock ++ request_message (asked int line)
           ++ wire (typed keys)
    /\ stream csock' = later.
Proof.
  intros Hg Hperm Hr Hgame Hs He Ho Hc.
  destruct (client_request (asked int line) Hr) as (Hpack & Hlen & Hun).
  destruct (recv_exact_enough ssock _ _ Hs) as (ssock1 & Hrecv & Hs1 & Ho1).
  rewrite Hlen in Hrecv.
  unfold ServerMain.game_mode in Hgame. rewrite Hrecv in Hgame.
  cbn [bind] in Hgame. rewrite Hun in Hgame. cbn [bind] in Hgame.
  rewrite Z.eqb_refl in Hgame. cbn [negb] in Hgame.
  rewrite announce in Hgame.
  change (printable server_encodable ClientMain.client_name) with true
    in Hgame.
  cbn [bind] in Hgame.
  unfold Server.run_match_for_client in Hgame.
  rewrite <- Ho1 in Ho.
  destruct (client_follows_the_rounds client_encodable Hg shuffles
              (Z.to_nat (asked int line)) Hperm 0%nat
              ssock1 ssock' keys more
              (sendall csock (request_message (asked int line))) (0, 0, 0)
              later sent Hgame Hs1 He Ho Hc)
    as (csock' & Hplay & Hco & Hcs & Hn & Hall).
  destruct (counted_all _ (0, 0, 0)) as [[wins losses] ties] eqn:Hcount.
  pose proof (counted_all_sum _ Hall _ _ _ _ _ _ Hcount) as Hsum.
  exists ssock1, csock', wins, losses, ties.
  split; [exact Hrecv|]. split; [exact Hcount|].
  unfold len in Hsum. rewrite Hn in Hsum.
  split; [lia|]. split; [lia|]. split; [lia|]. split; [lia|].
  split.
  - unfold ClientMain.session. fold (asked int line).
    rewrite Hpack, Hplay.
    destruct (asked int line =? 0); reflexivity.
  - split; [|exact Hcs]. rewrite Hco. unfold sendall. cbn [outbox].
    rewrite <- app_assoc. reflexivity.
Qed.

(** One round, asked for with the line "1"; the user mistypes once, then
    stands on 19; the dealer draws to 18.  The console of the server knows
    ASCII only, that of the client the four suit symbols as well. *)
Lemma client_and_server_play_a_match_witness :
  ServerMain.game_mode
    (fun _ => false)
    (fun _ => stacked [(5, 0); (6, 3); (7, 2); (9, 1); (10, 0)])
    (mkSocket (segments [request_message 1; stand_payload]) [])
  = Ok (mkSocket []
          (card_message (10, 0) ++ card_message (9, 1)
             ++ card_message (7, 2) ++ card_message (6, 3)
             ++ card_message (5, 0) ++ result_message GAME_RESULT_WIN))
  /\ exists ssock1 csock' wins losses ties,
      Server.recv_exact
        (mkSocket (segments [request_message 1; stand_payload]) [])
        REQUEST_SIZE
      = Ok (request_message 1, ssock1)
      /\ counted_all
           (results_of
              (fun _ => stacked [(5, 0); (6, 3); (7, 2); (9, 1); (10, 0)])
              (Z.to_nat 1) 0 ssock1) (0, 0, 0)
         = (wins, losses, ties)
      /\ 0 <= wins /\ 0 <= losses /\ 0 <= ties
      /\ wins + losses + ties = 1
      /\ ClientMain.session
           (fun c => existsb (Z.eqb c) suit_glyphs)
           (fun line => if str_eqb line (str_of_string "1") then Some 1
                        else None)
           None
           (Some
              (mkSocket
                 (segments [card_message (10, 0) ++ card_message (9, 1)
                              ++ card_message (7, 2) ++ card_message (6, 3)
                              ++ card_message (5, 0)
                              ++ result_message GAME_RESULT_WIN]) []))
           (str_of_string "1"
              :: [str_of_string "?"; str_of_string "S"]
              ++ [str_of_string "H"])
         = (if 1 =? 0 then ClientMain.ZeroDivisionError
            else ClientMain.Summary wins losses ties, Some csock')
      /\ outbox csock'
         = [] ++ request_message 1
              ++ wire (typed [str_of_string "?"; str_of_string "S"])
      /\ stream csock' = [].
Proof.
  split; [vm_compute; reflexivity|].
  apply (client_and_server_play_a_match
           (fun _ => false)
           (fun c => existsb (Z.eqb c) suit_glyphs)
           (fun line => if str_eqb line (str_of_string "1") then Some 1
                        else None)
           None
           (fun _ => stacked [(5, 0); (6, 3); (7, 2); (9, 1); (10, 0)])
           (str_of_string "1")
           [str_of_string "?"; str_of_string "S"] [str_of_string "H"]
           (mkSocket (segments [request_message 1; stand_payload]) [])
           (mkSocket []
              (card_message (10, 0) ++ card_message (9, 1)
                 ++ card_message (7, 2) ++ card_message (6, 3)
                 ++ card_message (5, 0) ++ result_message GAME_RESULT_WIN))
           (mkSocket
              (segments [card_message (10, 0) ++ card_message (9, 1)
                           ++ card_message (7, 2) ++ card_message (6, 3)
                           ++ card_message (5, 0)
                           ++ result_message GAME_RESULT_WIN]) [])
           []
           (card_message (10, 0) ++ card_message (9, 1)
              ++ card_message (7, 2) ++ card_message (6, 3)
              ++ card_message (5, 0) ++ result_message GAME_RESULT_WIN)).
  - reflexivity.
  - intros _.
    exact (stacked_Permutation [(5, 0); (6, 3); (7, 2); (9, 1); (10, 0)]
             eq_refl eq_refl).
  - cbv. split; discriminate.
  - vm_compute; reflexivity.
  - vm_compute; reflexivity.
  - reflexivity.
  - reflexivity.
  - vm_compute; reflexivity.
Defined.
End Sessions.


Section ClientAlone.
Import Protocol.
Variable encodable : Z -> bool.

Lemma client_recv_exact_outbox (sock sock' : socket) (data : bytes) :
  Client.recv_exact sock SERVER_PAYLOAD_SIZE = Ok (data, sock') ->
  outbox sock' = outbox sock.
Proof.
  rewrite client_recv_exact_same. intros H.
  apply recv_exact_Ok in H; [|unfold SERVER_PAYLOAD_SIZE; lia]. apply H.
Qed.

Lemma client_deal_body_outbox (i : Z) (sock sock' : socket)
      (v v' : ClientMain.view) :
  ClientMain.deal_body i (sock, v) = Ok (sock', v') ->
  outbox sock' = outbox sock.
Proof.
  destruct v as [[pc dc] pr]. unfold ClientMain.deal_body.
  destruct (Client.recv_exact sock SERVER_PAYLOAD_SIZE) as [[data s1]|] eqn:Hr;
    [|discriminate].
  apply client_recv_exact_outbox in Hr. cbn [bind].
  destruct (unpack_server_payload data) as [[[[[ck ty] g] rk] su]|];
    [|discriminate].
  cbn [bind]. destruct (negb (ck =? MAGIC_COOKIE)); [discriminate|].
  destruct (i <? 2); intros E; apply Ok_eq in E; apply pair_eq in E;
    destruct E as [<- _]; exact Hr.
Qed.

Lemma client_initial_deal_outbox (sock sock' : socket) (v : ClientMain.view) :
  ClientMain.initial_deal sock = Ok (sock', v) -> outbox sock' = outbox sock.
Proof.
  unfold ClientMain.initial_deal. change (range 0 3) with [0; 1; 2].
  cbn [fold_left bind].
  destruct (ClientMain.deal_body 0 _) as [[s1 v1]|] eqn:H1; [|discriminate].
  cbn [bind].
  destruct (ClientMain.deal_body 1 _) as [[s2 v2]|] eqn:H2; [|discriminate].
  cbn [bind]. intros H3.
  apply client_deal_body_outbox in H1, H2, H3. congruence.
Qed.

(** The last loop of a round sends nothing, and counts one result. *)
Lemma client_dealer_loop_inv (player_cards : list str)
      (st st' : socket * list str * ClientMain.score) :
  ClientMain.dealer_loop encodable player_cards st = Ok st' ->
  outbox (fst (fst st')) = outbox (fst (fst st))
  /\ exists r, snd st' = counted r (snd st).
Proof.
  unfold ClientMain.dealer_loop. revert st'.
  apply (while_ind _ _ _ _
           (ClientMain.dealer_body_decreases encodable player_cards)
           (fun st res =>
              forall st', res = Ok st' ->
                outbox (fst (fst st')) = outbox (fst (fst st))
                /\ exists r, snd st' = counted r (snd st))); clear st.
  - intros [[sock cards] [[w l] t]] r Hb st' E. apply Ok_eq in E. subst st'.
    unfold ClientMain.dealer_body in Hb.
    destruct (Client.recv_exact sock SERVER_PAYLOAD_SIZE) as [[data s1]|]
      eqn:Hr; [|discriminate].
    apply client_recv_exact_outbox in Hr. cbn [bind] in Hb.
    destruct (unpack_server_payload data) as [[[[[ck ty] g] rk] su]|];
      [|discriminate].
    cbn [bind] in Hb. destruct (negb (ck =? MAGIC_COOKIE)); [discriminate|].
    destruct (g =? GAME_RESULT_NOTOVER);
      [destruct (print encodable _); discriminate|].
    cbn [fst snd]. unfold counted.
    destruct (g =? GAME_RESULT_WIN) eqn:E1;
      [|destruct (g =? GAME_RESULT_LOSS) eqn:E2;
        [|destruct (g =? GAME_RESULT_TIE) eqn:E3]];
      cbn [run] in Hb; apply Return_eq in Hb; subst r; cbn [fst snd];
      (split; [exact Hr|]); exists g; rewrite ?E1, ?E2, ?E3; reflexivity.
  - discriminate.
  - intros [[sock cards] [[w l] t]] st1 Hb IH st' E.
    destruct (IH st' E) as [Ho [r Hr']]. clear IH E.
    unfold ClientMain.dealer_body in Hb.
    destruct (Client.recv_exact sock SERVER_PAYLOAD_SIZE) as [[data s1]|]
      eqn:Hr; [|discriminate].
    apply client_recv_exact_outbox in Hr. cbn [bind] in Hb.
    destruct (unpack_server_payload data) as [[[[[ck ty] g] rk] su]|];
      [|discriminate].
    cbn [bind] in Hb. destruct (negb (ck =? MAGIC_COOKIE)); [discriminate|].
    destruct (g =? GAME_RESULT_NOTOVER).
    + destruct (print encodable _); [|discriminate].
      cbn [bind run] in Hb. apply Continue_eq in Hb. subst st1.
      cbn [fst snd] in *. split; [congruence|]. exists r. exact Hr'.
    + destruct (g =? GAME_RESULT_WIN); [discriminate|].
      destruct (g =? GAME_RESULT_LOSS); [discriminate|].
      destruct (g =? GAME_RESULT_TIE); discriminate.
Qed.

(** What the player's turn of the client sends: the decisions of the lines
    it has read, which are hits followed by at most one stand. *)
Lemma client_turn_sends (keyboard : list str) :
  forall (sock : socket) (cards dcards : list str) (ranks : list Z),
  exists used rest round,
    keyboard = used ++ rest
    /\ typed used = decisions_of_round round
    /\ outbox (snd (ClientMain.player_turn encodable keyboard sock cards
                                           dcards ranks))
       = outbox sock ++ wire (typed used)
    /\ forall kb' c r,
        fst (ClientMain.player_turn encodable keyboard sock cards dcards
                                    ranks)
        = ClientMain.Done (kb', c, r) -> kb' = rest.
Proof.
  induction keyboard as [|k kb IH]; intros sock cards dcards ranks.
  - exists [], [], (0%nat, false). cbn [ClientMain.player_turn].
    destruct (Client.hand_total ranks >? 21); cbn [fst snd app typed wire
      flat_map]; rewrite app_nil_r; repeat split; try reflexivity.
    + intros kb' c r E. injection E as <- _ _. reflexivity.
    + discriminate.
  - destruct (Z.gtb_spec (Client.hand_total ranks) 21) as [Hgt|Hle].
    { rewrite client_turn_busted by lia.
      exists [], (k :: kb), (0%nat, false).
      cbn [fst snd app typed wire flat_map]. rewrite app_nil_r.
      repeat split. intros kb' c r E. injection E as <- _ _. reflexivity. }
    rewrite client_turn_line by lia.
    destruct (choice_decision k) as [d|] eqn:Hk.
    2:{ destruct (IH sock cards dcards ranks)
          as (used & rest & round & -> & Hty & Ho & Hd).
        exists (k :: used), rest, round. cbn [typed app]. rewrite Hk.
        split; [reflexivity|]. split; [exact Hty|].
        split; [exact Ho|exact Hd]. }
    assert (Hone : typed [k] = [d]) by (cbn [typed]; rewrite Hk; reflexivity).
    destruct (choice_decision_valid _ _ Hk) as [-> | ->].
    + (* a hit *)
      cbv zeta. change (str_eqb Hittt Stand) with false. cbv iota.
      assert (Hfail : forall (o : ClientMain.raised),
                 exists used rest round,
                   k :: kb = used ++ rest
                   /\ typed used = decisions_of_round round
                   /\ outbox (sendall sock (decision_message Hittt))
                      = outbox sock ++ wire (typed used)
                   /\ forall kb' c r,
                       @ClientMain.Failed (list str * list str * list Z) o
                       = ClientMain.Done (kb', c, r) -> kb' = rest).
      { intros o. exists [k], kb, (1%nat, false). rewrite Hone.
        cbn [wire flat_map]. rewrite app_nil_r.
        repeat split. discriminate. }
      destruct (Client.recv_exact _ SERVER_PAYLOAD_SIZE) as [[data s1]|e]
        eqn:Hr; cbn [bind]; [|apply Hfail].
      apply client_recv_exact_outbox in Hr.
      destruct (unpack_server_payload data) as [[[[[ck ty] g] rk] su]|e];
        cbn [bind]; [|apply Hfail].
      destruct (negb (ck =? MAGIC_COOKIE)); [apply Hfail|].
      cbv zeta. destruct (print encodable _) as [[]|e]; cbn [bind];
        [|apply Hfail].
      destruct (negb (g =? GAME_RESULT_NOTOVER)).
      * exists [k], kb, (1%nat, false). rewrite Hone.
        cbn [fst snd wire flat_map]. rewrite app_nil_r.
        repeat split; [exact Hr|].
        intros kb' c r E. injection E as <- _ _. reflexivity.
      * destruct (IH s1 (cards ++ [ClientMain.card_to_str rk su]) dcards
                    (ranks ++ [Client.rank_value rk]))
          as (used & rest & [hits stood] & -> & Hty & Ho & Hd).
        exists (k :: used), rest, (S hits, stood).
        split; [reflexivity|].
        split; [cbn [typed]; rewrite Hk, Hty; reflexivity|].
        split; [|exact Hd].
        rewrite Ho, Hr. cbn [typed]. rewrite Hk. unfold sendall.
        cbn [outbox wire flat_map]. rewrite <- app_assoc. reflexivity.
    + (* a stand *)
      cbv zeta. change (str_eqb Stand Stand) with true. cbv iota.
      exists [k], kb, (0%nat, true). rewrite Hone.
      cbn [fst snd wire flat_map]. rewrite app_nil_r.
      repeat split. intros kb' c r E. injection E as <- _ _. reflexivity.
Qed.

(** What a round of the client sends and counts. *)
Lemma client_round_sends (keyboard : list str) (sock : socket)
      (tally : ClientMain.score) :
  exists used rest round,
    keyboard = used ++ rest
    /\ typed used = decisions_of_round round
    /\ outbox (snd (ClientMain.play_round encodable keyboard sock tally))
       = outbox sock ++ wire (typed used)
    /\ forall kb' tally' v,
        fst (ClientMain.play_round encodable keyboard sock tally)
        = ClientMain.Done (kb', tally', v) ->
        kb' = rest /\ exists r, tally' = counted r tally.
Proof.
  assert (Hnone : forall (sock1 : socket) (e : ClientMain.raised),
             outbox sock1 = outbox sock ->
             exists used rest round,
               keyboard = used ++ rest
               /\ typed used = decisions_of_round round
               /\ outbox sock1 = outbox sock ++ wire (typed used)
               /\ forall kb' tally' v,
                   @ClientMain.Failed
                     (list str * ClientMain.score * ClientMain.view) e
                   = ClientMain.Done (kb', tally', v) ->
                   kb' = rest /\ exists r, tally' = counted r tally).
  { intros sock1 e Ho. exists [], keyboard, (0%nat, false).
    cbn [app typed wire flat_map]. rewrite app_nil_r.
    split; [reflexivity|]. split; [reflexivity|].
    split; [exact Ho|discriminate]. }
  unfold ClientMain.play_round.
  destruct (ClientMain.initial_deal sock) as [[sock1 [[pc dc] pr]]|] eqn:Hdeal;
    [|apply Hnone; reflexivity].
  apply client_initial_deal_outbox in Hdeal.
  destruct (print encodable _) as [[]|e]; [|apply Hnone; exact Hdeal].
  destruct (client_turn_sends keyboard sock1 pc dc pr)
    as (used & rest & round & Hk & Hty & Ho & Hd).
  exists used, rest, round. split; [exact Hk|]. split; [exact Hty|].
  destruct (ClientMain.player_turn encodable keyboard sock1 pc dc pr)
    as [[[[kb' pc'] pr']|e] sock2].
  2:{ cbn [fst snd] in *. split; [congruence|discriminate]. }
  cbn [fst snd] in Ho, Hd. specialize (Hd kb' pc' pr' eq_refl). subst kb'.
  destruct (ClientMain.dealer_loop encodable pc' (sock2, dc, tally))
    as [[[sock3 dc'] tally']|e] eqn:Hloop.
  2:{ cbn [fst snd]. split; [congruence|discriminate]. }
  apply client_dealer_loop_inv in Hloop. cbn [fst snd] in Hloop.
  destruct Hloop as [Ho3 Hr]. cbn [fst snd].
  split; [congruence|].
  intros kb' tally'' v E. injection E as <- <- _. auto.
Qed.

(** What the rounds of the client send and count. *)
Lemma client_rounds_send (k : nat) :
  forall (keyboard : list str) (sock : socket) (w l t : Z),
  exists used rest played,
    keyboard = used ++ rest
    /\ typed used = flat_map decisions_of_round played
    /\ (length played <= k)%nat
    /\ outbox (snd (ClientMain.play_rounds encodable k keyboard sock
                                           (w, l, t)))
       = outbox sock ++ wire (typed used)
    /\ exists w' l' t',
        snd (fst (ClientMain.play_rounds encodable k keyboard sock
                                         (w, l, t)))
        = (w', l', t')
        /\ w <= w' /\ l <= l' /\ t <= t'
        /\ w' + l' + t' <= w + l + t + Z.of_nat k.
Proof.
  induction k as [|k IH]; intros keyboard sock w l t.
  - exists [], keyboard, []. cbn [ClientMain.play_rounds fst snd app typed
      wire flat_map length]. rewrite app_nil_r.
    split; [reflexivity|]. split; [reflexivity|]. split; [lia|].
    split; [reflexivity|]. exists w, l, t. split; [reflexivity|]. lia.
  - cbn [ClientMain.play_rounds].
    destruct (client_round_sends keyboard sock (w, l, t))
      as (used1 & rest1 & round & -> & Hty & Ho & Hd).
    destruct (ClientMain.play_round encodable (used1 ++ rest1) sock (w, l, t))
      as [[[[kb' [[w1 l1] t1]] v]|e] sock1]; cbn [fst snd] in Ho, Hd.
    + destruct (Hd kb' (w1, l1, t1) v eq_refl) as [-> [r Hr]].
      symmetry in Hr. apply counted_sum in Hr.
      destruct (IH rest1 sock1 w1 l1 t1)
        as (used2 & rest2 & played & -> & Hty2 & Hlen & Ho2
            & w' & l' & t' & Htally & Hb).
      exists (used1 ++ used2), rest2, (round :: played).
      split; [rewrite app_assoc; reflexivity|].
      split; [rewrite typed_app, Hty, Hty2; reflexivity|].
      split; [cbn [length]; lia|].
      split; [rewrite Ho2, Ho, typed_app, wire_app, app_assoc; reflexivity|].
      exists w', l', t'. split; [exact Htally|]. lia.
    + exists used1, rest1, [round]. cbn [fst snd flat_map length].
      rewrite app_nil_r.
      split; [reflexivity|]. split; [exact Hty|]. split; [lia|].
      split; [exact Ho|]. exists w, l, t. split; [reflexivity|]. lia.
Qed.

(** X22: what the client writes to its socket.  Without a connection, or
    without an answer to the question about the rounds, it writes nothing;
    asked for a number of rounds outside 0..255 it writes nothing either.
    Otherwise it writes its request and then nothing but the decisions of
    the lines it has read, in the order in which they were typed: in each
    round some hits followed by at most one stand, for at most as many
    rounds as it was asked for. *)
Theorem client_sends_what_was_typed
        (int : str -> option Z) (previous : option Z) (sock : socket)
        (line : str) (keyboard : list str) :
  snd (ClientMain.session encodable int previous None (line :: keyboard))
  = None
  /\ snd (ClientMain.session encodable int previous (Some sock) [])
     = Some sock
  /\ (~ 0 <= asked int line <= 255 ->
      snd (ClientMain.session encodable int previous (Some sock)
                              (line :: keyboard))
      = Some sock)
  /\ exists sock' used rest played,
      snd (ClientMain.session encodable int previous (Some sock)
                              (line :: keyboard))
      = Some sock'
      /\ keyboard = used ++ rest
      /\ typed used = flat_map decisions_of_round played
      /\ (length played <= Z.to_nat (asked int line))%nat
      /\ outbox sock'
         = outbox sock ++ request_message (asked int line)
             ++ wire (typed used).
Proof.
  split; [destruct previous as [r|]; [cbn; destruct (r =? 0)|]; reflexivity|].
  split; [destruct previous as [r|]; [cbn; destruct (r =? 0)|]; reflexivity|].
  unfold ClientMain.session, request_message. fold (asked int line).
  split.
  { intros Hout.
    apply pack_request_ValueError with (name := ClientMain.client_name)
      in Hout.
    rewrite Hout. destruct (asked int line =? 0); reflexivity. }
  destruct (pack_request (asked int line) ClientMain.client_name) as [msg|e].
  - destruct (client_rounds_send (Z.to_nat (asked int line)) keyboard
                (sendall sock msg) 0 0 0)
      as (used & rest & played & Hk & Hty & Hlen & Ho & _).
    destruct (ClientMain.play_rounds _ _ _ _ _) as [[o [[w l] t]] sock'].
    cbn [fst snd] in Ho.
    exists sock', used, rest, played.
    split; [destruct (asked int line =? 0); reflexivity|].
    split; [exact Hk|]. split; [exact Hty|]. split; [exact Hlen|].
    rewrite Ho. unfold sendall. cbn [outbox]. rewrite <- app_assoc.
    reflexivity.
  - exists sock, [], keyboard, []. cbn [app typed wire flat_map length].
    split; [destruct (asked int line =? 0); reflexivity|].
    split; [reflexivity|]. split; [reflexivity|]. split; [lia|].
    rewrite !app_nil_r. reflexivity.
Qed.

(** X23: how a pass of the loop of [main] ends.  When [connect] fails, or
    when there is no answer to the question about the rounds, [rounds] is
    what an earlier pass left in it: on the first pass it is unbound and
    the pass ends with [UnboundLocalError], which nothing catches.
    Otherwise [rounds] is the number asked for: asked for no round at all,
    the client sends its request, reads nothing, and ends with
    [ZeroDivisionError], which nothing catches; asked for a number outside
    0..255 it sends nothing and reports no round; in every other case it
    reports counters that are not negative and count at most [rounds]
    results. *)
Theorem session_ending
        (int : str -> option Z) (previous : option Z)
        (connection : option socket) (keyboard : list str) :
  (connection = None \/ keyboard = [] ->
   ClientMain.session encodable int previous connection keyboard
   = (match previous with
      | None => ClientMain.UnboundLocalError
      | Some rounds =>
          if rounds =? 0 then ClientMain.ZeroDivisionError
          else ClientMain.Summary 0 0 0
      end, connection))
  /\ (forall sock line rest,
         connection = Some sock -> keyboard = line :: rest ->
         (asked int line = 0 ->
          ClientMain.session encodable int previous connection keyboard
          = (ClientMain.ZeroDivisionError,
             Some (sendall sock (request_message 0))))
         /\ (~ 0 <= asked int line <= 255 ->
             ClientMain.session encodable int previous connection keyboard
             = (ClientMain.Summary 0 0 0, Some sock))
         /\ (asked int line <> 0 ->
             exists wins losses ties,
               fst (ClientMain.session encodable int previous connection
                                       keyboard)
               = ClientMain.Summary wins losses ties
               /\ 0 <= wins /\ 0 <= losses /\ 0 <= ties
               /\ wins + losses + ties <= Z.max 0 (asked int line))).
Proof.
  split.
  - intros [-> | ->].
    + destruct previous as [r|]; [cbn; destruct (r =? 0)|]; reflexivity.
    + destruct connection as [sock|];
        (destruct previous as [r|]; [cbn; destruct (r =? 0)|]; reflexivity).
  - intros sock line rest -> ->.
    unfold ClientMain.session. fold (asked int line).
    split; [|split].
    + intros ->. reflexivity.
    + intros Hout.
      apply pack_request_ValueError with (name := ClientMain.client_name)
        in Hout.
      rewrite Hout.
      destruct (Z.eqb_spec (asked int line) 0) as [E|_]; [|reflexivity].
      rewrite E in Hout. discriminate.
    + intros Hnz.
      destruct (pack_request (asked int line) ClientMain.client_name)
        as [msg|e].
      * destruct (client_rounds_send (Z.to_nat (asked int line)) rest
                    (sendall sock msg) 0 0 0)
          as (_ & _ & _ & _ & _ & _ & _ & w & l & t & Htally & Hb).
        destruct (ClientMain.play_rounds _ _ _ _ _) as [[o tally] sock'].
        cbn [fst snd] in Htally. subst tally.
        destruct (Z.eqb_spec (asked int line) 0); [contradiction|]. cbn [fst].
        exists w, l, t. split; [reflexivity|]. lia.
      * destruct (Z.eqb_spec (asked int line) 0); [contradiction|]. cbn [fst].
        exists 0, 0, 0. split; [reflexivity|]. lia.
Qed.

End ClientAlone.

(** Four hundred rounds: nothing is written. *)
Lemma client_sends_what_was_typed_witness :
  snd (ClientMain.session (fun _ => true) (fun _ => Some 400) None
                          (Some (mkSocket [] []))
                          ([] :: [str_of_string "H"]))
  = Some (mkSocket [] []).
Proof.
  apply (proj1 (proj2 (proj2 (client_sends_what_was_typed
                                (fun _ => true) (fun _ => Some 400) None (mkSocket [] [])
                                [] [str_of_string "H"])))).
  cbv. intros [_ H]. apply H. reflexivity.
Defined.

(** A first pass on which the server refuses the connection; no round at
    all; and three hundred rounds. *)
Lemma session_ending_witness :
  ClientMain.session (fun _ => true) (fun _ => Some 5) None None
                     [str_of_string "5"]
  = (ClientMain.UnboundLocalError, None)
  /\ ClientMain.session (fun _ => true) (fun _ => Some 0) None
                        (Some (mkSocket [] []))
                        [str_of_string "0"; str_of_string "H"]
     = (ClientMain.ZeroDivisionError,
        Some (sendall (mkSocket [] []) (request_message 0)))
  /\ ClientMain.session (fun _ => true) (fun _ => Some 300) None
                        (Some (mkSocket [] []))
                        [str_of_string "300"; str_of_string "H"]
     = (ClientMain.Summary 0 0 0, Some (mkSocket [] [])).
Proof.
  split; [|split].
  - apply (proj1 (session_ending (fun _ => true) (fun _ => Some 5) None None
                                 [str_of_string "5"])).
    left. reflexivity.
  - apply (proj2 (session_ending (fun _ => true) (fun _ => Some 0) None
                                 (Some (mkSocket [] []))
                                 [str_of_string "0"; str_of_string "H"])
             (mkSocket [] []) (str_of_string "0") [str_of_string "H"]
             eq_refl eq_refl).
    reflexivity.
  - apply (proj2 (session_ending (fun _ => true) (fun _ => Some 300) None
                                 (Some (mkSocket [] []))
                                 [str_of_string "300"; str_of_string "H"])
             (mkSocket [] []) (str_of_string "300") [str_of_string "H"]
             eq_refl eq_refl).
    cbv. intros [_ H]. apply H. reflexivity.
Defined.

Section ClientFailures.
Import Protocol.
Variable encodable : Z -> bool.

Lemma client_read_Raise (sock : socket) (e : exn) :
  Client.recv_exact sock SERVER_PAYLOAD_SIZE = Raise e ->
  e = ConnectionError.
Proof. rewrite client_recv_exact_same. apply recv_exact_Raise. Qed.

Lemma client_read_size (sock sock' : socket) (data : bytes) :
  Client.recv_exact sock SERVER_PAYLOAD_SIZE = Ok (data, sock') ->
  len data = SERVER_PAYLOAD_SIZE.
Proof.
  rewrite client_recv_exact_same. intros H.
  apply recv_exact_Ok in H; [|unfold SERVER_PAYLOAD_SIZE; lia]. apply H.
Qed.

Lemma unpack_server_payload_total (data : bytes) :
  len data = SERVER_PAYLOAD_SIZE ->
  exists fields, unpack_server_payload data = Ok fields.
Proof.
  intros Hlen. unfold unpack_server_payload.
  rewrite check_size_Ok by exact Hlen. cbn [bind]. eexists. reflexivity.
Qed.

Local Abbreviation lost_or_forged :=
  (fun e : exn => e = ConnectionError \/ e = ValueError).

(** What the socket and the console can raise in a round. *)
Local Abbreviation expected :=
  (fun e : exn =>
     e = ConnectionError \/ e = ValueError
     \/ (e = UnicodeEncodeError
         /\ printable encodable suit_glyphs = false)).

(** The cards of a hand can be shown if the console has the suit symbols. *)
Local Abbreviation drawn :=
  (fun cards : list str =>
     printable encodable suit_glyphs = true ->
     Forall (fun s => printable encodable s = true) cards).

Lemma drawn_snoc (cards : list str) (rank suit : Z) :
  drawn cards -> drawn (cards ++ [ClientMain.card_to_str rank suit]).
Proof.
  intros Hc Hg. apply Forall_app. split; [exact (Hc Hg)|].
  constructor; [|constructor]. apply card_to_str_printable. exact Hg.
Qed.

Lemma hands_line_cases (player_cards dealer_cards : list str) (e : exn) :
  drawn player_cards -> drawn dealer_cards ->
  print encodable (ClientMain.hands_line player_cards dealer_cards)
  = Raise e ->
  expected e.
Proof.
  intros Hp Hd He. right. right.
  destruct (print_cases encodable
              (ClientMain.hands_line player_cards dealer_cards)) as [E|E];
    rewrite E in He; [discriminate|].
  injection He as <-. split; [reflexivity|].
  destruct (printable encodable suit_glyphs) eqn:Hg; [|reflexivity].
  rewrite (hands_line_printed encodable _ _ (Hp eq_refl) (Hd eq_refl)) in E.
  discriminate.
Qed.

Lemma client_deal_body_Raise (i : Z) (st : socket * ClientMain.view)
      (e : exn) :
  ClientMain.deal_body i st = Raise e -> lost_or_forged e.
Proof.
  destruct st as [sock [[pc dc] pr]]. unfold ClientMain.deal_body.
  destruct (Client.recv_exact sock SERVER_PAYLOAD_SIZE) as [[data s1]|e']
    eqn:Hr; cbn [bind].
  2:{ intros E. injection E as <-. left. eapply client_read_Raise, Hr. }
  apply client_read_size in Hr.
  destruct (unpack_server_payload_total data Hr) as [[[[[ck ty] g] rk] su] ->].
  cbn [bind]. destruct (negb (ck =? MAGIC_COOKIE)).
  - intros E. injection E as <-. right. reflexivity.
  - destruct (i <? 2); discriminate.
Qed.

Lemma client_initial_deal_Raise (sock : socket) (e : exn) :
  ClientMain.initial_deal sock = Raise e -> lost_or_forged e.
Proof.
  unfold ClientMain.initial_deal. change (range 0 3) with [0; 1; 2].
  cbn [fold_left bind].
  destruct (ClientMain.deal_body 0 _) as [st1|e1] eqn:H1; cbn [bind].
  2:{ intros E. injection E as <-. eapply client_deal_body_Raise, H1. }
  destruct (ClientMain.deal_body 1 _) as [st2|e2] eqn:H2; cbn [bind].
  2:{ intros E. injection E as <-. eapply client_deal_body_Raise, H2. }
  apply client_deal_body_Raise.
Qed.

Lemma client_deal_body_drawn (i : Z) (sock sock' : socket)
      (pc dc pc' dc' : list str) (pr pr' : list Z) :
  ClientMain.deal_body i (sock, (pc, dc, pr)) = Ok (sock', (pc', dc', pr')) ->
  drawn pc -> drawn dc -> drawn pc' /\ drawn dc'.
Proof.
  unfold ClientMain.deal_body.
  destruct (Client.recv_exact sock SERVER_PAYLOAD_SIZE) as [[data s1]|];
    [|discriminate].
  cbn [bind].
  destruct (unpack_server_payload data) as [[[[[ck ty] g] rk] su]|];
    [|discriminate].
  cbn [bind]. destruct (negb (ck =? MAGIC_COOKIE)); [discriminate|].
  destruct (i <? 2); intros E Hp Hd; injection E as _ <- <- _;
    (split; [|]); try assumption; apply drawn_snoc; assumption.
Qed.

Lemma client_initial_deal_drawn (sock sock' : socket) (pc dc : list str)
      (pr : list Z) :
  ClientMain.initial_deal sock = Ok (sock', (pc, dc, pr)) ->
  drawn pc /\ drawn dc.
Proof.
  unfold ClientMain.initial_deal. change (range 0 3) with [0; 1; 2].
  cbn [fold_left bind].
  destruct (ClientMain.deal_body 0 _) as [[s1 [[pc1 dc1] pr1]]|] eqn:H1;
    [|discriminate].
  cbn [bind].
  destruct (ClientMain.deal_body 1 _) as [[s2 [[pc2 dc2] pr2]]|] eqn:H2;
    [|discriminate].
  cbn [bind]. intros H3.
  apply client_deal_body_drawn in H1; [|intros _; constructor..].
  destruct H1 as [Hp1 Hd1].
  apply client_deal_body_drawn in H2; [|assumption..].
  destruct H2 as [Hp2 Hd2].
  apply client_deal_body_drawn in H3; assumption.
Qed.

Lemma client_dealer_loop_Raise (player_cards : list str)
      (st : socket * list str * ClientMain.score) (e : exn) :
  drawn player_cards -> drawn (snd (fst st)) ->
  ClientMain.dealer_loop encodable player_cards st = Raise e -> expected e.
Proof.
  intros Hp. unfold ClientMain.dealer_loop.
  apply (while_ind _ _ _ _
           (ClientMain.dealer_body_decreases encodable player_cards)
           (fun st res =>
              drawn (snd (fst st)) -> res = Raise e -> expected e));
    clear st.
  - discriminate.
  - intros [[sock cards] [[w l] t]] e' Hb Hd E. injection E as ->.
    cbn [fst snd] in Hd. unfold ClientMain.dealer_body in Hb.
    destruct (Client.recv_exact sock SERVER_PAYLOAD_SIZE) as [[data s1]|e']
      eqn:Hr; cbn [bind run] in Hb.
    { apply client_read_size in Hr.
      destruct (unpack_server_payload_total data Hr)
        as [[[[[ck ty] g] rk] su] Hu].
      rewrite Hu in Hb. cbn [bind] in Hb.
      destruct (negb (ck =? MAGIC_COOKIE)).
      - cbn [run] in Hb. injection Hb as <-. right. left. reflexivity.
      - destruct (g =? GAME_RESULT_NOTOVER).
        + destruct (print encodable _) as [[]|e'] eqn:Hpr;
            cbn [bind run] in Hb; [discriminate|].
          injection Hb as <-. eapply hands_line_cases; [exact Hp| |exact Hpr].
          apply drawn_snoc. exact Hd.
        + destruct (g =? GAME_RESULT_WIN); [discriminate|].
          destruct (g =? GAME_RESULT_LOSS); [discriminate|].
          destruct (g =? GAME_RESULT_TIE); discriminate. }
    injection Hb as <-. left. eapply client_read_Raise, Hr.
  - intros [[sock cards] [[w l] t]] st1 Hb IH Hd E.
    apply IH; [|exact E]. clear IH E. cbn [fst snd] in Hd.
    unfold ClientMain.dealer_body in Hb.
    destruct (Client.recv_exact sock SERVER_PAYLOAD_SIZE) as [[data s1]|];
      [|discriminate].
    cbn [bind] in Hb.
    destruct (unpack_server_payload data) as [[[[[ck ty] g] rk] su]|];
      [|discriminate].
    cbn [bind] in Hb. destruct (negb (ck =? MAGIC_COOKIE)); [discriminate|].
    destruct (g =? GAME_RESULT_NOTOVER).
    + destruct (print encodable _); [|discriminate].
      cbn [bind run] in Hb. apply Continue_eq in Hb. subst st1.
      cbn [fst snd]. apply drawn_snoc. exact Hd.
    + destruct (g =? GAME_RESULT_WIN); [discriminate|].
      destruct (g =? GAME_RESULT_LOSS); [discriminate|].
      destruct (g =? GAME_RESULT_TIE); discriminate.
Qed.

Lemma client_turn_cases (keyboard : list str) :
  forall (sock : socket) (cards dcards : list str) (ranks : list Z),
    drawn cards -> drawn dcards ->
    match fst (ClientMain.player_turn encodable keyboard sock cards dcards
                                      ranks) with
    | ClientMain.Done (_, cards', _) => drawn cards'
    | ClientMain.Failed e =>
        (exists e', e = ClientMain.Library e' /\ expected e')
        \/ (e = ClientMain.EOFError
            /\ Forall (fun d => d = Hittt) (typed keyboard))
    end.
Proof.
  induction keyboard as [|k kb IH]; intros sock cards dcards ranks Hc Hd.
  - cbn [ClientMain.player_turn].
    destruct (Client.hand_total ranks >? 21); cbn [fst]; [exact Hc|].
    right. split; [reflexivity|constructor].
  - destruct (Z.gtb_spec (Client.hand_total ranks) 21) as [Hgt|Hle].
    { rewrite client_turn_busted by lia. exact Hc. }
    rewrite client_turn_line by lia. cbn [typed].
    destruct (choice_decision k) as [d|] eqn:Hk; [|apply IH; assumption].
    destruct (choice_decision_valid _ _ Hk) as [-> | ->].
    2:{ cbv zeta. change (str_eqb Stand Stand) with true. exact Hc. }
    cbv zeta. change (str_eqb Hittt Stand) with false. cbv iota.
    destruct (Client.recv_exact _ SERVER_PAYLOAD_SIZE) as [[data s1]|e']
      eqn:Hr; cbn [bind fst].
    2:{ left. exists e'. split; [reflexivity|]. left.
        eapply client_read_Raise, Hr. }
    apply client_read_size in Hr.
    destruct (unpack_server_payload_total data Hr)
      as [[[[[ck ty] g] rk] su] ->].
    cbn [bind]. destruct (negb (ck =? MAGIC_COOKIE)).
    { left. exists ValueError. split; [reflexivity|]. right. left.
      reflexivity. }
    pose proof (drawn_snoc cards rk su Hc) as Hc1.
    destruct (print encodable _) as [[]|e'] eqn:Hpr; cbn [bind fst].
    2:{ left. exists e'. split; [reflexivity|].
        eapply hands_line_cases; [exact Hc1|exact Hd|exact Hpr]. }
    destruct (negb (g =? GAME_RESULT_NOTOVER)); [exact Hc1|].
    specialize (IH s1 _ dcards (ranks ++ [Client.rank_value rk]) Hc1 Hd).
    destruct (fst (ClientMain.player_turn encodable kb s1 _ dcards _))
      as [[[kb' c'] r']|e]; [exact IH|].
    destruct IH as [IH | [-> Hall]]; [left; exact IH|].
    right. split; [reflexivity|]. constructor; [reflexivity|exact Hall].
Qed.

(** X24: what can go wrong in a round of the client.  A round fails with
    [ConnectionError] (the server closed the stream), with [ValueError] (a
    payload without the cookie), with [UnicodeEncodeError] (the console
    cannot encode the line of the hands) or with [EOFError] (the keyboard
    ran out), and with nothing else: no payload of nine bytes fails to
    decode.  The console fails only if it lacks one of the four suit
    symbols; the keyboard runs out only if no line left on it stood for
    "Stand". *)
Theorem client_round_failures (keyboard : list str) (sock sock' : socket)
        (tally : ClientMain.score) (e : ClientMain.raised) :
  ClientMain.play_round encodable keyboard sock tally
  = (ClientMain.Failed e, sock') ->
  e = ClientMain.Library ConnectionError
  \/ e = ClientMain.Library ValueError
  \/ (e = ClientMain.Library UnicodeEncodeError
      /\ printable encodable suit_glyphs = false)
  \/ (e = ClientMain.EOFError
      /\ Forall (fun d => d = Hittt) (typed keyboard)).
Proof.
  assert (Hlib : forall e', expected e' ->
            ClientMain.Library e' = ClientMain.Library ConnectionError
            \/ ClientMain.Library e' = ClientMain.Library ValueError
            \/ (ClientMain.Library e' = ClientMain.Library UnicodeEncodeError
                /\ printable encodable suit_glyphs = false)
            \/ (ClientMain.Library e' = ClientMain.EOFError
                /\ Forall (fun d => d = Hittt) (typed keyboard))).
  { intros e' [-> | [-> | [-> Hg]]]; auto. }
  unfold ClientMain.play_round.
  destruct (ClientMain.initial_deal sock) as [[sock1 [[pc dc] pr]]|e0]
    eqn:Hdeal.
  2:{ intros E. injection E as <- _. apply Hlib.
      destruct (client_initial_deal_Raise _ _ Hdeal) as [-> | ->]; auto. }
  apply client_initial_deal_drawn in Hdeal. destruct Hdeal as [Hp Hd].
  destruct (print encodable _) as [[]|e0] eqn:Hpr.
  2:{ intros E. injection E as <- _. apply Hlib.
      eapply hands_line_cases; [exact Hp|exact Hd|exact Hpr]. }
  pose proof (client_turn_cases keyboard sock1 pc dc pr Hp Hd) as Hturn.
  destruct (ClientMain.player_turn encodable keyboard sock1 pc dc pr)
    as [[[[kb' pc'] pr']|e1] sock2]; cbn [fst] in Hturn.
  2:{ intros E. injection E as <- _.
      destruct Hturn as [(e' & -> & He') | Heof]; [apply Hlib, He'|].
      right. right. right. exact Heof. }
  destruct (ClientMain.dealer_loop encodable pc' (sock2, dc, tally))
    as [[[sock3 dc'] tally']|e2] eqn:Hloop; [discriminate|].
  intros E. injection E as <- _. apply Hlib.
  eapply client_dealer_loop_Raise; [exact Hturn| |exact Hloop]. exact Hd.
Qed.

End ClientFailures.

(** The keyboard holds one hit, and the server closes after the deal; and
    the same on a console without the suit symbols, where the round fails
    before the keyboard is read. *)
Lemma client_round_failures_witness :
  (ClientMain.Library ConnectionError
   = ClientMain.Library ConnectionError
   \/ ClientMain.Library ConnectionError = ClientMain.Library ValueError
   \/ (ClientMain.Library ConnectionError
       = ClientMain.Library UnicodeEncodeError
       /\ printable (fun _ => true) suit_glyphs = false)
   \/ (ClientMain.Library ConnectionError = ClientMain.EOFError
       /\ Forall (fun d => d = Protocol.Hittt) (typed [str_of_string "H"])))
  /\ ClientMain.play_round
       (fun _ => false) [str_of_string "H"]
       (mkSocket (segments [card_message (10, 0) ++ card_message (9, 1)
                              ++ card_message (7, 2)]) [])
       (0, 0, 0)
     = (ClientMain.Failed (ClientMain.Library UnicodeEncodeError),
        mkSocket [] []).
Proof.
  split; [|vm_compute; reflexivity].
  apply (client_round_failures
           (fun _ => true) [str_of_string "H"]
           (mkSocket (segments [card_message (10, 0) ++ card_message (9, 1)
                                  ++ card_message (7, 2)]) [])
           (mkSocket [] (decision_message Protocol.Hittt)) (0, 0, 0)
           (ClientMain.Library ConnectionError)).
  vm_compute; reflexivity.
Defined.

(** ** The hand the client scores *)

Section ClientScoring.
Import Protocol.
Variable encodable : Z -> bool.

Lemma client_read (sock sock' : socket) (data : bytes) :
  Client.recv_exact sock SERVER_PAYLOAD_SIZE = Ok (data, sock') ->
  len data = SERVER_PAYLOAD_SIZE /\ stream sock = data ++ stream sock'.
Proof.
  rewrite client_recv_exact_same. intros H.
  apply recv_exact_Ok in H; [|unfold SERVER_PAYLOAD_SIZE; lia].
  split; apply H.
Qed.

Lemma unpack_card (data : bytes) (ck ty g rk su : Z) :
  unpack_server_payload data = Ok (ck, ty, g, rk, su) ->
  (rk, su) = card_of_payload data.
Proof.
  unfold unpack_server_payload.
  destruct (check_size SERVER_PAYLOAD_SIZE data); [|discriminate].
  cbn [bind]. intros E. injection E as _ _ _ <- <-. reflexivity.
Qed.

(** One pass of the loop of the deal: the payload it reads, and the lists
    it appends to. *)
Lemma client_deal_body_reads (i : Z) (sock sock' : socket)
      (pc dc pc' dc' : list str) (pr pr' : list Z) :
  ClientMain.deal_body i (sock, (pc, dc, pr)) = Ok (sock', (pc', dc', pr')) ->
  exists data,
    len data = SERVER_PAYLOAD_SIZE
    /\ stream sock = data ++ stream sock'
    /\ if i <? 2
       then pc' = pc ++ [shown_as (card_of_payload data)]
            /\ dc' = dc
            /\ pr' = pr ++ [valued_as (card_of_payload data)]
       else pc' = pc
            /\ dc' = dc ++ [shown_as (card_of_payload data)]
            /\ pr' = pr.
Proof.
  unfold ClientMain.deal_body.
  destruct (Client.recv_exact sock SERVER_PAYLOAD_SIZE) as [[data s1]|]
    eqn:Hr; [|discriminate].
  apply client_read in Hr. destruct Hr as [Hlen Hs]. cbn [bind].
  destruct (unpack_server_payload data) as [[[[[ck ty] g] rk] su]|] eqn:Hu;
    [|discriminate].
  apply unpack_card in Hu. cbn [bind].
  destruct (negb (ck =? MAGIC_COOKIE)); [discriminate|].
  intros E. exists data. split; [exact Hlen|].
  unfold shown_as, valued_as. rewrite <- Hu. cbn [fst snd].
  destruct (i <? 2); injection E as <- <- <- <-; auto.
Qed.

Lemma client_initial_deal_reads (sock sock' : socket) (pc dc : list str)
      (pr : list Z) :
  ClientMain.initial_deal sock = Ok (sock', (pc, dc, pr)) ->
  exists first second up,
    Forall (fun data => len data = SERVER_PAYLOAD_SIZE) [first; second; up]
    /\ stream sock = first ++ second ++ up ++ stream sock'
    /\ pc = map shown_as (map card_of_payload [first; second])
    /\ dc = map shown_as (map card_of_payload [up])
    /\ pr = map valued_as (map card_of_payload [first; second]).
Proof.
  unfold ClientMain.initial_deal. change (range 0 3) with [0; 1; 2].
  cbn [fold_left bind].
  destruct (ClientMain.deal_body 0 _) as [[s1 [[pc1 dc1] pr1]]|] eqn:H1;
    [|discriminate].
  cbn [bind].
  destruct (ClientMain.deal_body 1 _) as [[s2 [[pc2 dc2] pr2]]|] eqn:H2;
    [|discriminate].
  cbn [bind]. intros H3.
  apply client_deal_body_reads in H1, H2, H3.
  destruct H1 as (d1 & L1 & S1 & -> & -> & ->).
  destruct H2 as (d2 & L2 & S2 & -> & -> & ->).
  destruct H3 as (d3 & L3 & S3 & -> & -> & ->).
  exists d1, d2, d3. split; [repeat constructor; assumption|].
  split; [rewrite S1, S2, S3; reflexivity|].
  repeat split; reflexivity.
Qed.

(** The player's turn: one payload read for each hit, its card appended to
    the cards shown and its value to [player_ranks]. *)
Lemma client_turn_reads (keyboard : list str) :
  forall (sock sock' : socket) (cards dcards cards' : list str)
         (ranks ranks' : list Z) (kb' : list str),
    ClientMain.player_turn encodable keyboard sock cards dcards ranks
    = (ClientMain.Done (kb', cards', ranks'), sock') ->
    exists hits,
      Forall (fun data => len data = SERVER_PAYLOAD_SIZE) hits
      /\ stream sock = concat hits ++ stream sock'
      /\ cards' = cards ++ map shown_as (map card_of_payload hits)
      /\ ranks' = ranks ++ map valued_as (map card_of_payload hits).
Proof.
  assert (Hnone : forall (sock sock' : socket) (cards cards' : list str)
                         (ranks ranks' : list Z) (kb kb' : list str),
             (ClientMain.Done (kb, cards, ranks), sock)
             = (ClientMain.Done (kb', cards', ranks'), sock') ->
             exists hits,
               Forall (fun data => len data = SERVER_PAYLOAD_SIZE) hits
               /\ stream sock = concat hits ++ stream sock'
               /\ cards' = cards ++ map shown_as (map card_of_payload hits)
               /\ ranks' = ranks ++ map valued_as (map card_of_payload hits)).
  { intros sock sock' cards cards' ranks ranks' kb kb' E.
    injection E as _ <- <- <-. exists []. cbn [concat map app].
    rewrite !app_nil_r. repeat split. constructor. }
  induction keyboard as [|k kb IH];
    intros sock sock' cards dcards cards' ranks ranks' kb'.
  - cbn [ClientMain.player_turn].
    destruct (Client.hand_total ranks >? 21); [apply Hnone|discriminate].
  - destruct (Z.gtb_spec (Client.hand_total ranks) 21) as [Hgt|Hle].
    { rewrite client_turn_busted by lia. apply Hnone. }
    rewrite client_turn_line by lia.
    destruct (choice_decision k) as [d|] eqn:Hk; [|apply IH].
    destruct (choice_decision_valid _ _ Hk) as [-> | ->].
    2:{ cbv zeta. change (str_eqb Stand Stand) with true. cbv iota.
        intros E. apply (Hnone (sendall sock (decision_message Stand)) sock'
                               cards cards' ranks ranks' kb kb').
        exact E. }
    cbv zeta. change (str_eqb Hittt Stand) with false. cbv iota.
    destruct (Client.recv_exact _ SERVER_PAYLOAD_SIZE) as [[data s1]|]
      eqn:Hr; cbn [bind]; [|discriminate].
    apply client_read in Hr. destruct Hr as [Hlen Hs].
    change (stream (sendall sock (decision_message Hittt)))
      with (stream sock) in Hs.
    destruct (unpack_server_payload data) as [[[[[ck ty] g] rk] su]|] eqn:Hu;
      cbn [bind]; [|discriminate].
    apply unpack_card in Hu.
    destruct (negb (ck =? MAGIC_COOKIE)); [discriminate|].
    destruct (print encodable _) as [[]|]; cbn [bind]; [|discriminate].
    assert (Hshown : ClientMain.card_to_str rk su
                     = shown_as (card_of_payload data))
      by (rewrite <- Hu; reflexivity).
    assert (Hvalued : Client.rank_value rk = valued_as (card_of_payload data))
      by (rewrite <- Hu; reflexivity).
    destruct (negb (g =? GAME_RESULT_NOTOVER)).
    + intros E. injection E as _ <- <- <-. exists [data].
      cbn [concat map app]. rewrite app_nil_r, Hshown, Hvalued.
      repeat split; [|exact Hs]. constructor; [exact Hlen|constructor].
    + intros E. apply IH in E.
      destruct E as (hits & Hall & Hs1 & -> & ->).
      exists (data :: hits). cbn [concat map].
      split; [constructor; assumption|].
      split; [rewrite Hs, Hs1, app_assoc; reflexivity|].
      rewrite Hshown, Hvalued, <- !app_assoc. split; reflexivity.
Qed.

Lemma client_dealer_loop_takes (player_cards : list str)
      (st st' : socket * list str * ClientMain.score) :
  ClientMain.dealer_loop encodable player_cards st = Ok st' ->
  exists read, stream (fst (fst st)) = read ++ stream (fst (fst st')).
Proof.
  unfold ClientMain.dealer_loop. revert st'.
  apply (while_ind _ _ _ _
           (ClientMain.dealer_body_decreases encodable player_cards)
           (fun st res =>
              forall st', res = Ok st' ->
                exists read,
                  stream (fst (fst st)) = read ++ stream (fst (fst st'))));
    clear st.
  - intros [[sock cards] [[w l] t]] r Hb st' E. apply Ok_eq in E. subst st'.
    unfold ClientMain.dealer_body in Hb.
    destruct (Client.recv_exact sock SERVER_PAYLOAD_SIZE) as [[data s1]|]
      eqn:Hr; [|discriminate].
    apply client_read in Hr. destruct Hr as [_ Hs]. cbn [bind] in Hb.
    destruct (unpack_server_payload data) as [[[[[ck ty] g] rk] su]|];
      [|discriminate].
    cbn [bind] in Hb. destruct (negb (ck =? MAGIC_COOKIE)); [discriminate|].
    destruct (g =? GAME_RESULT_NOTOVER);
      [destruct (print encodable _); discriminate|].
    exists data.
    destruct (g =? GAME_RESULT_WIN);
      [|destruct (g =? GAME_RESULT_LOSS);
        [|destruct (g =? GAME_RESULT_TIE)]];
      cbn [run] in Hb; apply Return_eq in Hb; subst r; exact Hs.
  - discriminate.
  - intros [[sock cards] [[w l] t]] st1 Hb IH st' E.
    destruct (IH st' E) as [read Hread]. clear IH E.
    unfold ClientMain.dealer_body in Hb.
    destruct (Client.recv_exact sock SERVER_PAYLOAD_SIZE) as [[data s1]|]
      eqn:Hr; [|discriminate].
    apply client_read in Hr. destruct Hr as [_ Hs]. cbn [bind] in Hb.
    destruct (unpack_server_payload data) as [[[[[ck ty] g] rk] su]|];
      [|discriminate].
    cbn [bind] in Hb. destruct (negb (ck =? MAGIC_COOKIE)); [discriminate|].
    destruct (g =? GAME_RESULT_NOTOVER).
    + destruct (print encodable _); [|discriminate].
      cbn [bind run] in Hb. apply Continue_eq in Hb. subst st1.
      cbn [fst snd] in *. exists (data ++ read).
      rewrite Hs, Hread, app_assoc. reflexivity.
    + destruct (g =? GAME_RESULT_WIN); [discriminate|].
      destruct (g =? GAME_RESULT_LOSS); [discriminate|].
      destruct (g =? GAME_RESULT_TIE); discriminate.
Qed.

Lemma firstn_map {A B} (f : A -> B) (k : nat) (l : list A) :
  firstn k (map f l) = map f (firstn k l).
Proof.
  revert l. induction k as [|k IH]; intros [|a l]; cbn [firstn map];
    [reflexivity..|]. rewrite IH. reflexivity.
Qed.

(** C10: the client scores the hand the server dealt.  In a round of
    [main], [player_ranks] holds the values, by the client's [rank_value],
    of the ranks of the cards in the payloads read for the player (the
    first two of the round and one for each hit), in the order of their
    arrival; and the client's [hand_total] of [player_ranks], after every
    one of these cards, is the server's [hand_total] of the cards received
    so far, so that both find the total above 21 at the same card. *)
Theorem client_total_agrees_with_server
        (keyboard keyboard' : list str) (sock sock' : socket)
        (tally tally' : ClientMain.score)
        (player_cards dealer_cards : list str) (player_ranks : list Z) :
  ClientMain.play_round encodable keyboard sock tally
  = (ClientMain.Done (keyboard', tally',
                      (player_cards, dealer_cards, player_ranks)), sock') ->
  exists (first second up : bytes) (hits : list bytes) (later : bytes),
    stream sock = first ++ second ++ up ++ concat hits ++ later
    /\ Forall (fun data => len data = SERVER_PAYLOAD_SIZE)
              (first :: second :: up :: hits)
    /\ player_ranks
       = map (fun c => Client.rank_value (fst c))
             (map card_of_payload (first :: second :: hits))
    /\ player_cards
       = map shown_as (map card_of_payload (first :: second :: hits))
    /\ forall k : nat,
        Client.hand_total (firstn k player_ranks)
        = Server.hand_total
            (firstn k (map card_of_payload (first :: second :: hits)))
        /\ (Client.hand_total (firstn k player_ranks) >? 21)
           = (Server.hand_total
                (firstn k (map card_of_payload (first :: second :: hits)))
              >? 21).
Proof.
  unfold ClientMain.play_round.
  destruct (ClientMain.initial_deal sock) as [[sock1 [[pc dc] pr]]|] eqn:Hdeal;
    [|discriminate].
  apply client_initial_deal_reads in Hdeal.
  destruct Hdeal as (d1 & d2 & d3 & Hlens & Hs & -> & -> & ->).
  destruct (print encodable _) as [[]|]; [|discriminate].
  destruct (ClientMain.player_turn encodable keyboard sock1 _ _ _)
    as [[[[kb1 pc1] pr1]|] sock2] eqn:Hturn; [|discriminate].
  apply client_turn_reads in Hturn.
  destruct Hturn as (hits & Hall & Hs1 & -> & ->).
  destruct (ClientMain.dealer_loop encodable _ _)
    as [[[sock3 dc3] tally3]|] eqn:Hloop; [|discriminate].
  apply client_dealer_loop_takes in Hloop. cbn [fst] in Hloop.
  destruct Hloop as [read Hread].
  intros E. injection E as _ _ <- _ <- _.
  exists d1, d2, d3, hits, (stream sock2).
  split; [rewrite Hs, Hs1; reflexivity|].
  split.
  { apply Forall_cons_iff in Hlens. destruct Hlens as [L1 Hlens].
    apply Forall_cons_iff in Hlens. destruct Hlens as [L2 Hlens].
    apply Forall_cons_iff in Hlens. destruct Hlens as [L3 _].
    repeat (constructor; [assumption|]). exact Hall. }
  assert (Hranks : map valued_as (map card_of_payload [d1; d2])
                     ++ map valued_as (map card_of_payload hits)
                   = map valued_as
                         (map card_of_payload (d1 :: d2 :: hits)))
    by reflexivity.
  split; [exact Hranks|]. split; [reflexivity|].
  intros k.
  change (valued_as (card_of_payload d1)
            :: valued_as (card_of_payload d2)
            :: map valued_as (map card_of_payload hits))
    with (map valued_as (map card_of_payload (d1 :: d2 :: hits))).
  rewrite firstn_map, valued_total.
  split; reflexivity.
Qed.
End ClientScoring.

(** The player holds 5 and 6, hits and gets a king, then stands on 21; the
    dealer shows 7 and draws a 10. *)
Lemma client_total_agrees_with_server_witness :
  exists (first second up : bytes) (hits : list bytes) (later : bytes),
    card_message (5, 0) ++ card_message (6, 3) ++ card_message (7, 2)
      ++ card_message (13, 0) ++ card_message (10, 1)
      ++ result_message Protocol.GAME_RESULT_WIN
    = first ++ second ++ up ++ concat hits ++ later
    /\ Forall (fun data => len data = Protocol.SERVER_PAYLOAD_SIZE)
              (first :: second :: up :: hits)
    /\ [5; 6; 10]
       = map (fun c => Client.rank_value (fst c))
             (map card_of_payload (first :: second :: hits))
    /\ map shown_as [(5, 0); (6, 3); (13, 0)]
       = map shown_as (map card_of_payload (first :: second :: hits))
    /\ forall k : nat,
        Client.hand_total (firstn k [5; 6; 10])
        = Server.hand_total
            (firstn k (map card_of_payload (first :: second :: hits)))
        /\ (Client.hand_total (firstn k [5; 6; 10]) >? 21)
           = (Server.hand_total
                (firstn k (map card_of_payload (first :: second :: hits)))
              >? 21).
Proof.
  apply (client_total_agrees_with_server
           (fun _ => true)
           [str_of_string "H"; str_of_string "S"] []
           (mkSocket
              (segments [card_message (5, 0) ++ card_message (6, 3)
                           ++ card_message (7, 2) ++ card_message (13, 0)
                           ++ card_message (10, 1)
                           ++ result_message Protocol.GAME_RESULT_WIN]) [])
           (mkSocket [] (decision_message Protocol.Hittt
                           ++ decision_message Protocol.Stand))
           (0, 0, 0) (1, 0, 0)
           (map shown_as [(5, 0); (6, 3); (13, 0)])
           (map shown_as [(7, 2); (10, 1)])
           [5; 6; 10]).
  vm_compute. reflexivity.
Defined.

(** ** A console without the suit symbols *)

Section PlainConsole.
Import Protocol.
Variable encodable : Z -> bool.
Hypothesis plain : existsb encodable suit_glyphs = false.

Lemma shown_unprintable (c : Server.card) :
  In c Server.create_deck -> printable encodable (shown_as c) = false.
Proof.
  destruct c as [r s]. intros H. apply create_deck_In in H.
  destruct H as [_ Hs].
  unfold suit_glyphs in plain. cbn [existsb] in plain.
  apply orb_false_iff in plain. destruct plain as [H0 Hg].
  apply orb_false_iff in Hg. destruct Hg as [H1 Hg].
  apply orb_false_iff in Hg. destruct Hg as [H2 Hg].
  apply orb_false_iff in Hg. destruct Hg as [H3 _].
  unfold shown_as, ClientMain.card_to_str. cbv zeta. cbn [fst snd].
  rewrite !printable_app.
  assert (Hsuit : printable encodable
                    (ClientMain.get [(0, [0x2663]); (1, [0x2666]);
                                     (2, [0x2665]); (3, [0x2660])]
                                    s (str_of_string "?")) = false).
  { assert (E : s = 0 \/ s = 1 \/ s = 2 \/ s = 3) by lia.
    destruct E as [-> | [-> | [-> | ->]]]; cbn [ClientMain.get];
      unfold printable; cbn [forallb Z.eqb Pos.eqb];
      rewrite ?H0, ?H1, ?H2, ?H3; reflexivity. }
  rewrite Hsuit, !andb_false_r. reflexivity.
Qed.

(** X26: on a console that encodes none of the four suit symbols the
    client plays nothing.  Asked for one round or more, it sends its
    request, reads the three cards of the first deal, fails to print them,
    and reports no result; it has sent no decision and read nothing after
    the three cards. *)
Theorem client_needs_the_suit_symbols
        (int : str -> option Z) (previous : option Z) (csock : socket)
        (line : str) (keyboard : list str) (p1 p2 up : Server.card)
        (rest : bytes) :
  1 <= asked int line <= 255 ->
  In p1 Server.create_deck -> In p2 Server.create_deck ->
  In up Server.create_deck ->
  stream csock
  = card_message p1 ++ card_message p2 ++ card_message up ++ rest ->
  exists csock',
    ClientMain.session encodable int previous (Some csock)
                       (line :: keyboard)
    = (ClientMain.Summary 0 0 0, Some csock')
    /\ outbox csock' = outbox csock ++ request_message (asked int line)
    /\ stream csock' = rest.
Proof.
  intros Hr H1 H2 H3 Hs.
  destruct (client_request (asked int line) ltac:(lia)) as [Hreq _].
  destruct (client_initial_deal
              (sendall csock (request_message (asked int line)))
              p1 p2 up rest H1 H2 H3 Hs) as (sock1 & Hdeal & Hs1 & Ho1).
  exists sock1. split; [|split; [exact Ho1|exact Hs1]].
  unfold ClientMain.session. fold (asked int line). rewrite Hreq.
  destruct (Z.to_nat (asked int line)) as [|k] eqn:Hk; [lia|].
  cbn [ClientMain.play_rounds]. unfold ClientMain.play_round.
  rewrite Hdeal, print_printable.
  assert (Hline : printable encodable
                    (ClientMain.hands_line [shown_as p1; shown_as p2]
                                           [shown_as up]) = false).
  { unfold ClientMain.hands_line. cbn [join]. rewrite !printable_app.
    rewrite (shown_unprintable p1 H1). cbn [andb].
    rewrite !andb_false_r. reflexivity. }
  rewrite Hline.
  destruct (Z.eqb_spec (asked int line) 0); [lia|]. reflexivity.
Qed.
End PlainConsole.

(** Two rounds are asked for on a console that knows ASCII only. *)
Lemma client_needs_the_suit_symbols_witness :
  exists csock',
    ClientMain.session (fun _ => false)
                       (fun _ => Some 2) None
                       (Some (mkSocket
                                (segments [card_message (10, 0)
                                             ++ card_message (9, 1)
                                             ++ card_message (7, 2)
                                             ++ card_message (6, 3)]) []))
                       (str_of_string "2" :: [str_of_string "S"])
    = (ClientMain.Summary 0 0 0, Some csock')
    /\ outbox csock' = [] ++ request_message 2
    /\ stream csock' = card_message (6, 3).
Proof.
  apply (client_needs_the_suit_symbols
           (fun _ => false) eq_refl (fun _ => Some 2) None
           (mkSocket (segments [card_message (10, 0) ++ card_message (9, 1)
                                  ++ card_message (7, 2)
                                  ++ card_message (6, 3)]) [])
           (str_of_string "2") [str_of_string "S"]
           (10, 0) (9, 1) (7, 2) (card_message (6, 3))).
  - cbv. split; discriminate.
  - apply create_deck_In. lia.
  - apply create_deck_In. lia.
  - apply create_deck_In. lia.
  - vm_compute. reflexivity.
Defined.
Section Display.
Import Protocol.

(** X25: the display helpers tell apart what the game can show: two cards
    of the deck are shown the same only if they are the same card, and two
    result bytes are named the same only if they are the same byte; but a
    suit outside 0..3 is shown as a question mark, whatever it is. *)
Theorem display_tells_cards_and_results_apart :
  (forall c c' : Server.card,
      In c Server.create_deck -> In c' Server.create_deck ->
      shown_as c = shown_as c' -> c = c')
  /\ (forall r r' : Z,
         0 <= r <= 255 -> 0 <= r' <= 255 ->
         ClientMain.result_to_str r = ClientMain.result_to_str r' -> r = r')
  /\ (forall rank suit suit' : Z,
         ~ 0 <= suit <= 3 -> ~ 0 <= suit' <= 3 ->
         ClientMain.card_to_str rank suit = ClientMain.card_to_str rank suit').
Proof.
  split; [|split].
  - assert (Hall : forallb (fun c =>
               forallb (fun c' =>
                  implb (str_eqb (shown_as c) (shown_as c')) (card_eqb c c'))
                 Server.create_deck) Server.create_deck = true)
      by (vm_compute; reflexivity).
    intros c c' Hc Hc' E. rewrite forallb_forall in Hall.
    specialize (Hall c Hc). rewrite forallb_forall in Hall.
    specialize (Hall c' Hc'). apply str_eqb_eq in E. rewrite E in Hall.
    apply card_eqb_eq. exact Hall.
  - assert (Hall : forallb (fun r =>
               forallb (fun r' =>
                  implb (str_eqb (ClientMain.result_to_str r)
                                 (ClientMain.result_to_str r'))
                        (r =? r'))
                 (range 0 256)) (range 0 256) = true)
      by (vm_compute; reflexivity).
    intros r r' Hr Hr' E. rewrite forallb_forall in Hall.
    assert (Hin : In r (range 0 256)) by (apply range_In; lia).
    assert (Hin' : In r' (range 0 256)) by (apply range_In; lia).
    specialize (Hall r Hin). rewrite forallb_forall in Hall.
    specialize (Hall r' Hin'). apply str_eqb_eq in E. rewrite E in Hall.
    apply Z.eqb_eq. exact Hall.
  - intros rank suit suit' Hs Hs'. unfold ClientMain.card_to_str.
    cbn [ClientMain.get].
    destruct (Z.eqb_spec suit 0); [lia|]. destruct (Z.eqb_spec suit 1); [lia|].
    destruct (Z.eqb_spec suit 2); [lia|]. destruct (Z.eqb_spec suit 3); [lia|].
    destruct (Z.eqb_spec suit' 0); [lia|].
    destruct (Z.eqb_spec suit' 1); [lia|].
    destruct (Z.eqb_spec suit' 2); [lia|].
    destruct (Z.eqb_spec suit' 3); [lia|]. reflexivity.
Qed.

(** The ten of hearts is not the ten of spades; a suit of 7 or of 9 is
    shown as a question mark. *)
Lemma display_tells_cards_and_results_apart_witness :
  (shown_as (10, 2) = shown_as (10, 3) -> (10, 2) = (10, 3))
  /\ ClientMain.card_to_str 1 7 = ClientMain.card_to_str 1 9.
Proof.
  split.
  - apply (proj1 display_tells_cards_and_results_apart (10, 2) (10, 3));
      apply create_deck_In; lia.
  - apply (proj2 (proj2 display_tells_cards_and_results_apart) 1 7 9); lia.
Defined.
End Display.
